(* ===== verification/_CoqProject ===== *)
-Q . S2P
Prelude.v
GoFloat.v
GoString.v
GoErrors.v
GoStrconv.v
Base64.v
CircuitBreaker.v
Platform.v
Observability.v
Money.v
Lru.v
RateLimit.v
Retry.v
Registry.v
Pipeline.v
Codec.v
SqlBuilder.v
Generics.v
StringCase.v
Validate.v
Id.v
Clock.v
Fx.v
Provider.v
Delivery.v
TwilioAdapters.v
WhatsAppAdapters.v
VendorAdapters.v
Bus.v
Router.v
WorkerPool.v
PaymentGateway.v
HttpClient.v
Middleware.v
JsonData.v
VoicePipeline.v
VoiceSession.v
Ai.v
GeminiText.v
GeminiLive.v
WhatsAppTransport.v
TwilioTransport.v
VoiceCall.v
HoldFillers.v
VoiceFake.v
TelegramBot.v
BotFormatter.v
BotGateway.v
BotSupport.v
BotHandlers.v
PartnerBot.v
BotFlows.v
BotManager.v
BotModule.v
