(* ===== verification/Prelude.v ===== *)
(** * gopkg: a verification library

    The repository is a collection of Go modules that services are assembled
    from: resilience (circuit breaker, retry, rate limit, worker pool), data
    (LRU cache, registry, filter pipeline, SQL builder, money and exchange
    rates), text (identifiers, validation, case conversion), the surroundings of
    a service (HTTP client and middleware, health, metrics, signals, message
    bus), communication (delivery adapters, provider registry, SMS routing, a
    Telegram bot for partners), an AI stack (conversation cache, model registry,
    tool-calling loop) and a voice stack (codec, transports, live model, session
    pipeline).  Every package of the repository has its model here; what it calls
    outside the repository is an argument or a class with documented laws.

    ** Shared layer

    - [Prelude] (this file): fixed-width integers with their wrap-around,
      instants and durations in nanoseconds, results and panics, list lemmas,
      the hint databases and the tactics.
    - [GoFloat]: float64 as binary64 (the Standard Library's SpecFloat), with
      exactness lemmas for integers up to [2^53]; the implementation-defined
      part of float-to-int conversion is the class [FloatConv].
    - [GoString]: byte strings, UTF-8, the functions of strings and fmt in use;
      the tables of package unicode are the class [Unicode].  [GoStrconv]:
      strconv.  [Base64]: encoding/base64 with its round trip.
    - [GoErrors]: error values, errors.Is / errors.As, and package errorsx;
      errors.Is finds a kind exactly when the unwrap chain holds it.

    ** Resilience and data

    - [CircuitBreaker] (src/circuitbreaker): every method as an atomic function
      on the breaker; the invariant of all reachable states, the legal
      transitions, fail-fast while open, tripping, the exponential open
      timeout, and that a breaker with fewer half-open slots than successes
      required never closes through successive calls of Execute.
    - [Money] (src/money): the sum, difference and product are exact or
      ErrOverflow (one case excepted), rendering determines the amount,
      construction from a float64 is exact on whole minor units.
    - [Lru] (src/cache/lru): map and linked list with element identities refine
      an association list in recency order, with expiry; retention.
    - [RateLimit] (src/ratelimit): the float64 limiter is an integer token
      bucket at whole seconds.
    - [Retry] (src/retry): Do always returns the first decisive outcome within
      MaxAttempts calls; the exact delays.
    - [Registry] (src/registry): the pending queue is equivalent to immediate
      registration; the first registration of a key wins.
    - [Pipeline] (src/pipeline): slices over a shared store; the log accounts
      for every filter, a critical failure stops the run, and running phase by phase is
      running the whole chain.
    - [SqlBuilder] (src/sqlbuilder): the rendered query and its arguments are
      those of an abstract list of conditions, numbered in step.
    - [Generics] (src/slicex, src/mapx, src/ptr), [StringCase]
      (src/stringcase), [Validate] (src/validate), [Id] (src/id): functional
      specifications; UUIDv7 texts are valid and ordered by time.
    - [Clock] (src/clock): each timer of the mock clock fires exactly once, not
      early, at the first sufficient Advance.
    - [Fx] (src/financial/fx): both rate stores as instances of the class of
      their interface; Memory is a table of pairs.
    - [PaymentGateway] (src/financial/paymentgateway): the callback reference
      round trip; the class of gateways with an in-memory instance.
    - [WorkerPool] (src/workerpool): a step relation over all goroutines; every
      accepted task runs exactly once, Wait returns after all have, and drains.

    ** Around a service

    - [HttpClient] (src/httpx/client): retried requests replay the whole body.
    - [Middleware] (src/httpx/middleware, src/observability/health): handlers are
      programs on a ResponseWriter; through the standard stack every request is
      answered without a panic.
    - [JsonData] (src/i18n, src/jsonx), [Platform] (src/environment,
      src/signals, src/identity/jwt, src/crypto/password, src/storage/r2),
      [Observability] (src/observability/metrics, tracing): the wrappers over
      third-party packages, with the laws of those packages as classes; a signal
      cancels its context, the environment is decided once.
    - [Bus] (src/bus, src/bus/nats): the broker as a transition system in which
      goroutines publish, subscribe, drain and close: its connection is ended by
      one Close and by the Drains asked for, and after Close only publishes that
      were already under way are handed to it.

    ** Communication

    - [Provider] (src/communication/provider) and [Router]
      (src/communication/router): the channel index agrees with the table; the
      router selects the usable rule of least priority, first added first.
    - [Delivery] states what a Send does: one vendor request for the recipient, and
      success exactly when the vendor accepted it; [TwilioAdapters],
      [WhatsAppAdapters] and [VendorAdapters] prove it of the eleven adapters of
      src/communication (SMS, voice, WhatsApp, push, e-mail, Telegram), with
      their statuses, webhooks, signature check and price table.
    - [TelegramBot] (src/communication/telegram/bot: ratelimit, auth, state):
      over a class of Redis commands, the rate limiter is a sliding window over
      milliseconds, tokens are exchanged only when needed and then kept, and
      states are isolated registers.
    - [BotFormatter], [BotGateway], [BotSupport], [BotHandlers], [PartnerBot]
      (the packages formatter, client, support, handlers and core of the bot):
      replies, requests, the agent registry with its relay, every handler and
      the table of endpoints.  [PartnerBot] bounds what each endpoint can send
      to the gateway, and for which ticket, flow and text; [BotFlows] follows a deposit and a support dialogue across
      updates.
    - [BotManager] (core/manager.go): the supervisor with its goroutines as a
      transition system: its invariant, reloads, webhook routing, and that Start
      returns.  [BotModule] (module.go): what Start acquires, Stop gives back.

    ** AI and voice

    - [Ai] (src/ai/conversation, src/ai/llm, src/ai/orchestrator): the
      conversation is a sliding window; the tool-calling loop is bounded and
      sends the full history.
    - [GeminiText] (src/ai/llm/geminitext): the rendering of the history for
      Gemini loses nothing and groups tool calls with their answers; calls are
      replayed with their signatures.
    - [Codec] (src/audio/codec): decoding and encoding mu-law, quantisation
      error and monotonicity, resampling lengths and bounds.
    - [VoicePipeline] (src/voice/pipeline): the session as a step relation over
      its goroutines, one call at a time, with the trace of all calls; it ends
      exactly once, with a reason that matches the error; tool batches are
      bounded and ordered.  [VoiceSession]: every interleaving forwards what a
      sequential dispatcher forwards, loses nothing at an orderly close, and in
      every fair execution ends once its channels are closed.
    - [GeminiLive] (src/voice/llm/gemini): the event stream of a live session is
      the translation of the messages received, in wire order.
    - [WhatsAppTransport], [TwilioTransport] (src/voice/transport): the pacing
      goroutine with Send, Clear and Close as a transition system over the frames
      written, the bounds of the pacing, the read loops.  [VoiceCall]: the audio of
      a whole call, from caller to model and back, over both transports.
    - [HoldFillers] (src/voice/holdfiller, src/voice/toolexec, and the hold-filler
      pump and observers of src/voice/pipeline): the tones, and a pump that
      races the end of its tool batch.  [VoiceFake] (src/voice/pipeline/fake):
      the fakes record a session's calls and deliver their script.

    ** Conventions

    A method that holds a mutex for its whole body is a function on the record
    of the fields the mutex guards.  Where a body releases the lock or blocks
    (WorkerPool, VoicePipeline, BotManager, Bus, the transports,
    RateLimit.Wait), the interleaving is modelled: a step relation, a function
    on events, or a list of what other goroutines do in between.  Clock
    readings, random numbers, map iteration orders, context states and the
    results of callbacks are arguments.  Errors are values of [GoErrors.error],
    panics the [Panic] case of [outcome].  Code outside the repository is a
    class or a parameter with its documented laws, each with an instance.

    Recursion that is not structural carries fuel that is shown sufficient:
    [log2 n + 1] digits in [GoString], twenty digits of an int64 in the
    pipeline's itoa, MaxAttempts iterations in [Retry] (Do is proved to return),
    ten attempts in BotManager.Start, the length of the input in the chunking
    loops.  The loop of the orchestrator recurses on its own hop limit.  Progress
    of the step relations is proved by decreasing measures (WorkerPool.drain, the
    tool batch) and, for the closing session, whose goroutines may also spin on a
    closed error channel, for fair executions.

    ** Not modelled

    Third-party code: vendor SDKs, net/http's connections, encoding/json, Redis,
    NATS, Prometheus, OpenTelemetry, libopus and pion, go-i18n and telebot, of
    which the calls made and the answers used are modelled.  Logging: the Logger
    interfaces with their implementations that do nothing, and most log entries
    (those of the circuit breaker, the filter pipeline, the bus and the session's
    observer panics are kept).  Constructors that only fill a struct, interface
    assertions and methods that only return a field.  NewMessages, which loads
    the embedded catalogues into go-i18n, and the platform defaults of a push
    message, which are a flag of the request.  The repository's tests,
    documentation and the test configuration of the WhatsApp peer. *)

From stdpp Require Import base list gmap strings.
From Stdlib Require Import ZArith Lia.
#[global] Open Scope Z_scope.

(** * Shared vocabulary of the development

    Fixed-width integers, Go durations and instants, results, panics, list
    helpers, hint databases and tactics. *)

(** ** Fixed-width integers

    A Go integer of width [w] is a [Z] together with the wrap-around that the
    language applies after every arithmetic operation. *)

Definition swrap (w z : Z) : Z := (z + 2 ^ (w - 1)) mod 2 ^ w - 2 ^ (w - 1).
Definition uwrap (w z : Z) : Z := z mod 2 ^ w.

Definition int64 (z : Z) : Z := swrap 64 z.
Definition int32 (z : Z) : Z := swrap 32 z.
Definition int16 (z : Z) : Z := swrap 16 z.
Definition uint64 (z : Z) : Z := uwrap 64 z.
Definition uint32 (z : Z) : Z := uwrap 32 z.
Definition uint16 (z : Z) : Z := uwrap 16 z.
Definition uint8 (z : Z) : Z := uwrap 8 z.

Definition MinInt64 : Z := - 2 ^ 63.
Definition MaxInt64 : Z := 2 ^ 63 - 1.

Definition in_int64 (z : Z) : Prop := MinInt64 ≤ z ≤ MaxInt64.
Definition in_uint32 (z : Z) : Prop := 0 ≤ z < 2 ^ 32.
Definition in_int32 (z : Z) : Prop := - 2 ^ 31 ≤ z < 2 ^ 31.
Definition in_int16 (z : Z) : Prop := - 2 ^ 15 ≤ z < 2 ^ 15.
Definition in_byte (z : Z) : Prop := 0 ≤ z < 256.

#[export] Instance in_int64_dec z : Decision (in_int64 z).
Proof. unfold in_int64. apply _. Defined.

(** Go's [/] and [%] truncate toward zero; the quotient [MinInt64 / -1] wraps. *)
Definition div64 (a b : Z) : Z := int64 (Z.quot a b).
Definition rem64 (a b : Z) : Z := int64 (Z.rem a b).

(** ** Time

    [time.Duration] is an int64 number of nanoseconds.  A [time.Time] is the
    number of nanoseconds since the Unix epoch; the zero [time.Time] is January
    1 of year 1.  [Time.Sub] saturates at the ends of the duration range. *)

Abbreviation Duration := Z.
Abbreviation Time := Z.

Definition Nanosecond : Duration := 1.
Definition Millisecond : Duration := 1000000.
Definition Second : Duration := 1000000000.
Definition Hour : Duration := 3600 * Second.

Definition time_zero : Time := -62135596800 * Second.
Definition IsZeroTime (t : Time) : bool := t =? time_zero.
Definition time_Add (t : Time) (d : Duration) : Time := t + d.
Definition time_Sub (t u : Time) : Duration := Z.max MinInt64 (Z.min MaxInt64 (t - u)).
Definition time_After (t u : Time) : bool := u <? t.

(** ** Fallible code and panics *)

Inductive result (E A : Type) : Type :=
| Ok (a : A)
| Err (e : E).
Arguments Ok {E A} a.
Arguments Err {E A} e.

#[export] Instance result_ret {E} : MRet (result E) := λ _ a, Ok a.
#[export] Instance result_bind {E} : MBind (result E) :=
  λ _ _ f r, match r with Ok a => f a | Err e => Err e end.

Definition is_ok {E A} (r : result E A) : bool :=
  match r with Ok _ => true | Err _ => false end.

(** A Go call either returns or panics. *)
Inductive outcome (A : Type) : Type :=
| Return (a : A)
| Panic (msg : string).
Arguments Return {A} a.
Arguments Panic {A} msg.

(** ** Lists *)

(** Consecutive sublists of length [n], the last one possibly shorter. *)
Fixpoint chunks_fuel {A} (fuel : nat) (n : nat) (l : list A) : list (list A) :=
  match fuel, l with
  | O, _ | _, [] => []
  | S fuel, _ => take n l :: chunks_fuel fuel n (drop n l)
  end.

(** ** Automation *)

Create HintDb gokit discriminated.
#[global] Hint Constants Opaque : gokit.
#[global] Hint Variables Opaque : gokit.

(** Case analysis on the scrutinee of the outermost [match] or [if]. *)
Ltac case_go :=
  repeat match goal with
  | |- context [match ?x with _ => _ end] => destruct x eqn:?; simplify_eq/=
  | H : context [match ?x with _ => _ end] |- _ => destruct x eqn:?; simplify_eq/=
  end.

(** Booleans of [Z] comparisons in hypotheses and goal, as propositions. *)
Ltac zbool :=
  repeat match goal with
  | H : (_ && _)%bool = true |- _ => apply andb_true_iff in H as [? ?]
  | H : (_ || _)%bool = false |- _ => apply orb_false_iff in H as [? ?]
  | H : (_ =? _) = true |- _ => apply Z.eqb_eq in H
  | H : (_ =? _) = false |- _ => apply Z.eqb_neq in H
  | H : (_ <? _) = true |- _ => apply Z.ltb_lt in H
  | H : (_ <? _) = false |- _ => apply Z.ltb_ge in H
  | H : (_ <=? _) = true |- _ => apply Z.leb_le in H
  | H : (_ <=? _) = false |- _ => apply Z.leb_gt in H
  | H : negb _ = true |- _ => apply negb_true_iff in H
  | H : negb _ = false |- _ => apply negb_false_iff in H
  end.

(** The powers of two of goal and hypotheses whose exponents are numerals. *)
Ltac eval_pow2 :=
  repeat match goal with
  | |- context [2 ^ ?k] => let v := eval vm_compute in (2 ^ k) in change (2 ^ k) with v
  | H : context [2 ^ ?k] |- _ => let v := eval vm_compute in (2 ^ k) in change (2 ^ k) with v in H
  end.

(** [lia] with quotients and remainders by numerals. *)
Ltac dlia := Z.to_euclidean_division_equations; lia.

(** ** Lemmas on integers *)

Lemma swrap_id w z : 0 < w → - 2 ^ (w - 1) ≤ z < 2 ^ (w - 1) → swrap w z = z.
Proof.
  intros Hw Hz. unfold swrap.
  assert (2 ^ w = 2 * 2 ^ (w - 1)) as E.
  { rewrite <-Z.pow_succ_r by lia. f_equal. lia. }
  rewrite Z.mod_small by lia. lia.
Qed.

Lemma swrap_range w z : 0 < w → - 2 ^ (w - 1) ≤ swrap w z < 2 ^ (w - 1).
Proof.
  intros Hw. unfold swrap.
  assert (2 ^ w = 2 * 2 ^ (w - 1)) as E.
  { rewrite <-Z.pow_succ_r by lia. f_equal. lia. }
  pose proof (Z.mod_pos_bound (z + 2 ^ (w - 1)) (2 ^ w)).
  assert (0 < 2 ^ (w - 1)) by (apply Z.pow_pos_nonneg; lia). lia.
Qed.

(** A wrapped value differs from the exact one by a multiple of [2^w]. *)
Lemma swrap_cong w z : 0 < w → ∃ k, swrap w z = z + k * 2 ^ w.
Proof.
  intros Hw. unfold swrap. exists (- ((z + 2 ^ (w - 1)) / 2 ^ w)).
  assert (2 ^ w ≠ 0) by (apply Z.pow_nonzero; lia).
  rewrite Z.mod_eq by done. ring.
Qed.

Lemma int64_id z : in_int64 z → int64 z = z.
Proof. unfold in_int64, MinInt64, MaxInt64, int64. intros. apply swrap_id; lia. Qed.

Lemma int64_range z : in_int64 (int64 z).
Proof.
  unfold in_int64, MinInt64, MaxInt64, int64.
  pose proof (swrap_range 64 z). lia.
Qed.

Lemma int64_eq_iff z : int64 z = z ↔ in_int64 z.
Proof. split; [intros <-; apply int64_range | apply int64_id]. Qed.

Lemma int64_cong z : ∃ k, int64 z = z + k * 2 ^ 64.
Proof. by apply swrap_cong. Qed.

Lemma uint32_id z : in_uint32 z → uint32 z = z.
Proof. unfold in_uint32, uint32, uwrap. intros. by apply Z.mod_small. Qed.

Lemma uint32_range z : in_uint32 (uint32 z).
Proof. unfold in_uint32, uint32, uwrap. by apply Z.mod_pos_bound. Qed.

Lemma uint8_range z : in_byte (uint8 z).
Proof. unfold in_byte, uint8, uwrap. by apply Z.mod_pos_bound. Qed.

Lemma time_Sub_exact t u : in_int64 (t - u) → time_Sub t u = t - u.
Proof. unfold time_Sub, in_int64. lia. Qed.

(** Disjoint bit fields. *)
Lemma lor_shift_add a b k : 0 ≤ k → 0 ≤ a < 2 ^ k → Z.lor a (b * 2 ^ k) = a + b * 2 ^ k.
Proof.
  intros Hk Ha. rewrite <-Z.add_lor_land.
  assert (Z.land a (b * 2 ^ k) = 0) as ->; [|lia].
  apply Z.bits_inj'. intros n Hn. rewrite Z.land_spec, Z.bits_0.
  destruct (decide (n < k)).
  - rewrite Z.mul_pow2_bits_low by done. apply andb_false_r.
  - destruct (decide (a = 0)) as [->|]; [by rewrite Z.bits_0|].
    rewrite Z.bits_above_log2; [done|lia|]. apply Z.lt_le_trans with k; [|lia].
    apply Z.log2_lt_pow2; lia.
Qed.

#[export] Hint Resolve int64_range uint32_range uint8_range : gokit.

(** ** Lemmas on lists *)

(** The first occurrence of a separator splits a list in one way. *)
Lemma split_at_inj {A} (x : A) l1 l2 r1 r2 :
  x ∉ l1 → x ∉ l2 → l1 ++ x :: r1 = l2 ++ x :: r2 → l1 = l2 ∧ r1 = r2.
Proof.
  revert l2. induction l1 as [|a l1 IH]; intros [|b l2] H1 H2 E; simplify_eq/=; try done.
  - exfalso. apply H2. by left.
  - exfalso. apply H1. by left.
  - destruct (IH l2) as [-> ->]; try done; intros Hx; [apply H1|apply H2]; by right.
Qed.

Lemma chunks_fuel_concat {A} fuel n (l : list A) :
  (0 < n)%nat → (length l ≤ fuel)%nat → concat (chunks_fuel fuel n l) = l.
Proof.
  intros Hn. revert l. induction fuel as [|fuel IH]; intros [|x l] Hl; simpl in *; try done; try lia.
  destruct n as [|n]; [lia|]. cbn [take drop app]. f_equal.
  rewrite IH; [apply take_drop | rewrite length_drop; lia].
Qed.

(** A predicate decided by [b] on an initial segment of [nat]. *)
Lemma forallb_seq (b : nat → bool) n :
  forallb b (seq 0 n) = true → ∀ i, (i < n)%nat → b i = true.
Proof.
  intros H i Hi. rewrite forallb_forall in H. apply H, in_seq. lia.
Qed.

(** The same over an interval of [Z], for proofs by exhaustive evaluation. *)
Fixpoint forallb_from (b : Z → bool) (z : Z) (n : nat) : bool :=
  match n with
  | O => true
  | S n => b z && forallb_from b (z + 1) n
  end.

Lemma forallb_from_spec b z n :
  forallb_from b z n = true → ∀ i, z ≤ i < z + Z.of_nat n → b i = true.
Proof.
  revert z. induction n as [|n IH]; simpl; intros z H i Hi; [lia|].
  apply andb_true_iff in H as [Hz H].
  destruct (decide (i = z)) as [->|]; [done|]. apply (IH _ H). lia.
Qed.
