(* ===== verification/GoFloat.v ===== *)
(** * IEEE 754 binary64: Go's [float64]

    [float64] is the executable specification of binary64 of the Standard
    Library ([SpecFloat] at precision 53, exponent bound 1024): round to nearest
    even, signed zeros, infinities and one NaN.  [int64(f)] truncates toward
    zero; the language leaves the result open when the value does not fit, so
    that case is the method of a class ([FloatConv]) with the two instances of
    the common targets.  The lemmas show that arithmetic on integers of
    magnitude at most [2^53] is exact. *)

From S2P Require Import Prelude.
From stdpp Require Import base list.
From Stdlib Require Import ZArith Lia SpecFloat.
Open Scope Z_scope.

Definition float64 := spec_float.

Definition fadd (x y : float64) : float64 := SFadd 53 1024 x y.
Definition fsub (x y : float64) : float64 := SFsub 53 1024 x y.
Definition fmul (x y : float64) : float64 := SFmul 53 1024 x y.
Definition fdiv (x y : float64) : float64 := SFdiv 53 1024 x y.
Definition flt (x y : float64) : bool := SFltb x y.
Definition fle (x y : float64) : bool := SFleb x y.
Definition feq (x y : float64) : bool := SFeqb x y.

(** [float64(z)] for an integer [z]. *)
Definition float_of_Z (z : Z) : float64 := binary_normalize 53 1024 z 0 false.

(** The float nearest to [m / 10^k]: a decimal literal of the source. *)
Definition float_dec (m : Z) (k : Z) : float64 := fdiv (float_of_Z m) (float_of_Z (10 ^ k)).

Definition IsNaN (f : float64) : bool := match f with S754_nan => true | _ => false end.
Definition IsInf (f : float64) : bool := match f with S754_infinity _ => true | _ => false end.

(** The integer part of a finite float. *)
Definition ftrunc (f : float64) : option Z :=
  match f with
  | S754_zero _ => Some 0
  | S754_finite s m e =>
      Some (cond_Zopp s (if 0 <=? e then Z.pos m * 2 ^ e else Z.pos m / 2 ^ (- e)))
  | _ => None
  end.

(** What a target does with [int64(f)] when the integer part of [f] does not fit. *)
Class FloatConv := {
  conv_out_of_range : float64 → Z;
  conv_out_of_range_int64 : ∀ f, in_int64 (conv_out_of_range f)
}.

Definition int64_of_float `{FloatConv} (f : float64) : Z :=
  match ftrunc f with
  | Some z => if (MinInt64 <=? z) && (z <=? MaxInt64) then z else conv_out_of_range f
  | None => conv_out_of_range f
  end.

(** amd64 ([CVTTSD2SQ]) yields the "integer indefinite" value. *)
#[export] Program Instance amd64_conv : FloatConv := {| conv_out_of_range _ := MinInt64 |}.
Next Obligation. done. Qed.

(** arm64 ([FCVTZS]) saturates, and maps NaN to 0. *)
Definition arm64_out_of_range (f : float64) : Z :=
  match f with
  | S754_nan | S754_zero _ => 0
  | S754_infinity s | S754_finite s _ _ => if s then MinInt64 else MaxInt64
  end.
Lemma arm64_out_of_range_int64 f : in_int64 (arm64_out_of_range f).
Proof. destruct f as [|[]| |[]]; done. Qed.
Definition arm64_conv : FloatConv :=
  {| conv_out_of_range := arm64_out_of_range;
     conv_out_of_range_int64 := arm64_out_of_range_int64 |}.

Lemma int64_of_float_range `{FloatConv} f : in_int64 (int64_of_float f).
Proof.
  unfold int64_of_float. pose proof (conv_out_of_range_int64 f).
  destruct (ftrunc f); [|done]. case_match; [|done]. zbool. done.
Qed.

(** ** Sign of a rounded value *)

(** [f] is neither NaN nor carries the opposite sign of [s]. *)
Definition has_sign (s : bool) (f : float64) : Prop :=
  match f with
  | S754_zero s' | S754_infinity s' | S754_finite s' _ _ => s' = s
  | S754_nan => False
  end.

(** ** Digits of a positive *)

Lemma digits2_pos_bounds p :
  2 ^ (Z.pos (digits2_pos p) - 1) ≤ Z.pos p < 2 ^ Z.pos (digits2_pos p).
Proof.
  induction p as [p IH|p IH|]; simpl digits2_pos; [| |done].
  all: rewrite Pos2Z.inj_succ; replace (Z.succ (Z.pos (digits2_pos p)) - 1)
    with (Z.succ (Z.pos (digits2_pos p) - 1)) by lia;
    rewrite !Z.pow_succ_r by lia; lia.
Qed.

Lemma digits2_pos_unique p d :
  0 < d → 2 ^ (d - 1) ≤ Z.pos p < 2 ^ d → Z.pos (digits2_pos p) = d.
Proof.
  intros Hd Hp. pose proof (digits2_pos_bounds p) as Hb.
  assert (Z.pos (digits2_pos p) - 1 < d) as H1.
  { apply (Z.pow_lt_mono_r_iff 2); lia. }
  assert (d - 1 < Z.pos (digits2_pos p)) as H2.
  { apply (Z.pow_lt_mono_r_iff 2); lia. }
  lia.
Qed.

Lemma digits2_pos_shift p k :
  0 ≤ k → Z.pos (digits2_pos (Z.to_pos (Z.pos p * 2 ^ k))) = Z.pos (digits2_pos p) + k.
Proof.
  intros Hk. pose proof (digits2_pos_bounds p).
  assert (0 < 2 ^ k) by (apply Z.pow_pos_nonneg; lia).
  apply digits2_pos_unique; [lia|].
  rewrite Z2Pos.id by lia.
  replace (Z.pos (digits2_pos p) + k - 1) with ((Z.pos (digits2_pos p) - 1) + k) by lia.
  rewrite !Z.pow_add_r by lia. nia.
Qed.

(** ** Exact right shifts *)

Lemma iter_pos_nat {A} (f : A → A) n x : iter_pos f n x = Nat.iter (Pos.to_nat n) f x.
Proof.
  revert x. induction n as [n IH|n IH|]; intros x; simpl iter_pos; [| |done].
  - rewrite !IH, Pos2Nat.inj_xI, Nat.iter_succ_r, <-Nat.iter_add. f_equal. lia.
  - rewrite !IH, Pos2Nat.inj_xO, <-Nat.iter_add. f_equal. lia.
Qed.

(** Shifting out a zero bit loses nothing. *)
Lemma shr_1_exact m :
  shr_1 {| shr_m := Z.pos m~0; shr_r := false; shr_s := false |} =
  {| shr_m := Z.pos m; shr_r := false; shr_s := false |}.
Proof. done. Qed.

Lemma shr_exact n m :
  Nat.iter n shr_1 {| shr_m := Z.pos m * 2 ^ Z.of_nat n; shr_r := false; shr_s := false |} =
  {| shr_m := Z.pos m; shr_r := false; shr_s := false |}.
Proof.
  revert m. induction n as [|n IH]; intros m.
  { simpl. f_equal. lia. }
  rewrite Nat.iter_succ, Nat2Z.inj_succ, Z.pow_succ_r by lia.
  replace (Z.pos m * (2 * 2 ^ Z.of_nat n)) with (Z.pos m~0 * 2 ^ Z.of_nat n) by lia.
  rewrite IH. apply shr_1_exact.
Qed.

(** ** Rounding is exact when the value is representable *)

Lemma shr_fexp_exact c k e :
  Z.pos (digits2_pos c) = 53 → 0 ≤ k → -1074 ≤ e + k →
  shr_fexp 53 1024 (Z.pos c * 2 ^ k) e loc_Exact =
  ({| shr_m := Z.pos c; shr_r := false; shr_s := false |}, e + k).
Proof.
  intros Hc Hk He. unfold shr_fexp.
  assert (0 < 2 ^ k) by (apply Z.pow_pos_nonneg; lia).
  assert (Zdigits2 (Z.pos c * 2 ^ k) = 53 + k) as ->.
  { rewrite <-Hc, <-digits2_pos_shift by lia.
    destruct (Z.pos c * 2 ^ k) eqn:E; [lia| |lia]. done. }
  unfold fexp, emin. replace (Z.max (53 + k + e - 53) (3 - 1024 - 53) - e) with k by lia.
  destruct k as [|k|k]; [| |lia].
  - simpl. f_equal; [f_equal|]; lia.
  - unfold shr. rewrite iter_pos_nat. f_equal.
    simpl shr_record_of_loc. rewrite <-(positive_nat_Z k). apply shr_exact.
Qed.

Lemma binary_round_aux_exact s c k e :
  Z.pos (digits2_pos c) = 53 → 0 ≤ k → -1074 ≤ e + k ≤ 971 →
  binary_round_aux 53 1024 s (Z.pos c * 2 ^ k) e loc_Exact = S754_finite s c (e + k).
Proof.
  intros Hc Hk He. unfold binary_round_aux. rewrite shr_fexp_exact by lia.
  simpl round_nearest_even. cbv zeta. cbn [shr_m loc_of_shr_record round_nearest_even].
  replace (Z.pos c) with (Z.pos c * 2 ^ 0) by lia.
  rewrite shr_fexp_exact by lia. cbn [shr_m].
  destruct (Z.leb_spec (e + k + 0) (1024 - 53)); [|lia]. f_equal. lia.
Qed.

(** The significand and exponent of the integer [p] (at most 53 digits). *)
Definition norm_m (p : positive) : positive :=
  Z.to_pos (Z.pos p * 2 ^ (53 - Z.pos (digits2_pos p))).
Definition norm_e (p : positive) : Z := Z.pos (digits2_pos p) - 53.

Lemma norm_m_value p :
  Z.pos (digits2_pos p) ≤ 53 → Z.pos (norm_m p) = Z.pos p * 2 ^ (53 - Z.pos (digits2_pos p)).
Proof.
  intros. unfold norm_m. rewrite Z2Pos.id; [done|].
  assert (0 < 2 ^ (53 - Z.pos (digits2_pos p))) by (apply Z.pow_pos_nonneg; lia). lia.
Qed.

Lemma norm_m_digits p :
  Z.pos (digits2_pos p) ≤ 53 → Z.pos (digits2_pos (norm_m p)) = 53.
Proof. intros. unfold norm_m. rewrite digits2_pos_shift by lia. lia. Qed.

Lemma Pos_iter_xO m d : Z.pos (Pos.iter xO m d) = Z.pos m * 2 ^ Z.pos d.
Proof.
  induction d as [|d IH] using Pos.peano_ind; [simpl; lia|].
  rewrite Pos.iter_succ, Pos2Z.inj_succ, Z.pow_succ_r by lia. lia.
Qed.

Lemma shl_align_value m ex ex' :
  ex' ≤ ex → Z.pos (fst (shl_align m ex ex')) = Z.pos m * 2 ^ (ex - ex').
Proof.
  intros H. unfold shl_align. destruct (ex' - ex) as [|d|d] eqn:E; simpl.
  - replace (ex - ex') with 0 by lia. lia.
  - lia.
  - rewrite Pos_iter_xO. f_equal. f_equal. lia.
Qed.

(** An integer scaled by a power of two rounds to its canonical form. *)
Lemma binary_round_int s p k M :
  Z.pos (digits2_pos p) ≤ 53 → 0 ≤ k → Z.pos M = Z.pos p * 2 ^ k →
  binary_round 53 1024 s M (- k) = S754_finite s (norm_m p) (norm_e p).
Proof.
  intros Hd Hk HM. unfold binary_round.
  assert (Z.pos (digits2_pos M) = Z.pos (digits2_pos p) + k) as ->.
  { rewrite <-digits2_pos_shift, <-HM by lia. done. }
  unfold fexp, emin.
  set (d := Z.pos (digits2_pos p)) in *. assert (1 ≤ d) by lia.
  replace (Z.max (d + k + - k - 53) (3 - 1024 - 53)) with (d - 53) by lia.
  pose proof (norm_m_value p Hd) as Hn. pose proof (norm_m_digits p Hd) as Hnd. fold d in Hn.
  destruct (Z.le_gt_cases (d - 53) (- k)) as [Hle|Hgt].
  - destruct (shl_align M (- k) (d - 53)) as [mz ez] eqn:E.
    assert (Z.pos mz = Z.pos (norm_m p) * 2 ^ 0) as ->.
    { pose proof (shl_align_value M (- k) (d - 53) Hle) as V. rewrite E in V. simpl in V.
      rewrite V, HM, Hn, <-Z.mul_assoc, <-Z.pow_add_r by lia.
      replace (k + (- k - (d - 53))) with (53 - d) by lia. lia. }
    assert (ez = d - 53) as ->.
    { unfold shl_align in E. destruct (d - 53 - - k) eqn:E2; simplify_eq; lia. }
    rewrite binary_round_aux_exact by lia. unfold norm_e. fold d. f_equal; lia.
  - assert (shl_align M (- k) (d - 53) = (M, - k)) as ->.
    { unfold shl_align. destruct (d - 53 - - k) eqn:E2; [done|done|lia]. }
    assert (Z.pos M = Z.pos (norm_m p) * 2 ^ (d - 53 + k)) as ->.
    { rewrite HM, Hn, <-Z.mul_assoc, <-Z.pow_add_r by lia. do 2 f_equal. lia. }
    rewrite binary_round_aux_exact by lia. unfold norm_e. fold d. f_equal; lia.
Qed.

Definition exact_int (z : Z) : Prop := - 2 ^ 53 < z < 2 ^ 53.

Lemma exact_digits p : Z.pos p < 2 ^ 53 → Z.pos (digits2_pos p) ≤ 53.
Proof.
  intros Hp. pose proof (digits2_pos_bounds p).
  assert (Z.pos (digits2_pos p) - 1 < 53) by (apply (Z.pow_lt_mono_r_iff 2); lia). lia.
Qed.

Lemma binary_normalize_int z k :
  exact_int z → 0 ≤ k → binary_normalize 53 1024 (z * 2 ^ k) (- k) false = float_of_Z z.
Proof.
  intros Hz Hk. assert (0 < 2 ^ k) by (apply Z.pow_pos_nonneg; lia).
  unfold float_of_Z, binary_normalize.
  destruct z as [|p|p]; [done| |]; unfold exact_int in Hz;
    pose proof (exact_digits p ltac:(lia)).
  - destruct (Z.pos p * 2 ^ k) as [|M|M] eqn:E; [lia| |lia].
    rewrite (binary_round_int _ p k) by lia.
    by rewrite (binary_round_int _ p 0) by lia.
  - destruct (Z.neg p * 2 ^ k) as [|M|M] eqn:E; [lia|lia|].
    rewrite (binary_round_int _ p k) by lia.
    by rewrite (binary_round_int _ p 0) by lia.
Qed.

(** The float of a nonzero small integer. *)
Lemma float_of_Z_pos p :
  Z.pos p < 2 ^ 53 → float_of_Z (Z.pos p) = S754_finite false (norm_m p) (norm_e p).
Proof.
  intros Hp. unfold float_of_Z, binary_normalize.
  apply (binary_round_int _ p 0); [by apply exact_digits|lia|lia].
Qed.
Lemma float_of_Z_neg p :
  Z.pos p < 2 ^ 53 → float_of_Z (Z.neg p) = S754_finite true (norm_m p) (norm_e p).
Proof.
  intros Hp. unfold float_of_Z, binary_normalize.
  apply (binary_round_int _ p 0); [by apply exact_digits|lia|lia].
Qed.

(** The aligned significand of a small integer at a nonpositive exponent. *)
Lemma norm_align p ez :
  Z.pos p < 2 ^ 53 → ez ≤ norm_e p →
  Z.pos (fst (shl_align (norm_m p) (norm_e p) ez)) = Z.pos p * 2 ^ (- ez).
Proof.
  intros Hp He. pose proof (exact_digits p Hp).
  rewrite shl_align_value, norm_m_value by lia. unfold norm_e in *.
  rewrite <-Z.mul_assoc, <-Z.pow_add_r by lia. do 2 f_equal. lia.
Qed.

Lemma norm_e_nonpos p : Z.pos p < 2 ^ 53 → norm_e p ≤ 0.
Proof. intros. pose proof (exact_digits p ltac:(done)). unfold norm_e. lia. Qed.

Lemma float_of_Z_0 : float_of_Z 0 = S754_zero false.
Proof. done. Qed.

(** Case analysis on two small integers, their floats in canonical form. *)
Ltac float_cases a b :=
  destruct a as [|a|a], b as [|b|b];
  rewrite ?Z.add_0_l, ?Z.add_0_r, ?Z.sub_0_r, ?Z.mul_0_r, ?Z.mul_0_l,
    ?float_of_Z_0, ?float_of_Z_pos, ?float_of_Z_neg by lia.

(** A sum or difference of aligned significands is a scaled integer. *)
Ltac float_aligned :=
  cbn [cond_Zopp]; unfold cond_Zopp; rewrite !norm_align by lia;
  match goal with |- binary_normalize _ _ ?m ?e _ = float_of_Z ?z =>
    replace (binary_normalize 53 1024 m e false)
      with (binary_normalize 53 1024 (z * 2 ^ (- e)) (- - e) false) by (f_equal; lia);
    apply binary_normalize_int; [done|]
  end.

Lemma fadd_exact a b :
  exact_int a → exact_int b → exact_int (a + b) →
  fadd (float_of_Z a) (float_of_Z b) = float_of_Z (a + b).
Proof.
  unfold exact_int. intros Ha Hb Hab. float_cases a b; try done.
  all: pose proof (norm_e_nonpos a ltac:(lia)); pose proof (norm_e_nonpos b ltac:(lia)).
  all: unfold fadd, SFadd; float_aligned; lia.
Qed.

Lemma fsub_exact a b :
  exact_int a → exact_int b → exact_int (a - b) →
  fsub (float_of_Z a) (float_of_Z b) = float_of_Z (a - b).
Proof.
  unfold exact_int. intros Ha Hb Hab.
  destruct (decide (a = 0)) as [->|Ha0].
  { rewrite Z.sub_0_l. destruct b as [|b|b]; [done| |];
      rewrite ?Pos2Z.opp_pos, ?Pos2Z.opp_neg, float_of_Z_0, float_of_Z_pos, float_of_Z_neg by lia;
      done. }
  float_cases a b; try done.
  all: pose proof (norm_e_nonpos a ltac:(lia)); pose proof (norm_e_nonpos b ltac:(lia)).
  all: unfold fsub, SFsub; float_aligned; lia.
Qed.

(** The digits of a product of positives. *)
Lemma digits_mul a b :
  let da := Z.pos (digits2_pos a) in let db := Z.pos (digits2_pos b) in
  da + db - 1 ≤ Z.pos (digits2_pos (a * b)) ≤ da + db.
Proof.
  intros da db. pose proof (digits2_pos_bounds a) as Ba. pose proof (digits2_pos_bounds b) as Bb.
  pose proof (digits2_pos_bounds (a * b)) as Bab.
  fold da in Ba. fold db in Bb. rewrite Pos2Z.inj_mul in Bab.
  set (dab := Z.pos (digits2_pos (a * b))) in *.
  assert (1 ≤ da ∧ 1 ≤ db ∧ 1 ≤ dab) as (?&?&?) by lia.
  assert (2 ^ (da - 1) * 2 ^ (db - 1) = 2 ^ (da + db - 2)) as E1.
  { rewrite <-Z.pow_add_r by lia. f_equal. lia. }
  assert (2 ^ da * 2 ^ db = 2 ^ (da + db)) as E2 by (rewrite <-Z.pow_add_r by lia; done).
  assert (0 < 2 ^ (da - 1)) by (apply Z.pow_pos_nonneg; lia).
  assert (0 < 2 ^ (db - 1)) by (apply Z.pow_pos_nonneg; lia).
  split.
  - assert (da + db - 2 < dab); [|lia]. apply (Z.pow_lt_mono_r_iff 2); [lia|lia|]. nia.
  - assert (dab - 1 < da + db); [|lia]. apply (Z.pow_lt_mono_r_iff 2); [lia|lia|]. nia.
Qed.

Lemma fmul_pos s a b :
  Z.pos a < 2 ^ 53 → Z.pos b < 2 ^ 53 → Z.pos (a * b) < 2 ^ 53 →
  binary_round_aux 53 1024 s (Z.pos (norm_m a * norm_m b)) (norm_e a + norm_e b) loc_Exact =
  S754_finite s (norm_m (a * b)) (norm_e (a * b)).
Proof.
  intros Ha Hb Hab. apply exact_digits in Ha, Hb, Hab.
  pose proof (digits_mul a b) as Hd. cbv zeta in Hd.
  assert (Z.pos (norm_m a * norm_m b) = Z.pos (norm_m (a * b)) *
    2 ^ (53 + Z.pos (digits2_pos (a * b)) - Z.pos (digits2_pos a) - Z.pos (digits2_pos b))) as ->.
  { rewrite Pos2Z.inj_mul, !norm_m_value, Pos2Z.inj_mul by lia.
    transitivity (Z.pos a * Z.pos b *
      (2 ^ (53 - Z.pos (digits2_pos a)) * 2 ^ (53 - Z.pos (digits2_pos b)))); [ring|].
    rewrite <-(Z.mul_assoc (Z.pos a * Z.pos b)), <-!Z.pow_add_r by lia. do 2 f_equal. lia. }
  rewrite binary_round_aux_exact; [|by apply norm_m_digits|unfold norm_e; lia..].
  f_equal. unfold norm_e. lia.
Qed.

Lemma fmul_exact a b :
  a ≠ 0 → b ≠ 0 → exact_int a → exact_int b → exact_int (a * b) →
  fmul (float_of_Z a) (float_of_Z b) = float_of_Z (a * b).
Proof.
  unfold exact_int. intros Ha0 Hb0 Ha Hb Hab. float_cases a b; try done.
  all: match goal with
    | |- _ = float_of_Z (Z.pos ?x * Z.pos ?y) => change (Z.pos x * Z.pos y) with (Z.pos (x * y)) in *
    | |- _ = float_of_Z (Z.neg ?x * Z.neg ?y) => change (Z.neg x * Z.neg y) with (Z.pos (x * y)) in *
    | |- _ = float_of_Z (Z.pos ?x * Z.neg ?y) => change (Z.pos x * Z.neg y) with (Z.neg (x * y)) in *
    | |- _ = float_of_Z (Z.neg ?x * Z.pos ?y) => change (Z.neg x * Z.pos y) with (Z.neg (x * y)) in *
    end.
  all: rewrite ?float_of_Z_pos, ?float_of_Z_neg by lia.
  all: unfold fmul, SFmul; cbn [xorb]; apply fmul_pos; lia.
Qed.

(** ** Comparison and truncation of small integers *)

Lemma norm_compare a b :
  Z.pos a < 2 ^ 53 → Z.pos b < 2 ^ 53 →
  match norm_e a ?= norm_e b with
  | Lt => Lt | Gt => Gt | Eq => Pos.compare_cont Eq (norm_m a) (norm_m b)
  end = (a ?= b)%positive.
Proof.
  intros Ha Hb. apply exact_digits in Ha, Hb.
  pose proof (digits2_pos_bounds a) as Ba. pose proof (digits2_pos_bounds b) as Bb.
  pose proof (norm_m_value a Ha) as Va. pose proof (norm_m_value b Hb) as Vb.
  unfold norm_e. symmetry.
  destruct (Z.compare_spec (Z.pos (digits2_pos a) - 53) (Z.pos (digits2_pos b) - 53)) as [E|L|L].
  - replace (Z.pos (digits2_pos b)) with (Z.pos (digits2_pos a)) in Vb by lia.
    assert (0 < 2 ^ (53 - Z.pos (digits2_pos a))) by (apply Z.pow_pos_nonneg; lia).
    change (Pos.compare_cont Eq (norm_m a) (norm_m b)) with (norm_m a ?= norm_m b)%positive.
    destruct (Pos.compare_spec (norm_m a) (norm_m b)) as [M|M|M].
    + rewrite M, Vb in Va. apply Pos.compare_eq_iff.
      apply Z.mul_reg_r in Va; [congruence|lia].
    + apply Pos.compare_lt_iff.
      assert (Z.pos (norm_m a) < Z.pos (norm_m b)) as M' by done. rewrite Va, Vb in M'.
      apply Z.mul_lt_mono_pos_r in M'; [done|lia].
    + apply Pos.compare_gt_iff.
      assert (Z.pos (norm_m b) < Z.pos (norm_m a)) as M' by done. rewrite Va, Vb in M'.
      apply Z.mul_lt_mono_pos_r in M'; [done|lia].
  - apply Pos.compare_lt_iff.
    assert (2 ^ Z.pos (digits2_pos a) ≤ 2 ^ (Z.pos (digits2_pos b) - 1))
      by (apply Z.pow_le_mono_r; lia). lia.
  - apply Pos.compare_gt_iff.
    assert (2 ^ Z.pos (digits2_pos b) ≤ 2 ^ (Z.pos (digits2_pos a) - 1))
      by (apply Z.pow_le_mono_r; lia). lia.
Qed.

Lemma fcompare_exact a b :
  exact_int a → exact_int b → SFcompare (float_of_Z a) (float_of_Z b) = Some (a ?= b).
Proof.
  unfold exact_int. intros Ha Hb. float_cases a b; try done.
  - unfold SFcompare. by rewrite norm_compare by lia.
  - unfold SFcompare. f_equal.
    change (Z.neg a ?= Z.neg b) with (CompOpp (a ?= b)%positive).
    rewrite <-(norm_compare a b) by lia. destruct (norm_e a ?= norm_e b); done.
Qed.

Lemma flt_exact a b : exact_int a → exact_int b → flt (float_of_Z a) (float_of_Z b) = (a <? b).
Proof. intros. unfold flt, SFltb. by rewrite fcompare_exact. Qed.

Lemma fle_exact a b : exact_int a → exact_int b → fle (float_of_Z a) (float_of_Z b) = (a <=? b).
Proof. intros. unfold fle, SFleb. by rewrite fcompare_exact. Qed.

Lemma ftrunc_norm s p :
  Z.pos p < 2 ^ 53 → ftrunc (S754_finite s (norm_m p) (norm_e p)) = Some (cond_Zopp s (Z.pos p)).
Proof.
  intros Hp. pose proof (exact_digits p Hp). unfold ftrunc. do 2 f_equal.
  rewrite norm_m_value by lia. unfold norm_e. case_match; zbool.
  - replace (Z.pos (digits2_pos p)) with 53 by lia. lia.
  - replace (- (Z.pos (digits2_pos p) - 53)) with (53 - Z.pos (digits2_pos p)) by lia.
    apply Z.div_mul. apply Z.pow_nonzero; lia.
Qed.

Lemma int64_of_float_exact `{FloatConv} z : exact_int z → int64_of_float (float_of_Z z) = z.
Proof.
  unfold exact_int. intros Hz. unfold int64_of_float.
  assert (ftrunc (float_of_Z z) = Some z) as ->.
  { destruct z as [|p|p]; [done| |];
      rewrite ?float_of_Z_pos, ?float_of_Z_neg, ftrunc_norm by lia; done. }
  unfold MinInt64, MaxInt64. case_match; [done|].
  apply andb_false_iff in H0 as [H0|H0]; zbool; lia.
Qed.

(** ** Order *)

Lemma flt_irrefl_nan x : flt x S754_nan = false.
Proof. by destruct x. Qed.

(** On non-NaN floats, [x > y] is false exactly when [x <= y]. *)
Lemma flt_fle x y : IsNaN x = false → IsNaN y = false → flt y x = false → fle x y = true.
Proof.
  unfold flt, fle, SFltb, SFleb. intros Hx Hy.
  destruct x as [[]|[]| |[] mx ex], y as [[]|[]| |[] my ey]; try done; simpl.
  all: rewrite (Z.compare_antisym ex ey); destruct (ex ?= ey) eqn:E; try done; simpl.
  all: change (Pos.compare_cont Eq mx my) with (mx ?= my)%positive.
  all: change (Pos.compare_cont Eq my mx) with (my ?= mx)%positive.
  all: rewrite (Pos.compare_antisym mx my); by destruct (mx ?= my)%positive.
Qed.
