(* ===== verification/GoString.v ===== *)
(** * Go strings

    A Go string is a sequence of bytes ([String.string]); [range] and the
    [unicode]-based functions work on the runes of its UTF-8 decoding.  This
    file models the part of [strings], [unicode/utf8], [strconv] and [fmt] the
    sources use.  The character tables of package [unicode] are the methods of
    the class [Unicode], whose laws fix their documented values on ASCII;
    [ascii_unicode] is an instance. *)

From S2P Require Import Prelude.
From stdpp Require Import base list strings.
From Stdlib Require Import ZArith Lia Ascii.
Open Scope Z_scope.

(** ** Bytes *)

Definition byte_of (c : ascii) : Z := Z.of_N (N_of_ascii c).
Definition ascii_of (b : Z) : ascii := ascii_of_N (Z.to_N b).
Definition bytes_of (s : string) : list Z := byte_of <$> String.list_ascii_of_string s.
Definition of_bytes (bs : list Z) : string := String.string_of_list_ascii (ascii_of <$> bs).
Definition slen (s : string) : Z := Z.of_nat (String.length s).

(** ** UTF-8 ([unicode/utf8]) *)

Definition RuneError : Z := 65533.

Definition cont (b : Z) : bool := (128 <=? b) && (b <=? 191).

(** The admissible second bytes after the lead byte [b0] (utf8's accept ranges). *)
Definition accept (b0 b1 : Z) : bool :=
  if b0 =? 224 then (160 <=? b1) && (b1 <=? 191)
  else if b0 =? 237 then (128 <=? b1) && (b1 <=? 159)
  else if b0 =? 240 then (144 <=? b1) && (b1 <=? 191)
  else if b0 =? 244 then (128 <=? b1) && (b1 <=? 143)
  else cont b1.

(** The length announced by a lead byte; 0 for an invalid one. *)
Definition lead_size (b0 : Z) : Z :=
  if b0 <? 128 then 1 else if b0 <? 194 then 0 else if b0 <? 224 then 2
  else if b0 <? 240 then 3 else if b0 <? 245 then 4 else 0.

(** The runes of a byte sequence; every byte that starts no valid encoding
    yields [RuneError] and advances by one byte. *)
Fixpoint decode_runes (bs : list Z) : list Z :=
  match bs with
  | [] => []
  | b0 :: t0 =>
      if b0 <? 128 then b0 :: decode_runes t0 else
      match t0 with
      | b1 :: t1 =>
          if (lead_size b0 =? 2) && accept b0 b1
          then (Z.land b0 31 * 64 + Z.land b1 63) :: decode_runes t1 else
          match t1 with
          | b2 :: t2 =>
              if (lead_size b0 =? 3) && accept b0 b1 && cont b2
              then (Z.land b0 15 * 4096 + Z.land b1 63 * 64 + Z.land b2 63) :: decode_runes t2 else
              match t2 with
              | b3 :: t3 =>
                  if (lead_size b0 =? 4) && accept b0 b1 && cont b2 && cont b3
                  then (Z.land b0 7 * 262144 + Z.land b1 63 * 4096 + Z.land b2 63 * 64
                        + Z.land b3 63) :: decode_runes t3
                  else RuneError :: decode_runes t0
              | [] => RuneError :: decode_runes t0
              end
          | [] => RuneError :: decode_runes t0
          end
      | [] => RuneError :: decode_runes t0
      end
  end.

Definition encode_rune (r0 : Z) : list Z :=
  let r := if (r0 <? 0) || (1114111 <? r0) || ((55296 <=? r0) && (r0 <=? 57343))
           then RuneError else r0 in
  if r <=? 127 then [r]
  else if r <=? 2047 then [192 + r / 64; 128 + r mod 64]
  else if r <=? 65535 then [224 + r / 4096; 128 + r / 64 mod 64; 128 + r mod 64]
  else [240 + r / 262144; 128 + r / 4096 mod 64; 128 + r / 64 mod 64; 128 + r mod 64].

Definition encode_runes (rs : list Z) : list Z := rs ≫= encode_rune.

(** [[]rune(s)] and [string(rs)]. *)
Definition runes (s : string) : list Z := decode_runes (bytes_of s).
Definition of_runes (rs : list Z) : string := of_bytes (encode_runes rs).

(** ** Character classes *)

Definition ascii_upper (r : Z) : bool := (65 <=? r) && (r <=? 90).
Definition ascii_lower (r : Z) : bool := (97 <=? r) && (r <=? 122).
Definition ascii_digit (r : Z) : bool := (48 <=? r) && (r <=? 57).
(** General category P within ASCII. *)
Definition ascii_punct (r : Z) : bool :=
  ((33 <=? r) && (r <=? 47) && negb (r =? 36) && negb (r =? 43))
  || (r =? 58) || (r =? 59) || (r =? 63) || (r =? 64)
  || ((91 <=? r) && (r <=? 93)) || (r =? 95) || (r =? 123) || (r =? 125).
(** General category S within ASCII. *)
Definition ascii_symbol (r : Z) : bool :=
  (r =? 36) || (r =? 43) || ((60 <=? r) && (r <=? 62)) || (r =? 94) || (r =? 96)
  || (r =? 124) || (r =? 126).
Definition ascii_space (r : Z) : bool := ((9 <=? r) && (r <=? 13)) || (r =? 32).
Definition ascii_to_upper (r : Z) : Z := if ascii_lower r then r - 32 else r.
Definition ascii_to_lower (r : Z) : Z := if ascii_upper r then r + 32 else r.

Definition is_ascii (r : Z) : Prop := 0 ≤ r < 128.

(** Package [unicode], through its documented behaviour on ASCII. *)
Class Unicode := {
  IsUpper : Z → bool;
  IsLower : Z → bool;
  IsDigit : Z → bool;
  IsPunct : Z → bool;
  IsSymbol : Z → bool;
  IsSpace : Z → bool;
  ToUpperRune : Z → Z;
  ToLowerRune : Z → Z;
  IsUpper_ascii r : is_ascii r → IsUpper r = ascii_upper r;
  IsLower_ascii r : is_ascii r → IsLower r = ascii_lower r;
  IsDigit_ascii r : is_ascii r → IsDigit r = ascii_digit r;
  IsPunct_ascii r : is_ascii r → IsPunct r = ascii_punct r;
  IsSymbol_ascii r : is_ascii r → IsSymbol r = ascii_symbol r;
  IsSpace_ascii r : is_ascii r → IsSpace r = ascii_space r;
  ToUpper_ascii r : is_ascii r → ToUpperRune r = ascii_to_upper r;
  ToLower_ascii r : is_ascii r → ToLowerRune r = ascii_to_lower r
}.

#[export] Program Instance ascii_unicode : Unicode := {|
  IsUpper := ascii_upper; IsLower := ascii_lower; IsDigit := ascii_digit;
  IsPunct := ascii_punct; IsSymbol := ascii_symbol; IsSpace := ascii_space;
  ToUpperRune := ascii_to_upper; ToLowerRune := ascii_to_lower
|}.
Solve All Obligations with done.

(** ** Package [strings] *)

Definition ToUpper `{Unicode} (s : string) : string := of_runes (ToUpperRune <$> runes s).
Definition ToLower `{Unicode} (s : string) : string := of_runes (ToLowerRune <$> runes s).

Definition HasPrefix (s p : string) : bool := String.prefix p s.

(** [strings.Contains]. *)
Fixpoint Contains (s sub : string) : bool :=
  String.prefix sub s ||
  match s with
  | EmptyString => false
  | String _ s' => Contains s' sub
  end.

(** [strings.Join]. *)
Fixpoint Join (l : list string) (sep : string) : string :=
  match l with
  | [] => ""
  | [s] => s
  | s :: l => s +:+ sep +:+ Join l sep
  end.

(** [strings.TrimPrefix]. *)
Definition TrimPrefix (s p : string) : string :=
  if HasPrefix s p then of_bytes (drop (String.length p) (bytes_of s)) else s.

(** [strings.TrimSpace] and [strings.Fields] of valid UTF-8. *)
Fixpoint trim_spaces `{Unicode} (rs : list Z) : list Z :=
  match rs with
  | [] => []
  | r :: rs' => if IsSpace r then trim_spaces rs' else rs
  end.
Definition TrimSpace `{Unicode} (s : string) : string :=
  of_runes (reverse (trim_spaces (reverse (trim_spaces (runes s))))).
Fixpoint fields_runes `{Unicode} (cur : list Z) (rs : list Z) : list (list Z) :=
  match rs with
  | [] => match cur with [] => [] | _ => [cur] end
  | r :: rs =>
      if IsSpace r then match cur with [] => fields_runes [] rs | _ => cur :: fields_runes [] rs end
      else fields_runes (cur ++ [r]) rs
  end.
Definition Fields `{Unicode} (s : string) : list string := of_runes <$> fields_runes [] (runes s).

(** [strings.Repeat] of a nonnegative count. *)
Fixpoint Repeat (s : string) (n : nat) : string :=
  match n with O => "" | S n => s +:+ Repeat s n end.

(** ** Decimal integers ([%d], [strconv.FormatInt(_, 10)]) *)

Definition digit_char (d : Z) : ascii := ascii_of (48 + d).

Fixpoint dec_digits (fuel : nat) (n : Z) : list Z :=
  match fuel with
  | O => []
  | S fuel => if n <? 10 then [n] else dec_digits fuel (n / 10) ++ [n mod 10]
  end.

(** The digits of [n ≥ 0]; [log2 n + 1] steps are enough, a step divides by ten. *)
Definition fmt_digits (n : Z) : list Z := dec_digits (S (Z.to_nat (Z.log2 n))) n.
Definition string_of_digits (ds : list Z) : string :=
  String.string_of_list_ascii (digit_char <$> ds).
Definition fmt_u (n : Z) : string := string_of_digits (fmt_digits n).
Definition fmt_d (n : Z) : string := if n <? 0 then "-" +:+ fmt_u (- n) else fmt_u n.

(** [%q] (strconv.Quote): the escapes of ASCII; the bytes of runes beyond
    ASCII are copied, as they are for printable runes. *)
Definition hex_byte (d : Z) : Z := if d <? 10 then 48 + d else 87 + d.
Definition quote_byte (b : Z) : list Z :=
  if (b =? 34) || (b =? 92) then [92; b]
  else if b =? 7 then [92; 97]
  else if b =? 8 then [92; 98]
  else if b =? 9 then [92; 116]
  else if b =? 10 then [92; 110]
  else if b =? 11 then [92; 118]
  else if b =? 12 then [92; 102]
  else if b =? 13 then [92; 114]
  else if (b <? 32) || (b =? 127) then [92; 120; hex_byte (b / 16); hex_byte (b mod 16)]
  else [b].
Definition quote (s : string) : string := of_bytes (34 :: (bytes_of s ≫= quote_byte) ++ [34]).

(** Reading back, used to state that a rendering is faithful. *)
Definition read_digits (ds : list Z) : Z := foldl (λ acc d, acc * 10 + d) 0 ds.
Definition digits_of_string (s : string) : list Z :=
  (λ c, byte_of c - 48) <$> String.list_ascii_of_string s.
Definition read_u (s : string) : Z := read_digits (digits_of_string s).

(** ** Lemmas on bytes *)

Lemma byte_of_range c : in_byte (byte_of c).
Proof. unfold in_byte, byte_of. pose proof (N_ascii_bounded c). lia. Qed.

Lemma ascii_of_byte_of c : ascii_of (byte_of c) = c.
Proof. unfold ascii_of, byte_of. by rewrite N2Z.id, ascii_N_embedding. Qed.

Lemma byte_of_ascii_of b : in_byte b → byte_of (ascii_of b) = b.
Proof. unfold in_byte, ascii_of, byte_of. intros. rewrite N_ascii_embedding; lia. Qed.

Lemma of_bytes_bytes_of s : of_bytes (bytes_of s) = s.
Proof.
  induction s as [|c s IH]; [done|]. cbn. rewrite ascii_of_byte_of. f_equal. exact IH.
Qed.

Lemma bytes_of_of_bytes bs : Forall in_byte bs → bytes_of (of_bytes bs) = bs.
Proof.
  induction 1 as [|b bs Hb _ IH]; [done|].
  cbn. rewrite byte_of_ascii_of by done. f_equal. exact IH.
Qed.

Lemma bytes_of_range s : Forall in_byte (bytes_of s).
Proof. apply Forall_fmap, Forall_true. intros c. apply byte_of_range. Qed.

Lemma string_cons_app c (s t : string) : String c s +:+ t = String c (s +:+ t).
Proof. done. Qed.
Lemma bytes_of_cons c s : bytes_of (String c s) = byte_of c :: bytes_of s.
Proof. done. Qed.
Lemma string_of_digits_cons d ds :
  string_of_digits (d :: ds) = String (digit_char d) (string_of_digits ds).
Proof. done. Qed.
Lemma digits_of_string_cons c s :
  digits_of_string (String c s) = byte_of c - 48 :: digits_of_string s.
Proof. done. Qed.

Create Rewrite HintDb gostring.
#[global] Hint Rewrite string_cons_app bytes_of_cons string_of_digits_cons digits_of_string_cons
  : gostring.

(** Induction on a string, the definitions pushed through its constructors. *)
Ltac string_ind s :=
  let c := fresh "c" in let IH := fresh "IH" in
  induction s as [|c s IH]; [done|]; cbn [app]; autorewrite with gostring;
  cbn [length app String.length]; try (f_equal; exact IH); try (rewrite IH; done).

Lemma bytes_of_app s t : bytes_of (s +:+ t) = bytes_of s ++ bytes_of t.
Proof. string_ind s. Qed.

Lemma bytes_of_length s : length (bytes_of s) = String.length s.
Proof. string_ind s. Qed.

Lemma bytes_of_inj s t : bytes_of s = bytes_of t → s = t.
Proof. intros E. by rewrite <-(of_bytes_bytes_of s), E, of_bytes_bytes_of. Qed.

(** ** Lemmas on runes *)

Definition ascii_string (s : string) : Prop := Forall is_ascii (bytes_of s).

#[export] Instance is_ascii_dec r : Decision (is_ascii r).
Proof. unfold is_ascii. apply _. Defined.
#[export] Instance ascii_string_dec s : Decision (ascii_string s).
Proof. unfold ascii_string. apply _. Defined.

Lemma decode_runes_ascii bs : Forall is_ascii bs → decode_runes bs = bs.
Proof.
  induction 1 as [|b bs Hb _ IH]; [done|]. simpl. unfold is_ascii in Hb.
  destruct (Z.ltb_spec b 128); [by rewrite IH|lia].
Qed.

Lemma encode_rune_ascii r : is_ascii r → encode_rune r = [r].
Proof.
  unfold is_ascii, encode_rune. intros Hr.
  destruct (Z.ltb_spec r 0); [lia|]. destruct (Z.ltb_spec 1114111 r); [lia|].
  destruct (Z.leb_spec 55296 r); [lia|]. simpl. destruct (Z.leb_spec r 127); [done|lia].
Qed.

Lemma encode_runes_ascii rs : Forall is_ascii rs → encode_runes rs = rs.
Proof.
  unfold encode_runes. induction 1 as [|r rs Hr _ IH]; [done|].
  cbn. rewrite encode_rune_ascii by done. cbn. f_equal. exact IH.
Qed.

Lemma runes_ascii s : ascii_string s → runes s = bytes_of s.
Proof. apply decode_runes_ascii. Qed.

Lemma is_ascii_byte r : is_ascii r → in_byte r.
Proof. unfold is_ascii, in_byte. lia. Qed.

Lemma bytes_of_of_runes rs : Forall is_ascii rs → bytes_of (of_runes rs) = rs.
Proof.
  intros H. unfold of_runes. rewrite encode_runes_ascii by done.
  apply bytes_of_of_bytes. eapply Forall_impl; [exact H|]. apply is_ascii_byte.
Qed.

Lemma runes_of_runes rs : Forall is_ascii rs → runes (of_runes rs) = rs.
Proof. intros H. unfold runes. rewrite bytes_of_of_runes by done. by apply decode_runes_ascii. Qed.

Lemma ascii_to_lower_ascii r : is_ascii r → is_ascii (ascii_to_lower r).
Proof. unfold is_ascii, ascii_to_lower, ascii_upper. intros. case_match; zbool; lia. Qed.
Lemma ascii_to_upper_ascii r : is_ascii r → is_ascii (ascii_to_upper r).
Proof. unfold is_ascii, ascii_to_upper, ascii_lower. intros. case_match; zbool; lia. Qed.

#[export] Hint Resolve ascii_to_lower_ascii ascii_to_upper_ascii : gokit.

(** A rune a Go string can hold. *)
Definition valid_rune (r : Z) : Prop := 0 ≤ r ≤ 1114111 ∧ ¬ (55296 ≤ r ≤ 57343).

Lemma land_mask x n : 0 ≤ n → Z.land x (2 ^ n - 1) = x mod 2 ^ n.
Proof. intros. by rewrite <-Z.land_ones, Z.ones_equiv by done. Qed.

(** ** The round trip of UTF-8 *)

Ltac decide_ranges :=
  repeat match goal with
  | |- context [?a <? ?b] => first [rewrite (proj2 (Z.ltb_lt a b)) by lia | rewrite (proj2 (Z.ltb_ge a b)) by lia]
  | |- context [?a <=? ?b] => first [rewrite (proj2 (Z.leb_le a b)) by lia | rewrite (proj2 (Z.leb_gt a b)) by lia]
  | |- context [?a =? ?b] => first [rewrite (proj2 (Z.eqb_neq a b)) by lia | rewrite (proj2 (Z.eqb_eq a b)) by lia]
  end; cbn [andb orb].

Lemma low_bits x y n : 0 ≤ n → 0 ≤ y < 2 ^ n → Z.land (x * 2 ^ n + y) (2 ^ n - 1) = y.
Proof. intros Hn Hy. by rewrite land_mask, Z.add_comm, Z.mod_add, Z.mod_small by lia. Qed.

Lemma cont_low y : 0 ≤ y < 64 → cont (128 + y) = true ∧ Z.land (128 + y) 63 = y.
Proof. intros Hy. unfold cont. decide_ranges. split; [done|]. exact (low_bits 2 y 6 ltac:(lia) Hy). Qed.

Lemma decode_two b y rest :
  2 ≤ b < 32 → 0 ≤ y < 64 → decode_runes (192 + b :: 128 + y :: rest) = b * 64 + y :: decode_runes rest.
Proof.
  intros Hb Hy. destruct (cont_low y Hy) as [Hc Hl]. cbn [decode_runes]. unfold lead_size, accept. decide_ranges.
  rewrite Hc, Hl. by rewrite (low_bits 6 b 5 ltac:(lia) ltac:(lia) : Z.land (192 + b) 31 = b).
Qed.
Lemma decode_three b y z rest :
  0 ≤ b < 16 → 0 ≤ y < 64 → 0 ≤ z < 64 → (b = 0 → 32 ≤ y) → (b = 13 → y < 32) →
  decode_runes (224 + b :: 128 + y :: 128 + z :: rest) = b * 4096 + y * 64 + z :: decode_runes rest.
Proof.
  intros Hb Hy Hz H0 H13. destruct (cont_low y Hy) as [Hc Hl], (cont_low z Hz) as [Hcz Hlz].
  assert (accept (224 + b) (128 + y) = true) as Ha.
  { unfold accept. destruct (Z.eqb_spec (224 + b) 224); [by decide_ranges|].
    destruct (Z.eqb_spec (224 + b) 237); by decide_ranges. }
  cbn [decode_runes]. rewrite Ha, Hcz. unfold lead_size. decide_ranges.
  by rewrite Hl, Hlz, (low_bits 14 b 4 ltac:(lia) ltac:(lia) : Z.land (224 + b) 15 = b).
Qed.
Lemma decode_four b y z v rest :
  0 ≤ b < 5 → 0 ≤ y < 64 → 0 ≤ z < 64 → 0 ≤ v < 64 → (b = 0 → 16 ≤ y) → (b = 4 → y < 16) →
  decode_runes (240 + b :: 128 + y :: 128 + z :: 128 + v :: rest)
  = b * 262144 + y * 4096 + z * 64 + v :: decode_runes rest.
Proof.
  intros Hb Hy Hz Hv H0 H4.
  destruct (cont_low y Hy) as [Hc Hl], (cont_low z Hz) as [Hcz Hlz], (cont_low v Hv) as [Hcv Hlv].
  assert (accept (240 + b) (128 + y) = true) as Ha.
  { unfold accept. decide_ranges. destruct (Z.eqb_spec (240 + b) 240); [by decide_ranges|].
    destruct (Z.eqb_spec (240 + b) 244); by decide_ranges. }
  cbn [decode_runes]. rewrite Ha, Hcz, Hcv. unfold lead_size. decide_ranges.
  by rewrite Hl, Hlz, Hlv, (low_bits 30 b 3 ltac:(lia) ltac:(lia) : Z.land (240 + b) 7 = b).
Qed.

(** What a rune is written as: itself, or the replacement character. *)
Definition held_rune (r : Z) : Z :=
  if (r <? 0) || (1114111 <? r) || ((55296 <=? r) && (r <=? 57343)) then RuneError else r.
Lemma held_rune_valid r : valid_rune (held_rune r).
Proof.
  unfold held_rune, valid_rune. destruct (_ || _ || _)%bool eqn:E; [unfold RuneError; lia|].
  apply orb_false_iff in E as [E1 E2]. apply andb_false_iff in E2. zbool. destruct E2; zbool; lia.
Qed.
Lemma held_rune_id r : valid_rune r → held_rune r = r.
Proof.
  unfold held_rune, valid_rune. intros [Hr Hs]. decide_ranges.
  destruct (Z.leb_spec 55296 r); [|done]. by decide_ranges.
Qed.

Lemma decode_encode_rune r rest : decode_runes (encode_rune r ++ rest) = held_rune r :: decode_runes rest.
Proof.
  unfold encode_rune. fold (held_rune r). cbv zeta. pose proof (held_rune_valid r) as [Hr Hs].
  revert Hr Hs. generalize (held_rune r). clear r. intros r Hr Hs.
  destruct (Z.leb_spec r 127); [|destruct (Z.leb_spec r 2047); [|destruct (Z.leb_spec r 65535)]]; cbn [app].
  - cbn [decode_runes]. by decide_ranges.
  - rewrite decode_two by dlia. f_equal. dlia.
  - rewrite decode_three by dlia. f_equal. dlia.
  - rewrite decode_four by dlia. f_equal. dlia.
Qed.
Lemma encode_rune_held r : encode_rune (held_rune r) = encode_rune r.
Proof.
  unfold encode_rune. fold (held_rune (held_rune r)) (held_rune r). by rewrite (held_rune_id _ (held_rune_valid r)).
Qed.
Lemma decode_encode_runes rs : decode_runes (encode_runes rs) = held_rune <$> rs.
Proof.
  unfold encode_runes. induction rs as [|r rs IH]; [done|]. rewrite bind_cons, decode_encode_rune. by f_equal/=.
Qed.
Lemma encode_rune_bytes r : Forall in_byte (encode_rune r).
Proof.
  unfold encode_rune. fold (held_rune r). cbv zeta. pose proof (held_rune_valid r) as [Hr _]. revert Hr.
  generalize (held_rune r). intros r' Hr.
  repeat case_match; zbool; repeat constructor; unfold in_byte; dlia.
Qed.

(** [utf8.ValidString]: the string is the encoding of its runes. *)
Definition ValidString (s : string) : bool := String.eqb (of_runes (runes s)) s.
Lemma of_runes_valid rs : ValidString (of_runes rs) = true.
Proof.
  apply String.eqb_eq. unfold runes, of_runes at 2. rewrite bytes_of_of_bytes, decode_encode_runes.
  2: { unfold encode_runes. apply Forall_bind, Forall_true. intros. apply encode_rune_bytes. }
  unfold of_runes. f_equal. unfold encode_runes. induction rs as [|r rs IH]; [done|].
  rewrite fmap_cons, !bind_cons, encode_rune_held. by rewrite IH.
Qed.
Lemma ascii_valid s : ascii_string s → ValidString s = true.
Proof.
  intros Hs. apply String.eqb_eq. apply bytes_of_inj. by rewrite runes_ascii, bytes_of_of_runes.
Qed.

(** ** Lemmas on decimal renderings *)

Lemma dec_digits_range fuel n : 0 ≤ n → Forall (λ d, 0 ≤ d < 10) (dec_digits fuel n).
Proof.
  revert n. induction fuel as [|fuel IH]; intros n Hn; simpl; [done|].
  case_match; zbool.
  - repeat constructor; lia.
  - apply Forall_app. split; [apply IH, Z.div_pos; lia|].
    repeat constructor; apply Z.mod_pos_bound; lia.
Qed.

Lemma read_digits_app ds ds' :
  read_digits (ds ++ ds') = read_digits ds * 10 ^ Z.of_nat (length ds') + read_digits ds'.
Proof.
  unfold read_digits. rewrite foldl_app. generalize (foldl (λ acc d, acc * 10 + d) 0 ds). clear ds.
  induction ds' as [|d ds' IH] using rev_ind; intros a; [simpl; lia|].
  rewrite !foldl_app, length_app, Nat2Z.inj_add, Z.pow_add_r by lia.
  simpl foldl. rewrite IH. simpl. lia.
Qed.

Lemma dec_digits_read fuel n :
  0 ≤ n < 2 ^ Z.of_nat fuel → read_digits (dec_digits fuel n) = n.
Proof.
  revert n. induction fuel as [|fuel IH]; intros n Hn.
  { simpl in *. unfold read_digits. simpl. lia. }
  rewrite Nat2Z.inj_succ, Z.pow_succ_r in Hn by lia. simpl. case_match; zbool.
  - unfold read_digits. simpl. lia.
  - rewrite read_digits_app, IH.
    + unfold read_digits. simpl. pose proof (Z.div_mod n 10). lia.
    + split; [apply Z.div_pos; lia|]. apply Z.div_lt_upper_bound; lia.
Qed.

Lemma fmt_digits_fuel n : 0 ≤ n → n < 2 ^ Z.of_nat (S (Z.to_nat (Z.log2 n))).
Proof.
  intros Hn. destruct (decide (n = 0)) as [->|]; [done|].
  pose proof (Z.log2_nonneg n).
  rewrite Nat2Z.inj_succ, Z2Nat.id by done. apply Z.log2_spec. lia.
Qed.

Lemma fmt_digits_read n : 0 ≤ n → read_digits (fmt_digits n) = n.
Proof. intros. apply dec_digits_read. split; [done|by apply fmt_digits_fuel]. Qed.

Lemma fmt_digits_range n : 0 ≤ n → Forall (λ d, 0 ≤ d < 10) (fmt_digits n).
Proof. apply dec_digits_range. Qed.

(** The number of digits: at most [k] exactly when [n < 10^k] ([k ≥ 1]). *)
Lemma dec_digits_length fuel n k :
  0 ≤ n → (1 ≤ k)%nat → n < 10 ^ Z.of_nat k → (length (dec_digits fuel n) ≤ k)%nat.
Proof.
  revert n k. induction fuel as [|fuel IH]; intros n k Hn Hk Hb; simpl; [lia|].
  case_match; zbool; simpl; [lia|]. rewrite length_app. simpl.
  destruct k as [|k]; [lia|]. rewrite Nat2Z.inj_succ, Z.pow_succ_r in Hb by lia.
  destruct k as [|k]; [simpl in Hb; lia|].
  assert (length (dec_digits fuel (n / 10)) ≤ S k)%nat; [|lia].
  apply IH; [apply Z.div_pos; lia|lia|]. apply Z.div_lt_upper_bound; lia.
Qed.

Lemma string_of_digits_app ds ds' :
  string_of_digits (ds ++ ds') = string_of_digits ds +:+ string_of_digits ds'.
Proof. string_ind ds. Qed.

Lemma length_string_of_digits ds : String.length (string_of_digits ds) = length ds.
Proof. string_ind ds. Qed.

Lemma digits_of_string_app s t :
  digits_of_string (s +:+ t) = digits_of_string s ++ digits_of_string t.
Proof. string_ind s. Qed.

Lemma digits_of_string_of_digits ds :
  Forall (λ d, 0 ≤ d < 10) ds → digits_of_string (string_of_digits ds) = ds.
Proof.
  induction 1 as [|d ds Hd _ IH]; [done|].
  cbn. unfold digit_char. rewrite byte_of_ascii_of by (unfold in_byte; lia).
  f_equal; [lia|exact IH].
Qed.

Lemma read_u_fmt_u n : 0 ≤ n → read_u (fmt_u n) = n.
Proof.
  intros. unfold read_u, fmt_u.
  rewrite digits_of_string_of_digits by (by apply fmt_digits_range). by apply fmt_digits_read.
Qed.

Lemma fmt_u_inj n m : 0 ≤ n → 0 ≤ m → fmt_u n = fmt_u m → n = m.
Proof. intros ?? E. by rewrite <-(read_u_fmt_u n), E, read_u_fmt_u by done. Qed.

Lemma string_app_inv_head (s t u : string) : s +:+ t = s +:+ u → t = u.
Proof. induction s as [|c s IH]; [done|]. rewrite !string_cons_app. intros [=]. by apply IH. Qed.

Lemma fmt_d_nonneg n : 0 ≤ n → fmt_d n = fmt_u n.
Proof. intros. unfold fmt_d. destruct (Z.ltb_spec n 0); [lia|done]. Qed.

Lemma bytes_of_string_of_digits ds :
  Forall (λ d, 0 ≤ d < 10) ds → bytes_of (string_of_digits ds) = (λ d, 48 + d) <$> ds.
Proof.
  induction 1 as [|d ds Hd _ IH]; [done|]. rewrite string_of_digits_cons, bytes_of_cons, fmap_cons, IH.
  unfold digit_char. by rewrite byte_of_ascii_of by (unfold in_byte; lia).
Qed.

(** A rendered integer consists of digits and perhaps a sign. *)
Lemma bytes_of_fmt_d n : Forall (λ b, b = 45 ∨ 48 ≤ b < 58) (bytes_of (fmt_d n)).
Proof.
  assert (∀ m, 0 ≤ m → Forall (λ b, b = 45 ∨ 48 ≤ b < 58) (bytes_of (fmt_u m))) as Hu.
  { intros m Hm. unfold fmt_u. rewrite bytes_of_string_of_digits by (by apply fmt_digits_range).
    apply Forall_fmap. eapply Forall_impl; [by apply fmt_digits_range|]. intros d Hd. unfold compose. cbn beta in *. right. lia. }
  unfold fmt_d. destruct (Z.ltb_spec n 0); [|by apply Hu].
  rewrite bytes_of_app. apply Forall_app; split; [|apply Hu; lia]. apply Forall_singleton. by left.
Qed.

Lemma fmt_u_no_sign m n : 0 ≤ m → fmt_u m ≠ "-" +:+ n.
Proof.
  intros Hm E. apply (f_equal bytes_of) in E. unfold fmt_u in E.
  rewrite bytes_of_string_of_digits, bytes_of_app in E by (by apply fmt_digits_range).
  pose proof (fmt_digits_range m Hm) as Hr. destruct (fmt_digits m) as [|d ds]; [done|].
  apply Forall_cons_1 in Hr as [Hd _]. injection E as Ed _. change (byte_of "-") with 45 in Ed. lia.
Qed.

Lemma fmt_d_inj n m : fmt_d n = fmt_d m → n = m.
Proof.
  unfold fmt_d. destruct (Z.ltb_spec n 0), (Z.ltb_spec m 0); intros E.
  - apply string_app_inv_head, fmt_u_inj in E; lia.
  - symmetry in E. by apply fmt_u_no_sign in E.
  - by apply fmt_u_no_sign in E.
  - by apply fmt_u_inj.
Qed.

Lemma read_digits_zeros n ds : read_digits (replicate n 0 ++ ds) = read_digits ds.
Proof.
  rewrite read_digits_app. assert (read_digits (replicate n 0) = 0) as ->; [|lia].
  unfold read_digits. induction n as [|n IH]; [done|]. by rewrite replicate_S_end, foldl_app, IH.
Qed.

Lemma string_app_assoc (s t u : string) : (s +:+ t) +:+ u = s +:+ t +:+ u.
Proof. string_ind s. Qed.
Lemma string_app_nil_r (s : string) : s +:+ "" = s.
Proof. string_ind s. Qed.
Lemma TrimPrefix_app p s : TrimPrefix (p +:+ s) p = s.
Proof.
  unfold TrimPrefix, HasPrefix. assert (String.prefix p (p +:+ s) = true) as ->.
  { induction p as [|c p IH]; [by destruct s|]. rewrite string_cons_app. cbn [String.prefix]. destruct (Ascii.ascii_dec c c); [exact IH|congruence]. }
  rewrite bytes_of_app, <-bytes_of_length, drop_app_length. apply of_bytes_bytes_of.
Qed.
Lemma slen_app s t : slen (s +:+ t) = slen s + slen t.
Proof. unfold slen. induction s as [|c s IH]; [done|]. rewrite string_cons_app. cbn [String.length]. lia. Qed.
Lemma slen_nonneg s : 0 ≤ slen s.
Proof. unfold slen. lia. Qed.

#[export] Hint Resolve fmt_digits_range bytes_of_range byte_of_range slen_nonneg : gokit.
