(* ===== verification/GoErrors.v ===== *)
(** * Error values, and package [errorsx]

    The error values the repository builds, the standard library's
    [errors.Is] / [errors.As] / [Unwrap] over them, and the error-kind taxonomy
    of src/errorsx/errorsx.go with its HTTP status mapping.  A package-level
    sentinel ([errors.New] in a [var] block) is identified by its text: the
    texts carry the package name and are distinct. *)

From S2P Require Import Prelude GoString.
From stdpp Require Import base list strings.
From Stdlib Require Import ZArith Lia.
Open Scope Z_scope.

(** errorsx.Kind *)
Inductive Kind :=
| KindUnknown | KindNotFound | KindInvalidArgument | KindConflict | KindUnauthenticated
| KindPermissionDenied | KindFailedPrecondition | KindResourceExhausted | KindUnavailable
| KindDeadlineExceeded.

#[export] Instance Kind_eq_dec : EqDecision Kind.
Proof. solve_decision. Defined.

#[warnings="-register-all"]
Inductive error :=
| ENew (msg : string)                                        (* a sentinel *)
| EText (msg : string)                                       (* fmt.Errorf, nothing wrapped *)
| EWrap (pre post : string) (inner : error)                  (* fmt.Errorf with one %w *)
| EKind (kind : Kind) (msg : string) (wrap : option error)   (* pointer to errorsx.Error *)
| EPermanent (inner : error)                                 (* pointer to retry.permanentError *)
| EProvider (provider code msg : string) (retryable : bool) (raw : option error)
                                                             (* pointer to provider.ProviderError *)
| EGateway (status : Z) (body : string).                     (* pointer to client.GatewayError *)

Definition Canceled : error := ENew "context canceled".
Definition DeadlineExceeded : error := ENew "context deadline exceeded".
Definition ErrPermanent : error := ENew "retry: permanent error".

(** The method [Error() string] of each type. *)
Fixpoint error_text (e : error) : string :=
  match e with
  | ENew msg | EText msg => msg
  | EWrap pre post e => pre +:+ error_text e +:+ post
  | EKind _ msg (Some e) => msg +:+ ": " +:+ error_text e
  | EKind _ msg None => msg
  | EPermanent e => error_text e
  | EProvider p _ msg _ (Some e) => p +:+ ": " +:+ msg +:+ " (" +:+ error_text e +:+ ")"
  | EProvider p _ msg _ None => p +:+ ": " +:+ msg
  | EGateway status body => "gateway returned " +:+ fmt_d status +:+ ": " +:+ body
  end.

(** The method [Unwrap() error]. *)
Definition Unwrap (e : error) : option error :=
  match e with
  | EWrap _ _ e | EPermanent e => Some e
  | EKind _ _ w => w
  | EProvider _ _ _ _ w => w
  | ENew _ | EText _ | EGateway _ _ => None
  end.

(** [errors.As(err, &t)] for [t : *errorsx.Error]: the first such error of the chain. *)
Fixpoint errors_As (e : error) : option Kind :=
  match e with
  | EKind k _ _ => Some k
  | EWrap _ _ e | EPermanent e | EProvider _ _ _ _ (Some e) => errors_As e
  | _ => None
  end.

(** Identity of a sentinel ([err == target]); other values are fresh pointers. *)
Definition same_sentinel (e target : error) : bool :=
  match e, target with
  | ENew a, ENew b => bool_decide (a = b)
  | _, _ => false
  end.

(** The method [Is] of errorsx.Error. *)
Definition errorsx_Is (k : Kind) (target : error) : bool :=
  match errors_As target with
  | None => false
  | Some k' => bool_decide (k = k')
  end.

(** The [Is(target error) bool] method of the types that have one. *)
Definition method_Is (e target : error) : bool :=
  match e with
  | EKind k _ _ => errorsx_Is k target
  | EPermanent _ => same_sentinel target ErrPermanent
  | _ => false
  end.

(** [errors.Is(err, target)] for a target that is a package-level sentinel. *)
Fixpoint errors_Is (e target : error) : bool :=
  same_sentinel e target || method_Is e target ||
  match e with
  | EWrap _ _ e | EPermanent e | EKind _ _ (Some e) | EProvider _ _ _ _ (Some e) =>
      errors_Is e target
  | _ => false
  end.

(** errorsx.New *)
Definition New (kind : Kind) (msg : string) : error := EKind kind msg None.

(** errorsx.Newf; [msg] is the text Sprintf makes. *)
Definition Newf (kind : Kind) (msg : string) : error := EKind kind msg None.
(** The method [Kind] of errorsx.Error. *)
Definition Kind_of (e : error) : option Kind := match e with EKind k _ _ => Some k | _ => None end.

(** errorsx.Wrap *)
Definition Wrap (kind : Kind) (err : option error) (msg : string) : option error :=
  match err with
  | None => None
  | Some e => Some (EKind kind msg (Some e))
  end.

(** errorsx.KindOf: a nil error is [None]. *)
Definition KindOf (err : option error) : Kind :=
  match err with
  | Some e => match errors_As e with Some k => k | None => KindUnknown end
  | None => KindUnknown
  end.

(** errorsx.HTTPStatus *)
Definition HTTPStatus (err : option error) : Z :=
  match KindOf err with
  | KindNotFound => 404
  | KindInvalidArgument => 400
  | KindConflict => 409
  | KindUnauthenticated => 401
  | KindPermissionDenied => 403
  | KindFailedPrecondition => 412
  | KindResourceExhausted => 429
  | KindUnavailable => 503
  | KindDeadlineExceeded => 504
  | KindUnknown => 500
  end.

(** The sentinels of errorsx, by kind; KindUnknown has none. *)
Definition sentinel (k : Kind) : option error :=
  match k with
  | KindNotFound => Some (New k "not found")
  | KindInvalidArgument => Some (New k "invalid argument")
  | KindConflict => Some (New k "conflict")
  | KindUnauthenticated => Some (New k "unauthenticated")
  | KindPermissionDenied => Some (New k "permission denied")
  | KindFailedPrecondition => Some (New k "failed precondition")
  | KindResourceExhausted => Some (New k "resource exhausted")
  | KindUnavailable => Some (New k "unavailable")
  | KindDeadlineExceeded => Some (New k "deadline exceeded")
  | KindUnknown => None
  end.

(** ** Reference definitions: the unwrap chain *)

Fixpoint chain (e : error) : list error :=
  e :: match e with
       | EWrap _ _ e | EPermanent e | EKind _ _ (Some e) | EProvider _ _ _ _ (Some e) => chain e
       | _ => []
       end.

Definition kind_of_link (e : error) : option Kind :=
  match e with EKind k _ _ => Some k | _ => None end.

(** ** Lemmas *)

Section error_ind.
Variable P : error → Prop.
Hypothesis Hnew : ∀ m, P (ENew m).
Hypothesis Htext : ∀ m, P (EText m).
Hypothesis Hwrap : ∀ a b e, P e → P (EWrap a b e).
Hypothesis Hkind : ∀ k m, P (EKind k m None).
Hypothesis Hkinds : ∀ k m e, P e → P (EKind k m (Some e)).
Hypothesis Hperm : ∀ e, P e → P (EPermanent e).
Hypothesis Hprov : ∀ p c m r, P (EProvider p c m r None).
Hypothesis Hprovs : ∀ p c m r e, P e → P (EProvider p c m r (Some e)).
Hypothesis Hgw : ∀ st b, P (EGateway st b).

(** Induction along the unwrap chain. *)
Fixpoint error_chain_ind (e : error) : P e :=
  match e with
  | ENew m => Hnew m
  | EText m => Htext m
  | EWrap a b e => Hwrap a b e (error_chain_ind e)
  | EKind k m None => Hkind k m
  | EKind k m (Some e) => Hkinds k m e (error_chain_ind e)
  | EPermanent e => Hperm e (error_chain_ind e)
  | EProvider p c m r None => Hprov p c m r
  | EProvider p c m r (Some e) => Hprovs p c m r e (error_chain_ind e)
  | EGateway st b => Hgw st b
  end.
End error_ind.

(** The chain is what iterating [Unwrap] visits. *)
Lemma chain_Unwrap e :
  chain e = e :: match Unwrap e with Some e' => chain e' | None => [] end.
Proof. destruct e as [| | |? ? []| |? ? ? ? []|]; done. Qed.

Lemma errors_Is_chain e t :
  errors_Is e t = existsb (λ x, same_sentinel x t || method_Is x t) (chain e).
Proof.
  induction e as [| |a b e IH| |k m e IH|e IH| |p c m r e IH|] using error_chain_ind;
    simpl; try rewrite IH; by rewrite ?orb_false_r.
Qed.

Lemma errors_As_chain e : errors_As e = head (omap kind_of_link (chain e)).
Proof. induction e using error_chain_ind; simpl; done. Qed.

(** A target made by New matches by kind, whatever its text. *)
Lemma method_Is_New x k msg :
  same_sentinel x (New k msg) || method_Is x (New k msg) = bool_decide (kind_of_link x = Some k).
Proof.
  destruct x; try (by rewrite bool_decide_false); cbn -[bool_decide].
  apply bool_decide_ext. naive_solver.
Qed.
Lemma sentinel_New k : match sentinel k with Some s => ∃ msg, s = New k msg | None => k = KindUnknown end.
Proof. destruct k; cbn; by eauto. Qed.

Lemma existsb_bool_decide {A} (P : A → Prop) `{∀ x, Decision (P x)} l :
  existsb (λ x, bool_decide (P x)) l = true ↔ Exists P l.
Proof.
  rewrite existsb_exists, Exists_exists. setoid_rewrite bool_decide_eq_true.
  by setoid_rewrite list_elem_of_In.
Qed.

Lemma existsb_pointwise {A} (f g : A → bool) l :
  (∀ x, f x = g x) → existsb f l = existsb g l.
Proof. intros H. induction l as [|x l IH]; simpl; [done|]. by rewrite H, IH. Qed.

Lemma errors_Is_New e k msg :
  errors_Is e (New k msg) = true ↔ ∃ x, x ∈ chain e ∧ kind_of_link x = Some k.
Proof.
  rewrite errors_Is_chain.
  rewrite (existsb_pointwise _ (λ x, bool_decide (kind_of_link x = Some k)))
    by (intros; apply method_Is_New).
  by rewrite existsb_bool_decide, Exists_exists.
Qed.
Lemma outermost_Is e msg :
  KindOf (Some e) ≠ KindUnknown → errors_Is e (New (KindOf (Some e)) msg) = true.
Proof.
  intros Hk. apply errors_Is_New. unfold KindOf in *. rewrite errors_As_chain in *.
  induction (chain e) as [|x l IH]; [done|]. cbn in *. destruct (kind_of_link x) as [k|] eqn:Ex; cbn in *.
  - exists x. split; [left|done].
  - destruct (IH Hk) as (y & Hy & Ey). exists y. split; [by right|done].
Qed.

(** ** Properties *)

(** C29: [errors.Is(err, ErrX)] holds exactly when some [*errorsx.Error] of the
    unwrap chain of [err] has kind X, at whatever depth and behind whatever
    wrappers; so it is for any target made by New, of every kind, and every kind
    but the unknown one has its sentinel. *)
Theorem errors_Is_sentinel_iff e k :
  (∀ msg, errors_Is e (New k msg) = true ↔ ∃ x, x ∈ chain e ∧ kind_of_link x = Some k) ∧
  match sentinel k with
  | Some s => errors_Is e s = true ↔ ∃ x, x ∈ chain e ∧ kind_of_link x = Some k
  | None => k = KindUnknown
  end.
Proof.
  split; [intros msg; apply errors_Is_New|]. pose proof (sentinel_New k) as Hs.
  destruct (sentinel k) as [s|]; [|done]. destruct Hs as [msg ->]. apply errors_Is_New.
Qed.

(** the HTTP status of an error is decided by the outermost
    [*errorsx.Error] of its chain, is 500 exactly when that kind is absent or
    unknown, and any other status identifies the kind whose sentinel the error
    matches under [errors.Is]. *)
Theorem HTTPStatus_outermost e :
  KindOf (Some e) = default KindUnknown (head (omap kind_of_link (chain e))) ∧
  (HTTPStatus (Some e) = 500 ↔ KindOf (Some e) = KindUnknown) ∧
  (HTTPStatus (Some e) ≠ 500 →
   exists! k, ∃ s, sentinel k = Some s ∧ HTTPStatus (Some s) = HTTPStatus (Some e) ∧ errors_Is e s = true).
Proof.
  split_and!.
  - unfold KindOf. rewrite errors_As_chain. by destruct (head _).
  - unfold HTTPStatus. by destruct (KindOf _).
  - intros Hs. assert (KindOf (Some e) ≠ KindUnknown) as Hk by (intros E; apply Hs; unfold HTTPStatus; by rewrite E).
    exists (KindOf (Some e)). split.
    + pose proof (sentinel_New (KindOf (Some e))) as Hn. destruct (sentinel _) as [s|]; [|done]. destruct Hn as [msg ->].
      exists (New (KindOf (Some e)) msg). split_and!; [done|done|by apply outermost_Is].
    + intros k (s & E & Eh & _). pose proof (sentinel_New k) as Hn. rewrite E in Hn. destruct Hn as [msg ->].
      unfold HTTPStatus in Eh. change (KindOf (Some (New k msg))) with k in Eh. destruct (KindOf (Some e)), k; done.
Qed.
