(* ===== verification/GoStrconv.v ===== *)
(** * Package strconv

    ParseInt in base ten, FormatFloat in fixed notation, and ParseFloat.
    FormatFloat rounds the exact value of the float to the precision, ties to
    even.  ParseFloat accepts several notations and is the class [Strconv],
    whose law is its documented value on a plain whole number, with or without
    a zero fraction: the number itself when a float64 holds it. *)

From S2P Require Import Prelude GoFloat GoString GoErrors.
From stdpp Require Import base list strings.
From Stdlib Require Import ZArith Lia SpecFloat.
Open Scope Z_scope.

(** ** ParseInt(s, 10, 64) *)

Definition ErrSyntax : error := ENew "invalid syntax".
Definition ErrRange : error := ENew "value out of range".
Definition NumError (fn s : string) (err : error) : error :=
  EWrap ("strconv." +:+ fn +:+ ": parsing " +:+ quote s +:+ ": ") "" err.

Definition parse_digits (bs : list Z) : option Z :=
  if decide (bs ≠ [] ∧ Forall (λ b, 48 ≤ b < 58) bs) then Some (read_digits ((λ b, b - 48) <$> bs)) else None.
Definition parse_signed (bs : list Z) : option Z :=
  match bs with
  | b :: bs' => if b =? 45 then Z.opp <$> parse_digits bs'
                else if b =? 43 then parse_digits bs' else parse_digits bs
  | [] => None
  end.
Definition ParseInt (s : string) : result error Z :=
  match parse_signed (bytes_of s) with
  | None => Err (NumError "ParseInt" s ErrSyntax)
  | Some n => if decide (in_int64 n) then Ok n else Err (NumError "ParseInt" s ErrRange)
  end.

(** ** FormatFloat(f, 'f', prec, 64) *)

(** The integer nearest to [m * 2 ^ e], ties to even. *)
Definition round_half_even (n d : Z) : Z :=
  let q := n / d in let r := n mod d in
  if 2 * r <? d then q else if d <? 2 * r then q + 1 else if Z.even q then q else q + 1.
Definition scaled (m : Z) (e : Z) (prec : Z) : Z :=
  round_half_even (m * 10 ^ prec * 2 ^ Z.max 0 e) (2 ^ Z.max 0 (- e)).
Definition fixed_digits (n prec : Z) : string :=
  if prec =? 0 then fmt_u n
  else fmt_u (n / 10 ^ prec) +:+ "."
       +:+ string_of_digits ((λ i, n / 10 ^ (prec - 1 - i) mod 10) <$> (Z.of_nat <$> seq 0 (Z.to_nat prec))).
Definition sign_text (s : bool) : string := if s then "-" else "".
Definition FormatFloat (f : float64) (prec : Z) : string :=
  match f with
  | S754_nan => "NaN"
  | S754_infinity s => if s then "-Inf" else "+Inf"
  | S754_zero s => sign_text s +:+ fixed_digits 0 prec
  | S754_finite s m e => sign_text s +:+ fixed_digits (scaled (Z.pos m) e prec) prec
  end.

(** ** ParseFloat(s, 64) *)

Class Strconv := {
  ParseFloat : string → result error float64;
  ParseFloat_whole n : 0 ≤ n < 2 ^ 53 → ParseFloat (fmt_d n) = Ok (float_of_Z n);
  ParseFloat_cents n : 0 ≤ n < 2 ^ 53 → ParseFloat (fmt_d n +:+ ".00") = Ok (float_of_Z n)
}.

Lemma parse_digits_fmt_u n : 0 ≤ n → parse_digits (bytes_of (fmt_u n)) = Some n.
Proof.
  intros Hn. unfold parse_digits, fmt_u. rewrite bytes_of_string_of_digits by by apply fmt_digits_range.
  pose proof (fmt_digits_range n Hn) as Hr.
  rewrite decide_True.
  - f_equal. rewrite <-list_fmap_compose, (list_fmap_ext _ id), list_fmap_id; [by apply fmt_digits_read|].
    intros i x _. unfold compose, id. lia.
  - split.
    + intros E%fmap_nil_inv. unfold fmt_digits in E. cbn [dec_digits] in E.
      destruct (n <? 10); [done|]. by apply app_nil in E as [_ ?].
    + apply Forall_fmap. eapply Forall_impl; [exact Hr|]. unfold compose. cbn beta. lia.
Qed.

Lemma parse_signed_fmt_d n : parse_signed (bytes_of (fmt_d n)) = Some n.
Proof.
  unfold fmt_d. destruct (Z.ltb_spec n 0).
  - rewrite bytes_of_app. change (bytes_of "-") with [45]. cbn [app parse_signed].
    rewrite parse_digits_fmt_u by lia. simpl. f_equal. lia.
  - pose proof (parse_digits_fmt_u n) as E. pose proof (bytes_of_fmt_d n) as Hb.
    rewrite fmt_d_nonneg in Hb by done. unfold parse_signed.
    destruct (bytes_of (fmt_u n)) as [|b bs] eqn:Eb; [by apply E|].
    destruct (Z.eqb_spec b 45) as [->|]; [|destruct (Z.eqb_spec b 43) as [->|]; [|by apply E]].
    + exfalso. unfold parse_digits in E. case_decide as D; [|by specialize (E ltac:(lia))].
      destruct D as [_ D%Forall_cons_1]. lia.
    + apply Forall_cons_1 in Hb. lia.
Qed.

(** What FormatInt prints, ParseInt reads. *)
Lemma ParseInt_fmt_d n : in_int64 n → ParseInt (fmt_d n) = Ok n.
Proof. intros Hn. unfold ParseInt. by rewrite parse_signed_fmt_d, decide_True. Qed.

Lemma round_half_even_exact q d : 0 < d → round_half_even (q * d) d = q.
Proof.
  intros Hd. unfold round_half_even. rewrite Z.div_mul, Z.mod_mul by lia.
  by destruct (Z.ltb_spec (2 * 0) d); [|lia].
Qed.

Lemma fixed_digits_hundreds n : 0 ≤ n → fixed_digits (n * 100) 2 = fmt_u n +:+ ".00".
Proof.
  intros Hn. unfold fixed_digits. change (10 ^ 2) with 100. change (2 =? 0) with false. cbn iota.
  rewrite Z.div_mul by lia. do 2 f_equal. change (Z.to_nat 2) with 2%nat.
  cbn [seq fmap list_fmap]. change (10 ^ (2 - 1 - Z.of_nat 0)) with 10. change (10 ^ (2 - 1 - Z.of_nat 1)) with 1.
  replace (n * 100 / 10 mod 10) with 0 by dlia. by replace (n * 100 / 1 mod 10) with 0 by dlia.
Qed.

(** A whole number is printed with its two zeros. *)
Lemma FormatFloat_whole n : 0 ≤ n < 2 ^ 53 → FormatFloat (float_of_Z n) 2 = fmt_d n +:+ ".00".
Proof.
  intros Hn. rewrite fmt_d_nonneg by lia. destruct n as [|p|p]; [by rewrite float_of_Z_0| |lia].
  rewrite float_of_Z_pos by lia. unfold FormatFloat, scaled. cbn [sign_text].
  pose proof (norm_e_nonpos p ltac:(lia)) as He. pose proof (exact_digits p ltac:(lia)) as Hd.
  rewrite norm_m_value, Z.max_l, Z.pow_0_r, Z.mul_1_r, Z.max_r by lia.
  replace (- norm_e p) with (53 - Z.pos (digits2_pos p)) by (unfold norm_e; lia).
  change (10 ^ 2) with 100.
  rewrite <-Z.mul_assoc, (Z.mul_comm (2 ^ _) 100), Z.mul_assoc, round_half_even_exact by (apply Z.pow_pos_nonneg; lia).
  by rewrite fixed_digits_hundreds.
Qed.

(** An instance: whole numbers, with or without a zero fraction. *)
Definition parse_whole (s : string) : result error float64 :=
  let bs := bytes_of s in
  let whole := if decide (drop (length bs - 3) bs = bytes_of ".00") then take (length bs - 3) bs else bs in
  match parse_digits whole with
  | Some n => Ok (float_of_Z n)
  | None => Err (NumError "ParseFloat" s ErrSyntax)
  end.
Lemma drop_digits n k : 46 ∉ drop k (bytes_of (fmt_d n)).
Proof.
  intros Hi. assert (46 ∈ bytes_of (fmt_d n)) as Hi2 by (rewrite <-(take_drop k (bytes_of (fmt_d n))), elem_of_app; by right).
  pose proof (bytes_of_fmt_d n) as Hb. rewrite Forall_forall in Hb. specialize (Hb _ Hi2). lia.
Qed.
#[export] Program Instance whole_strconv : Strconv := {| ParseFloat := parse_whole |}.
Next Obligation.
  intros n Hn. unfold parse_whole. rewrite decide_False.
  - by rewrite fmt_d_nonneg, parse_digits_fmt_u by lia.
  - intros E. apply (drop_digits n (length (bytes_of (fmt_d n)) - 3)). rewrite E. by left.
Qed.
Next Obligation.
  intros n Hn. unfold parse_whole. rewrite bytes_of_app, length_app.
  replace (length (bytes_of (fmt_d n)) + length (bytes_of ".00") - 3)%nat with (length (bytes_of (fmt_d n)))
    by (change (length (bytes_of ".00")) with 3%nat; lia).
  rewrite drop_app_length, decide_True, take_app_length by done.
  by rewrite fmt_d_nonneg, parse_digits_fmt_u by lia.
Qed.
