(* ===== verification/Base64.v ===== *)
(** * encoding/base64, StdEncoding

    The padded standard encoding the voice adapters carry audio in.  The decoder
    skips carriage returns and line feeds, accepts padding in the last group
    only, and ignores the unused bits of a padded group. *)

From S2P Require Import Prelude GoString.
From stdpp Require Import base list strings.
From Stdlib Require Import ZArith Lia.
Open Scope Z_scope.

Definition c64 (v : Z) : Z :=
  if v <? 26 then 65 + v else if v <? 52 then 71 + v else if v <? 62 then v - 4 else if v =? 62 then 43 else 47.
Definition d64 (c : Z) : option Z :=
  if (65 <=? c) && (c <=? 90) then Some (c - 65)
  else if (97 <=? c) && (c <=? 122) then Some (c - 71)
  else if (48 <=? c) && (c <=? 57) then Some (c + 4)
  else if c =? 43 then Some 62 else if c =? 47 then Some 63 else None.
Definition padding : Z := 61.

Fixpoint encode_groups (bs : list Z) : list Z :=
  match bs with
  | b0 :: b1 :: b2 :: r =>
      c64 (b0 / 4) :: c64 (b0 mod 4 * 16 + b1 / 16) :: c64 (b1 mod 16 * 4 + b2 / 64) :: c64 (b2 mod 64) :: encode_groups r
  | [b0; b1] => [c64 (b0 / 4); c64 (b0 mod 4 * 16 + b1 / 16); c64 (b1 mod 16 * 4); padding]
  | [b0] => [c64 (b0 / 4); c64 (b0 mod 4 * 16); padding; padding]
  | [] => []
  end.
Fixpoint decode_groups (cs : list Z) : option (list Z) :=
  match cs with
  | [] => Some []
  | c0 :: c1 :: c2 :: c3 :: r =>
      v0 ← d64 c0; v1 ← d64 c1;
      if c2 =? padding then
        if (c3 =? padding) && bool_decide (r = []) then Some [v0 * 4 + v1 / 16] else None
      else
        v2 ← d64 c2;
        if c3 =? padding then
          if bool_decide (r = []) then Some [v0 * 4 + v1 / 16; v1 mod 16 * 16 + v2 / 4] else None
        else
          v3 ← d64 c3; rest ← decode_groups r;
          Some (v0 * 4 + v1 / 16 :: v1 mod 16 * 16 + v2 / 4 :: v2 mod 4 * 64 + v3 :: rest)
  | _ => None
  end.

Definition EncodeToString (bs : list Z) : string := of_bytes (encode_groups bs).
Definition DecodeString (s : string) : option (list Z) :=
  decode_groups (filter (λ c, c ≠ 10 ∧ c ≠ 13) (bytes_of s)).

(** ** Round trip *)

Lemma d64_c64 v : 0 ≤ v < 64 → d64 (c64 v) = Some v.
Proof.
  intros Hv. unfold c64, d64.
  destruct (Z.ltb_spec v 26); [|destruct (Z.ltb_spec v 52); [|destruct (Z.ltb_spec v 62); [|destruct (Z.eqb_spec v 62)]]].
  all: repeat match goal with |- context [?a <=? ?b] => destruct (Z.leb_spec a b) | |- context [?a =? ?b] => destruct (Z.eqb_spec a b) end;
    simpl; try lia; f_equal; lia.
Qed.
Lemma c64_range v : 0 ≤ v < 64 → 43 ≤ c64 v ≤ 122 ∧ c64 v ≠ 61.
Proof. intros Hv. unfold c64. repeat case_match; zbool; lia. Qed.

(** Induction by groups of three. *)
Lemma groups_ind (P : list Z → Prop) :
  P [] → (∀ a, P [a]) → (∀ a b, P [a; b]) → (∀ a b c r, P r → P (a :: b :: c :: r)) → ∀ l, P l.
Proof.
  intros H0 H1 H2 H3. fix IH 1. intros [|a [|b [|c r]]]; [done..|]. apply H3, IH.
Qed.

Lemma decode_encode_groups bs : Forall in_byte bs → decode_groups (encode_groups bs) = Some bs.
Proof.
  assert (∀ v, 0 ≤ v < 64 → (c64 v =? padding) = false) as Hp.
  { intros v Hv. apply Z.eqb_neq. unfold padding. by apply c64_range. }
  unfold in_byte. induction bs as [|a|a b|a b c r IH] using groups_ind; intros Hb;
    repeat (apply Forall_cons in Hb as [? Hb]); cbn [encode_groups decode_groups]; [done|..].
  - rewrite !d64_c64 by dlia. simpl. do 2 f_equal. dlia.
  - rewrite !d64_c64, !Hp by dlia. simpl. do 2 f_equal; [dlia|f_equal; dlia].
  - rewrite !d64_c64, !Hp, (IH Hb) by dlia. simpl. f_equal. f_equal; [dlia|f_equal; [dlia|f_equal; dlia]].
Qed.
Lemma encode_groups_range bs : Forall in_byte bs → Forall (λ c, 43 ≤ c ≤ 122) (encode_groups bs).
Proof.
  unfold in_byte. induction bs as [|a|a b|a b c r IH] using groups_ind; intros Hb;
    repeat (apply Forall_cons in Hb as [? Hb]); cbn [encode_groups]; repeat apply Forall_cons_2; try apply Forall_nil_2;
    try (by apply IH); try (unfold padding; lia); apply c64_range; dlia.
Qed.

Lemma DecodeString_EncodeToString bs : Forall in_byte bs → DecodeString (EncodeToString bs) = Some bs.
Proof.
  intros Hb. unfold DecodeString, EncodeToString. pose proof (encode_groups_range bs Hb) as Hr.
  rewrite bytes_of_of_bytes by (eapply Forall_impl; [exact Hr|unfold in_byte; cbn beta; lia]).
  replace (filter _ (encode_groups bs)) with (encode_groups bs); [by apply decode_encode_groups|].
  clear Hb. induction Hr as [|c l Hc _ IH]; [done|]. rewrite filter_cons_True by lia. by rewrite <-IH.
Qed.

(** Decoding yields bytes. *)
Lemma d64_range c v : d64 c = Some v → 0 ≤ v < 64.
Proof. unfold d64. intros H. repeat case_match; simplify_eq; zbool; lia. Qed.
Lemma decode_groups_range cs bs : decode_groups cs = Some bs → Forall in_byte bs.
Proof.
  revert cs bs. fix IH 1. intros [|c0 [|c1 [|c2 [|c3 r]]]] bs E; cbn [decode_groups] in E; try done; [by simplify_eq|].
  unfold in_byte. repeat (case_match || (apply bind_Some in E as (? & ?%d64_range & E)) || simplify_eq).
  - repeat constructor; dlia.
  - repeat constructor; dlia.
  - apply bind_Some in E as (rest & Er & E). simplify_eq. apply IH in Er. repeat (constructor; [dlia|]). done.
Qed.
Lemma DecodeString_range s bs : DecodeString s = Some bs → Forall in_byte bs.
Proof. apply decode_groups_range. Qed.
