(* ===== verification/CircuitBreaker.v ===== *)
(** * Package circuitbreaker

    The three-state breaker of src/circuitbreaker/circuitbreaker.go and its
    configuration (config.go).  Each method runs under the breaker's mutex, so
    it is one atomic function on the record [Breaker]; every clock reading it
    takes is an argument.  Logging and the state-change callback (started in a
    goroutine of its own) are the [Effect]s a method returns. *)

From S2P Require Import Prelude GoFloat GoString GoErrors.
From stdpp Require Import base list strings relations.
From Stdlib Require Import ZArith Lia SpecFloat.
Open Scope Z_scope.

Inductive State := StateClosed | StateOpen | StateHalfOpen.

#[export] Instance State_eq_dec : EqDecision State.
Proof. solve_decision. Defined.

Definition State_String (s : State) : string :=
  match s with
  | StateClosed => "closed"
  | StateOpen => "open"
  | StateHalfOpen => "half_open"
  end.

Definition ErrCircuitOpen : error := ENew "circuit breaker is open".

Record Config := {
  FailureThreshold : Z;
  SuccessThreshold : Z;
  OpenTimeout : Duration;
  MaxOpenTimeout : Duration;
  BackoffMultiplier : float64;
  HalfOpenMaxRequests : Z;
  RetryableErrors : list string;
  NonRetryableErrors : list string
}.

Definition DefaultConfig : Config := {|
  FailureThreshold := 5;
  SuccessThreshold := 2;
  OpenTimeout := 30 * Second;
  MaxOpenTimeout := 1 * Hour;
  BackoffMultiplier := float_of_Z 2;
  HalfOpenMaxRequests := 1;
  RetryableErrors :=
    ["timeout"; "connection_refused"; "connection_reset"; "dns_error"; "rate_limited";
     "service_unavailable"; "server_error"];
  NonRetryableErrors := ["auth_error"; "forbidden"; "validation_error"; "not_found"]
|}.

(** The two membership loops of IsRetryableError, with their early returns. *)
Fixpoint listed (bucket : string) (l : list string) : bool :=
  match l with
  | [] => false
  | e :: l => if bool_decide (e = bucket) then true else listed bucket l
  end.

Definition IsRetryableError (c : Config) (bucket : string) : bool :=
  if listed bucket (NonRetryableErrors c) then false
  else if listed bucket (RetryableErrors c) then true
  else true.

Record Breaker := {
  name : string;
  config : Config;
  state : State;
  failures : Z;
  successes : Z;
  halfOpenRequests : Z;
  lastStateChange : Time;
  lastFailure : Time;
  consecutiveOpens : Z;
  currentOpenTimeout : Duration;
  onStateChange : option nat          (* the registered callback, by identity *)
}.

Inductive Effect :=
| LogDebug (circuit bucket : string)
| LogInfo (circuit : string) (from to : State) (open_timeout : Duration) (opens : Z)
| GoCallback (fn : nat) (circuit : string) (from to : State).

Definition New (nm : string) (cfg : Config) (now : Time) : Breaker := {|
  name := nm; config := cfg; state := StateClosed; failures := 0; successes := 0;
  halfOpenRequests := 0; lastStateChange := now; lastFailure := time_zero;
  consecutiveOpens := 0; currentOpenTimeout := OpenTimeout cfg; onStateChange := None
|}.

(** Field updates. *)
Definition with_failures (n : Z) (b : Breaker) : Breaker := {|
  name := name b; config := config b; state := state b; failures := n;
  successes := successes b; halfOpenRequests := halfOpenRequests b;
  lastStateChange := lastStateChange b; lastFailure := lastFailure b;
  consecutiveOpens := consecutiveOpens b; currentOpenTimeout := currentOpenTimeout b;
  onStateChange := onStateChange b |}.
Definition with_successes (n : Z) (b : Breaker) : Breaker := {|
  name := name b; config := config b; state := state b; failures := failures b;
  successes := n; halfOpenRequests := halfOpenRequests b;
  lastStateChange := lastStateChange b; lastFailure := lastFailure b;
  consecutiveOpens := consecutiveOpens b; currentOpenTimeout := currentOpenTimeout b;
  onStateChange := onStateChange b |}.
Definition with_halfOpenRequests (n : Z) (b : Breaker) : Breaker := {|
  name := name b; config := config b; state := state b; failures := failures b;
  successes := successes b; halfOpenRequests := n;
  lastStateChange := lastStateChange b; lastFailure := lastFailure b;
  consecutiveOpens := consecutiveOpens b; currentOpenTimeout := currentOpenTimeout b;
  onStateChange := onStateChange b |}.
Definition with_lastFailure (t : Time) (b : Breaker) : Breaker := {|
  name := name b; config := config b; state := state b; failures := failures b;
  successes := successes b; halfOpenRequests := halfOpenRequests b;
  lastStateChange := lastStateChange b; lastFailure := t;
  consecutiveOpens := consecutiveOpens b; currentOpenTimeout := currentOpenTimeout b;
  onStateChange := onStateChange b |}.
Definition SetOnStateChange (fn : option nat) (b : Breaker) : Breaker := {|
  name := name b; config := config b; state := state b; failures := failures b;
  successes := successes b; halfOpenRequests := halfOpenRequests b;
  lastStateChange := lastStateChange b; lastFailure := lastFailure b;
  consecutiveOpens := consecutiveOpens b; currentOpenTimeout := currentOpenTimeout b;
  onStateChange := fn |}.

Definition Name (b : Breaker) : string := name b.
Definition State_ (b : Breaker) : State := state b.
Definition Failures (b : Breaker) : Z := failures b.

Section breaker.
Context `{FloatConv} `{Unicode}.

(** [time.Duration(float64(cur) * mult)], capped at a positive MaxOpenTimeout. *)
Definition backoff (c : Config) (cur : Duration) : Duration :=
  if flt (float_of_Z 0) (BackoffMultiplier c) then
    let t := int64_of_float (fmul (float_of_Z cur) (BackoffMultiplier c)) in
    if (0 <? MaxOpenTimeout c) && (MaxOpenTimeout c <? t) then MaxOpenTimeout c else t
  else cur.

Definition transitionTo (now : Time) (next : State) (b : Breaker) : Breaker * list Effect :=
  if decide (state b = next) then (b, []) else
  let prev := state b in
  let b' :=
    match next with
    | StateClosed => {|
        name := name b; config := config b; state := StateClosed; failures := 0;
        successes := 0; halfOpenRequests := 0; lastStateChange := now;
        lastFailure := lastFailure b; consecutiveOpens := 0;
        currentOpenTimeout := OpenTimeout (config b); onStateChange := onStateChange b |}
    | StateOpen => {|
        name := name b; config := config b; state := StateOpen; failures := failures b;
        successes := 0; halfOpenRequests := 0; lastStateChange := now;
        lastFailure := lastFailure b;
        consecutiveOpens :=
          if decide (prev = StateHalfOpen) then uint32 (consecutiveOpens b + 1)
          else consecutiveOpens b;
        currentOpenTimeout :=
          if decide (prev = StateHalfOpen) then backoff (config b) (currentOpenTimeout b)
          else currentOpenTimeout b;
        onStateChange := onStateChange b |}
    | StateHalfOpen => {|
        name := name b; config := config b; state := StateHalfOpen; failures := failures b;
        successes := 0; halfOpenRequests := 0; lastStateChange := now;
        lastFailure := lastFailure b; consecutiveOpens := consecutiveOpens b;
        currentOpenTimeout := currentOpenTimeout b; onStateChange := onStateChange b |}
    end in
  (b', LogInfo (name b') prev next (currentOpenTimeout b') (consecutiveOpens b') ::
       match onStateChange b' with
       | Some fn => [GoCallback fn (name b') prev next]
       | None => []
       end).

(** [now] is the reading of time.Since, [now'] the one of transitionTo. *)
Definition Allow (now now' : Time) (b : Breaker) : Breaker * list Effect * option error :=
  match state b with
  | StateClosed => (b, [], None)
  | StateOpen =>
      if currentOpenTimeout b <=? time_Sub now (lastStateChange b) then
        let '(b', fx) := transitionTo now' StateHalfOpen b in
        (with_halfOpenRequests 1 b', fx, None)
      else (b, [], Some ErrCircuitOpen)
  | StateHalfOpen =>
      if halfOpenRequests b <? HalfOpenMaxRequests (config b) then
        (with_halfOpenRequests (uint32 (halfOpenRequests b + 1)) b, [], None)
      else (b, [], Some ErrCircuitOpen)
  end.

Definition RecordSuccess (now : Time) (b : Breaker) : Breaker * list Effect :=
  match state b with
  | StateClosed => (with_failures 0 b, [])
  | StateHalfOpen =>
      let b := with_successes (uint32 (successes b + 1)) b in
      if SuccessThreshold (config b) <=? successes b then transitionTo now StateClosed b
      else (b, [])
  | StateOpen => (with_successes (uint32 (successes b + 1)) b, [])
  end.

Definition RecordFailure (errorBucket : string) (now now' : Time) (b : Breaker)
  : Breaker * list Effect :=
  if bool_decide (errorBucket = "") || negb (IsRetryableError (config b) errorBucket)
  then (b, [LogDebug (name b) errorBucket])
  else
    let b := with_lastFailure now b in
    match state b with
    | StateClosed =>
        let b := with_failures (uint32 (failures b + 1)) b in
        if FailureThreshold (config b) <=? failures b then transitionTo now' StateOpen b
        else (b, [])
    | StateHalfOpen => transitionTo now' StateOpen b
    | StateOpen => (with_failures (uint32 (failures b + 1)) b, [])
    end.

Definition Reset_ (now : Time) (b : Breaker) : Breaker * list Effect :=
  transitionTo now StateClosed b.

Record StatsRecord := {
  st_Name : string; st_State : string; st_Failures : Z; st_Successes : Z;
  st_ConsecutiveOpens : Z; st_CurrentOpenTimeout : Duration;
  st_LastStateChange : Time; st_LastFailure : Time }.

Definition Stats (b : Breaker) : StatsRecord := {|
  st_Name := name b; st_State := State_String (state b); st_Failures := failures b;
  st_Successes := successes b; st_ConsecutiveOpens := consecutiveOpens b;
  st_CurrentOpenTimeout := currentOpenTimeout b;
  st_LastStateChange := lastStateChange b; st_LastFailure := lastFailure b |}.

Definition DefaultClassify (err : option error) : string :=
  match err with
  | None => ""
  | Some e =>
      let s := ToLower (error_text e) in
      if Contains s "timeout" then "timeout"
      else if Contains s "connection refused" then "connection_refused"
      else if Contains s "connection reset" then "connection_reset"
      else if Contains s "no such host" then "dns_error"
      else if Contains s "rate limit" then "rate_limited"
      else if Contains s "503" || Contains s "502" then "service_unavailable"
      else if Contains s "500" then "server_error"
      else if Contains s "401" || Contains s "unauthorized" then "auth_error"
      else if Contains s "403" || Contains s "forbidden" then "forbidden"
      else if Contains s "400" || Contains s "validation" then "validation_error"
      else if Contains s "404" || Contains s "not found" then "not_found"
      else "unknown"
  end.

(** The clock readings of one Execute, in order. *)
Record ExecTimes := { t_since : Time; t_half : Time; t_rec : Time; t_trans : Time }.

(** [fn] is the protected call: it returns its error and the breaker as other
    goroutines (or [fn] itself) leave it.  A nil [classify] is [None]. *)
Definition Execute (t : ExecTimes) (fn : Breaker → Breaker * option error)
    (classify : option (error → string)) (b : Breaker) : Breaker * list Effect * option error :=
  match Allow (t_since t) (t_half t) b with
  | (b, fx, Some err) => (b, fx, Some err)
  | (b, fx, None) =>
      let '(b, err) := fn b in
      match err with
      | Some e =>
          let bucket := match classify with
                        | Some f => f e
                        | None => DefaultClassify (Some e)
                        end in
          let '(b, fx') := RecordFailure bucket (t_rec t) (t_trans t) b in
          (b, fx ++ fx', err)
      | None =>
          let '(b, fx') := RecordSuccess (t_trans t) b in
          (b, fx ++ fx', err)
      end
  end.

(** ** Runs: sequences of atomic method calls, in any order *)

Inductive op :=
| OAllow (now now' : Time)
| OSuccess (now : Time)
| OFailure (bucket : string) (now now' : Time)
| OReset (now : Time)
| OSetCallback (fn : option nat).

(** The state after a call, and the error Allow returned (nil for the others). *)
Definition exec (o : op) (b : Breaker) : Breaker * option error :=
  match o with
  | OAllow now now' => let '(b, _, e) := Allow now now' b in (b, e)
  | OSuccess now => (fst (RecordSuccess now b), None)
  | OFailure bucket now now' => (fst (RecordFailure bucket now now' b), None)
  | OReset now => (fst (Reset_ now b), None)
  | OSetCallback fn => (SetOnStateChange fn b, None)
  end.

Fixpoint run (os : list op) (b : Breaker) : Breaker * list (option error) :=
  match os with
  | [] => (b, [])
  | o :: os =>
      let '(b, e) := exec o b in
      let '(b, es) := run os b in (b, e :: es)
  end.

(** One call of some goroutine. *)
Inductive step : Breaker → Breaker → Prop :=
| step_op o b : step b (fst (exec o b)).

Definition reachable (nm : string) (cfg : Config) (now : Time) (b : Breaker) : Prop :=
  rtc step (New nm cfg now) b.

(** Sequential use through Execute: each call completes before the next starts. *)
Record call := {
  c_times : ExecTimes; c_err : option error; c_classify : option (error → string) }.
Fixpoint execute_all (cs : list call) (b : Breaker) : Breaker :=
  match cs with
  | [] => b
  | c :: cs =>
      execute_all cs (fst (fst (Execute (c_times c) (λ b, (b, c_err c)) (c_classify c) b)))
  end.

(** ** The invariant *)

Record valid_config (c : Config) : Prop := {
  vc_failure : 0 < FailureThreshold c < 2 ^ 32;
  vc_success : 0 < SuccessThreshold c < 2 ^ 32;
  vc_probes : 0 ≤ HalfOpenMaxRequests c < 2 ^ 32 }.

(** What holds of the fields in every state. *)
Record Base (cfg : Config) (b : Breaker) : Prop := {
  base_config : config b = cfg;
  base_failures : in_uint32 (failures b);
  base_successes : in_uint32 (successes b);
  base_opens : in_uint32 (consecutiveOpens b);
  base_timeout : 0 < MaxOpenTimeout cfg →
    currentOpenTimeout b ≤ Z.max (OpenTimeout cfg) (MaxOpenTimeout cfg) }.

(** What each state adds. *)
Definition Local (cfg : Config) (b : Breaker) : Prop :=
  match state b with
  | StateClosed =>
      failures b < FailureThreshold cfg ∧ successes b = 0 ∧ halfOpenRequests b = 0 ∧
      consecutiveOpens b = 0 ∧ currentOpenTimeout b = OpenTimeout cfg
  | StateOpen => halfOpenRequests b = 0
  | StateHalfOpen =>
      successes b < SuccessThreshold cfg ∧
      1 ≤ halfOpenRequests b ≤ Z.max 1 (HalfOpenMaxRequests cfg)
  end.

Definition Inv (cfg : Config) (b : Breaker) : Prop := Base cfg b ∧ Local cfg b.

(** One failed probe: the open timeout elapses, a probe is let through and fails. *)
Definition failed_probe (bucket : string) (now : Time) (b : Breaker) : Breaker :=
  let '(b, _, _) := Allow (lastStateChange b + currentOpenTimeout b) now b in
  fst (RecordFailure bucket now now b).

End breaker.

(** ** Lemmas *)

Section lemmas.
Context `{FloatConv} `{Unicode}.
Implicit Types (b : Breaker) (c cfg : Config).

Lemma listed_spec bucket l : listed bucket l = true ↔ bucket ∈ l.
Proof.
  induction l as [|e l IH]; simpl; [by rewrite elem_of_nil|].
  rewrite elem_of_cons. case_bool_decide as E; [split; auto|]. rewrite IH. intuition congruence.
Qed.

(** Only the deny-list exempts a bucket. *)
Lemma IsRetryableError_spec c bucket :
  IsRetryableError c bucket = true ↔ bucket ∉ NonRetryableErrors c.
Proof.
  unfold IsRetryableError. rewrite <-listed_spec.
  destruct (listed bucket (NonRetryableErrors c)), (listed bucket (RetryableErrors c)); naive_solver.
Qed.

Definition counting c (bucket : string) : Prop := bucket ≠ "" ∧ bucket ∉ NonRetryableErrors c.

Lemma RecordFailure_guard c bucket :
  bool_decide (bucket = "") || negb (IsRetryableError c bucket) = false ↔ counting c bucket.
Proof.
  rewrite orb_false_iff, negb_false_iff, bool_decide_eq_false, IsRetryableError_spec. done.
Qed.

Lemma backoff_cap c cur :
  0 < MaxOpenTimeout c → cur ≤ Z.max (OpenTimeout c) (MaxOpenTimeout c) →
  backoff c cur ≤ Z.max (OpenTimeout c) (MaxOpenTimeout c).
Proof.
  intros Hm Hc. unfold backoff. case_match; [|done].
  destruct ((0 <? MaxOpenTimeout c) && (MaxOpenTimeout c <? _)) eqn:E; [lia|].
  apply andb_false_iff in E as [E|E]; zbool; lia.
Qed.

(** The fields of [Base] and [Local] after an update. *)
Ltac inv_fields :=
  split; [split|unfold Local]; simpl; intros; try done; try apply uint32_range;
  try (unfold in_uint32 in *; lia).

Lemma Inv_New nm cfg now : valid_config cfg → Inv cfg (New nm cfg now).
Proof. intros [? ? ?]. inv_fields. Qed.

Lemma Base_closed cfg b now :
  valid_config cfg → Base cfg b → state b ≠ StateClosed →
  Inv cfg (fst (transitionTo now StateClosed b)).
Proof.
  intros [? ? ?] [E ? ? ? ?] Hs. unfold transitionTo. rewrite decide_False by done.
  rewrite E. inv_fields.
Qed.

Lemma Base_open cfg b now :
  Base cfg b → state b ≠ StateOpen → Inv cfg (fst (transitionTo now StateOpen b)).
Proof.
  intros [E ? ? ? ?] Hs. unfold transitionTo. rewrite decide_False by done.
  rewrite E. inv_fields; case_decide; auto using uint32_range, backoff_cap.
Qed.

Lemma Inv_Allow cfg now now' b :
  valid_config cfg → Inv cfg b → Inv cfg (fst (fst (Allow now now' b))).
Proof.
  intros [? ? ?] [B L]. unfold Allow, Local in *. destruct (state b) eqn:S; simpl.
  - split; [done|]. unfold Local. by rewrite S.
  - case_match; simpl; [|split; [done|]; unfold Local; by rewrite S].
    unfold transitionTo. rewrite decide_False by congruence. destruct B.
    inv_fields.
  - destruct B as [E ? ? ? ?]. case_match; simpl; zbool.
    + rewrite E in *. rewrite uint32_id by (unfold in_uint32; lia).
      inv_fields. rewrite S. lia.
    + inv_fields. by rewrite S.
Qed.

Lemma Inv_RecordSuccess cfg now b :
  valid_config cfg → Inv cfg b → Inv cfg (fst (RecordSuccess now b)).
Proof.
  intros V [B L]. pose proof V as [? ? ?]. pose proof B as [E ? ? ? ?].
  unfold RecordSuccess, Local in *. destruct (state b) eqn:S; simpl.
  - inv_fields. rewrite S. lia.
  - inv_fields. by rewrite S.
  - case_match; zbool.
    + apply Base_closed; [done| |simpl; congruence].
      split; simpl; try done. apply uint32_range.
    + rewrite E in *. inv_fields. rewrite S. lia.
Qed.

Lemma Inv_RecordFailure cfg bucket now now' b :
  valid_config cfg → Inv cfg b → Inv cfg (fst (RecordFailure bucket now now' b)).
Proof.
  intros V [B L]. pose proof B as [E ? ? ? ?].
  unfold RecordFailure. case_match; [by split|]. simpl.
  destruct (state b) eqn:S; simpl.
  - case_match; zbool.
    + apply Base_open; [|simpl; congruence]. split; simpl; try done. apply uint32_range.
    + unfold Local in *. rewrite S in *. rewrite E in *. inv_fields. rewrite S. lia.
  - unfold Local in *. rewrite S in *. inv_fields. by rewrite S.
  - apply Base_open; [by split|simpl; congruence].
Qed.

Lemma Inv_Reset cfg now b : valid_config cfg → Inv cfg b → Inv cfg (fst (Reset_ now b)).
Proof.
  intros V [B L]. unfold Reset_. destruct (decide (state b = StateClosed)) as [S|S].
  - unfold transitionTo. rewrite decide_True by done. by split.
  - by apply Base_closed.
Qed.

Lemma Inv_exec cfg o b : valid_config cfg → Inv cfg b → Inv cfg (fst (exec o b)).
Proof.
  intros V I. destruct o as [now now'|now|bucket now now'|now|fn]; simpl.
  - pose proof (Inv_Allow cfg now now' b V I). by destruct (Allow now now' b) as [[??]?].
  - by apply Inv_RecordSuccess.
  - by apply Inv_RecordFailure.
  - by apply Inv_Reset.
  - destruct I as [[] L]. split; [by split|]. done.
Qed.

Lemma transitionTo_state now next b : state (fst (transitionTo now next b)) = next.
Proof. unfold transitionTo. destruct (decide _); [done|]. by destruct next. Qed.

(** An operation other than Reset whose clock reading is before the end of the
    open interval. *)
Definition before_timeout b (o : op) : Prop :=
  match o with
  | OAllow now _ => time_Sub now (lastStateChange b) < currentOpenTimeout b
  | OReset _ => False
  | _ => True
  end.

Lemma exec_open b o :
  state b = StateOpen → before_timeout b o →
  state (fst (exec o b)) = StateOpen ∧
  lastStateChange (fst (exec o b)) = lastStateChange b ∧
  currentOpenTimeout (fst (exec o b)) = currentOpenTimeout b ∧
  (∀ now now', o = OAllow now now' → snd (exec o b) = Some ErrCircuitOpen).
Proof.
  intros S Hb. destruct o as [now now'|now|bucket now now'|now|fn]; simpl in *; try done.
  - unfold Allow. rewrite S. destruct (Z.leb_spec (currentOpenTimeout b) (time_Sub now (lastStateChange b)));
      [lia|]. done.
  - unfold RecordSuccess. by rewrite S.
  - unfold RecordFailure. case_match; [done|]. simpl. by rewrite S.
Qed.

(** The outcome of the [n]-th counting failure after a fresh start. *)
Lemma RecordFailure_closed b bucket now now' :
  counting (config b) bucket → state b = StateClosed →
  fst (RecordFailure bucket now now' b) =
  let b' := with_failures (uint32 (failures b + 1)) (with_lastFailure now b) in
  if FailureThreshold (config b) <=? uint32 (failures b + 1)
  then fst (transitionTo now' StateOpen b') else b'.
Proof.
  intros C S. unfold RecordFailure. rewrite (proj2 (RecordFailure_guard _ _) C). simpl. rewrite S.
  by case_match.
Qed.

(** Probes admitted bound the successes counted, and cannot reach the threshold. *)
Definition probe_starved b : Prop :=
  match state b with
  | StateClosed => False
  | StateOpen => True
  | StateHalfOpen =>
      0 ≤ successes b ≤ halfOpenRequests b ∧
      1 ≤ halfOpenRequests b ≤ Z.max 1 (HalfOpenMaxRequests (config b))
  end.

Lemma RecordFailure_not_closed bucket now now' b :
  state b ≠ StateClosed → config (fst (RecordFailure bucket now now' b)) = config b ∧
  (probe_starved b → probe_starved (fst (RecordFailure bucket now now' b))).
Proof.
  intros S. unfold RecordFailure. case_match; [done|]. simpl.
  destruct (state b) eqn:E; [done| |]; unfold probe_starved; simpl; rewrite ?E; [done|].
  unfold transitionTo. simpl. rewrite E. rewrite decide_False by done. done.
Qed.

(** A call let through in half-open state, before its outcome is recorded. *)
Definition in_flight b : Prop :=
  state b = StateHalfOpen ∧ 0 ≤ successes b < halfOpenRequests b ∧
  halfOpenRequests b ≤ Z.max 1 (HalfOpenMaxRequests (config b)).

Lemma Allow_starved now now' b :
  valid_config (config b) → probe_starved b →
  match Allow now now' b with
  | (b', _, None) => config b' = config b ∧ in_flight b'
  | (b', _, Some _) => b' = b
  end.
Proof.
  intros [? ? ?] P. unfold Allow, probe_starved, in_flight in *. destruct (state b) eqn:S; [done| |].
  - destruct (currentOpenTimeout b <=? time_Sub now (lastStateChange b)); [|done]. unfold transitionTo. rewrite decide_False by congruence.
    simpl. split_and!; done || lia.
  - destruct (Z.ltb_spec (halfOpenRequests b) (HalfOpenMaxRequests (config b))); [|done]. simpl. rewrite uint32_id by (unfold in_uint32; lia).
    split_and!; done || lia.
Qed.

Lemma RecordSuccess_in_flight now b :
  valid_config (config b) → Z.max 1 (HalfOpenMaxRequests (config b)) < SuccessThreshold (config b) →
  in_flight b → config (fst (RecordSuccess now b)) = config b ∧ probe_starved (fst (RecordSuccess now b)).
Proof.
  intros [? ? ?] Hst (S & ? & ?). unfold RecordSuccess. rewrite S. simpl.
  rewrite uint32_id by (unfold in_uint32; lia).
  destruct (Z.leb_spec (SuccessThreshold (config b)) (successes b + 1)); [lia|].
  unfold probe_starved. simpl. rewrite S. split_and!; done || lia.
Qed.

Lemma in_flight_starved b : in_flight b → probe_starved b.
Proof. intros (S & ? & ?). unfold probe_starved. rewrite S. lia. Qed.

Lemma Execute_starved t r cl b :
  valid_config (config b) → Z.max 1 (HalfOpenMaxRequests (config b)) < SuccessThreshold (config b) →
  probe_starved b →
  let b' := fst (fst (Execute t (λ b, (b, r)) cl b)) in
  config b' = config b ∧ probe_starved b'.
Proof.
  intros V Hst P b'. subst b'. unfold Execute.
  pose proof (Allow_starved (t_since t) (t_half t) b V P) as HA.
  destruct (Allow (t_since t) (t_half t) b) as [[b1 fx] [e|]]; simpl; [by subst|].
  destruct HA as [E F]. rewrite <-E in V, Hst |- *. destruct r as [e|].
  - destruct (RecordFailure_not_closed
      (match cl with Some f => f e | None => DefaultClassify (Some e) end)
      (t_rec t) (t_trans t) b1) as [HC HP]; [destruct F as [-> _]; done|].
    destruct (RecordFailure _ _ _ b1). simpl in *. auto using in_flight_starved.
  - pose proof (RecordSuccess_in_flight (t_trans t) b1 V Hst F).
    by destruct (RecordSuccess (t_trans t) b1).
Qed.

Lemma open_stays bks t t' b :
  state b = StateOpen →
  state (fst (run ((λ bk, OFailure bk t t') <$> bks) b)) = StateOpen.
Proof.
  revert b. induction bks as [|bk bks IH]; intros b S; [done|]. cbn [fmap list_fmap run].
  destruct (exec_open b (OFailure bk t t') S I) as (S' & _).
  destruct (exec (OFailure bk t t') b) as [b' e]. pose proof (IH b' S').
  by destruct (run _ b').
Qed.

(** A run of counting failures on a closed breaker. *)
Lemma run_failures cfg buckets t t' b :
  valid_config cfg → Forall (counting cfg) buckets →
  config b = cfg → state b = StateClosed → 0 ≤ failures b < FailureThreshold cfg →
  state (fst (run ((λ bk, OFailure bk t t') <$> buckets) b)) =
  if failures b + Z.of_nat (length buckets) <? FailureThreshold cfg then StateClosed else StateOpen.
Proof.
  intros [? ? ?] Hb. revert b. induction Hb as [|bk bks Hbk Hbks IH]; intros b Ec Es Hf.
  { cbn. rewrite Z.add_0_r, (proj2 (Z.ltb_lt _ _)) by lia. done. }
  cbn [fmap list_fmap run exec]. rewrite <-Ec in Hbk.
  rewrite RecordFailure_closed by done. rewrite Ec. cbv zeta.
  rewrite uint32_id by (unfold in_uint32; lia). cbn [length]. rewrite Nat2Z.inj_succ.
  destruct (Z.leb_spec (FailureThreshold cfg) (failures b + 1)).
  - destruct (Z.ltb_spec (failures b + Z.succ (Z.of_nat (length bks))) (FailureThreshold cfg)); [lia|].
    match goal with |- context [run ?l ?x] => set (b1 := x) end.
    assert (state b1 = StateOpen) as S1 by apply transitionTo_state.
    pose proof (open_stays bks t t' b1 S1). by destruct (run _ b1).
  - match goal with |- context [run ?l ?x] => set (b1 := x) end.
    pose proof (IH b1 Ec Es ltac:(simpl; lia)) as IH1. destruct (run _ b1). simpl in *.
    rewrite IH1. replace (failures b + 1 + Z.of_nat (length bks))
      with (failures b + Z.succ (Z.of_nat (length bks))) by lia. done.
Qed.

Lemma backoff_exact c cur m :
  BackoffMultiplier c = float_of_Z m → 1 ≤ m → 0 < cur ≤ MaxOpenTimeout c →
  m * MaxOpenTimeout c < 2 ^ 53 → backoff c cur = Z.min (MaxOpenTimeout c) (cur * m).
Proof.
  intros Em Hm Hc Hx. unfold backoff. rewrite Em.
  assert (exact_int m ∧ exact_int cur ∧ exact_int (cur * m)) as (? & ? & ?)
    by (unfold exact_int; split_and!; nia).
  rewrite flt_exact, fmul_exact, int64_of_float_exact by (done || lia).
  rewrite (proj2 (Z.ltb_lt 0 m)) by lia. rewrite (proj2 (Z.ltb_lt 0 _)) by lia. simpl.
  case_match; zbool; lia.
Qed.

Lemma failed_probe_open bucket now b :
  counting (config b) bucket → state b = StateOpen →
  - 2 ^ 62 < currentOpenTimeout b < 2 ^ 62 →
  let b' := failed_probe bucket now b in
  config b' = config b ∧ state b' = StateOpen ∧
  currentOpenTimeout b' = backoff (config b) (currentOpenTimeout b).
Proof.
  intros C S Ht b'. subst b'. unfold failed_probe, Allow. rewrite S.
  rewrite time_Sub_exact by (unfold in_int64, MinInt64, MaxInt64; lia).
  destruct (Z.leb_spec (currentOpenTimeout b)
    (lastStateChange b + currentOpenTimeout b - lastStateChange b)); [|lia].
  assert (state b ≠ StateHalfOpen) by congruence.
  unfold transitionTo, RecordFailure. rewrite !decide_False by done. simpl.
  by rewrite !(proj2 (RecordFailure_guard _ _) C).
Qed.

(** ** Properties *)

(** C1: every state a breaker can reach, through any sequence of calls by any
    number of goroutines, satisfies the invariant: the configuration is fixed,
    the counters stay within uint32, a closed breaker is below its failure
    threshold with its backoff reset, a half-open one is below its success
    threshold and has admitted at least one and at most
    max(1, HalfOpenMaxRequests) probes, and the open timeout never exceeds the
    cap. *)
Theorem breaker_invariant nm cfg now b :
  valid_config cfg → reachable nm cfg now b → Inv cfg b.
Proof.
  intros V R. unfold reachable in R. remember (New nm cfg now) as b0 eqn:E.
  assert (Inv cfg b0) as I0 by (subst; by apply Inv_New). clear E.
  induction R as [|b1 b2 b3 [o ?] _ IH]; [done|]. by apply IH, Inv_exec.
Qed.

(** C24: a breaker changes state only along the documented edges, each under its
    guard: closed to open on the counting failure that reaches the threshold,
    open to half-open on an Allow after the open timeout, half-open to open on
    any counting failure, half-open to closed on the success that reaches the
    threshold, and to closed on Reset. *)
Theorem breaker_transitions o b :
  state (fst (exec o b)) ≠ state b →
  match state b, state (fst (exec o b)) with
  | StateClosed, StateOpen =>
      ∃ bucket now now', o = OFailure bucket now now' ∧ counting (config b) bucket ∧
        FailureThreshold (config b) ≤ uint32 (failures b + 1)
  | StateOpen, StateHalfOpen =>
      ∃ now now', o = OAllow now now' ∧ currentOpenTimeout b ≤ time_Sub now (lastStateChange b)
  | StateHalfOpen, StateOpen =>
      ∃ bucket now now', o = OFailure bucket now now' ∧ counting (config b) bucket
  | StateHalfOpen, StateClosed =>
      (∃ now, o = OSuccess now ∧ SuccessThreshold (config b) ≤ uint32 (successes b + 1)) ∨
      (∃ now, o = OReset now)
  | StateOpen, StateClosed => ∃ now, o = OReset now
  | _, _ => False
  end.
Proof.
  destruct o as [now now'|now|bucket now now'|now|fn]; simpl.
  - unfold Allow. destruct (state b) eqn:S; simpl; [by intros []| |].
    + destruct (Z.leb_spec (currentOpenTimeout b) (time_Sub now (lastStateChange b)));
        simpl; [|by intros []].
      unfold transitionTo. rewrite decide_False by congruence. simpl. intros _. eauto.
    + destruct (halfOpenRequests b <? HalfOpenMaxRequests (config b)); by intros [].
  - unfold RecordSuccess. destruct (state b) eqn:S; simpl; rewrite ?S; try (by intros []).
    destruct (Z.leb_spec (SuccessThreshold (config b)) (uint32 (successes b + 1)));
      simpl; rewrite ?S; [|by intros []]. rewrite transitionTo_state. eauto.
  - unfold RecordFailure.
    destruct (bool_decide _ || _) eqn:G; [by intros []|]. apply RecordFailure_guard in G. simpl.
    destruct (state b) eqn:S; simpl; rewrite ?S; try (by intros []).
    + destruct (Z.leb_spec (FailureThreshold (config b)) (uint32 (failures b + 1)));
        simpl; rewrite ?S; [|by intros []]. rewrite transitionTo_state. eauto 6.
    + rewrite transitionTo_state. eauto 6.
  - unfold Reset_. rewrite transitionTo_state. destruct (state b); eauto.
  - by intros [].
Qed.

(** while open, every call is rejected until the open timeout has elapsed,
    whatever sequence of other methods (short of Reset) runs in between. *)
Theorem open_rejects os b :
  state b = StateOpen → Forall (before_timeout b) os →
  state (fst (run os b)) = StateOpen ∧
  ∀ i now now', os !! i = Some (OAllow now now') →
    snd (run os b) !! i = Some (Some ErrCircuitOpen).
Proof.
  revert b. induction os as [|o os IH]; intros b S Hf; simpl; [split; [done|]; naive_solver|].
  inversion Hf as [|? ? Ho Hos]; subst.
  destruct (exec_open b o S Ho) as (S' & T1 & T2 & HA).
  destruct (exec o b) as [b' e] eqn:E; simpl in *.
  destruct (IH b' S') as [HS HR].
  { eapply Forall_impl; [exact Hos|]. intros [] ?; simpl in *; try done. by rewrite T1, T2. }
  destruct (run os b') as [b'' es]; simpl in *. split; [done|].
  intros [|i] now now' Hi; simpl in *; simplify_eq; [by erewrite HA|by eapply HR].
Qed.

(** from a freshly closed breaker, a run of counting failures trips it on
    exactly the FailureThreshold-th one. *)
Theorem trips_at_threshold nm cfg now (buckets : list string) t t' :
  valid_config cfg → Forall (counting cfg) buckets →
  let b := fst (run ((λ bk, OFailure bk t t') <$> buckets) (New nm cfg now)) in
  state b = if Z.of_nat (length buckets) <? FailureThreshold cfg then StateClosed else StateOpen.
Proof. intros V Hb b. apply (run_failures cfg); try done. destruct V. simpl. lia. Qed.

(** C13: when SuccessThreshold exceeds max(1, HalfOpenMaxRequests) a breaker
    that has opened never closes again under calls of Execute made one after
    another, however many succeed and however long one waits: admitted probes are never given back,
    so the successes of one half-open period cannot reach the threshold.  The
    default configuration is such a configuration. *)
Theorem starved_breaker_never_closes cs b :
  valid_config (config b) →
  Z.max 1 (HalfOpenMaxRequests (config b)) < SuccessThreshold (config b) →
  state b = StateOpen →
  state (execute_all cs b) ≠ StateClosed.
Proof.
  intros V Hst S. assert (probe_starved b) as P by (unfold probe_starved; by rewrite S). clear S.
  revert b V Hst P. induction cs as [|c cs IH]; intros b V Hst P; simpl.
  { unfold probe_starved in P. intros E. by rewrite E in P. }
  destruct (Execute_starved (c_times c) (c_err c) (c_classify c) b V Hst P) as [E P'].
  apply IH; by rewrite ?E.
Qed.

(** with an integral multiplier [m] the open timeout after [k] consecutive
    failed probes is exactly OpenTimeout * m^k, capped at MaxOpenTimeout, as
    long as the products stay in the range of exact float64 integers. *)
Theorem backoff_exponential k m bucket now b :
  counting (config b) bucket → state b = StateOpen →
  BackoffMultiplier (config b) = float_of_Z m → 1 ≤ m →
  currentOpenTimeout b = OpenTimeout (config b) →
  0 < OpenTimeout (config b) ≤ MaxOpenTimeout (config b) →
  m * MaxOpenTimeout (config b) < 2 ^ 53 →
  currentOpenTimeout (Nat.iter k (failed_probe bucket now) b) =
  Z.min (MaxOpenTimeout (config b)) (OpenTimeout (config b) * m ^ Z.of_nat k).
Proof.
  intros C S Em Hm Et Ho Hx.
  assert (∀ k, let b' := Nat.iter k (failed_probe bucket now) b in
    config b' = config b ∧ state b' = StateOpen ∧
    currentOpenTimeout b' =
      Z.min (MaxOpenTimeout (config b)) (OpenTimeout (config b) * m ^ Z.of_nat k)) as G;
    [|apply G].
  clear k. intros k. induction k as [|k IH]; [simpl; split_and!; done || lia|].
  rewrite Nat.iter_succ. set (b' := Nat.iter k (failed_probe bucket now) b) in *. cbv zeta in *.
  destruct IH as (E & S' & Ht).
  assert (0 < m ^ Z.of_nat k) by (apply Z.pow_pos_nonneg; lia).
  assert (0 < currentOpenTimeout b' ≤ MaxOpenTimeout (config b)) as Hr by (rewrite Ht; nia).
  destruct (failed_probe_open bucket now b') as (E1 & S1 & T1); [by rewrite E|done|nia|].
  split_and!; [by rewrite E1|done|]. rewrite T1, E, (backoff_exact _ _ m) by done.
  rewrite Ht, Nat2Z.inj_succ, Z.pow_succ_r by lia. nia.
Qed.
End lemmas.

(** ** Witnesses *)

Definition tripped : Breaker :=
  fst (run (replicate 5 (OFailure "timeout" 0 0)) (New "db" DefaultConfig 0)).

Lemma DefaultConfig_valid : valid_config DefaultConfig.
Proof. split; done. Qed.

Lemma timeout_counts : counting DefaultConfig "timeout".
Proof. split; [done|]. rewrite <-listed_spec. done. Qed.

Lemma breaker_invariant_witness :
  Inv DefaultConfig (fst (exec (OFailure "timeout" 1 2) (New "db" DefaultConfig 0))).
Proof.
  apply (breaker_invariant "db" DefaultConfig 0 _ DefaultConfig_valid).
  eapply rtc_l; [apply step_op|apply rtc_refl].
Defined.

Lemma breaker_transitions_witness :
  ∃ now now', OAllow (30 * Second) 5 = OAllow now now' ∧
    currentOpenTimeout tripped ≤ time_Sub now (lastStateChange tripped).
Proof. apply (breaker_transitions (OAllow (30 * Second) 5) tripped). by vm_compute. Defined.

Lemma open_rejects_witness :
  snd (run [OFailure "timeout" 1 1; OAllow (29 * Second) 0] tripped) !! 1%nat =
  Some (Some ErrCircuitOpen).
Proof.
  apply (proj2 (open_rejects [OFailure "timeout" 1 1; OAllow (29 * Second) 0] tripped
    eq_refl ltac:(repeat constructor)) 1%nat (29 * Second) 0). done.
Defined.

Lemma trips_at_threshold_witness :
  state (fst (run ((λ bk, OFailure bk 0 0) <$> replicate 5 "timeout") (New "db" DefaultConfig 0)))
  = StateOpen.
Proof.
  rewrite (trips_at_threshold "db" DefaultConfig 0 (replicate 5 "timeout") 0 0);
    [done|apply DefaultConfig_valid|apply Forall_replicate, timeout_counts].
Defined.

(** One million nanoseconds apart, two successful calls after the timeout. *)
Lemma starved_breaker_never_closes_witness :
  let ok t := {| c_times := {| t_since := t; t_half := t; t_rec := t; t_trans := t |};
                 c_err := None; c_classify := None |} in
  state (execute_all [ok (31 * Second); ok (32 * Second)] tripped) ≠ StateClosed.
Proof.
  intros ok. apply starved_breaker_never_closes; [apply DefaultConfig_valid|done|done].
Defined.

Lemma backoff_exponential_witness :
  currentOpenTimeout (Nat.iter 3 (failed_probe "timeout" 7) tripped) = 240 * Second.
Proof.
  rewrite (backoff_exponential 3 2 "timeout" 7 tripped); [done|apply timeout_counts|..]; by vm_compute.
Defined.
