(* ===== verification/Platform.v ===== *)
(** * Packages environment, signals, identity/jwt, crypto/password, storage/r2

    The small packages around a service: which environment it runs in, its
    shutdown on a signal, and the wrappers over the token, password and object
    storage libraries, which are parameters. *)

From S2P Require Import Prelude GoString GoErrors.
From stdpp Require Import base list gmap strings relations.
From Stdlib Require Import ZArith Lia.
Open Scope Z_scope.

(** ** environment *)

Module Environment.
Definition Development : string := "development".
Definition Testing : string := "testing".
Definition Staging : string := "staging".
Definition Production : string := "production".
Definition defaultEnvVar : string := "ENVIRONMENT".

(** currentEnv under its sync.Once: unset until the first read. *)
Definition state : Type := option string.
Section environment.
Context `{Unicode}.
Definition classify (value : string) : string :=
  let envValue := ToLower value in
  if String.eqb envValue Development then Development
  else if String.eqb envValue Testing then Testing
  else if String.eqb envValue Staging then Staging
  else if String.eqb envValue Production then Production
  else Production.
(** [getenv] is os.Getenv at the time of the call. *)
Definition GetEnvironment (getenv : string → string) (s : state) : string * state :=
  match s with
  | Some env => (env, s)
  | None => let env := classify (getenv defaultEnvVar) in (env, Some env)
  end.
Definition is_env (env : string) (getenv : string → string) (s : state) : bool * state :=
  let '(e, s) := GetEnvironment getenv s in (String.eqb e env, s).
Definition IsDevelopment := is_env Development.
Definition IsTesting := is_env Testing.
Definition IsStaging := is_env Staging.
Definition IsProduction := is_env Production.
End environment.
End Environment.

(** ** signals *)

Module Signals.
(** A signal by its number. *)
Definition SIGINT : Z := 2.
Definition SIGTERM : Z := 15.
Definition DefaultSignals : list Z := [SIGINT; SIGTERM].

(** os/signal relays all signals when none is named. *)
Definition relayed (sigs : list Z) (s : Z) : bool := bool_decide (sigs = []) || bool_decide (s ∈ sigs).

(** The goroutine of NotifyContextFor: at its select, with a signal taken, at
    signal.Stop, done. *)
Inductive pc := AtSelect | Took | AtStop | Exited.
(** The channel holds one signal; [cancelled]: ctx is done; [received]: a
    relayed signal was sent to the process while the channel was registered. *)
Record World := { buffer : option Z; registered : bool; cancelled : bool; at_ : pc; received : list Z; asked : bool }.
Definition NotifyContextFor : World :=
  {| buffer := None; registered := true; cancelled := false; at_ := AtSelect; received := []; asked := false |}.

Inductive event :=
| Signal (s : Z)        (* the process gets a signal *)
| Cancel                (* the returned cancel, or the parent is cancelled *)
| Receive               (* case <-ch *)
| DoCancel              (* cancel() of that case *)
| SeeDone               (* case <-ctx.Done() *)
| StopCh.               (* signal.Stop(ch) *)
(** The send to the channel does not block: a full buffer drops the signal. *)
Definition exec (sigs : list Z) (e : event) (w : World) : option World :=
  match e with
  | Signal s =>
      if registered w && relayed sigs s then
        Some {| buffer := match buffer w with Some b => Some b | None => Some s end; registered := true;
                cancelled := cancelled w; at_ := at_ w; received := received w ++ [s]; asked := asked w |}
      else Some w
  | Cancel => Some {| buffer := buffer w; registered := registered w; cancelled := true; at_ := at_ w;
                      received := received w; asked := true |}
  | Receive =>
      match at_ w, buffer w with
      | AtSelect, Some _ => Some {| buffer := None; registered := registered w; cancelled := cancelled w; at_ := Took;
                                    received := received w; asked := asked w |}
      | _, _ => None
      end
  | DoCancel =>
      match at_ w with
      | Took => Some {| buffer := buffer w; registered := registered w; cancelled := true; at_ := AtStop;
                        received := received w; asked := asked w |}
      | _ => None
      end
  | SeeDone =>
      match at_ w with
      | AtSelect => if cancelled w then Some {| buffer := buffer w; registered := registered w; cancelled := true;
                                                at_ := AtStop; received := received w; asked := asked w |} else None
      | _ => None
      end
  | StopCh =>
      match at_ w with
      | AtStop => Some {| buffer := buffer w; registered := false; cancelled := cancelled w; at_ := Exited;
                          received := received w; asked := asked w |}
      | _ => None
      end
  end.
Definition NotifyContext (e : event) (w : World) : option World := exec DefaultSignals e w.

(** WaitFor: the buffer and ctx when the select looks; both ready is either. *)
Definition WaitFor (buffer : option Z) (done : bool) (pick_signal : bool) : option (option Z) :=
  match buffer, done with
  | Some s, false => Some (Some s)
  | None, true => Some None
  | Some s, true => Some (if pick_signal then Some s else None)
  | None, false => None
  end.
End Signals.

(** ** crypto/password *)

Module Password.
Definition DefaultCost : Z := 12.
Definition ErrMismatch : error := ENew "password: mismatch".
Class Bcrypt := {
  GenerateFromPassword : string → Z → result error string;
  CompareHashAndPassword : string → string → option error;
  Cost : string → result error Z;
  ErrMismatchedHashAndPassword : error;
  compare_generate p c h : GenerateFromPassword p c = Ok h → CompareHashAndPassword h p = None;
  cost_generate p c h : 4 ≤ c ≤ 31 → GenerateFromPassword p c = Ok h → Cost h = Ok c
}.
Section password.
Context `{Bcrypt}.
Definition HashWithCost (plain : string) (cost : Z) : result error string :=
  match GenerateFromPassword plain cost with Err err => Err err | Ok b => Ok b end.
Definition Hash (plain : string) : result error string := HashWithCost plain DefaultCost.
Definition Verify (hash plain : string) : option error :=
  match CompareHashAndPassword hash plain with
  | Some err => if errors_Is err ErrMismatchedHashAndPassword then Some ErrMismatch else Some err
  | None => None
  end.
Definition NeedsRehash (hash : string) (targetCost : Z) : result error bool :=
  match Cost hash with Err err => Err err | Ok c => Ok (c <? targetCost) end.
End password.
End Password.

(** ** identity/jwt *)

Module Jwt.
Inductive method := HS256 | HS384 | HS512 | OtherMethod (alg : string).
Definition alg (m : method) : string :=
  match m with HS256 => "HS256" | HS384 => "HS384" | HS512 => "HS512" | OtherMethod a => a end.
Definition is_hmac (m : method) : bool := match m with OtherMethod _ => false | _ => true end.
Record Signer := { secret : string }.
Definition New (s : string) : result error Signer :=
  if String.eqb s "" then Err (EText "jwt: empty secret") else Ok {| secret := s |}.

(** The library: signing, and parsing with a function that answers the key of
    the method a token names. *)
Class JWT (T : Type) := {
  SignedString : method → T → string → result error string;
  ParseWithClaims : string → (method → result error string) → result error (T * bool);
  signed_with : string → method → T → string → Prop;   (* token, method, claims, key *)
  (** A token parses without an error when the key of its method verifies it. *)
  parse_verified tok kf c v : ParseWithClaims tok kf = Ok (c, v) → ∃ m k, kf m = Ok k ∧ signed_with tok m c k;
  (** A token signed with a method is parsed with the key it was signed with,
      while its claims are valid. *)
  claims_valid : T → Prop;
  parse_signed m c k tok kf : SignedString m c k = Ok tok → kf m = Ok k → claims_valid c →
    ParseWithClaims tok kf = Ok (c, true)
}.
Section jwt.
Context {T : Type} `{JWT T}.
Definition Issue (s : Signer) (claims : T) : result error string := SignedString HS256 claims (secret s).
Definition keyfunc (s : Signer) (m : method) : result error string :=
  if negb (is_hmac m) then Err (EText ("jwt: unexpected signing method: " +:+ alg m)) else Ok (secret s).
(** The claims have the type asked for: they are decoded into [empty]. *)
Definition Parse (s : Signer) (tok : string) : result error T :=
  match ParseWithClaims tok (keyfunc s) with
  | Err err => Err err
  | Ok (claims, valid) => if negb valid then Err (EText "jwt: invalid token") else Ok claims
  end.
End jwt.
Record RegisteredClaims := { Issuer : string; Subject : string; IssuedAt : Time; NotBefore : Time; ExpiresAt : Time }.
(** [date] is NewNumericDate, [now] the clock. *)
Definition StandardTTL (date : Time → Time) (now : Time) (issuer subject : string) (ttl : Duration) : RegisteredClaims :=
  {| Issuer := issuer; Subject := subject; IssuedAt := date now; NotBefore := date now;
     ExpiresAt := date (time_Add now ttl) |}.
End Jwt.

(** ** storage/r2 *)

Module R2.
Record Config := { AccessKey : string; SecretKey : string; Endpoint : string; Subdomain : string; BucketName : string }.
(** What is asked of S3. *)
Inductive s3_call :=
| PutObject (bucket key : string) (body : list Z) (contentType cacheControl : string)
| GetObjectRequest (bucket key : string) (expiry : Duration)
| DeleteObject (bucket key : string).
Class S3 := {
  NewSession : string → option error;
  s3_answer : list s3_call → s3_call → result error string   (* a URL for the signed request *)
}.
Section r2.
Context `{S3}.
Definition New (cfg : option Config) : result error Config :=
  match cfg with
  | None => Err (EText "r2: incomplete configuration")
  | Some c =>
      if String.eqb (AccessKey c) "" || String.eqb (SecretKey c) "" || String.eqb (Endpoint c) ""
      then Err (EText "r2: incomplete configuration")
      else match NewSession (Endpoint c) with
           | Some err => Err (EWrap "r2: create session: " "" err)
           | None => Ok c
           end
  end.
Definition Upload (c : Config) (key : string) (content : list Z) (contentType : string) (sent : list s3_call)
    : result error string * list s3_call :=
  let call := PutObject (BucketName c) key content contentType "max-age=3600" in
  (match s3_answer sent call with
   | Err err => Err (EWrap ("r2: upload " +:+ key +:+ ": ") "" err)
   | Ok _ => if String.eqb (Subdomain c) "" then Ok "" else Ok ("https://" +:+ Subdomain c +:+ "/" +:+ key)
   end, sent ++ [call]).
Definition GetSignedURL (c : Config) (key : string) (expiry : Duration) (sent : list s3_call)
    : result error string * list s3_call :=
  let call := GetObjectRequest (BucketName c) key expiry in
  (match s3_answer sent call with
   | Err err => Err (EWrap ("r2: presign " +:+ key +:+ ": ") "" err)
   | Ok url => Ok url
   end, sent ++ [call]).
Definition Delete (c : Config) (key : string) (sent : list s3_call) : option error * list s3_call :=
  let call := DeleteObject (BucketName c) key in
  (match s3_answer sent call with
   | Err err => Some (EWrap ("r2: delete " +:+ key +:+ ": ") "" err)
   | Ok _ => None
   end, sent ++ [call]).
End r2.
End R2.

(** ** The environment is read once *)

Section environment.
Context `{Unicode}.
Import Environment.

(** the first read decides the environment for the life of the process:
    later reads return it whatever the variable says by then.  It is one of the
    four, exactly one of the predicates holds, and it is other than production
    only when the variable names it, in any case; unset or unknown is
    production. *)
Theorem environment_decided_once g g' :
  let '(e, s) := GetEnvironment g None in
  GetEnvironment g' s = (e, s) ∧
  e ∈ [Development; Testing; Staging; Production] ∧
  (e ≠ Production → ToLower (g defaultEnvVar) = e) ∧
  length (filter (λ b, b = true) [(IsDevelopment g' s).1; (IsTesting g' s).1; (IsStaging g' s).1; (IsProduction g' s).1]) = 1%nat.
Proof.
  cbn [GetEnvironment]. set (v := g defaultEnvVar). split; [done|].
  unfold IsDevelopment, IsTesting, IsStaging, IsProduction, is_env. cbn [GetEnvironment fst].
  unfold classify. cbn zeta.
  destruct (String.eqb_spec (ToLower v) Development); [split_and!; [set_solver|done..]|].
  destruct (String.eqb_spec (ToLower v) Testing); [split_and!; [set_solver|done..]|].
  destruct (String.eqb_spec (ToLower v) Staging); [split_and!; [set_solver|done..]|].
  destruct (String.eqb _ Production); (split_and!; [set_solver|done..]).
Qed.
End environment.

(** ** Shutdown on a signal *)

Module SignalProofs.
Import Signals.
Section signals.
Variable sigs : list Z.

Definition goroutine (e : event) : bool := match e with Signal _ | Cancel => false | _ => true end.
Fixpoint run (es : list event) (w : World) : option World :=
  match es with [] => Some w | e :: es => exec sigs e w ≫= run es end.
Definition rank (p : pc) : nat := match p with AtSelect => 3 | Took => 2 | AtStop => 1 | Exited => 0 end.

Record Inv (w : World) : Prop := {
  inv_cause : cancelled w = true → asked w = true ∨ received w ≠ [];
  inv_taken : at_ w = Took → received w ≠ [];
  inv_stopping : at_ w = AtStop ∨ at_ w = Exited → cancelled w = true;
  inv_registered : registered w = true ↔ at_ w ≠ Exited;
  inv_pending : at_ w = AtSelect → received w ≠ [] → is_Some (buffer w);
  inv_asked : asked w = true → cancelled w = true;
  inv_buffered : is_Some (buffer w) → received w ≠ [];
  inv_relayed : Forall (λ s, relayed sigs s = true) (received w)
}.
Lemma signals_inv_exec e w w' : Inv w → exec sigs e w = Some w' → Inv w'.
Proof.
  intros [H1 H2 H3 H4 H5 H6 H8 H7] E. destruct w as [b reg c p rec a]. cbn [buffer registered cancelled at_ received asked] in *.
  destruct e as [s| | | | |]; cbn [exec buffer registered cancelled at_ received asked] in E.
  - destruct (reg && _) eqn:Er; injection E as <-; [|by constructor].
    apply andb_true_iff in Er as [-> Hs]. pose proof (app_cons_not_nil rec [] s) as Hn.
    constructor; cbn [buffer registered cancelled at_ received asked]; auto.
    + by destruct b.
    + apply Forall_app. by repeat constructor.
  - injection E as <-. constructor; cbn [buffer registered cancelled at_ received asked]; auto.
  - destruct p, b as [s|]; try done. injection E as <-.
    constructor; cbn [buffer registered cancelled at_ received asked]; auto; try (by intros [|]).
    + by rewrite H4.
    + done.
  - destruct p; try done. injection E as <-.
    constructor; cbn [buffer registered cancelled at_ received asked]; auto; try done. by rewrite H4.
  - destruct p; try done. destruct c; [|done]. injection E as <-.
    constructor; cbn [buffer registered cancelled at_ received asked]; auto; try done. by rewrite H4.
  - destruct p; try done. injection E as <-.
    constructor; cbn [buffer registered cancelled at_ received asked]; auto; try done.
Qed.
Lemma signals_inv_run es w w' : Inv w → run es w = Some w' → Inv w'.
Proof.
  revert w. induction es as [|e es IH]; intros w Hi; cbn [run]; [by intros [= <-]|].
  intros (w1 & E1 & Er)%bind_Some. eapply IH; [by eapply signals_inv_exec|done].
Qed.
Lemma signals_inv_start : Inv NotifyContextFor.
Proof. constructor; naive_solver. Qed.

(** The goroutine goes down at every step of its own. *)
Lemma goroutine_rank e w w' : goroutine e = true → exec sigs e w = Some w' → (rank (at_ w') < rank (at_ w))%nat.
Proof.
  intros Hg E. destruct w as [b reg c p rec a]. destruct e; try done; cbn [exec at_ buffer cancelled] in E;
    destruct p; try done; repeat case_match; simplify_eq; cbn [at_ rank]; lia.
Qed.

(** shutdown on a signal.  In every run of NotifyContextFor (signals
    arriving, cancel called and the goroutine's steps in any order), the context
    is done only when the caller or the parent cancelled, or a signal of the set
    arrived; and from then on the goroutine can always move, each of its steps
    brings it nearer to its end, and at most three of them leave the context
    done and the signals no longer relayed. *)
Theorem signal_cancels es w :
  run es NotifyContextFor = Some w →
  (cancelled w = true → asked w = true ∨ received w ≠ []) ∧
  Forall (λ s, relayed sigs s = true) (received w) ∧
  (∀ e w', goroutine e = true → exec sigs e w = Some w' → (rank (at_ w') < rank (at_ w))%nat) ∧
  (received w ≠ [] ∨ asked w = true →
     ∃ gs w', Forall (λ e, goroutine e = true) gs ∧ (length gs ≤ 3)%nat ∧ run gs w = Some w' ∧
       at_ w' = Exited ∧ cancelled w' = true ∧ registered w' = false ∧ ∀ s, exec sigs (Signal s) w' = Some w').
Proof.
  intros Hr. pose proof (signals_inv_run _ _ _ signals_inv_start Hr) as Hi.
  split_and!; [by destruct Hi..|intros e w'; apply goroutine_rank|]. intros Hgo.
  assert (∃ gs w', Forall (λ e, goroutine e = true) gs ∧ (length gs ≤ 3)%nat ∧ run gs w = Some w' ∧ at_ w' = Exited) as
    (gs & w' & Hg & Hl & Hrun & Hx).
  { clear Hr. destruct Hi as [_ _ Hst _ Hp Ha _ _]. destruct w as [b reg c p rec a]. cbn [at_ received buffer cancelled asked] in *.
    destruct p.
    - destruct b as [s|].
      + exists [Receive; DoCancel; StopCh]. eexists. split_and!; [by repeat constructor|done|reflexivity|done].
      + assert (c = true) as ->.
        { destruct Hgo as [Hrec|Hasked]; [by destruct (Hp eq_refl Hrec)|by apply Ha]. }
        exists [SeeDone; StopCh]. eexists. split_and!; [by repeat constructor|simpl; lia|reflexivity|done].
    - exists [DoCancel; StopCh]. eexists. split_and!; [by repeat constructor|simpl; lia|reflexivity|done].
    - exists [StopCh]. eexists. split_and!; [by repeat constructor|simpl; lia|reflexivity|done].
    - exists []. eexists. split_and!; [constructor|simpl; lia|reflexivity|done]. }
  pose proof (signals_inv_run _ _ _ Hi Hrun) as [_ _ Hst Hreg _ _ _ _].
  assert (registered w' = false) as Hf by (destruct (registered w'); [destruct (proj1 Hreg eq_refl Hx)|done]).
  exists gs, w'. split_and!; try done; [apply Hst; by right|]. intros s. cbn [exec]. by rewrite Hf.
Qed.
End signals.

Lemma signal_cancels_witness : ∃ w, run DefaultSignals [Signal 15; Signal 2] NotifyContextFor = Some w ∧
  ∃ gs w', run DefaultSignals gs w = Some w' ∧ cancelled w' = true.
Proof.
  eexists. split; [reflexivity|].
  pose proof (signal_cancels DefaultSignals [Signal 15; Signal 2] _ eq_refl) as (_ & _ & _ & H).
  destruct H as (gs & w' & _ & _ & Hr & _ & Hc & _); [left; discriminate|]. exists gs, w'. split; [exact Hr|exact Hc].
Defined.
End SignalProofs.

(** ** Passwords and tokens *)

Section secrets.
(** A hash verifies against its own password, and is not asked to be renewed at
    the cost it was made with; a mismatch is ErrMismatch, and any other error of
    the library is passed on. *)
Theorem password_verify `{Password.Bcrypt} plain h :
  Password.Hash plain = Ok h →
  Password.Verify h plain = None ∧
  Password.NeedsRehash h Password.DefaultCost = Ok false ∧ Password.NeedsRehash h (Password.DefaultCost + 1) = Ok true ∧
  ∀ other err, Password.CompareHashAndPassword h other = Some err →
    Password.Verify h other = Some (if errors_Is err Password.ErrMismatchedHashAndPassword then Password.ErrMismatch else err).
Proof.
  unfold Password.Hash, Password.HashWithCost. intros Hh.
  destruct (Password.GenerateFromPassword _ _) as [b|] eqn:E; [injection Hh as ->|done].
  unfold Password.Verify, Password.NeedsRehash.
  rewrite (Password.compare_generate _ _ _ E), (Password.cost_generate plain Password.DefaultCost h) by (unfold Password.DefaultCost; lia || done).
  split_and!; try done. intros other err ->. by destruct (errors_Is _ _).
Qed.

(** A token is accepted only when it is signed with the signer's secret by an
    HMAC method; a token the signer issued gives its claims back while they are
    valid. *)
Theorem jwt_issue_parse {T} `{Jwt.JWT T} s :
  (∀ tok c, Jwt.Parse s tok = Ok c → ∃ m, Jwt.is_hmac m = true ∧ Jwt.signed_with tok m c (Jwt.secret s)) ∧
  (∀ c tok, Jwt.Issue s c = Ok tok → Jwt.claims_valid c → Jwt.Parse s tok = Ok c).
Proof.
  unfold Jwt.Parse, Jwt.Issue. split.
  - intros tok c Hp. destruct (Jwt.ParseWithClaims _ _) as [[c' v]|] eqn:E; [|done].
    destruct v; simplify_eq/=. apply Jwt.parse_verified in E as (m & k & Hk & Hs).
    unfold Jwt.keyfunc in Hk. exists m. destruct (Jwt.is_hmac m); by simplify_eq/=.
  - intros c tok Ht Hc. by rewrite (Jwt.parse_signed Jwt.HS256 c (Jwt.secret s) tok).
Qed.

(** An upload without a public subdomain succeeds with an empty URL. *)
Lemma upload_without_subdomain `{R2.S3} c key content ct sent url :
  R2.Subdomain c = "" → R2.s3_answer sent (R2.PutObject (R2.BucketName c) key content ct "max-age=3600") = Ok url →
  (R2.Upload c key content ct sent).1 = Ok "".
Proof. intros Hs Ha. unfold R2.Upload. cbn [fst]. by rewrite Ha, Hs. Qed.
End secrets.
