(* ===== verification/Observability.v ===== *)
(** * Packages observability/metrics and observability/tracing

    The life of the metrics server (src/observability/metrics/metrics.go), whose
    goroutine and Shutdown share the field [server], and the set-up of the tracer
    (src/observability/tracing/tracing.go).  Prometheus, gRPC and OpenTelemetry
    are parameters: the answers to the calls made. *)

From S2P Require Import Prelude GoFloat GoString GoErrors.
From stdpp Require Import base list gmap strings.
From Stdlib Require Import ZArith Lia SpecFloat.
Open Scope Z_scope.

Module Metrics.
Record Config := { Port : Z; Path : string; EnableGoMetrics : bool; EnableProcMetrics : bool }.
Definition DefaultConfig (port : Z) : Config :=
  {| Port := port; Path := "/metrics"; EnableGoMetrics := true; EnableProcMetrics := true |}.
Inductive collector := GoCollector | ProcessCollector.
(** The server's timeouts are constants. *)
Record Server := { Addr : string; ReadTimeout : Duration; WriteTimeout : Duration; IdleTimeout : Duration }.
Record Exporter := { cfg : Config; registry : list collector; server : option Server }.
Definition New (c : Config) : Exporter :=
  let c := {| Port := Port c; Path := if String.eqb (Path c) "" then "/metrics" else Path c;
              EnableGoMetrics := EnableGoMetrics c; EnableProcMetrics := EnableProcMetrics c |} in
  {| cfg := c;
     registry := (if EnableGoMetrics c then [GoCollector] else []) ++ (if EnableProcMetrics c then [ProcessCollector] else []);
     server := None |}.
(** http.ServeMux for patterns that are plain paths: the same one twice panics. *)
Inductive handler := MetricsHandler | HealthHandler.
Definition Handle (path : string) (h : handler) (mux : gmap string handler) : outcome (gmap string handler) :=
  match mux !! path with
  | Some _ => Panic ("pattern " +:+ quote path +:+ " conflicts")
  | None => if String.eqb path "" then Panic "http: invalid pattern" else Return (<[path := h]> mux)
  end.
Definition RegisterToMux (e : Exporter) (mux : gmap string handler) : outcome (gmap string handler) :=
  Handle (Path (cfg e)) MetricsHandler mux.
(** ListenAndServe up to the call of the server's: an error, a panic, or the mux
    and the exporter with its server. *)
Definition ListenAndServe (e : Exporter) : outcome (result error (gmap string handler * Exporter)) :=
  if Port (cfg e) =? 0 then Return (Err (EText "metrics: Port is 0 — use RegisterToMux or set Port"))
  else
    match Handle (Path (cfg e)) MetricsHandler ∅ with
    | Panic m => Panic m
    | Return mux =>
        match Handle "/health" HealthHandler mux with
        | Panic m => Panic m
        | Return mux =>
            Return (Ok (mux, {| cfg := cfg e; registry := registry e;
              server := Some {| Addr := ":" +:+ fmt_d (Port (cfg e)); ReadTimeout := 10 * Second;
                                WriteTimeout := 10 * Second; IdleTimeout := 60 * Second |} |}))
        end
    end.

(** StartBackground: the goroutine has yet to run, serves, or returned; the
    server is stopped by its own Shutdown, also before it listens. *)
Inductive pc := NotYet | Assigned | Serving | Done.
Record World := { exporter : Exporter; at_ : pc; stopped : bool }.
Definition StartBackground (e : Exporter) : World := {| exporter := e; at_ := NotYet; stopped := false |}.
Inductive event := Assign | Listen | Shutdown | ListenFails.
(** [None]: the event cannot happen, or the goroutine panics. *)
Definition exec (ev : event) (w : World) : option World :=
  match ev, at_ w with
  | Assign, NotYet =>
      match ListenAndServe (exporter w) with
      | Return (Ok (_, e)) => Some {| exporter := e; at_ := Assigned; stopped := stopped w |}
      | Return (Err _) => Some {| exporter := exporter w; at_ := Done; stopped := stopped w |}
      | Panic _ => None
      end
  | Listen, Assigned => Some {| exporter := exporter w; at_ := if stopped w then Done else Serving; stopped := stopped w |}
  | ListenFails, Assigned => Some {| exporter := exporter w; at_ := Done; stopped := stopped w |}
  | Shutdown, p =>
      Some (match server (exporter w) with
            | Some _ => {| exporter := exporter w; at_ := match p with Serving => Done | p => p end; stopped := true |}
            | None => w
            end)
  | _, _ => None
  end.
Fixpoint run (evs : list event) (w : World) : option World :=
  match evs with [] => Some w | ev :: evs => exec ev w ≫= run evs end.
End Metrics.

Module Tracing.
Record Config := {
  ServiceName : string; ServiceVersion : string; Environment : string; OTLPEndpoint : string;
  SampleRate : float64; Enabled : bool
}.
Inductive otel_call :=
| Dial (endpoint : string) | NewExporter | NewResource (name version env : string)
| SetTracerProvider (rate : float64) | SetPropagator.
Section init.
(** What the calls return. *)
Variable answer : otel_call → option error.
(** Init: the calls made, and the shutdown, which is the provider's or does
    nothing. *)
Inductive shutdown := NoOp | ProviderShutdown.
Definition Init (c : Config) : result error shutdown * list otel_call :=
  if negb (Enabled c) then (Ok NoOp, [])
  else if String.eqb (ServiceName c) "" then (Err (EText "tracing: ServiceName is required"), [])
  else if String.eqb (OTLPEndpoint c) "" then (Err (EText "tracing: OTLPEndpoint is required"), [])
  else
    let rate := if feq (SampleRate c) (float_of_Z 0) then float_of_Z 1 else SampleRate c in
    let dial := Dial (OTLPEndpoint c) in
    match answer dial with
    | Some err => (Err (EWrap ("tracing: gRPC dial " +:+ OTLPEndpoint c +:+ ": ") "" err), [dial])
    | None =>
        match answer NewExporter with
        | Some err => (Err (EWrap "tracing: create exporter: " "" err), [dial; NewExporter])
        | None =>
            let res := NewResource (ServiceName c) (ServiceVersion c) (Environment c) in
            match answer res with
            | Some err => (Err (EWrap "tracing: resource: " "" err), [dial; NewExporter; res])
            | None => (Ok ProviderShutdown, [dial; NewExporter; res; SetTracerProvider rate; SetPropagator])
            end
        end
    end.
End init.

(** The span of a context; an invalid one has no identifiers. *)
Record SpanContext := { valid : bool; traceID : string; spanID : string; sampled : bool }.
Definition TraceID (sc : SpanContext) : string := if valid sc then traceID sc else "".
Definition SpanID (sc : SpanContext) : string := if valid sc then spanID sc else "".
Definition IsSampled (sc : SpanContext) : bool := valid sc && sampled sc.
End Tracing.

(** ** The metrics server *)

Module MetricsProofs.
Import Metrics.

Lemma ListenAndServe_routes c :
  Port c ≠ 0 → Path c ≠ "/health" →
  ∃ mux e, ListenAndServe (New c) = Return (Ok (mux, e)) ∧ is_Some (server e) ∧ registry e = registry (New c) ∧
    mux = {["/health" := HealthHandler; (if String.eqb (Path c) "" then "/metrics" else Path c) := MetricsHandler]}.
Proof.
  intros Hp Hh. unfold ListenAndServe, New, Handle. cbn [cfg Port Path].
  rewrite (proj2 (Z.eqb_neq _ _) Hp).
  destruct (String.eqb_spec (Path c) "") as [E|E]; rewrite lookup_empty; cbn.
  - eexists _, _. by split_and!.
  - rewrite (proj2 (String.eqb_neq _ _) E). rewrite lookup_insert_ne by done. rewrite lookup_empty.
    eexists _, _. by split_and!.
Qed.

(** A Shutdown that comes before the goroutine has set the server is lost: it
    returns nil, and the server starts afterwards and keeps serving. *)
Theorem early_shutdown_lost c :
  Port c ≠ 0 → Path c ≠ "/health" →
  ∃ w, run [Shutdown; Assign; Listen] (StartBackground (New c)) = Some w ∧ at_ w = Serving.
Proof.
  intros Hp Hh. destruct (ListenAndServe_routes c Hp Hh) as (mux & e & E & _ & _ & _).
  assert (exec Shutdown (StartBackground (New c)) = Some (StartBackground (New c))) as E1 by done.
  assert (exec Assign (StartBackground (New c)) = Some {| exporter := e; at_ := Assigned; stopped := false |}) as E2.
  { unfold exec, StartBackground. cbn [at_ exporter stopped]. by rewrite E. }
  cbn [run]. rewrite E1. cbn [mbind option_bind]. rewrite E2. cbn. eexists. by split.
Qed.

(** Once the server is set, Shutdown ends it, whether it listens yet or not. *)
Theorem shutdown_after_assign w evs w' :
  is_Some (server (exporter w)) → exec Shutdown w = Some w' →
  at_ w ≠ NotYet → ∀ w'', run evs w' = Some w'' → at_ w'' ≠ Serving.
Proof.
  intros [s Hs] E Hn w'' Hr.
  assert (stopped w' = true ∧ at_ w' ≠ NotYet ∧ at_ w' ≠ Serving) as Hw.
  { destruct w as [e p st]. cbn in E, Hs, Hn. rewrite Hs in E. destruct p; cbn in E; by injection E as <-. }
  clear E Hn Hs. revert w' Hw Hr. induction evs as [|ev evs IH]; intros w1 (H1 & H2 & H3); cbn [run]; [by intros [= <-]|].
  intros (w2 & E & Hr)%bind_Some. eapply IH; [|exact Hr]. clear IH Hr.
  destruct w1 as [e p st]. cbn in *. subst st.
  destruct ev, p; cbn in E; try done; try (destruct (server e)); by injection E as <-.
Qed.

(** The path /health is taken: a server configured with it does not start. *)
Lemma health_path_panics c : Port c ≠ 0 → Path c = "/health" → ∃ m, ListenAndServe (New c) = Panic m.
Proof.
  intros Hp Hh. unfold ListenAndServe, New, Handle. cbn [cfg Port Path]. rewrite (proj2 (Z.eqb_neq _ _) Hp), Hh.
  cbn. by eexists.
Qed.
End MetricsProofs.

(** ** The tracer *)

Section tracing.
Import Tracing.
Variable answer : otel_call → option error.

(** Init installs a provider exactly when it returns one: after an error
    nothing global has changed, and a disabled tracer makes no call at all. *)
Theorem tracing_all_or_nothing c :
  let '(r, calls) := Init answer c in
  (Enabled c = false → r = Ok NoOp ∧ calls = []) ∧
  (r = Ok ProviderShutdown ↔ ∃ rate, SetTracerProvider rate ∈ calls) ∧
  (∀ rate, SetTracerProvider rate ∈ calls →
     rate = (if feq (SampleRate c) (float_of_Z 0) then float_of_Z 1 else SampleRate c)) ∧
  (∀ e, r = Err e → SetPropagator ∉ calls).
Proof.
  unfold Init. destruct (Enabled c); cbn [negb]; [|split_and!; set_solver].
  destruct (String.eqb (ServiceName c) ""); [split_and!; set_solver|].
  destruct (String.eqb (OTLPEndpoint c) ""); [split_and!; set_solver|].
  destruct (answer (Dial _)); [split_and!; set_solver|].
  destruct (answer NewExporter); [split_and!; set_solver|].
  destruct (answer (NewResource _ _ _)); split_and!; set_solver.
Qed.

(** A sample rate of zero samples everything. *)
Lemma zero_sample_rate_samples_all c :
  SampleRate c = float_of_Z 0 → ∀ rate, SetTracerProvider rate ∈ (Init answer c).2 → rate = float_of_Z 1.
Proof.
  intros Hz rate. pose proof (tracing_all_or_nothing c) as H. destruct (Init answer c) as [r calls].
  destruct H as (_ & _ & H & _). intros Hin. rewrite (H _ Hin), Hz. reflexivity.
Qed.
End tracing.
