(* ===== verification/Money.v ===== *)
(** * Package money

    The Money type of src/money/money.go: int64 minor units with a currency,
    the process-wide currency registry (its state is passed explicitly; the
    source guards it with a RWMutex), checked arithmetic and rendering. *)

From S2P Require Import Prelude GoFloat GoString GoErrors.
From stdpp Require Import base list gmap strings.
From Stdlib Require Import ZArith Lia SpecFloat.
Open Scope Z_scope.

Definition ErrCurrencyMismatch : error := ENew "money: currency mismatch".
Definition ErrDivideByZero : error := ENew "money: divide by zero".
Definition ErrOverflow : error := ENew "money: overflow".
Definition ErrUnknownCurrency : error := ENew "money: unknown currency".
Definition ErrInvalidFormat : error := ENew "money: invalid format".

Definition Currency := string.

(** The registry: upper-case code to number of decimal places. *)
Definition registry_default : gmap string Z := list_to_map
  [("USD", 2); ("EUR", 2); ("GBP", 2); ("CAD", 2); ("AUD", 2); ("CHF", 2); ("NZD", 2);
   ("SEK", 2); ("NOK", 2); ("DKK", 2); ("PLN", 2); ("CZK", 2); ("HUF", 2); ("RON", 2);
   ("SGD", 2); ("HKD", 2); ("TWD", 2); ("CNY", 2); ("INR", 2); ("THB", 2); ("MYR", 2);
   ("IDR", 2); ("JPY", 0); ("KRW", 0); ("VND", 0); ("CLP", 0); ("ISK", 0); ("IQD", 0);
   ("KWD", 3); ("BHD", 3); ("OMR", 3); ("JOD", 3); ("TND", 3);
   ("AED", 2); ("SAR", 2); ("EGP", 2); ("QAR", 2); ("LBP", 2); ("TRY", 2); ("ILS", 2);
   ("ZAR", 2); ("NGN", 2); ("KES", 2); ("MAD", 2); ("DZD", 2);
   ("BRL", 2); ("MXN", 2); ("ARS", 2); ("COP", 2); ("PEN", 2); ("RUB", 2)].

Record Money := { minor : Z; currency : Currency }.

Section money.
Context `{FloatConv} `{Unicode}.
Implicit Types (reg : gmap string Z) (m other : Money).

Definition Code (c : Currency) : string := ToUpper c.

(** The registry after the call, and the error. *)
Definition Register (code : string) (scale : Z) reg : gmap string Z * option error :=
  if (scale <? 0) || (8 <? scale) then (reg, Some (EText "money: scale must be in [0, 8]"))
  else (<[ToUpper code := scale]> reg, None).

Definition Scale reg (c : Currency) : result error Z :=
  match reg !! Code c with
  | None => Err (EWrap "" (": " +:+ c) ErrUnknownCurrency)
  | Some s => Ok s
  end.

(** [math.Pow10(scale)]; a registered scale is at most 8, so the power is exact. *)
Definition Pow10 (scale : Z) : float64 := float_of_Z (10 ^ scale).

(** The comparison constants are math.MaxInt64 and math.MinInt64 as float64. *)
Definition New reg (amount : float64) (c : Currency) : result error Money :=
  match Scale reg c with
  | Err e => Err e
  | Ok scale =>
      let factor := Pow10 scale in
      if IsNaN amount || IsInf amount then Err ErrInvalidFormat else
      let v := fmul amount factor in
      if flt (float_of_Z MaxInt64) v || flt v (float_of_Z MinInt64) then Err ErrOverflow
      else Ok {| minor := int64_of_float v; currency := c |}
  end.

Definition FromMinor reg (mn : Z) (c : Currency) : result error Money :=
  match Scale reg c with
  | Err e => Err e
  | Ok _ => Ok {| minor := mn; currency := c |}
  end.

Definition Minor m : Z := minor m.
Definition IsZero m : bool := minor m =? 0.

Definition sameCurrency m other : option error :=
  if bool_decide (Code (currency m) = Code (currency other)) then None
  else Some (EWrap "" (": " +:+ currency m +:+ " vs " +:+ currency other) ErrCurrencyMismatch).

Definition addOverflows (a b : Z) : bool :=
  ((0 <? b) && (int64 (MaxInt64 - b) <? a)) || ((b <? 0) && (a <? int64 (MinInt64 - b))).

Definition subOverflows (a b : Z) : bool :=
  ((b <? 0) && (int64 (MaxInt64 + b) <? a)) || ((0 <? b) && (a <? int64 (MinInt64 + b))).

Definition Add m other : result error Money :=
  match sameCurrency m other with
  | Some e => Err e
  | None =>
      if addOverflows (minor m) (minor other) then Err ErrOverflow
      else Ok {| minor := int64 (minor m + minor other); currency := currency m |}
  end.

Definition Sub m other : result error Money :=
  match sameCurrency m other with
  | Some e => Err e
  | None =>
      if subOverflows (minor m) (minor other) then Err ErrOverflow
      else Ok {| minor := int64 (minor m - minor other); currency := currency m |}
  end.

Definition MulInt m (factor : Z) : result error Money :=
  if factor =? 0 then Ok {| minor := 0; currency := currency m |}
  else if negb (minor m =? 0) && negb (div64 (int64 (minor m * factor)) factor =? minor m)
  then Err ErrOverflow
  else Ok {| minor := int64 (minor m * factor); currency := currency m |}.

Definition DivInt m (divisor : Z) : result error Money :=
  if divisor =? 0 then Err ErrDivideByZero
  else Ok {| minor := div64 (minor m) divisor; currency := currency m |}.

Definition Equal m other : bool :=
  bool_decide (Code (currency m) = Code (currency other)) && (minor m =? minor other).

Definition Cmp m other : result error Z :=
  match sameCurrency m other with
  | Some e => Err e
  | None =>
      if minor m <? minor other then Ok (-1)
      else if minor other <? minor m then Ok 1
      else Ok 0
  end.

Definition Negate m : Money := {| minor := int64 (- minor m); currency := currency m |}.

Definition String_ reg m : string :=
  match Scale reg (currency m) with
  | Err _ => fmt_d (minor m) +:+ " <unknown:" +:+ currency m +:+ ">"
  | Ok scale =>
      let negative := minor m <? 0 in
      let abs := if negative then int64 (- minor m) else minor m in
      if scale =? 0 then
        if negative then "-" +:+ fmt_d abs +:+ " " +:+ Code (currency m)
        else fmt_d abs +:+ " " +:+ Code (currency m)
      else
        let divisor := int64_of_float (Pow10 scale) in
        let whole := div64 abs divisor in
        let frac := rem64 abs divisor in
        let fracStr := fmt_d frac in
        let fracStr :=
          if slen fracStr <? scale
          then Repeat "0" (Z.to_nat (scale - slen fracStr)) +:+ fracStr else fracStr in
        let sign := if negative then "-" else "" in
        sign +:+ fmt_d whole +:+ "." +:+ fracStr +:+ " " +:+ Code (currency m)
  end.

(** ** Lemmas *)

Definition valid_registry reg : Prop := map_Forall (λ _ s, 0 ≤ s ≤ 8) reg.

Lemma Register_valid code scale reg :
  valid_registry reg → valid_registry (fst (Register code scale reg)).
Proof.
  intros Hr. unfold Register. destruct ((scale <? 0) || (8 <? scale)) eqn:E; simpl; [done|].
  zbool. apply map_Forall_insert_2; [lia|done].
Qed.

Ltac int64_lia := unfold in_int64, MinInt64, MaxInt64 in *; lia.

Lemma addOverflows_spec a b :
  in_int64 a → in_int64 b → addOverflows a b = negb (bool_decide (in_int64 (a + b))).
Proof.
  intros Ha Hb. unfold addOverflows.
  destruct (Z.ltb_spec 0 b), (Z.ltb_spec b 0); simpl; try lia;
    rewrite ?int64_id by int64_lia; case_bool_decide; simpl; int64_lia.
Qed.

Lemma subOverflows_spec a b :
  in_int64 a → in_int64 b → subOverflows a b = negb (bool_decide (in_int64 (a - b))).
Proof.
  intros Ha Hb. unfold subOverflows.
  destruct (Z.ltb_spec 0 b), (Z.ltb_spec b 0); simpl; try lia;
    rewrite ?int64_id by int64_lia; case_bool_decide; simpl; int64_lia.
Qed.

(** A quotient by anything but -1 cannot overflow. *)
Lemma quot_in_int64 w f : in_int64 w → f ≠ 0 → f ≠ -1 → in_int64 (Z.quot w f).
Proof.
  intros Hw Hf0 Hf1. destruct (decide (f = 1)) as [->|Hf2]; [by rewrite Z.quot_1_r|].
  pose proof (Z.quot_rem w f Hf0) as Hqr. pose proof (Z.rem_bound_abs w f Hf0).
  assert (Z.abs f * Z.abs (Z.quot w f) < 2 ^ 63 + Z.abs f) as Hb.
  { rewrite <-Z.abs_mul. int64_lia. }
  assert (Z.abs (Z.quot w f) < 2 ^ 62 + 2); [nia|]. int64_lia.
Qed.

(** The division check of MulInt misses no overflow but MinInt64 * -1. *)
Lemma mul_check a f :
  in_int64 a → in_int64 f → f ≠ 0 → ¬ in_int64 (a * f) →
  div64 (int64 (a * f)) f = a → a = MinInt64 ∧ f = -1.
Proof.
  intros Ha Hf Hf0 Hout. unfold div64. destruct (int64_cong (a * f)) as [k Hk].
  pose proof (int64_range (a * f)) as Hw. set (w := int64 (a * f)) in *.
  assert (k ≠ 0) by (intros ->; apply Hout; replace (a * f) with w by lia; done).
  destruct (decide (f = -1)) as [->|Hf1]; [intros _; int64_lia|].
  rewrite int64_id by (by apply quot_in_int64). intros Hq.
  pose proof (Z.quot_rem w f Hf0) as Hqr. pose proof (Z.rem_bound_abs w f Hf0).
  rewrite Hq in Hqr. int64_lia.
Qed.

Lemma mul_check_ok a f :
  in_int64 a → f ≠ 0 → in_int64 (a * f) → div64 (int64 (a * f)) f = a.
Proof.
  intros Ha Hf Hm. unfold div64. rewrite (int64_id (a * f)), Z.quot_mul by done. by apply int64_id.
Qed.

Lemma Pow10_value scale : 0 ≤ scale ≤ 8 → int64_of_float (Pow10 scale) = 10 ^ scale.
Proof.
  intros Hs. apply int64_of_float_exact. unfold exact_int.
  assert (0 < 10 ^ scale ≤ 10 ^ 8); [|lia]. split; [apply Z.pow_pos_nonneg; lia|].
  apply Z.pow_le_mono_r; lia.
Qed.

Lemma Repeat_zeros k : Repeat "0" k = string_of_digits (replicate k 0).
Proof. induction k as [|k IH]; [done|]. simpl. by rewrite IH. Qed.

(** Zero-padding a fraction below [10^scale] to [scale] digits. *)
Lemma pad_frac scale frac :
  1 ≤ scale → 0 ≤ frac < 10 ^ scale →
  ∃ k, (if slen (fmt_d frac) <? scale
        then Repeat "0" (Z.to_nat (scale - slen (fmt_d frac))) +:+ fmt_d frac else fmt_d frac) =
       string_of_digits (replicate k 0 ++ fmt_digits frac) ∧
       Z.of_nat (length (replicate k 0 ++ fmt_digits frac)) = scale.
Proof.
  intros Hs Hf. rewrite fmt_d_nonneg by lia. unfold slen, fmt_u.
  rewrite length_string_of_digits.
  assert (length (fmt_digits frac) ≤ Z.to_nat scale)%nat as Hl.
  { apply dec_digits_length; [lia|lia|]. rewrite Z2Nat.id; lia. }
  destruct (Z.ltb_spec (Z.of_nat (length (fmt_digits frac))) scale).
  - exists (Z.to_nat (scale - Z.of_nat (length (fmt_digits frac)))).
    rewrite Repeat_zeros, string_of_digits_app, length_app, length_replicate. split; [done|lia].
  - exists O. simpl. split; [done|lia].
Qed.

(** Small integers are within the float64 limits New compares with. *)
Lemma exact_below_limits z :
  exact_int z →
  flt (float_of_Z MaxInt64) (float_of_Z z) || flt (float_of_Z z) (float_of_Z MinInt64) = false.
Proof.
  unfold exact_int. intros Hz.
  change (float_of_Z MaxInt64) with (S754_finite false 4503599627370496 11).
  change (float_of_Z MinInt64) with (S754_finite true 4503599627370496 11).
  destruct z as [|p|p]; [done| |]; pose proof (norm_e_nonpos p ltac:(lia)) as Hp;
    rewrite ?float_of_Z_pos, ?float_of_Z_neg by lia; unfold flt, SFltb, SFcompare.
  - by rewrite (proj2 (Z.compare_gt_iff 11 (norm_e p))) by lia.
  - by rewrite (proj2 (Z.compare_lt_iff (norm_e p) 11)) by lia.
Qed.

(** ** Properties *)

(** C14: Add and Sub of int64 amounts in one currency (codes compared
    case-insensitively) return the exact sum or difference when it fits in an
    int64 and ErrOverflow otherwise; in different currencies they return an
    error that wraps ErrCurrencyMismatch. *)
Theorem AddSub_exact m other :
  in_int64 (minor m) → in_int64 (minor other) →
  if bool_decide (Code (currency m) = Code (currency other)) then
    Add m other = (if bool_decide (in_int64 (minor m + minor other))
      then Ok {| minor := minor m + minor other; currency := currency m |} else Err ErrOverflow) ∧
    Sub m other = (if bool_decide (in_int64 (minor m - minor other))
      then Ok {| minor := minor m - minor other; currency := currency m |} else Err ErrOverflow)
  else
    ∃ e, Add m other = Err e ∧ Sub m other = Err e ∧ errors_Is e ErrCurrencyMismatch = true.
Proof.
  intros Ha Hb. unfold Add, Sub, sameCurrency.
  case_bool_decide; [|eexists; split_and!; done].
  rewrite addOverflows_spec, subOverflows_spec by done.
  split; case_bool_decide; simpl; rewrite ?int64_id; done.
Qed.

(** MulInt returns the exact product whenever it fits in an int64 and
    ErrOverflow whenever it does not, with one exception: MinInt64 * -1 is
    returned as MinInt64 without an error. *)
Theorem MulInt_exact m f :
  in_int64 (minor m) → in_int64 f →
  MulInt m f =
    if bool_decide (in_int64 (minor m * f))
    then Ok {| minor := minor m * f; currency := currency m |}
    else if bool_decide (minor m = MinInt64 ∧ f = -1) then Ok m
    else Err ErrOverflow.
Proof.
  intros Ha Hf. unfold MulInt. destruct (Z.eqb_spec f 0) as [->|Hf0].
  { rewrite Z.mul_0_r. by rewrite bool_decide_true. }
  case_bool_decide as Hm.
  - rewrite mul_check_ok, Z.eqb_refl, andb_false_r by done. by rewrite int64_id.
  - destruct (Z.eqb_spec (minor m) 0) as [E|_]; [rewrite E in Hm; exfalso; int64_lia|]. simpl.
    case_bool_decide as E.
    + destruct m as [mn c]; simpl in *. destruct E as [-> ->]. done.
    + destruct (Z.eqb_spec (div64 (int64 (minor m * f)) f) (minor m)) as [E'|]; [|done].
      by apply mul_check in E'.
Qed.
(** C27: rendering loses nothing: for a registered currency with scale [s], and
    any amount but MinInt64, String prints a minus sign for a negative amount, the
    whole units in decimal, a dot and exactly [s] digits of the minor units when
    [s > 0], and the code; and the digits, read as one decimal number, are the
    absolute amount. *)
Theorem String_faithful reg m s :
  valid_registry reg → Scale reg (currency m) = Ok s →
  in_int64 (minor m) → minor m ≠ MinInt64 →
  let w := fmt_u (Z.abs (minor m) / 10 ^ s) in
  ∃ f, String_ reg m =
      (if minor m <? 0 then "-" else "") +:+ w +:+ (if s =? 0 then "" else "." +:+ f)
      +:+ " " +:+ Code (currency m) ∧
    slen f = s ∧ Forall (λ d, 0 ≤ d < 10) (digits_of_string (w +:+ f)) ∧
    read_u f = Z.abs (minor m) mod 10 ^ s ∧
    read_u (w +:+ f) = Z.abs (minor m).
Proof.
  intros Hreg Hs Hm Hmin w.
  assert (0 ≤ s ≤ 8) as Hsr.
  { unfold Scale in Hs. destruct (reg !! _) eqn:E; simplify_eq. by apply (Hreg _ _ E). }
  unfold String_. rewrite Hs. cbv zeta. unfold w. clear w.
  set (a := if minor m <? 0 then int64 (- minor m) else minor m).
  assert (a = Z.abs (minor m) ∧ 0 ≤ a ≤ MaxInt64) as [Ea Ha].
  { unfold a. case_match; zbool; rewrite ?int64_id by int64_lia; int64_lia. }
  rewrite <-Ea. destruct (Z.eqb_spec s 0) as [->|Hs0].
  - exists "". rewrite Z.pow_0_r, Z.div_1_r, Z.mod_1_r, fmt_d_nonneg, !string_app_nil_r by lia. split_and!; [|done| |done|].
    + by case_match.
    + unfold fmt_u. rewrite digits_of_string_of_digits; apply fmt_digits_range; lia.
    + apply read_u_fmt_u. lia.
  - rewrite Pow10_value by lia. assert (0 < 10 ^ s) by (apply Z.pow_pos_nonneg; lia).
    unfold div64, rem64. rewrite Z.quot_div_nonneg, Z.rem_mod_nonneg by lia.
    pose proof (Z.mod_pos_bound a (10 ^ s)). pose proof (Z.div_pos a (10 ^ s)).
    pose proof (Z.div_mod a (10 ^ s)). assert (a / 10 ^ s ≤ a) by (apply Z.div_le_upper_bound; nia).
    rewrite (int64_id (a / _)), (int64_id (a mod _)) by int64_lia.
    destruct (pad_frac s (a mod 10 ^ s)) as (k & -> & Hl); [lia|lia|].
    rewrite fmt_d_nonneg by lia. unfold fmt_u.
    exists (string_of_digits (replicate k 0 ++ fmt_digits (a mod 10 ^ s))).
    assert (Forall (λ d, 0 ≤ d < 10) (replicate k 0 ++ fmt_digits (a mod 10 ^ s))) as Hf.
    { rewrite Forall_app. split; [apply Forall_replicate; lia|apply fmt_digits_range; lia]. }
    assert (Forall (λ d, 0 ≤ d < 10) (fmt_digits (a / 10 ^ s) ++ replicate k 0 ++ fmt_digits (a mod 10 ^ s))) as Hd
      by (rewrite Forall_app; split; [apply fmt_digits_range; lia|done]).
    unfold read_u. rewrite <-string_of_digits_app, !digits_of_string_of_digits by done.
    split_and!; [|unfold slen; by rewrite length_string_of_digits|done| |].
    + by rewrite !string_app_assoc.
    + by rewrite read_digits_zeros, fmt_digits_read by lia.
    + rewrite read_digits_app, Hl, read_digits_zeros, !fmt_digits_read by lia. lia.
Qed.

(** New is exact on whole major units: if the scaled amount is below 2^53
    in magnitude, New(n, c) is n * 10^scale minor units. *)
Theorem New_exact reg n c s :
  valid_registry reg → Scale reg c = Ok s → n ≠ 0 →
  exact_int n → exact_int (n * 10 ^ s) →
  New reg (float_of_Z n) c = Ok {| minor := n * 10 ^ s; currency := c |}.
Proof.
  intros Hreg Hs Hn Hn1 Hn2. unfold New. rewrite Hs. cbv zeta.
  assert (0 ≤ s ≤ 8) as Hsr.
  { unfold Scale in Hs. destruct (reg !! _) eqn:E; simplify_eq. by apply (Hreg _ _ E). }
  assert (0 < 10 ^ s ≤ 10 ^ 8) as Hp.
  { split; [apply Z.pow_pos_nonneg; lia|apply Z.pow_le_mono_r; lia]. }
  assert (IsNaN (float_of_Z n) || IsInf (float_of_Z n) = false) as ->.
  { unfold exact_int in *. destruct n; rewrite ?float_of_Z_pos, ?float_of_Z_neg by lia; done. }
  unfold Pow10. rewrite fmul_exact by (done || unfold exact_int; lia).
  by rewrite int64_of_float_exact, exact_below_limits.
Qed.

(** the guard of New lets 2^63 minor units through (math.MaxInt64 rounds
    up to 2^63 as a float64, and the comparison is strict), so the result is
    whatever the target's out-of-range conversion yields and never the amount. *)
Theorem New_overflow_unchecked reg c :
  Scale reg c = Ok 0 →
  ∃ mn, New reg (float_of_Z (2 ^ 63)) c = Ok {| minor := mn; currency := c |} ∧
    mn = conv_out_of_range (float_of_Z (2 ^ 63)) ∧ mn ≠ 2 ^ 63.
Proof.
  intros Hs. unfold New. rewrite Hs. exists (conv_out_of_range (float_of_Z (2 ^ 63))).
  split; [reflexivity|]. split; [reflexivity|].
  pose proof (conv_out_of_range_int64 (float_of_Z (2 ^ 63))) as Hr.
  intros E. rewrite E in Hr. int64_lia.
Qed.
End money.

(** ** Witnesses *)

Lemma registry_default_valid : valid_registry registry_default.
Proof. unfold valid_registry. refine (bool_decide_unpack _ _). by vm_compute. Qed.

Lemma AddSub_exact_witness :
  Add {| minor := MaxInt64; currency := "usd" |} {| minor := 1; currency := "USD" |} =
  Err ErrOverflow.
Proof.
  pose proof (AddSub_exact {| minor := MaxInt64; currency := "usd" |}
    {| minor := 1; currency := "USD" |} ltac:(done) ltac:(done)) as E.
  vm_compute in E. apply E.
Defined.

Lemma MulInt_exact_witness :
  MulInt {| minor := MinInt64; currency := "USD" |} (-1) =
  Ok {| minor := MinInt64; currency := "USD" |}.
Proof. rewrite MulInt_exact; done. Defined.

Lemma String_faithful_witness :
  ∃ f, String_ registry_default {| minor := -5; currency := "kwd" |} =
      "-" +:+ "0" +:+ ("." +:+ f) +:+ " " +:+ "KWD" ∧
    slen f = 3 ∧ Forall (λ d, 0 ≤ d < 10) (digits_of_string ("0" +:+ f)) ∧ read_u f = 5 ∧ read_u ("0" +:+ f) = 5.
Proof.
  exact (String_faithful registry_default {| minor := -5; currency := "kwd" |} 3
    registry_default_valid eq_refl ltac:(done) ltac:(done)).
Defined.

Lemma New_exact_witness :
  New registry_default (float_of_Z 19) "USD" = Ok {| minor := 1900; currency := "USD" |}.
Proof. apply (New_exact registry_default 19 "USD" 2 registry_default_valid); done. Defined.

Lemma New_overflow_unchecked_witness :
  ∃ mn, New registry_default (float_of_Z (2 ^ 63)) "IQD" = Ok {| minor := mn; currency := "IQD" |} ∧
    mn = conv_out_of_range (float_of_Z (2 ^ 63)) ∧ mn ≠ 2 ^ 63.
Proof. apply New_overflow_unchecked. done. Defined.

(** The rendering of MinInt64 negates to itself and carries three minus signs. *)
Example String_MinInt64 :
  String_ registry_default {| minor := MinInt64; currency := "USD" |} = "--92233720368547758.-8 USD".
Proof. vm_compute. done. Qed.

(** 0.29 is stored below 29/100, and truncation loses a cent. *)
Example New_truncates :
  New registry_default (float_dec 29 2) "USD" = Ok {| minor := 28; currency := "USD" |}.
Proof. vm_compute. done. Qed.
