(* ===== verification/Lru.v ===== *)
(** * Package cache/lru

    The LRU cache of src/cache/lru/lru.go: a doubly linked list of entries in
    recency order and a map from keys to list elements.  A list element is an
    identity ([nat]), so the map holds pointers as in the source and the two
    structures can disagree; the invariant says they do not.  The reference is
    an association list in recency order. *)

From S2P Require Import Prelude.
From stdpp Require Import base list gmap.
From Stdlib Require Import ZArith Lia.
Open Scope Z_scope.

Section lru.
Context {K V : Type} `{Countable K}.

Record entry := { e_key : K; e_value : V; e_expireAt : Time }.

(** container/list: the elements front to back, each with its identity. *)
Definition dlist := list (nat * entry).

Record Cache := {
  capacity : Z;
  ttl : Duration;
  ll : dlist;
  items : gmap K nat;
  fresh_el : nat                       (* the identity of the next list.Element *)
}.

Definition New (cap : Z) (t : Duration) : Cache := {|
  capacity := if cap <? 1 then 1 else cap; ttl := t; ll := []; items := ∅; fresh_el := 0
|}.

(** el.Value *)
Fixpoint value_of (el : nat) (l : dlist) : option entry :=
  match l with
  | [] => None
  | (i, en) :: l => if decide (i = el) then Some en else value_of el l
  end.

(** list.Remove *)
Fixpoint list_Remove (el : nat) (l : dlist) : dlist :=
  match l with
  | [] => []
  | (i, en) :: l => if decide (i = el) then l else (i, en) :: list_Remove el l
  end.

(** Writing through the pointer el.Value. *)
Fixpoint update_el (el : nat) (f : entry → entry) (l : dlist) : dlist :=
  match l with
  | [] => []
  | (i, en) :: l => if decide (i = el) then (i, f en) :: l else (i, en) :: update_el el f l
  end.

(** list.MoveToFront *)
Definition MoveToFront (el : nat) (l : dlist) : dlist :=
  match value_of el l with
  | Some en => (el, en) :: list_Remove el l
  | None => l
  end.

Definition with_lists (l : dlist) (its : gmap K nat) (c : Cache) : Cache :=
  {| capacity := capacity c; ttl := ttl c; ll := l; items := its; fresh_el := fresh_el c |}.

Definition remove (el : nat) (c : Cache) : Cache :=
  match value_of el (ll c) with
  | Some en => with_lists (list_Remove el (ll c)) (delete (e_key en) (items c)) c
  | None => c
  end.

Definition removeOldest (c : Cache) : Cache :=
  match last (ll c) with
  | Some (el, _) => remove el c
  | None => c
  end.

Definition Set_ (key : K) (value : V) (now : Time) (c : Cache) : Cache :=
  match items c !! key with
  | Some el =>
      let upd en := {| e_key := e_key en; e_value := value;
                       e_expireAt := if 0 <? ttl c then time_Add now (ttl c) else e_expireAt en |} in
      with_lists (MoveToFront el (update_el el upd (ll c))) (items c) c
  | None =>
      let en := {| e_key := key; e_value := value;
                   e_expireAt := if 0 <? ttl c then time_Add now (ttl c) else time_zero |} in
      let el := fresh_el c in
      let c' := {| capacity := capacity c; ttl := ttl c; ll := (el, en) :: ll c;
                   items := <[key := el]> (items c); fresh_el := S el |} in
      if capacity c' <? Z.of_nat (length (ll c')) then removeOldest c' else c'
  end.

Definition Get (key : K) (now : Time) (c : Cache) : Cache * option V :=
  match items c !! key with
  | None => (c, None)
  | Some el =>
      match value_of el (ll c) with
      | None => (c, None)
      | Some en =>
          if (0 <? ttl c) && negb (IsZeroTime (e_expireAt en)) && time_After now (e_expireAt en)
          then (remove el c, None)
          else (with_lists (MoveToFront el (ll c)) (items c) c, Some (e_value en))
      end
  end.

Definition Delete (key : K) (c : Cache) : Cache :=
  match items c !! key with
  | Some el => remove el c
  | None => c
  end.

Definition Len (c : Cache) : Z := Z.of_nat (length (ll c)).

Definition Clear (c : Cache) : Cache := with_lists [] ∅ c.

(** ** The reference: an association list, most recent first *)

#[local] Abbreviation slot := (K * (V * Time))%type.

Definition drop_key (k : K) (l : list slot) : list slot := filter (λ p, p.1 ≠ k) l.
Fixpoint assoc (k : K) (l : list slot) : option (V * Time) :=
  match l with
  | [] => None
  | (k', v) :: l => if decide (k' = k) then Some v else assoc k l
  end.

Inductive op := OSet (k : K) (v : V) (now : Time) | OGet (k : K) (now : Time) | ODelete (k : K) | OClear.

Definition spec_step (cap : Z) (t : Duration) (o : op) (l : list slot) : list slot * option V :=
  match o with
  | OSet k v now =>
      (take (Z.to_nat cap) ((k, (v, if 0 <? t then now + t else time_zero)) :: drop_key k l), None)
  | OGet k now =>
      match assoc k l with
      | None => (l, None)
      | Some (v, e) =>
          if (0 <? t) && negb (IsZeroTime e) && (e <? now) then (drop_key k l, None)
          else ((k, (v, e)) :: drop_key k l, Some v)
      end
  | ODelete k => (drop_key k l, None)
  | OClear => ([], None)
  end.

Definition impl_step (o : op) (c : Cache) : Cache * option V :=
  match o with
  | OSet k v now => (Set_ k v now c, None)
  | OGet k now => Get k now c
  | ODelete k => (Delete k c, None)
  | OClear => (Clear c, None)
  end.

(** Runs with the value each call returned. *)
Fixpoint run_impl (os : list op) (c : Cache) : Cache * list (option V) :=
  match os with
  | [] => (c, [])
  | o :: os => let '(c, r) := impl_step o c in let '(c, rs) := run_impl os c in (c, r :: rs)
  end.
Fixpoint run_spec (cap : Z) (t : Duration) (os : list op) (l : list slot)
  : list slot * list (option V) :=
  match os with
  | [] => (l, [])
  | o :: os =>
      let '(l, r) := spec_step cap t o l in let '(l, rs) := run_spec cap t os l in (l, r :: rs)
  end.

(** The abstraction and the representation invariant. *)
Definition slot_of (p : nat * entry) : slot := (e_key p.2, (e_value p.2, e_expireAt p.2)).
Definition abs (c : Cache) : list slot := slot_of <$> ll c.

(** The list and the map represent the same finite map. *)
Record Rep (t : Duration) (l : dlist) (its : gmap K nat) (next : nat) : Prop := {
  rep_els : NoDup l.*1;
  rep_keys : NoDup (slot_of <$> l).*1;
  rep_fresh : ∀ el en, (el, en) ∈ l → (el < next)%nat;
  rep_items : ∀ k el, its !! k = Some el ↔ ∃ en, (el, en) ∈ l ∧ e_key en = k;
  rep_ttl : t ≤ 0 → ∀ el en, (el, en) ∈ l → e_expireAt en = time_zero
}.

Definition Inv (c : Cache) : Prop :=
  1 ≤ capacity c ∧ Z.of_nat (length (ll c)) ≤ capacity c ∧
  Rep (ttl c) (ll c) (items c) (fresh_el c).

(** ** Lemmas on element lists *)

Lemma elem_fst (el : nat) (en : entry) (l : dlist) : (el, en) ∈ l → el ∈ l.*1.
Proof. intros. apply list_elem_of_fmap. by exists (el, en). Qed.

Lemma value_of_Some el en l : NoDup l.*1 → value_of el l = Some en ↔ (el, en) ∈ l.
Proof.
  induction l as [|[i x] l IH]; simpl; intros Hn; [by rewrite elem_of_nil|].
  apply NoDup_cons in Hn as [Hi Hn]. rewrite elem_of_cons.
  case_decide as E; subst.
  - split; [intros [= ->]; auto|]. intros [[= ->]|Hin]; [done|].
    destruct Hi. by eapply elem_fst.
  - rewrite IH by done. split; [auto|]. by intros [[= ? ?]|?].
Qed.

Lemma list_Remove_perm el en l :
  NoDup l.*1 → (el, en) ∈ l → l ≡ₚ (el, en) :: list_Remove el l.
Proof.
  induction l as [|[i x] l IH]; simpl; intros Hn Hin; [by apply elem_of_nil in Hin|].
  apply NoDup_cons in Hn as [Hi Hn]. apply elem_of_cons in Hin. case_decide as E; subst.
  - destruct Hin as [[= ->]|Hin]; [done|]. destruct Hi. by eapply elem_fst.
  - destruct Hin as [[= ??]|Hin]; [done|]. rewrite Permutation_swap. f_equiv. by apply IH.
Qed.

Lemma list_Remove_update el f l : list_Remove el (update_el el f l) = list_Remove el l.
Proof.
  induction l as [|[i x] l IH]; simpl; [done|]. case_decide; simpl.
  - by rewrite decide_True.
  - by rewrite decide_False, IH.
Qed.

Lemma value_of_update el f l : value_of el (update_el el f l) = f <$> value_of el l.
Proof.
  induction l as [|[i x] l IH]; simpl; [done|]. case_decide; simpl.
  - by rewrite decide_True.
  - by rewrite decide_False, IH.
Qed.

Lemma list_Remove_last el en l :
  el ∉ l.*1 → list_Remove el (l ++ [(el, en)]) = l.
Proof.
  induction l as [|[i x] l IH]; simpl; intros Hn; [by rewrite decide_True|].
  apply not_elem_of_cons in Hn as [? ?]. rewrite decide_False by done. by rewrite IH.
Qed.

Lemma drop_key_notin k l : k ∉ l.*1 → drop_key k l = l.
Proof.
  unfold drop_key. induction l as [|[k' v] l IH]; [done|]. intros Hn.
  apply not_elem_of_cons in Hn as [? ?]. rewrite filter_cons_True by (simpl in *; congruence).
  f_equal. by apply IH.
Qed.

Lemma drop_key_cons_eq k v l : drop_key k ((k, v) :: l) = drop_key k l.
Proof. unfold drop_key. rewrite filter_cons_False; [done|]. simpl. tauto. Qed.
Lemma drop_key_cons_ne k k' v l : k' ≠ k → drop_key k ((k', v) :: l) = (k', v) :: drop_key k l.
Proof. intros. unfold drop_key. by rewrite filter_cons_True. Qed.

(** Removing an element removes its key from the represented list. *)
Lemma abs_Remove el en l :
  NoDup l.*1 → NoDup (slot_of <$> l).*1 → (el, en) ∈ l →
  slot_of <$> list_Remove el l = drop_key (e_key en) (slot_of <$> l).
Proof.
  induction l as [|[i x] l IH]; simpl; intros Hn Hk Hin; [by apply elem_of_nil in Hin|].
  apply NoDup_cons in Hn as [Hi Hn]. apply NoDup_cons in Hk as [Hx Hk].
  apply elem_of_cons in Hin. change (slot_of (i, x)) with (e_key x, (e_value x, e_expireAt x)).
  case_decide as E; subst.
  - destruct Hin as [[= ->]|Hin]; [|destruct Hi; by eapply elem_fst].
    rewrite drop_key_cons_eq. by rewrite drop_key_notin.
  - destruct Hin as [[= ??]|Hin]; [done|].
    rewrite drop_key_cons_ne; [simpl; f_equal; by apply IH|].
    intros Ex. apply Hx. rewrite Ex. apply list_elem_of_fmap. exists (slot_of (el, en)).
    split; [done|]. apply list_elem_of_fmap. by exists (el, en).
Qed.

Lemma assoc_Some k l v : NoDup l.*1 → assoc k l = Some v ↔ (k, v) ∈ l.
Proof.
  induction l as [|[k' x] l IH]; simpl; intros Hn; [by rewrite elem_of_nil|].
  apply NoDup_cons in Hn as [Hi Hn]. rewrite elem_of_cons. case_decide as E; subst.
  - split; [intros [= ->]; auto|]. intros [[= ->]|Hin]; [done|].
    destruct Hi. apply list_elem_of_fmap. by exists (k, v).
  - rewrite IH by done. split; [auto|]. by intros [[= ? ?]|?].
Qed.

(** ** The representation under the list operations *)

Lemma Rep_perm t l l' its n : l ≡ₚ l' → Rep t l its n → Rep t l' its n.
Proof.
  intros Hp [? ? ? Hi ?]. split.
  - by rewrite <-Hp.
  - by rewrite <-Hp.
  - intros el en. rewrite <-Hp. eauto.
  - intros k el. rewrite Hi. by setoid_rewrite Hp.
  - intros ? el en. rewrite <-Hp. eauto.
Qed.

Lemma Rep_tail t el en l its n :
  Rep t ((el, en) :: l) its n → Rep t l (delete (e_key en) its) n.
Proof.
  intros [He Hk Hf Hi Ht]. cbn in He, Hk.
  apply NoDup_cons in He as [Hne He]. apply NoDup_cons in Hk as [Hnk Hk].
  split; [done|done| | |].
  - intros. eapply Hf. by right.
  - intros k j. destruct (decide (k = e_key en)) as [->|Hne'].
    + rewrite lookup_delete_eq. split; [done|]. intros (y & Hy & Ey). destruct Hnk.
      apply list_elem_of_fmap. exists (slot_of (j, y)). split; [by rewrite <-Ey|].
      apply list_elem_of_fmap. by exists (j, y).
    + rewrite lookup_delete_ne, Hi by done. split; intros (y & Hy & Ey); exists y; split; try done.
      * apply elem_of_cons in Hy as [[= -> ->]|?]; [congruence|done].
      * by right.
  - intros. eapply Ht; [done|]. by right.
Qed.

Lemma Rep_head t el en en' l its n :
  e_key en' = e_key en → (t ≤ 0 → e_expireAt en' = time_zero) →
  Rep t ((el, en) :: l) its n → Rep t ((el, en') :: l) its n.
Proof.
  intros Ek Hx [He Hk Hf Hi Ht]. split; [done| | | |].
  - cbn in *. unfold slot_of at 1. simpl. rewrite Ek. done.
  - intros j y Hy. apply elem_of_cons in Hy as [[= -> ->]|Hy]; [eapply Hf; by left|].
    eapply Hf. by right.
  - intros k j. rewrite Hi. setoid_rewrite elem_of_cons.
    split; intros (y & [[= -> ->]|Hy] & Ey); (eexists; split; [by left|congruence]) || eauto.
  - intros Ht0 j y Hy. apply elem_of_cons in Hy as [[= -> ->]|Hy]; [auto|].
    eapply Ht; [done|by right].
Qed.

Lemma Rep_insert t en l its n :
  its !! e_key en = None → (t ≤ 0 → e_expireAt en = time_zero) →
  Rep t l its n → Rep t ((n, en) :: l) (<[e_key en := n]> its) (S n).
Proof.
  intros Hnone Hx [He Hk Hf Hi Ht].
  assert (∀ j y, (j, y) ∈ l → e_key y ≠ e_key en) as Hnk.
  { intros j y Hy E. assert (its !! e_key en = Some j); [|congruence]. apply Hi. eauto. }
  split.
  - cbn. apply NoDup_cons. split; [|done]. intros ((j & y) & -> & Hy)%list_elem_of_fmap.
    apply Hf in Hy. simpl in Hy. lia.
  - cbn. apply NoDup_cons. split; [|done].
    intros (x & Ex & Hs)%list_elem_of_fmap. apply list_elem_of_fmap in Hs as ([j y] & -> & Hy).
    simpl in Ex. by apply (Hnk _ _ Hy).
  - intros j y Hy. apply elem_of_cons in Hy as [[= -> ->]|Hy]; [lia|]. apply Hf in Hy. lia.
  - intros k j. setoid_rewrite elem_of_cons. destruct (decide (k = e_key en)) as [->|Hne].
    + rewrite lookup_insert_eq. split; [intros [= <-]; eauto|].
      intros (y & [[= -> ->]|Hy] & Ey); [done|]. by destruct (Hnk _ _ Hy).
    + rewrite lookup_insert_ne, Hi by done. split; [intros (y & ? & ?); eauto|].
      intros (y & [[= -> ->]|Hy] & Ey); [congruence|eauto].
  - intros Ht0 j y Hy. apply elem_of_cons in Hy as [[= -> ->]|Hy]; eauto.
Qed.

Definition RepC (c : Cache) : Prop := Rep (ttl c) (ll c) (items c) (fresh_el c).

Lemma items_value c k el :
  RepC c → items c !! k = Some el → ∃ en, value_of el (ll c) = Some en ∧ (el, en) ∈ ll c ∧ e_key en = k.
Proof.
  intros R E. apply (rep_items _ _ _ _ R) in E as (en & Hin & Ek). exists en.
  split_and!; [|done|done]. apply value_of_Some; [apply R|done].
Qed.

Lemma remove_spec c el en :
  RepC c → (el, en) ∈ ll c →
  RepC (remove el c) ∧ abs (remove el c) = drop_key (e_key en) (abs c) ∧
  length (ll c) = S (length (ll (remove el c))) ∧
  capacity (remove el c) = capacity c ∧ ttl (remove el c) = ttl c.
Proof.
  intros R Hin. unfold remove.
  rewrite (proj2 (value_of_Some el en (ll c) (rep_els _ _ _ _ R)) Hin).
  pose proof (list_Remove_perm el en (ll c) (rep_els _ _ _ _ R) Hin) as Hp.
  split_and!; try done.
  - eapply Rep_tail, Rep_perm; [exact Hp|exact R].
  - apply abs_Remove; [apply R..|done].
  - apply Permutation_length in Hp. done.
Qed.

Lemma touch_spec c el en en' :
  RepC c → (el, en) ∈ ll c → e_key en' = e_key en →
  (ttl c ≤ 0 → e_expireAt en' = time_zero) →
  let c' := with_lists ((el, en') :: list_Remove el (ll c)) (items c) c in
  RepC c' ∧ abs c' = slot_of (el, en') :: drop_key (e_key en) (abs c) ∧
  length (ll c') = length (ll c).
Proof.
  intros R Hin Ek Hx c'.
  pose proof (list_Remove_perm el en (ll c) (rep_els _ _ _ _ R) Hin) as Hp. split_and!.
  - eapply Rep_head; [exact Ek|exact Hx|]. eapply Rep_perm; [exact Hp|exact R].
  - unfold abs. simpl. f_equal. apply abs_Remove; [apply R..|done].
  - apply Permutation_length in Hp. done.
Qed.

Lemma abs_lookup c k el en :
  RepC c → (el, en) ∈ ll c → e_key en = k → assoc k (abs c) = Some (e_value en, e_expireAt en).
Proof.
  intros R Hin <-. apply assoc_Some; [apply R|]. apply list_elem_of_fmap. by exists (el, en).
Qed.

Lemma abs_lookup_None c k : RepC c → items c !! k = None → k ∉ (abs c).*1.
Proof.
  intros R E (x & -> & Hs)%list_elem_of_fmap. apply list_elem_of_fmap in Hs as ([el en] & -> & Hin).
  assert (items c !! e_key en = Some el); [apply (rep_items _ _ _ _ R); eauto|]. simpl in E. congruence.
Qed.

Lemma assoc_None k l : k ∉ l.*1 → assoc k l = None.
Proof.
  induction l as [|[k' v] l IH]; simpl; [done|]. intros Hn. apply not_elem_of_cons in Hn as [? ?].
  rewrite decide_False by (simpl in *; congruence). auto.
Qed.

(** Evicting the back element drops the last slot. *)
Lemma removeOldest_spec c x l :
  RepC c → ll c = x :: l →
  RepC (removeOldest c) ∧ abs (removeOldest c) = take (length l) (abs c) ∧
  length (ll (removeOldest c)) = length l ∧
  capacity (removeOldest c) = capacity c ∧ ttl (removeOldest c) = ttl c.
Proof.
  intros R El. destruct (exists_last (l := ll c)) as (l0 & [el en] & E0); [by rewrite El|].
  unfold removeOldest. rewrite E0, last_snoc.
  destruct (remove_spec c el en R) as (R' & _ & Hl & ? & ?).
  { rewrite E0. apply elem_of_app. right. by left. }
  split_and!; try done; [|rewrite El in Hl; simpl in Hl; lia].
  pose proof (rep_els _ _ _ _ R) as Hn. rewrite E0, fmap_app in Hn.
  apply NoDup_app in Hn as (_ & Hd & _).
  assert (length l = length l0) as ->.
  { apply (f_equal length) in E0. rewrite El, length_app in E0. simpl in E0. lia. }
  unfold abs, remove.
  rewrite (proj2 (value_of_Some el en (ll c) (rep_els _ _ _ _ R)))
    by (rewrite E0; apply elem_of_app; right; by left).
  simpl. rewrite E0, list_Remove_last, fmap_app, take_app_length'; [done|by rewrite length_fmap|].
  intros Hin. apply (Hd _ Hin). by left.
Qed.

Lemma Set_refines k v now c :
  Inv c →
  Inv (Set_ k v now c) ∧ capacity (Set_ k v now c) = capacity c ∧ ttl (Set_ k v now c) = ttl c ∧
  abs (Set_ k v now c) = fst (spec_step (capacity c) (ttl c) (OSet k v now) (abs c)).
Proof.
  intros (Hc & Hl & R). unfold Set_. destruct (items c !! k) as [el|] eqn:E; simpl.
  - destruct (items_value c k el R E) as (en & Ev & Hin & Ek).
    unfold MoveToFront. rewrite value_of_update, Ev. simpl. rewrite list_Remove_update.
    set (en' := {| e_key := _ |}).
    destruct (touch_spec c el en en' R Hin eq_refl) as (R' & Ha & Hl').
    { intros Ht. simpl. destruct (Z.ltb_spec 0 (ttl c)); [lia|]. by eapply (rep_ttl _ _ _ _ R). }
    split_and!; [split_and!; [done|rewrite Hl'; done|done]|done|done|].
    rewrite Ha, Ek, take_ge; [f_equal|].
    + unfold slot_of. simpl. rewrite Ek. do 3 f_equal. destruct (Z.ltb_spec 0 (ttl c)); [done|].
      by eapply (rep_ttl _ _ _ _ R); eauto.
    + apply (f_equal length) in Ha. unfold abs in Ha at 1. rewrite length_fmap, Hl' in Ha.
      simpl in *. rewrite Ek in Ha. lia.
  - rewrite drop_key_notin by (by apply abs_lookup_None).
    set (en := {| e_key := k |}). set (c' := {| capacity := capacity c |}).
    assert (RepC c') as R'.
    { apply (Rep_insert _ en); [done| |done]. intros Ht. simpl in *.
      destruct (Z.ltb_spec 0 (ttl c)); [lia|done]. }
    destruct (Z.ltb_spec (capacity c) (Z.of_nat (S (length (ll c))))).
    + destruct (removeOldest_spec c' (fresh_el c, en) (ll c) R' eq_refl) as (R1 & Ha & Hl1 & Ec & Et).
      split_and!; [split_and!; [by rewrite Ec|rewrite Hl1, Ec; done|done]|done|done|].
      rewrite Ha. f_equal. lia.
    + split_and!; [split_and!; [done|simpl; lia|done]|done|done|].
      rewrite take_ge; [done|]. simpl. unfold abs. rewrite length_fmap. lia.
Qed.

Lemma Get_refines k now c :
  Inv c →
  let '(c', r) := Get k now c in
  Inv c' ∧ capacity c' = capacity c ∧ ttl c' = ttl c ∧
  spec_step (capacity c) (ttl c) (OGet k now) (abs c) = (abs c', r).
Proof.
  intros (Hc & Hl & R). unfold Get. simpl. destruct (items c !! k) as [el|] eqn:E.
  - destruct (items_value c k el R E) as (en & Ev & Hin & Ek). rewrite Ev.
    rewrite (abs_lookup c k el en R Hin Ek). unfold time_After.
    destruct ((0 <? ttl c) && negb (IsZeroTime (e_expireAt en)) && (e_expireAt en <? now)).
    + destruct (remove_spec c el en R Hin) as (R' & Ha & Hl' & Ec & Et).
      split_and!; [split_and!; [by rewrite Ec|rewrite Ec; lia|done]|done|done|].
      by rewrite Ha, Ek.
    + unfold MoveToFront. rewrite Ev.
      destruct (touch_spec c el en en R Hin eq_refl) as (R' & Ha & Hl').
      { intros. by eapply (rep_ttl _ _ _ _ R). }
      split_and!; [split_and!; [done|rewrite Hl'; done|done]|done|done|].
      rewrite Ha. unfold slot_of. simpl. by rewrite Ek.
  - rewrite assoc_None by (by apply abs_lookup_None). by split_and!.
Qed.

Lemma Delete_refines k c :
  Inv c →
  Inv (Delete k c) ∧ capacity (Delete k c) = capacity c ∧ ttl (Delete k c) = ttl c ∧
  abs (Delete k c) = drop_key k (abs c).
Proof.
  intros (Hc & Hl & R). unfold Delete. destruct (items c !! k) as [el|] eqn:E.
  - destruct (items_value c k el R E) as (en & Ev & Hin & Ek).
    destruct (remove_spec c el en R Hin) as (R' & Ha & Hl' & Ec & Et).
    split_and!; [split_and!; [by rewrite Ec|rewrite Ec; lia|done]|done|done|]. by rewrite Ha, Ek.
  - split_and!; [by split_and!|done|done|]. symmetry. apply drop_key_notin. by apply abs_lookup_None.
Qed.

Lemma Rep_empty t n : Rep t [] ∅ n.
Proof.
  split; simpl; [apply NoDup_nil_2|apply NoDup_nil_2|..].
  - by intros ? ? ?%elem_of_nil.
  - intros k el. rewrite lookup_empty. split; [done|]. by intros (? & ?%elem_of_nil & _).
  - by intros ? ? ? ?%elem_of_nil.
Qed.

Lemma step_refines o c :
  Inv c →
  let '(c', r) := impl_step o c in
  Inv c' ∧ capacity c' = capacity c ∧ ttl c' = ttl c ∧
  spec_step (capacity c) (ttl c) o (abs c) = (abs c', r).
Proof.
  intros I. destruct o as [k v now|k now|k|]; simpl.
  - destruct (Set_refines k v now c I) as (? & ? & ? & ->). done.
  - by apply Get_refines.
  - destruct (Delete_refines k c I) as (? & ? & ? & ->). done.
  - destruct I as (? & ? & ?). split_and!; try done. split_and!; [done|simpl; lia|apply Rep_empty].
Qed.

Lemma Lru_Inv_New cap t : Inv (New cap t).
Proof.
  unfold New. split_and!; simpl; [case_match; zbool; lia|case_match; zbool; lia|apply Rep_empty].
Qed.

Lemma run_refines os c :
  Inv c →
  let '(c', rs) := run_impl os c in
  Inv c' ∧ ttl c' = ttl c ∧ run_spec (capacity c) (ttl c) os (abs c) = (abs c', rs).
Proof.
  revert c. induction os as [|o os IH]; intros c I; simpl; [done|].
  pose proof (step_refines o c I) as Hs. destruct (impl_step o c) as [c1 r].
  destruct Hs as (I1 & Ec & Et & ->). specialize (IH c1 I1).
  destruct (run_impl os c1) as [c2 rs]. rewrite Ec, Et in IH. destruct IH as (I2 & ? & ->). done.
Qed.

(** A list in which [k] keeps its slot behind keys of [S] only. *)
Definition held (k : K) (v : V) (e : Time) (S : gset K) (l : list slot) : Prop :=
  NoDup l.*1 ∧ ∃ l1 l2, l = l1 ++ (k, (v, e)) :: l2 ∧ ∀ x, x ∈ l1.*1 → x ∈ S.

(** The key an operation touches. *)
Definition op_key (o : op) : option K :=
  match o with OSet k _ _ | OGet k _ | ODelete k => Some k | OClear => None end.

Lemma drop_key_keys k x l : x ∈ (drop_key k l).*1 → x ∈ l.*1 ∧ x ≠ k.
Proof.
  unfold drop_key. intros ([k' y] & -> & Hin)%list_elem_of_fmap.
  apply list_elem_of_filter in Hin as [? ?]. split; [|done]. by apply list_elem_of_fmap_2.
Qed.

Lemma drop_key_NoDup k l : NoDup l.*1 → NoDup (drop_key k l).*1.
Proof.
  induction l as [|[k' y] l IH]; [done|]. rewrite fmap_cons, NoDup_cons. intros [Hn Hd].
  destruct (decide (k' = k)) as [->|Hne]; [rewrite drop_key_cons_eq; auto|].
  rewrite drop_key_cons_ne, fmap_cons by done. apply NoDup_cons. split; [|auto].
  by intros [? _]%drop_key_keys.
Qed.

Lemma drop_key_app k l1 l2 : drop_key k (l1 ++ l2) = drop_key k l1 ++ drop_key k l2.
Proof. apply filter_app. Qed.

Lemma NoDup_le_size (l : list K) (S : gset K) :
  NoDup l → (∀ x, x ∈ l → x ∈ S) → (length l ≤ size S)%nat.
Proof.
  intros Hn Hs. rewrite <-(size_list_to_set (C:=gset K) l) by done.
  apply subseteq_size. intros x Hx. apply Hs. by apply elem_of_list_to_set in Hx.
Qed.

Lemma held_front k v e S l k' y :
  k' ≠ k → k' ∈ S → held k v e S l → held k v e S ((k', y) :: drop_key k' l).
Proof.
  intros Hne Hin (Hn & l1 & l2 & -> & Hs). split.
  - rewrite fmap_cons. apply NoDup_cons. split; [|by apply drop_key_NoDup].
    by intros [_ ?]%drop_key_keys.
  - rewrite drop_key_app, drop_key_cons_ne by congruence.
    exists ((k', y) :: drop_key k' l1), (drop_key k' l2). split; [done|].
    intros x Hx. apply elem_of_cons in Hx as [->|[? _]%drop_key_keys]; [done|auto].
Qed.

Lemma held_take k v e S l n : (size S < n)%nat → held k v e S l → held k v e S (take n l).
Proof.
  intros Hn (Hd & l1 & l2 & -> & Hs).
  assert (length l1 < n)%nat as Hl.
  { rewrite fmap_app in Hd. apply NoDup_app in Hd as (Hd1 & _ & _).
    pose proof (NoDup_le_size l1.*1 S Hd1 Hs) as Hle. rewrite length_fmap in Hle. lia. }
  split.
  - eapply sublist_NoDup; [exact Hd|]. rewrite fmap_take. apply sublist_take.
  - rewrite take_app_ge by lia. destruct (n - length l1)%nat as [|m] eqn:E; [lia|].
    exists l1, (take m l2). done.
Qed.

Lemma held_drop k v e S l k' : k' ≠ k → held k v e S l → held k v e S (drop_key k' l).
Proof.
  intros Hne (Hn & l1 & l2 & -> & Hs). split; [by apply drop_key_NoDup|].
  rewrite drop_key_app, drop_key_cons_ne by congruence. eexists _, _. split; [done|].
  intros x [? _]%drop_key_keys. auto.
Qed.

(** An operation on another key of [S] keeps the slot, when nothing expires. *)
Lemma held_step cap t o k k' v e S l :
  t ≤ 0 → (size S < Z.to_nat cap)%nat → op_key o = Some k' → k' ≠ k → k' ∈ S →
  held k v e S l → held k v e S (fst (spec_step cap t o l)).
Proof.
  intros Ht Hc Ho Hne Hin Hh. destruct o as [k0 y now|k0 now|k0|]; simpl in *; simplify_eq.
  - apply held_take; [done|]. by apply held_front.
  - destruct (assoc k' l) as [[y e']|]; [|done]. destruct (Z.ltb_spec 0 t); [lia|]. simpl.
    by apply held_front.
  - by apply held_drop.
Qed.

Lemma held_run cap t os k v e S l :
  t ≤ 0 → (size S < Z.to_nat cap)%nat →
  Forall (λ o, ∃ k', op_key o = Some k' ∧ k' ≠ k ∧ k' ∈ S) os →
  held k v e S l → held k v e S (fst (run_spec cap t os l)).
Proof.
  intros Ht Hc Ho. revert l. induction Ho as [|o os (k' & ? & ? & ?) _ IH]; intros l Hh; [done|].
  simpl. pose proof (held_step cap t o k k' v e S l) as Hs.
  destruct (spec_step cap t o l) as [l1 r]. simpl in Hs.
  specialize (IH l1 ltac:(by apply Hs)). by destruct (run_spec cap t os l1).
Qed.

Lemma held_assoc k v e S l : held k v e S l → assoc k l = Some (v, e).
Proof.
  intros (Hn & l1 & l2 & -> & _). apply assoc_Some; [done|]. apply elem_of_app. right. by left.
Qed.

Lemma held_Set k v now c S :
  Inv c → held k v (if 0 <? ttl c then now + ttl c else time_zero) S (abs (Set_ k v now c)).
Proof.
  intros I. destruct (Set_refines k v now c I) as (_ & _ & _ & ->). simpl.
  destruct I as (Hc & _ & R). destruct (Z.to_nat (capacity c)) as [|n] eqn:En; [lia|].
  simpl. split.
  - rewrite fmap_cons. apply NoDup_cons. rewrite fmap_take. split.
    + intros Hin. assert (k ∈ (drop_key k (abs c)).*1) as Hk.
      { rewrite <-(take_drop n (drop_key k (abs c)).*1). apply elem_of_app. by left. }
      by apply drop_key_keys in Hk as [_ ?].
    + eapply sublist_NoDup; [apply (drop_key_NoDup k), R|]. apply sublist_take.
  - exists [], (take n (drop_key k (abs c))). split; [done|]. by intros x ?%elem_of_nil.
Qed.

(** ** Properties *)

(** C2: the cache refines the association list in recency order: every
    sequence of Set, Get, Delete and Clear returns the values the reference
    returns and ends in a cache that represents the reference list, holds at
    most capacity entries and keeps the key map and the linked list in
    agreement. *)
Theorem lru_refines cap t os :
  let '(c, rs) := run_impl os (New cap t) in
  Inv c ∧ run_spec (Z.max 1 cap) t os [] = (abs c, rs).
Proof.
  pose proof (run_refines os (New cap t) (Lru_Inv_New cap t)) as Hr.
  destruct (run_impl os (New cap t)) as [c rs]. simpl in Hr. destruct Hr as (? & _ & ?).
  by replace (Z.max 1 cap) with (if cap <? 1 then 1 else cap) by (case_match; zbool; lia).
Qed.

(** what is promised by "least recently used": in a cache without expiry, a
    value just Set is still returned by Get after any number of operations on
    other keys, as long as those keys are fewer than the capacity. *)
Theorem lru_retains c k v now now' os (S : gset K) :
  Inv c → ttl c ≤ 0 → Z.of_nat (size S) < capacity c →
  Forall (λ o, ∃ k', op_key o = Some k' ∧ k' ≠ k ∧ k' ∈ S) os →
  snd (Get k now' (fst (run_impl os (Set_ k v now c)))) = Some v.
Proof.
  intros I Ht Hs Ho. destruct (Set_refines k v now c I) as (I1 & Ec & Et & _).
  pose proof (run_refines os _ I1) as Hr. destruct (run_impl os (Set_ k v now c)) as [c2 rs].
  destruct Hr as (I2 & Et2 & E2). rewrite Ec, Et in E2.
  pose proof (held_run (capacity c) (ttl c) os k v _ S _ Ht ltac:(lia) Ho (held_Set k v now c S I)) as Hh.
  rewrite E2 in Hh. apply held_assoc in Hh. simpl in *.
  pose proof (Get_refines k now' c2 I2) as Hg. destruct (Get k now' c2) as [c3 r].
  destruct Hg as (_ & _ & _ & Hg). simpl in Hg. rewrite Hh in Hg.
  destruct (Z.ltb_spec 0 (ttl c2)); [lia|]. simpl in Hg. by simplify_eq.
Qed.
End lru.

(** ** Witnesses *)

Lemma lru_retains_witness :
  snd (Get (K:=nat) 1%nat 9 (fst (run_impl [OSet 2%nat 20 0; OGet 2%nat 0; OSet 2%nat 21 0]
    (Set_ 1%nat 10 0 (New 2 0))))) = Some 10.
Proof.
  apply (lru_retains (New 2 0) 1%nat 10 0 9 _ {[2%nat]}); [apply Lru_Inv_New|done|done|].
  repeat constructor; exists 2%nat; split_and!; try done; by apply elem_of_singleton.
Defined.
