(* ===== verification/RateLimit.v ===== *)
(** * Package ratelimit

    The token bucket of src/ratelimit/ratelimit.go over float64 arithmetic.
    Each method holds the limiter's mutex, so it is a function on the record
    [Limiter] with the clock reading as an argument.  [Wait] is run against the
    list of what happens around its iterations: the clock reading, the outcome
    of its select, and what other goroutines do to the limiter meanwhile. *)

From S2P Require Import Prelude GoFloat GoErrors.
From stdpp Require Import base list strings.
From Stdlib Require Import ZArith Lia SpecFloat.
Open Scope Z_scope.

Definition ErrClosed : error := ENew "ratelimit: limiter closed".

Record Limiter := {
  capacity : float64;
  refillRate : float64;
  tokens : float64;
  lastRefill : Time;
  closed : bool
}.

(** time.Duration.Seconds *)
Definition Seconds (d : Duration) : float64 :=
  fadd (float_of_Z (Z.quot d Second)) (fdiv (float_of_Z (Z.rem d Second)) (float_of_Z 1000000000)).

Definition New (cap ratePerSecond : float64) (now : Time) : outcome Limiter :=
  if fle cap (float_of_Z 0) || fle ratePerSecond (float_of_Z 0)
  then Panic "ratelimit: capacity and rate must be positive"
  else Return {| capacity := cap; refillRate := ratePerSecond; tokens := cap;
                 lastRefill := now; closed := false |}.

Definition NewEvery (cap : Z) (interval : Duration) (now : Time) : outcome Limiter :=
  New (float_of_Z cap) (fdiv (float_of_Z 1) (Seconds interval)) now.

Definition with_tokens (t : float64) (last : Time) (l : Limiter) : Limiter :=
  {| capacity := capacity l; refillRate := refillRate l; tokens := t;
     lastRefill := last; closed := closed l |}.

Definition refill (now : Time) (l : Limiter) : Limiter :=
  let elapsed := Seconds (time_Sub now (lastRefill l)) in
  if fle elapsed (float_of_Z 0) then l
  else
    let t := fadd (tokens l) (fmul elapsed (refillRate l)) in
    let t := if flt (capacity l) t then capacity l else t in
    with_tokens t now l.

(** [l.tokens--] *)
Definition take_token (l : Limiter) : Limiter :=
  with_tokens (fsub (tokens l) (float_of_Z 1)) (lastRefill l) l.

Definition Allow (now : Time) (l : Limiter) : Limiter * bool :=
  let l := refill now l in
  if fle (float_of_Z 1) (tokens l) then (take_token l, true) else (l, false).

Definition Close (l : Limiter) : Limiter :=
  {| capacity := capacity l; refillRate := refillRate l; tokens := tokens l;
     lastRefill := lastRefill l; closed := true |}.

Definition Tokens (now : Time) (l : Limiter) : Limiter * float64 :=
  let l := refill now l in (l, tokens l).

(** One iteration of Wait: the clock reading; the error of the context if the
    select takes ctx.Done, None if the timer fires; the other goroutines. *)
Record iteration := {
  w_now : Time;
  w_cancel : option error;
  w_others : Limiter → Limiter
}.

Inductive wait_result := WReturn (err : option error) | WBlocked.

Section wait.
Context `{FloatConv}.

(** The limiter, the result, and the timer durations requested. *)
Fixpoint Wait (env : list iteration) (l : Limiter) : Limiter * wait_result * list Duration :=
  match env with
  | [] => (l, WBlocked, [])
  | it :: env =>
      if closed l then (l, WReturn (Some ErrClosed), []) else
      let l := refill (w_now it) l in
      if fle (float_of_Z 1) (tokens l) then (take_token l, WReturn None, []) else
      let deficit := fsub (float_of_Z 1) (tokens l) in
      let waitDur := int64_of_float (fmul (fdiv deficit (refillRate l)) (float_of_Z Second)) in
      match w_cancel it with
      | Some err => (l, WReturn (Some err), [waitDur])
      | None => let '(l, r, ds) := Wait env (w_others it l) in (l, r, waitDur :: ds)
      end
  end.
End wait.

(** ** The reference: an integer token bucket *)

Record bucket := { b_tokens : Z; b_last : Time }.

Definition bucket_refill (cap rate : Z) (now : Time) (b : bucket) : bucket :=
  let s := Z.quot (now - b_last b) Second in
  if s <=? 0 then b
  else {| b_tokens := Z.min cap (b_tokens b + s * rate); b_last := now |}.

Definition bucket_allow (cap rate : Z) (now : Time) (b : bucket) : bucket * bool :=
  let b := bucket_refill cap rate now b in
  if 1 <=? b_tokens b then ({| b_tokens := b_tokens b - 1; b_last := b_last b |}, true)
  else (b, false).

Fixpoint run_allow (ts : list Time) (l : Limiter) : Limiter * list bool :=
  match ts with
  | [] => (l, [])
  | now :: ts => let '(l, r) := Allow now l in let '(l, rs) := run_allow ts l in (l, r :: rs)
  end.
Fixpoint run_bucket (cap rate : Z) (ts : list Time) (b : bucket) : bucket * list bool :=
  match ts with
  | [] => (b, [])
  | now :: ts =>
      let '(b, r) := bucket_allow cap rate now b in
      let '(b, rs) := run_bucket cap rate ts b in (b, r :: rs)
  end.

(** [l] holds exactly the integers of [b]. *)
Record Sim (cap rate : Z) (l : Limiter) (b : bucket) : Prop := {
  sim_cap : capacity l = float_of_Z cap;
  sim_rate : refillRate l = float_of_Z rate;
  sim_tokens : tokens l = float_of_Z (b_tokens b);
  sim_last : lastRefill l = b_last b;
  sim_range : 0 ≤ b_tokens b ≤ cap
}.

(** The instants of a run: whole seconds from [t0], within [span] seconds. *)
Definition on_grid (t0 span : Z) (t : Time) : Prop :=
  ∃ s, 0 ≤ s ≤ span ∧ t = t0 + s * Second.

(** ** Lemmas *)

Lemma Seconds_exact s : exact_int s → Seconds (s * Second) = float_of_Z s.
Proof.
  intros Hs. unfold Seconds. rewrite Z.quot_mul, Z.rem_mul by done.
  change (fdiv (float_of_Z 0) (float_of_Z 1000000000)) with (float_of_Z 0).
  rewrite fadd_exact, Z.add_0_r; try done. by rewrite Z.add_0_r.
Qed.

Section refinement.
Variables (cap rate span : Z) (t0 : Time).
Hypothesis Hcap : 1 ≤ cap.
Hypothesis Hrate : 1 ≤ rate.
Hypothesis Hspan : 0 ≤ span < 2 ^ 33.
Hypothesis Hbound : cap + span * rate < 2 ^ 53.

Lemma grid_seconds now last :
  on_grid t0 span now → on_grid t0 span last →
  Seconds (time_Sub now last) = float_of_Z (Z.quot (now - last) Second) ∧
  - span ≤ Z.quot (now - last) Second ≤ span.
Proof.
  intros (s & ? & ->) (s' & ? & ->).
  replace (t0 + s * Second - (t0 + s' * Second)) with ((s - s') * Second) by lia.
  rewrite time_Sub_exact by (unfold in_int64, MinInt64, MaxInt64, Second; lia).
  replace (t0 + s * Second - (t0 + s' * Second)) with ((s - s') * Second) by lia.
  rewrite Z.quot_mul by done. split; [apply Seconds_exact; unfold exact_int; lia|lia].
Qed.

Lemma refill_sim now l b :
  Sim cap rate l b → on_grid t0 span now → on_grid t0 span (b_last b) →
  Sim cap rate (refill now l) (bucket_refill cap rate now b) ∧
  on_grid t0 span (b_last (bucket_refill cap rate now b)).
Proof.
  intros [Ec Er Et El Hr] Hn Hl. unfold refill, bucket_refill. rewrite El.
  destruct (grid_seconds now (b_last b) Hn Hl) as [-> Hs].
  set (s := Z.quot (now - b_last b) Second) in *.
  rewrite fle_exact by (unfold exact_int; lia). destruct (Z.leb_spec s 0); [done|].
  rewrite Ec, Er, Et, fmul_exact, fadd_exact, flt_exact by (unfold exact_int; nia).
  split; [|done]. split; simpl; try done; [|nia].
  destruct (Z.ltb_spec cap (b_tokens b + s * rate)); f_equal; nia.
Qed.

Lemma Allow_sim now l b :
  Sim cap rate l b → on_grid t0 span now → on_grid t0 span (b_last b) →
  Sim cap rate (fst (Allow now l)) (fst (bucket_allow cap rate now b)) ∧
  snd (Allow now l) = snd (bucket_allow cap rate now b) ∧
  on_grid t0 span (b_last (fst (bucket_allow cap rate now b))).
Proof.
  intros S Hn Hl. destruct (refill_sim now l b S Hn Hl) as [S' Hl'].
  unfold Allow, bucket_allow. cbv zeta.
  set (l' := refill now l) in *. set (b' := bucket_refill cap rate now b) in *.
  pose proof S' as [Ec Er Et El Hr].
  rewrite Et, fle_exact by (unfold exact_int; nia).
  destruct (Z.leb_spec 1 (b_tokens b')); cbn [fst snd]; [|done].
  split_and!; try done.
  split; unfold take_token, with_tokens; cbn [capacity refillRate tokens lastRefill b_tokens b_last];
    try done; [|lia].
  rewrite Et, fsub_exact; [done|unfold exact_int; nia..].
Qed.

Lemma run_sim ts l b :
  Sim cap rate l b → Forall (on_grid t0 span) ts → on_grid t0 span (b_last b) →
  snd (run_allow ts l) = snd (run_bucket cap rate ts b).
Proof.
  intros S Hts. revert l b S. induction Hts as [|now ts Hn _ IH]; intros l b S Hl; [done|].
  simpl. destruct (Allow_sim now l b S Hn Hl) as (S' & Er & Hl').
  destruct (Allow now l) as [l1 r], (bucket_allow cap rate now b) as [b1 r'].
  specialize (IH l1 b1 S' Hl'). simpl in Er.
  destruct (run_allow ts l1), (run_bucket cap rate ts b1). simpl in *. by subst.
Qed.
End refinement.

(** ** Properties *)

(** C26: with an integral capacity and rate, and calls at whole seconds from the
    creation of the limiter, the float64 limiter is the exact integer token
    bucket: it grants and refuses the same calls, as long as capacity + span *
    rate stays below 2^53. *)
Theorem limiter_is_token_bucket cap rate span t0 ts :
  1 ≤ cap → 1 ≤ rate < 2 ^ 53 → 0 ≤ span < 2 ^ 33 → cap + span * rate < 2 ^ 53 →
  Forall (on_grid t0 span) ts →
  ∃ l, New (float_of_Z cap) (float_of_Z rate) t0 = Return l ∧
    snd (run_allow ts l) = snd (run_bucket cap rate ts {| b_tokens := cap; b_last := t0 |}).
Proof.
  intros Hc Hr Hs Hb Hts. unfold New.
  rewrite !fle_exact by (unfold exact_int; nia).
  rewrite !(proj2 (Z.leb_gt _ _)) by lia. cbn [orb]. eexists. split; [reflexivity|].
  apply (run_sim cap rate span t0); try done; try lia.
  - split; cbn [capacity refillRate tokens lastRefill b_tokens b_last]; try done; lia.
  - exists 0. split; [lia|]. simpl. lia.
Qed.

Lemma limiter_is_token_bucket_witness :
  ∃ l, New (float_of_Z 2) (float_of_Z 1) 0 = Return l ∧
    snd (run_allow [0; 0; 0; Second; Second; 5 * Second] l) = [true; true; false; true; false; true].
Proof.
  destruct (limiter_is_token_bucket 2 1 5 0 [0; 0; 0; Second; Second; 5 * Second]) as (l & E & R);
    try lia; [|exists l; split; [exact E|rewrite R; reflexivity]].
  unfold Second. repeat apply Forall_cons_2; [..|done]; unfold on_grid, Second;
    (exists 0; lia) || (exists 1; lia) || (exists 5; lia).
Defined.
