(* ===== verification/Retry.v ===== *)
(** * Package retry

    The retry loop of src/retry/retry.go.  What the loop observes from outside
    at attempt [i] (the context before the call, the result of [fn], the random
    number of the jitter, the outcome of the select on the backoff timer) is
    the record [attempt_env]; a run takes a stream of them.  Its result is the
    returned error together with the number of calls of [fn] and the backoff
    timers it armed. *)

From S2P Require Import Prelude GoFloat GoString GoErrors.
From stdpp Require Import base list strings.
From Stdlib Require Import ZArith Lia SpecFloat.
Open Scope Z_scope.

Record Policy := {
  MaxAttempts : Z;
  InitialDelay : Duration;
  MaxDelay : Duration;
  Multiplier : float64;
  JitterFraction : float64
}.

Definition DefaultPolicy : Policy :=
  {| MaxAttempts := 5; InitialDelay := 100 * Millisecond; MaxDelay := 5 * Second;
     Multiplier := float_of_Z 2; JitterFraction := float_dec 25 2 |}.

(** A nil error is [None]. *)
Definition Permanent (err : option error) : option error :=
  match err with
  | None => None
  | Some e => Some (EPermanent e)
  end.

Record attempt_env := {
  a_ctx : option error;      (* ctx.Err() at the top of the attempt *)
  a_fn : option error;       (* what fn returns *)
  a_rand : float64;          (* rand.Float64() *)
  a_select : option error    (* Some ctx.Err() when ctx.Done wins, None for the timer *)
}.

Record run_result := {
  returned : option error;
  calls : nat;
  sleeps : list Duration
}.

(** The four adjustments at the head of Do. *)
Definition clamp (p : Policy) : Policy :=
  {| MaxAttempts := if MaxAttempts p <? 1 then 1 else MaxAttempts p;
     InitialDelay := InitialDelay p;
     MaxDelay := MaxDelay p;
     Multiplier := if flt (Multiplier p) (float_of_Z 1) then float_of_Z 1 else Multiplier p;
     JitterFraction :=
       let j := if flt (JitterFraction p) (float_of_Z 0) then float_of_Z 0 else JitterFraction p in
       if flt (float_of_Z 1) j then float_of_Z 1 else j |}.

Section do.
Context `{FloatConv}.

Definition applyJitter (rand : float64) (d : Duration) (frac : float64) : Duration :=
  if fle frac (float_of_Z 0) then d
  else
    let jitter := fmul (fsub (fmul rand (float_of_Z 2)) (float_of_Z 1)) frac in
    let out := int64_of_float (fmul (float_of_Z d) (fadd (float_of_Z 1) jitter)) in
    if out <? 0 then 0 else out.

(** [if policy.MaxDelay > 0 && d > policy.MaxDelay { d = policy.MaxDelay }] *)
Definition cap_delay (p : Policy) (d : Duration) : Duration :=
  if (0 <? MaxDelay p) && (MaxDelay p <? d) then MaxDelay p else d.

Definition sleep_of (p : Policy) (rand : float64) (delay : Duration) : Duration :=
  cap_delay p (applyJitter rand delay (JitterFraction p)).

Definition next_delay (p : Policy) (delay : Duration) : Duration :=
  cap_delay p (int64_of_float (fmul (float_of_Z delay) (Multiplier p))).

Definition gave_up (p : Policy) (lastErr : error) : error :=
  EWrap ("retry: gave up after " +:+ fmt_d (MaxAttempts p) +:+ " attempts: ") "" lastErr.

(** The loop from attempt [attempt] on; [fuel] bounds the attempts left.  [None]:
    the fuel ran out, or [%w] got a nil error, neither of which happens. *)
Fixpoint loop (fuel : nat) (p : Policy) (env : nat → attempt_env) (attempt : Z)
    (delay : Duration) (lastErr : option error) : option run_result :=
  if attempt <=? MaxAttempts p then
    match fuel with
    | O => None
    | S fuel =>
        let a := env 0%nat in
        match a_ctx a with
        | Some err => Some {| returned := Some err; calls := 0; sleeps := [] |}
        | None =>
            match a_fn a with
            | None => Some {| returned := None; calls := 1; sleeps := [] |}
            | Some e =>
                if errors_Is e ErrPermanent
                then Some {| returned := Some e; calls := 1; sleeps := [] |}
                else if attempt =? MaxAttempts p
                then Some {| returned := Some (gave_up p e); calls := 1; sleeps := [] |}
                else
                  let sleep := sleep_of p (a_rand a) delay in
                  match a_select a with
                  | Some err => Some {| returned := Some err; calls := 1; sleeps := [sleep] |}
                  | None =>
                      r ← loop fuel p (λ i, env (S i)) (attempt + 1) (next_delay p delay) (Some e);
                      Some {| returned := returned r; calls := S (calls r);
                              sleeps := sleep :: sleeps r |}
                  end
            end
        end
    end
  else e ← lastErr; Some {| returned := Some (gave_up p e); calls := 0; sleeps := [] |}.

Definition Do (p : Policy) (env : nat → attempt_env) : option run_result :=
  let p := clamp p in
  loop (Z.to_nat (MaxAttempts p)) p env 1 (InitialDelay p) None.
End do.

(** ** Reference definitions *)

(** Attempt [a] ends the run: what it returns and whether [fn] was called;
    [last] tells the attempt that has no backoff behind it. *)
Definition stops (last : bool) (a : attempt_env) : option (option error * nat) :=
  match a_ctx a, a_fn a with
  | Some err, _ => Some (Some err, 0%nat)
  | None, None => Some (None, 1%nat)
  | None, Some e =>
      if errors_Is e ErrPermanent then Some (Some e, 1%nat)
      else if last then None
      else match a_select a with Some err => Some (Some err, 1%nat) | None => None end
  end.

(** The run is decided by the first attempt below [n] that stops it, and by the
    last attempt's error when there is none. *)
Definition first_stop (n : nat) (env : nat → attempt_env) (r : run_result) (up : error → error) : Prop :=
  (∃ i res c, (i < n)%nat ∧ stops (i =? n - 1)%nat (env i) = Some (res, c) ∧
     (∀ j, (j < i)%nat → stops false (env j) = None) ∧
     returned r = res ∧ calls r = (i + c)%nat) ∨
  (∃ e, (∀ j, (j < n)%nat → stops (j =? n - 1)%nat (env j) = None) ∧
     a_fn (env (n - 1)%nat) = Some e ∧ returned r = Some (up e) ∧ calls r = n).

(** ** Lemmas *)

Lemma clamp_attempts p : 1 ≤ MaxAttempts (clamp p).
Proof. simpl. case_match; zbool; lia. Qed.

Section lemmas.
Context `{FloatConv}.

(** One attempt of the loop, on the fuel [n] it always has. *)
Lemma loop_step n p env attempt delay lastErr :
  MaxAttempts p = attempt + Z.of_nat n →
  loop (S n) p env attempt delay lastErr =
  match stops (n =? 0)%nat (env 0%nat) with
  | Some (res, c) => Some {| returned := res; calls := c;
      sleeps := match a_ctx (env 0%nat), a_fn (env 0%nat) with
                | None, Some e => if errors_Is e ErrPermanent then []
                                  else [sleep_of p (a_rand (env 0%nat)) delay]
                | _, _ => [] end |}
  | None =>
      match n, a_fn (env 0%nat) with
      | O, Some e => Some {| returned := Some (gave_up p e); calls := 1; sleeps := [] |}
      | S _, Some e =>
          r ← loop n p (λ i, env (S i)) (attempt + 1) (next_delay p delay) (Some e);
          Some {| returned := returned r; calls := S (calls r);
                  sleeps := sleep_of p (a_rand (env 0%nat)) delay :: sleeps r |}
      | _, None => None
      end
  end.
Proof.
  intros E. cbn [loop]. unfold stops.
  rewrite (proj2 (Z.leb_le _ _)) by lia.
  destruct (a_ctx (env 0%nat)); [done|]. destruct (a_fn (env 0%nat)) as [e|]; [|done].
  destruct (errors_Is e ErrPermanent); [done|].
  destruct n as [|n].
  - rewrite (proj2 (Z.eqb_eq _ _)) by lia. done.
  - rewrite (proj2 (Z.eqb_neq _ _)) by lia. cbn [Nat.eqb]. by destruct (a_select (env 0%nat)).
Qed.

Lemma stops_none_fn last a : stops last a = None → ∃ e, a_fn a = Some e.
Proof. unfold stops. destruct (a_ctx a), (a_fn a); try done. by eexists. Qed.

Lemma loop_first_stop n p env attempt delay lastErr :
  MaxAttempts p = attempt + Z.of_nat n →
  ∃ r, loop (S n) p env attempt delay lastErr = Some r ∧
    first_stop (S n) env r (gave_up p).
Proof.
  revert env attempt delay lastErr. induction n as [|n IH]; intros env attempt delay lastErr E;
    rewrite loop_step by done; cbn [Nat.eqb];
    destruct (stops _ (env 0%nat)) as [[res c]|] eqn:Es.
  - eexists. split; [done|]. left. exists 0%nat, res, c. split_and!; try done; lia.
  - destruct (stops_none_fn _ _ Es) as [e Ee]. rewrite Ee. eexists. split; [done|].
    right. exists e. split_and!; try done. intros [|j] ?; [done|lia].
  - eexists. split; [done|]. left. exists 0%nat, res, c. split_and!; try done; lia.
  - destruct (stops_none_fn _ _ Es) as [e Ee]. rewrite Ee.
    destruct (IH (λ i, env (S i)) (attempt + 1) (next_delay p delay) (Some e)) as (r & -> & F); [lia|].
    eexists. split; [done|]. destruct F as [(i & res & c & Hi & Hs & Hj & Hr & Hc)|(e' & Hs & He & Hr & Hc)].
    + left. exists (S i), res, c. simpl. rewrite Hc. split_and!; try done; try lia.
      * simpl in Hs. by rewrite Nat.sub_0_r in Hs.
      * intros [|j] ?; [done|apply Hj; lia].
    + right. exists e'. simpl. rewrite Hc. simpl in Hs, He. rewrite Nat.sub_0_r in *.
      split_and!; try done. intros [|j] ?; [done|]. apply Hs. lia.
Qed.

Lemma cap_delay_le p d : 0 < MaxDelay p → cap_delay p d ≤ MaxDelay p.
Proof. intros. unfold cap_delay. rewrite (proj2 (Z.ltb_lt 0 _)) by done. simpl. case_match; zbool; lia. Qed.

Lemma loop_sleeps n p env attempt delay lastErr r :
  MaxAttempts p = attempt + Z.of_nat n →
  loop (S n) p env attempt delay lastErr = Some r →
  (length (sleeps r) ≤ calls r)%nat ∧ (length (sleeps r) ≤ n)%nat ∧
  (0 < MaxDelay p → Forall (λ d, d ≤ MaxDelay p) (sleeps r)).
Proof.
  revert env attempt delay lastErr r.
  induction n as [|n IH]; intros env attempt delay lastErr r E; rewrite loop_step by done; cbn [Nat.eqb];
    destruct (stops _ (env 0%nat)) as [[res c]|] eqn:Es.
  1,3: unfold stops in Es; intros; case_go; split_and!; try done || (simpl; lia);
    repeat constructor; by apply cap_delay_le.
  - destruct (a_fn (env 0%nat)); [|done]. intros [= <-]. simpl. split_and!; [lia|lia|done].
  - destruct (stops_none_fn _ _ Es) as [e Ee]. rewrite Ee.
    destruct (loop (S n) p _ _ _ _) as [r'|] eqn:El; [|done]. intros [= <-].
    apply IH in El as (? & ? & Hm); [|lia]. simpl. split_and!; try lia.
    intros Hp. constructor; [by apply cap_delay_le|by apply Hm].
Qed.

(** Deterministic exponential backoff. *)
Lemma next_delay_exact p m d :
  Multiplier p = float_of_Z m → 1 ≤ m → 0 ≤ d ≤ MaxDelay p → 0 < MaxDelay p →
  m * MaxDelay p < 2 ^ 53 → next_delay p d = Z.min (MaxDelay p) (d * m).
Proof.
  intros Em Hm Hd Hp Hx. unfold next_delay. rewrite Em.
  assert (int64_of_float (fmul (float_of_Z d) (float_of_Z m)) = d * m) as ->.
  { destruct (decide (d = 0)) as [->|].
    - rewrite float_of_Z_0. destruct m as [|q|q]; [lia| |lia].
      rewrite float_of_Z_pos by nia. done.
    - rewrite fmul_exact, int64_of_float_exact; unfold exact_int; nia. }
  unfold cap_delay. rewrite (proj2 (Z.ltb_lt 0 _)) by done. simpl. case_match; zbool; lia.
Qed.

Lemma loop_delays n p env attempt d0 k m lastErr r :
  MaxAttempts p = attempt + Z.of_nat n →
  fle (JitterFraction p) (float_of_Z 0) = true →
  Multiplier p = float_of_Z m → 1 ≤ m → 0 ≤ d0 → 0 < MaxDelay p →
  m * MaxDelay p < 2 ^ 53 →
  loop (S n) p env attempt (Z.min (MaxDelay p) (d0 * m ^ Z.of_nat k)) lastErr = Some r →
  ∀ i d, sleeps r !! i = Some d → d = Z.min (MaxDelay p) (d0 * m ^ Z.of_nat (k + i)).
Proof.
  intros E Hj Em Hm Hd Hp Hx. revert env attempt k lastErr r E.
  induction n as [|n IH]; intros env attempt k lastErr r E; rewrite loop_step by done; cbn [Nat.eqb].
  all: assert (sleep_of p (a_rand (env 0%nat)) (Z.min (MaxDelay p) (d0 * m ^ Z.of_nat k)) =
    Z.min (MaxDelay p) (d0 * m ^ Z.of_nat k)) as Esl
    by (unfold sleep_of, applyJitter, cap_delay; rewrite Hj; case_match; zbool; lia).
  all: rewrite Esl; destruct (stops _ (env 0%nat)) as [[res c]|] eqn:Es.
  1,3: clear IH || idtac; intros; case_go; destruct i; simplify_eq/=; by rewrite Nat.add_0_r.
  - intros. case_go.
  - destruct (stops_none_fn _ _ Es) as [e Ee]. rewrite Ee.
    assert (0 < m ^ Z.of_nat k) by (apply Z.pow_pos_nonneg; lia).
    rewrite (next_delay_exact p m) by (done || nia).
    replace (Z.min (MaxDelay p) (Z.min (MaxDelay p) (d0 * m ^ Z.of_nat k) * m))
      with (Z.min (MaxDelay p) (d0 * m ^ Z.of_nat (S k)))
      by (rewrite Nat2Z.inj_succ, Z.pow_succ_r by lia; nia).
    destruct (loop (S n) p _ _ _ _) as [r'|] eqn:El; [|done]. intros [= <-] [|i] d; simpl.
    + intros [= <-]. by rewrite Nat.add_0_r.
    + intros Hi. eapply IH in El as ->; [|lia|exact Hi]. do 3 f_equal. lia.
Qed.

(** ** Properties *)

Lemma Do_loop p env :
  Do p env = loop (S (Z.to_nat (MaxAttempts (clamp p) - 1))) (clamp p) env 1 (InitialDelay p) None ∧
  MaxAttempts (clamp p) = 1 + Z.of_nat (Z.to_nat (MaxAttempts (clamp p) - 1)).
Proof.
  pose proof (clamp_attempts p). unfold Do. split; [|lia].
  f_equal. lia.
Qed.

(** C6: Do always returns.  Its result is the one the first decisive attempt
    gives (a cancelled context, a success, a permanent error, a cancellation
    during the backoff), whatever the delays and the jitter; when no attempt is
    decisive, fn was called max(1, MaxAttempts) times and the last error comes
    back wrapped, with the count of attempts in its text.  At most
    max(1, MaxAttempts) calls and one timer fewer are made, and no timer exceeds
    a positive MaxDelay. *)
Theorem Do_result p env :
  let n := Z.to_nat (Z.max 1 (MaxAttempts p)) in
  ∃ r, Do p env = Some r ∧
    first_stop n env r (λ e, EWrap ("retry: gave up after " +:+ fmt_d (Z.max 1 (MaxAttempts p))
                                    +:+ " attempts: ") "" e) ∧
    (length (sleeps r) ≤ calls r)%nat ∧ (length (sleeps r) < n)%nat ∧
    (0 < MaxDelay p → Forall (λ d, d ≤ MaxDelay p) (sleeps r)).
Proof.
  intros n. destruct (Do_loop p env) as [-> En].
  destruct (loop_first_stop _ (clamp p) env 1 (InitialDelay p) None En) as (r & Er & F).
  destruct (loop_sleeps _ _ _ _ _ _ r En Er) as (? & ? & ?).
  assert (MaxAttempts (clamp p) = Z.max 1 (MaxAttempts p)) as Em 
    by (simpl; case_match; zbool; lia).
  unfold gave_up in F. rewrite Em in *.
  replace (S (Z.to_nat (Z.max 1 (MaxAttempts p) - 1))) with n in F by lia.
  exists r. split_and!; try done; lia.
Qed.

(** with no jitter, an integral multiplier [m] and a positive MaxDelay, the
    i-th backoff is exactly min(MaxDelay, InitialDelay * m^i), through the
    float64 arithmetic of the source, while m * MaxDelay < 2^53 ns (about 104
    days). *)
Theorem Do_delays_exponential p env m r i d :
  fle (JitterFraction p) (float_of_Z 0) = true →
  Multiplier p = float_of_Z m → 1 ≤ m →
  0 ≤ InitialDelay p ≤ MaxDelay p → 0 < MaxDelay p → m * MaxDelay p < 2 ^ 53 →
  Do p env = Some r → sleeps r !! i = Some d →
  d = Z.min (MaxDelay p) (InitialDelay p * m ^ Z.of_nat i).
Proof.
  intros Hj Em Hm Hd Hp Hx. destruct (Do_loop p env) as [-> En]. intros El Hi.
  assert (Multiplier (clamp p) = float_of_Z m) as Em'.
  { cbn [clamp Multiplier]. rewrite Em, flt_exact by (unfold exact_int; nia). by rewrite (proj2 (Z.ltb_ge _ _)) by done. }
  assert (fle (JitterFraction (clamp p)) (float_of_Z 0) = true) as Hj'.
  { cbn [clamp JitterFraction]. destruct (flt (JitterFraction p) (float_of_Z 0)); [done|].
    cbv zeta. case_match; [|done]. exfalso. revert Hj H0. clear.
    unfold fle, flt, SFleb, SFltb, SFcompare. rewrite float_of_Z_0. by destruct (JitterFraction p) as [[]|[]| |[]]. }
  apply (loop_delays _ (clamp p) env 1 (InitialDelay p) 0 m None r En Hj' Em' Hm); try done; [lia|].
  change (MaxDelay (clamp p)) with (MaxDelay p). rewrite Z.mul_1_r, Z.min_r by lia. exact El.
Qed.
End lemmas.

(** A policy with no cap (MaxDelay zero) doubles its delay until the product
    leaves the int64 range. *)
Definition uncapped : Policy :=
  {| MaxAttempts := 100; InitialDelay := 100 * Millisecond; MaxDelay := 0;
     Multiplier := float_of_Z 2; JitterFraction := float_of_Z 0 |}.

Definition always_fails : nat → attempt_env :=
  λ _, {| a_ctx := None; a_fn := Some (EText "down"); a_rand := float_of_Z 0; a_select := None |}.

(** without a cap the backoff does not keep growing: with the documented
    "no cap" setting, an initial delay of 100 ms and a multiplier of 2, the
    38th delay overflows the conversion to a duration and every later timer is
    armed with a negative delay, so the remaining attempts are made with no
    pause at all. *)
Theorem uncapped_backoff_collapses i :
  (37 ≤ i < 99)%nat →
  ∃ r, Do uncapped always_fails = Some r ∧ calls r = 100%nat ∧
    sleeps r !! i = Some MinInt64 ∧ sleeps r !! 36%nat = Some (100 * Millisecond * 2 ^ 36).
Proof.
  intros Hi. destruct (Do uncapped always_fails) as [r|] eqn:E; [|by vm_compute in E].
  exists r. split; [done|]. vm_compute in E. injection E as <-.
  split_and!; try done. cbn [sleeps].
  do 37 (destruct i as [|i]; [lia|]). do 62 (destruct i as [|i]; [done|]). lia.
Qed.

(** ** Witnesses *)

Lemma uncapped_backoff_collapses_witness :
  ∃ r, Do uncapped always_fails = Some r ∧ calls r = 100%nat ∧
    sleeps r !! 40%nat = Some MinInt64 ∧ sleeps r !! 36%nat = Some (100 * Millisecond * 2 ^ 36).
Proof. apply (uncapped_backoff_collapses 40). lia. Defined.

(** Delays of 100, 200 and 300 ms under a cap of 300 ms. *)
Definition capped : Policy :=
  {| MaxAttempts := 4; InitialDelay := 100 * Millisecond; MaxDelay := 300 * Millisecond;
     Multiplier := float_of_Z 2; JitterFraction := float_of_Z 0 |}.

Lemma Do_delays_exponential_witness :
  ∃ r, Do capped always_fails = Some r ∧ sleeps r !! 1%nat = Some (200 * Millisecond) ∧
    200 * Millisecond = Z.min (MaxDelay capped) (InitialDelay capped * 2 ^ Z.of_nat 1).
Proof.
  destruct (Do capped always_fails) as [r|] eqn:E; [|by vm_compute in E].
  exists r. assert (sleeps r !! 1%nat = Some (200 * Millisecond)) as Hs.
  { vm_compute in E. by injection E as <-. }
  split_and!; [done|done|].
  apply (Do_delays_exponential capped always_fails 2 r 1 (200 * Millisecond)); done.
Defined.
