(* ===== verification/Registry.v ===== *)
(** * Package registry

    The generic registry of src/registry/registry.go and its queue of pending
    registrations.  Every method holds the mutex for its whole body, so it is a
    function on the state.  The queue keeps a pointer to its target: registries
    live in a heap, and a queued function is an action on the heap given the
    pointer it receives (nil is [None]).  The order in which [range] visits a
    map is an argument of the methods that depend on it. *)

From S2P Require Import Prelude GoString GoErrors.
From stdpp Require Import base list gmap strings.
From Stdlib Require Import ZArith Lia.
Open Scope Z_scope.

Definition ErrAlreadyRegistered : error := ENew "registry: key already registered".
Definition ErrNotFound : error := ENew "registry: key not found".

Section registry.
Context {K V : Type} `{Countable K}.
(** [show] is the rendering of a key by [%v], [zero] the zero value of V. *)
Variables (show : K → string) (zero : V).

Record Registry := { entries : gmap K V }.

Definition New : Registry := {| entries := ∅ |}.

Definition Register (k : K) (v : V) (r : Registry) : Registry * option error :=
  match entries r !! k with
  | Some _ => (r, Some (EWrap "" (": " +:+ show k) ErrAlreadyRegistered))
  | None => ({| entries := <[k := v]> (entries r) |}, None)
  end.

Definition Replace (k : K) (v : V) (r : Registry) : Registry * (V * bool) :=
  let res := match entries r !! k with Some prev => (prev, true) | None => (zero, false) end in
  ({| entries := <[k := v]> (entries r) |}, res).

Definition Get (k : K) (r : Registry) : V * option error :=
  match entries r !! k with
  | Some v => (v, None)
  | None => (zero, Some (EWrap "" (": " +:+ show k) ErrNotFound))
  end.

Definition Lookup_ (k : K) (r : Registry) : V * bool :=
  match entries r !! k with Some v => (v, true) | None => (zero, false) end.

Definition Delete (k : K) (r : Registry) : Registry * bool :=
  match entries r !! k with
  | None => (r, false)
  | Some _ => ({| entries := delete k (entries r) |}, true)
  end.

(** A visiting order of [range r.entries]. *)
Definition range_order (r : Registry) (order : list (K * V)) : Prop :=
  order ≡ₚ map_to_list (entries r).

Definition Keys (order : list (K * V)) : list K := foldl (λ out kv, out ++ [kv.1]) [] order.

Definition Len (r : Registry) : nat := size (entries r).

(** [fn] has state [S]; it answers whether to go on. *)
Fixpoint Range {S} (fn : K → V → S → S * bool) (order : list (K * V)) (s : S) : S :=
  match order with
  | [] => s
  | (k, v) :: order =>
      let '(s, go) := fn k v s in if go then Range fn order s else s
  end.

(** ** PendingQueue *)

Definition loc := positive.
Definition heap := gmap loc Registry.
Definition action := option loc → heap → heap * option error.

Record PendingQueue := {
  target : option loc;
  pending : list action
}.

(** The zero value. *)
Definition zero_queue : PendingQueue := {| target := None; pending := [] |}.

Definition Add (fn : action) (q : PendingQueue) (h : heap) : PendingQueue * heap :=
  match target q with
  | Some r => (q, fst (fn (Some r) h))
  | None => ({| target := None; pending := pending q ++ [fn] |}, h)
  end.

Fixpoint run_pending (fns : list action) (r : option loc) (h : heap) : heap * list (option error) :=
  match fns with
  | [] => (h, [])
  | fn :: fns =>
      let '(h, e) := fn r h in
      let '(h, es) := run_pending fns r h in (h, e :: es)
  end.

(** The returned slice: [None] is the nil slice. *)
Definition Flush (r : option loc) (q : PendingQueue) (h : heap)
  : PendingQueue * heap * option (list (option error)) :=
  match target q with
  | Some _ => (q, h, None)
  | None =>
      let '(h, errs) := run_pending (pending q) r h in
      ({| target := r; pending := [] |}, h, Some errs)
  end.

(** ** Reference definitions *)

Definition add_all (fns : list action) (s : PendingQueue * heap) : PendingQueue * heap :=
  foldl (λ '(q, h) fn, Add fn q h) s fns.

Fixpoint register_all (kvs : list (K * V)) (r : Registry) : Registry * list (option error) :=
  match kvs with
  | [] => (r, [])
  | (k, v) :: kvs =>
      let '(r, e) := Register k v r in
      let '(r, es) := register_all kvs r in (r, e :: es)
  end.

(** The value of the first entry of [kvs] with key [k]. *)
Definition first_value (k : K) (kvs : list (K * V)) : option V :=
  (λ p, p.2.2) <$> list_find (λ kv, kv.1 = k) kvs.

(** ** Lemmas *)

Lemma Register_lookup k v r k' :
  entries (fst (Register k v r)) !! k' =
  match entries r !! k' with
  | Some w => Some w
  | None => if decide (k' = k) then Some v else None
  end.
Proof.
  unfold Register. destruct (entries r !! k) as [w|] eqn:E; simpl.
  - destruct (decide (k' = k)) as [->|]; [by rewrite E|by destruct (entries r !! k')].
  - destruct (decide (k' = k)) as [->|]; [by rewrite E, lookup_insert_eq|].
    rewrite lookup_insert_ne by done. by destruct (entries r !! k').
Qed.

Lemma Register_err k v r :
  snd (Register k v r) =
  (_ ← entries r !! k; Some (EWrap "" (": " +:+ show k) ErrAlreadyRegistered)).
Proof. unfold Register. by destruct (entries r !! k). Qed.

Lemma run_pending_app fns fns' r h :
  run_pending (fns ++ fns') r h =
  let '(h1, es) := run_pending fns r h in
  let '(h2, es') := run_pending fns' r h1 in (h2, es ++ es').
Proof.
  revert h. induction fns as [|fn fns IH]; intros h; simpl.
  - by destruct (run_pending fns' r h).
  - destruct (fn r h) as [h1 e]. rewrite IH. destruct (run_pending fns r h1) as [h2 es].
    by destruct (run_pending fns' r h2).
Qed.

Lemma add_all_pending fns q h :
  target q = None →
  add_all fns (q, h) = ({| target := None; pending := pending q ++ fns |}, h).
Proof.
  revert q. induction fns as [|fn fns IH]; intros q E; simpl.
  - destruct q as [t p]; simpl in *. by rewrite E, app_nil_r.
  - unfold Add. rewrite E. rewrite IH by done. simpl. by rewrite <-app_assoc.
Qed.

Lemma add_all_target fns r h :
  add_all fns ({| target := Some r; pending := [] |}, h) =
  ({| target := Some r; pending := [] |}, fst (run_pending fns (Some r) h)).
Proof.
  revert h. induction fns as [|fn fns IH]; intros h; [done|].
  change (add_all (fn :: fns) ({| target := Some r; pending := [] |}, h)) with
    (add_all fns ({| target := Some r; pending := [] |}, fst (fn (Some r) h))).
  rewrite IH. simpl. destruct (fn (Some r) h) as [h1 e]; simpl. by destruct (run_pending fns (Some r) h1).
Qed.

Lemma list_find_first k v (kvs : list (K * V)) :
  first_value k ((k, v) :: kvs) = Some v.
Proof. unfold first_value. simpl. by rewrite decide_True. Qed.

Lemma register_all_lookup kvs r k :
  entries (fst (register_all kvs r)) !! k =
  match entries r !! k with Some w => Some w | None => first_value k kvs end.
Proof.
  revert r. induction kvs as [|[k' v] kvs IH]; intros r; simpl.
  { by destruct (entries r !! k). }
  pose proof (Register_lookup k' v r k) as E.
  destruct (Register k' v r) as [r1 e]. specialize (IH r1).
  destruct (register_all kvs r1) as [r2 es]. simpl in *. rewrite IH, E.
  destruct (entries r !! k); [done|]. destruct (decide (k = k')) as [->|].
  - by rewrite list_find_first.
  - unfold first_value. simpl. rewrite decide_False by done. by destruct (list_find _ kvs) as [[]|].
Qed.

Lemma register_all_errs kvs r i e :
  snd (register_all kvs r) !! i = Some e →
  ∃ k v, kvs !! i = Some (k, v) ∧
    (e = None ↔ entries r !! k = None ∧ k ∉ (take i kvs).*1) ∧
    (e ≠ None → ∃ err, e = Some err ∧ errors_Is err ErrAlreadyRegistered = true).
Proof.
  revert r i. induction kvs as [|[k' v] kvs IH]; intros r i; simpl; [done|].
  pose proof (Register_err k' v r) as Ee. pose proof (Register_lookup k' v r) as El.
  destruct (Register k' v r) as [r1 e1]. specialize (IH r1).
  destruct (register_all kvs r1) as [r2 es]. simpl in *. destruct i as [|i]; simpl.
  - intros [= <-]. exists k', v. rewrite Ee. destruct (entries r !! k'); simpl; split_and!; try done.
    + naive_solver.
    + intros _. by eexists.
    + split; [split; [done|set_solver]|done].
  - intros Hi. destruct (IH i Hi) as (k & w & Hk & Hn & Hs). exists k, w. split_and!; try done.
    rewrite Hn, El, elem_of_cons. destruct (entries r !! k); [naive_solver|].
    destruct (decide (k = k')); naive_solver.
Qed.
End registry.

Arguments Registry K V {_ _}.
Arguments PendingQueue K V {_ _}.
Arguments heap K V {_ _}.
Arguments action K V {_ _}.

(** ** Properties *)

(** for any sequence of concurrent Register calls (each holds the lock, so
    their order is some sequence) on a registry that starts empty, every key
    holds the value of its first registration, and exactly the later ones are
    refused, with an error that errors.Is recognises as ErrAlreadyRegistered. *)
Theorem first_registration_wins {K V} `{Countable K} (show : K → string) (kvs : list (K * V)) :
  (∀ k, entries (fst (register_all show kvs New)) !! k = first_value k kvs) ∧
  ∀ i e, snd (register_all show kvs New) !! i = Some e →
    ∃ k v, kvs !! i = Some (k, v) ∧ (e = None ↔ k ∉ (take i kvs).*1) ∧
      (e ≠ None → ∃ err, e = Some err ∧ errors_Is err ErrAlreadyRegistered = true).
Proof.
  split.
  - intros k. by rewrite register_all_lookup.
  - intros i e Hi. destruct (register_all_errs show kvs New i e Hi) as (k & v & Hk & Hn & Hs).
    exists k, v. rewrite Hn. simpl. rewrite lookup_empty. naive_solver.
Qed.

(** C25: staging registrations is transparent.  Whatever actions are added before
    Flush and after it, the queue and the heap end exactly as if Flush had come
    first and every action had run at once, in the order of the Adds, each
    once; Flush returns the errors of the actions staged before it, aligned with
    them; and a second Flush, even with another registry, changes nothing and
    returns the nil slice. *)
Theorem deferred_is_immediate {K V} `{Countable K} (before after : list (action K V)) (r r' : loc) h :
  let '(q, h1) := add_all before (zero_queue, h) in
  let '(q, h2, errs) := Flush (Some r) q h1 in
  let '(q', h', _) := Flush (Some r) zero_queue h in
  add_all after (q, h2) = add_all (before ++ after) (q', h') ∧
  snd (add_all after (q, h2)) = fst (run_pending (before ++ after) (Some r) h) ∧
  errs = Some (snd (run_pending before (Some r) h)) ∧
  ∀ q'' h'', add_all after (q, h2) = (q'', h'') → Flush (Some r') q'' h'' = (q'', h'', None).
Proof.
  rewrite add_all_pending by done. simpl.
  destruct (run_pending before (Some r) h) as [h2 es] eqn:E. unfold Flush. simpl. rewrite E.
  rewrite !add_all_target, run_pending_app, E. destruct (run_pending after (Some r) h2) as [h3 es'].
  split_and!; try done. by intros q'' h'' [= <- <-].
Qed.
