(* ===== verification/Pipeline.v ===== *)
(** * Package pipeline

    The filter chain of src/pipeline/pipeline.go.  Items are Go slices: windows
    on arrays that live in a store, so a filter may write through the slice it
    is handed.  A filter's Apply is an action on the store; what the clock
    measures around the i-th call is an argument.  Log calls are returned as
    effects. *)

From S2P Require Import Prelude GoString GoErrors.
From stdpp Require Import base list gmap strings.
From Stdlib Require Import ZArith Lia.
Open Scope Z_scope.

Inductive Criticality := Critical | Enrichment.
Abbreviation Phase := Z.

#[export] Instance Criticality_eq_dec : EqDecision Criticality.
Proof. solve_decision. Defined.

Record StepLog := {
  FilterName : string;
  LCriticality : Criticality;
  LPhase : Phase;
  BeforeCount : Z;
  AfterCount : Z;
  DurationMs : Z;
  Removed : Z;
  Skipped : bool;
  Error : string
}.

(** The calls of the Logger. *)
Inductive log_call :=
| LogDebug (filter : string) (before after ms : Z)
| LogWarn (filter err : string)
| LogError (filter err : string).

Section pipeline.
Context {T : Type}.

Record slice := { arr : positive; off : nat; len : nat }.
Definition store := gmap positive (list T).

(** The items a slice shows in a store. *)
Definition items_of (s : store) (sl : slice) : list T :=
  take (len sl) (drop (off sl) (default [] (s !! arr sl))).

(** The interface Filter; [Apply] with its context and metadata fixed. *)
Record Filter := {
  Name : string;
  criticality : Criticality;
  phase : Phase;
  Apply : slice → store → store * (slice * option error)
}.

Record Pipeline := { filters : list Filter }.

(** The copy of the variadic slice; a nil logger becomes one that discards. *)
Definition New (fs : list Filter) : Pipeline := {| filters := fs |}.

(** The nil slice. *)
Definition nil_slice : slice := {| arr := 1; off := 0; len := 0 |}.

Record run_out := {
  out_store : store;
  out_items : slice;
  out_logs : list StepLog;
  out_err : option error;
  out_calls : list log_call
}.

Definition critical_error (f : Filter) (err : error) : error :=
  EWrap ("critical filter " +:+ Name f +:+ " failed: ") "" err.

Definition step_log (f : Filter) (before after ms removed : Z) (skipped : bool) (err : string) : StepLog :=
  {| FilterName := Name f; LCriticality := criticality f; LPhase := phase f;
     BeforeCount := before; AfterCount := after; DurationMs := ms; Removed := removed;
     Skipped := skipped; Error := err |}.

Definition Milliseconds (d : Duration) : Z := Z.quot d Millisecond.

(** The loop of Run over the filters left; [elapsed i] is the duration of the
    i-th call from here. *)
Fixpoint run_loop (fs : list Filter) (elapsed : nat → Duration) (current : slice) (s : store) : run_out :=
  match fs with
  | [] => {| out_store := s; out_items := current; out_logs := []; out_err := None; out_calls := [] |}
  | f :: fs =>
      let before := Z.of_nat (len current) in
      let '(s, (result, err)) := Apply f current s in
      let ms := Milliseconds (elapsed 0%nat) in
      match err with
      | Some e =>
          let entry := step_log f before before ms 0 in
          match criticality f with
          | Critical =>
              {| out_store := s; out_items := nil_slice; out_logs := [entry false (error_text e)];
                 out_err := Some (critical_error f e);
                 out_calls := [LogError (Name f) (error_text e)] |}
          | Enrichment =>
              let r := run_loop fs (λ i, elapsed (S i)) current s in
              {| out_store := out_store r; out_items := out_items r;
                 out_logs := entry true (error_text e) :: out_logs r; out_err := out_err r;
                 out_calls := LogWarn (Name f) (error_text e) :: out_calls r |}
          end
      | None =>
          let after := Z.of_nat (len result) in
          let r := run_loop fs (λ i, elapsed (S i)) result s in
          {| out_store := out_store r; out_items := out_items r;
             out_logs := step_log f before after ms (before - after) false "" :: out_logs r;
             out_err := out_err r;
             out_calls := LogDebug (Name f) before after ms :: out_calls r |}
      end
  end.

Definition Run (p : Pipeline) (elapsed : nat → Duration) (items : slice) (s : store) : run_out :=
  run_loop (filters p) elapsed items s.

Definition in_phase (ph : Phase) (f : Filter) : Prop := phase f = ph.
#[global] Instance in_phase_dec ph f : Decision (in_phase ph f).
Proof. unfold in_phase. apply _. Defined.

Definition RunPhase (p : Pipeline) (ph : Phase) (elapsed : nat → Duration) (items : slice) (s : store)
  : run_out :=
  Run {| filters := filter (in_phase ph) (filters p) |} elapsed items s.

Definition Filters (p : Pipeline) : list Filter := filters p.

(** ** Reference definitions *)

(** Running a continuation after a run that did not abort. *)
Definition and_then (r : run_out) (k : slice → store → run_out) : run_out :=
  match out_err r with
  | Some _ => r
  | None =>
      let r' := k (out_items r) (out_store r) in
      {| out_store := out_store r'; out_items := out_items r'; out_logs := out_logs r ++ out_logs r';
         out_err := out_err r'; out_calls := out_calls r ++ out_calls r' |}
  end.

(** Consecutive entries agree on the count between them. *)
Fixpoint chained (first : Z) (logs : list StepLog) (last : Z) : Prop :=
  match logs with
  | [] => first = last
  | l :: logs => BeforeCount l = first ∧ chained (AfterCount l) logs last
  end.

Definition sum_removed (logs : list StepLog) : Z := foldr (λ l n, Removed l + n) 0 logs.

(** An entry of [f]; only the duration is open. *)
Definition log_of (f : Filter) (before after : nat) (skipped : bool) (err : string) (l : StepLog) : Prop :=
  FilterName l = Name f ∧ LCriticality l = criticality f ∧ LPhase l = phase f ∧
  BeforeCount l = Z.of_nat before ∧ AfterCount l = Z.of_nat after ∧
  Removed l = Z.of_nat before - Z.of_nat after ∧ Skipped l = skipped ∧ Error l = err.

(** The filters are passed one after the other: each returns the items for the
    next, or is an enrichment that fails and leaves the items it was given. *)
Inductive passed : list Filter → slice → store → list StepLog → slice → store → Prop :=
| passed_none sl s : passed [] sl s [] sl s
| passed_kept f fs sl s sl1 s1 l ls sl' s' :
    Apply f sl s = (s1, (sl1, None)) → log_of f (len sl) (len sl1) false "" l →
    passed fs sl1 s1 ls sl' s' → passed (f :: fs) sl s (l :: ls) sl' s'
| passed_skipped f fs sl s x s1 e l ls sl' s' :
    criticality f = Enrichment → Apply f sl s = (s1, (x, Some e)) →
    log_of f (len sl) (len sl) true (error_text e) l →
    passed fs sl s1 ls sl' s' → passed (f :: fs) sl s (l :: ls) sl' s'.

(** [f] fails on every slice without writing to the store. *)
Definition fails_cleanly (f : Filter) : Prop :=
  criticality f = Enrichment ∧ ∀ sl s, ∃ sl' e, Apply f sl s = (s, (sl', Some e)).

(** ** Lemmas *)

Lemma run_loop_app fs gs elapsed items s :
  run_loop (fs ++ gs) elapsed items s =
  and_then (run_loop fs elapsed items s)
    (run_loop gs (λ i, elapsed (length fs + i)%nat)).
Proof.
  revert elapsed items s. induction fs as [|f fs IH]; intros elapsed items s; simpl.
  { unfold and_then. simpl. by destruct (run_loop gs _ items s). }
  destruct (Apply f items s) as [s' [result [e|]]]; [destruct (criticality f); [done|]|];
    rewrite IH; unfold and_then; simpl;
    destruct (out_err (run_loop fs _ _ _)) eqn:Eo; simpl; by rewrite ?Eo.
Qed.

Lemma filter_phase_all ph (fs : list Filter) :
  Forall (in_phase ph) fs → filter (in_phase ph) fs = fs.
Proof. induction 1 as [|f fs Hf _ IH]; [done|]. rewrite filter_cons_True by done. by rewrite IH. Qed.

Lemma filter_phase_none ph ph' (fs : list Filter) :
  ph ≠ ph' → Forall (in_phase ph') fs → filter (in_phase ph) fs = [].
Proof.
  intros Hne. induction 1 as [|f fs Hf _ IH]; [done|].
  rewrite filter_cons_False; [done|]. unfold in_phase in *. by rewrite Hf.
Qed.

Lemma run_loop_logs fs elapsed items s :
  let r := run_loop fs elapsed items s in
  match out_err r with
  | None => passed fs items s (out_logs r) (out_items r) (out_store r)
  | Some err =>
      out_items r = nil_slice ∧
      ∃ fs1 f fs2 sl s1 x e ls l, fs = fs1 ++ f :: fs2 ∧ passed fs1 items s ls sl s1 ∧
        criticality f = Critical ∧ Apply f sl s1 = (out_store r, (x, Some e)) ∧ err = critical_error f e ∧
        out_logs r = ls ++ [l] ∧ log_of f (len sl) (len sl) false (error_text e) l
  end.
Proof.
  revert elapsed items s. induction fs as [|f fs IH]; intros elapsed items s; simpl; [constructor|].
  destruct (Apply f items s) as [s' [result [e|]]] eqn:Ef; [destruct (criticality f) eqn:Ec|].
  - simpl. split; [done|]. exists [], f, fs, items, s, result, e, [], (step_log f (Z.of_nat (len items)) (Z.of_nat (len items))
      (Milliseconds (elapsed 0%nat)) 0 false (error_text e)).
    split_and!; try done; [constructor|]. split_and!; simpl; try done; lia.
  - specialize (IH (λ i, elapsed (S i)) items s'). simpl in IH |- *. destruct (out_err _) as [err|].
    + destruct IH as (Hn & fs1 & g & fs2 & sl & s1 & x & e1 & ls & l & -> & Hp & Hc & Ha & -> & -> & Hl).
      split; [done|]. eexists (f :: fs1), g, fs2, sl, s1, x, e1, (_ :: ls), l.
      split_and!; [done| |done|done|done|done|done]. eapply passed_skipped; try done; split_and!; simpl; try done; lia.
    + eapply passed_skipped; try done; split_and!; simpl; try done; lia.
  - specialize (IH (λ i, elapsed (S i)) result s'). simpl in IH |- *. destruct (out_err _) as [err|].
    + destruct IH as (Hn & fs1 & g & fs2 & sl & s1 & x & e1 & ls & l & -> & Hp & Hc & Ha & -> & -> & Hl).
      split; [done|]. eexists (f :: fs1), g, fs2, sl, s1, x, e1, (_ :: ls), l.
      split_and!; [done| |done|done|done|done|done]. eapply passed_kept; try done; split_and!; simpl; try done; lia.
    + eapply passed_kept; try done; split_and!; simpl; try done; lia.
Qed.

Lemma passed_chained fs sl s ls sl' s' :
  passed fs sl s ls sl' s' →
  length ls = length fs ∧ chained (Z.of_nat (len sl)) ls (Z.of_nat (len sl')) ∧
  sum_removed ls = Z.of_nat (len sl) - Z.of_nat (len sl').
Proof.
  induction 1 as [|f fs sl s sl1 s1 l ls sl' s' _ Hl _ (Hn & Hc & Hs)|f fs sl s x s1 e l ls sl' s' _ _ Hl _ (Hn & Hc & Hs)];
    simpl; [split_and!; lia|..]; destruct Hl as (_ & _ & _ & -> & -> & -> & _); split_and!; try done; lia.
Qed.

(** Filters that can be passed are, whatever the clock says. *)
Lemma run_loop_passed fs elapsed items s ls sl s' :
  passed fs items s ls sl s' →
  let r := run_loop fs elapsed items s in out_err r = None ∧ out_items r = sl ∧ out_store r = s'.
Proof.
  intros H. revert elapsed. induction H as [|f fs sl s sl1 s1 l ls sl' s' Ha _ _ IH|f fs sl s x s1 e l ls sl' s' Hc Ha _ _ IH];
    intros elapsed; simpl; [done|rewrite Ha; apply IH|rewrite Ha, Hc; apply IH].
Qed.

Lemma run_loop_skip fs elapsed items s :
  let r := run_loop fs elapsed items s in
  let r' := run_loop (filter (λ f, criticality f = Critical) fs) elapsed items s in
  Forall (λ f, criticality f = Critical ∨ fails_cleanly f) fs →
  out_items r = out_items r' ∧ out_store r = out_store r' ∧ out_err r = out_err r'.
Proof.
  revert elapsed items s.
  assert (∀ elapsed' elapsed items s,
    let r := run_loop fs elapsed items s in
    let r' := run_loop (filter (λ f, criticality f = Critical) fs) elapsed' items s in
    Forall (λ f, criticality f = Critical ∨ fails_cleanly f) fs →
    out_items r = out_items r' ∧ out_store r = out_store r' ∧ out_err r = out_err r'); [|eauto].
  induction fs as [|f fs IH]; intros elapsed' elapsed items s r r' Hf; [done|].
  inversion Hf as [|? ? [Hc|[Hc Hfail]] Hfs]; subst; unfold r, r'; clear r r'.
  - rewrite filter_cons_True by done. simpl.
    destruct (Apply f items s) as [s' [result [e|]]]; [by rewrite Hc|]. simpl. by apply IH.
  - rewrite filter_cons_False by (rewrite Hc; done). simpl.
    destruct (Hfail items s) as (sl & e & ->). rewrite Hc. simpl. by apply IH.
Qed.
End pipeline.

Arguments Filter T : clear implicits.
Arguments Pipeline T : clear implicits.
Arguments store T : clear implicits.

(** ** Properties *)

(** C19: accounting.  A run returns an error exactly when it comes to a critical
    filter that fails: the filters before were passed (each returned the items
    for the next, or was an enrichment that failed and was skipped), the run
    stops there, with nil items, the error that names the filter and wraps its
    error, and the entries of the filters passed and of the one that failed.
    Otherwise all filters were passed; then there is one entry for each, in order,
    each starts from the count the previous one ended with, and the Removed
    fields add up to the items lost overall. *)
Theorem Run_accounting {T} (p : Pipeline T) elapsed items s :
  let r := Run p elapsed items s in
  (∀ fs1 f fs2 ls sl s1 s2 x e, filters p = fs1 ++ f :: fs2 → passed fs1 items s ls sl s1 →
     criticality f = Critical → Apply f sl s1 = (s2, (x, Some e)) →
     out_err r = Some (critical_error f e) ∧ out_store r = s2) ∧
  match out_err r with
  | None =>
      passed (filters p) items s (out_logs r) (out_items r) (out_store r) ∧
      length (out_logs r) = length (filters p) ∧
      chained (Z.of_nat (len items)) (out_logs r) (Z.of_nat (len (out_items r))) ∧
      sum_removed (out_logs r) = Z.of_nat (len items) - Z.of_nat (len (out_items r))
  | Some err =>
      out_items r = nil_slice ∧
      ∃ fs1 f fs2 sl s1 x e ls l, filters p = fs1 ++ f :: fs2 ∧ passed fs1 items s ls sl s1 ∧
        criticality f = Critical ∧ Apply f sl s1 = (out_store r, (x, Some e)) ∧ err = critical_error f e ∧
        out_logs r = ls ++ [l] ∧ log_of f (len sl) (len sl) false (error_text e) l
  end.
Proof.
  split.
  - intros fs1 f fs2 ls sl s1 s2 x e Ef Hp Hc Ha. unfold Run. rewrite Ef, run_loop_app.
    pose proof (run_loop_passed fs1 elapsed items s ls sl s1 Hp) as (Hn & Hi & Hs).
    unfold and_then. rewrite Hn, Hi, Hs. simpl. by rewrite Ha, Hc.
  - pose proof (run_loop_logs (filters p) elapsed items s) as L. unfold Run. cbv zeta in *.
    destruct (out_err _); [done|]. split; [done|]. by apply passed_chained in L.
Qed.

(** running phase by phase is running the pipeline.  When the filters of
    phase [a] are registered before those of phase [b], Run gives the items,
    store, log entries, error and logger calls of RunPhase a followed, unless it
    aborts, by RunPhase b on its result. *)
Theorem Run_by_phases {T} (fs gs : list (Filter T)) a b elapsed items s :
  a ≠ b → Forall (in_phase a) fs → Forall (in_phase b) gs →
  let p := New (fs ++ gs) in
  Run p elapsed items s =
  and_then (RunPhase p a elapsed items s)
    (RunPhase p b (λ i, elapsed (length fs + i)%nat)).
Proof.
  intros Hab Hf Hg p. unfold RunPhase, Run, p. simpl.
  rewrite !filter_app, (filter_phase_all a fs), (filter_phase_none a b gs),
    (filter_phase_none b a fs), (filter_phase_all b gs), app_nil_r by done.
  apply run_loop_app.
Qed.

(** an enrichment filter that fails without writing through the slice it was
    given is skipped for good: the items, the store and the error of the run
    are those of the pipeline without such filters. *)
Theorem failed_enrichment_skipped {T} (p : Pipeline T) elapsed items s :
  Forall (λ f, criticality f = Critical ∨ fails_cleanly f) (filters p) →
  let r := Run p elapsed items s in
  let r' := Run (New (filter (λ f, criticality f = Critical) (filters p))) elapsed items s in
  out_items r = out_items r' ∧ out_store r = out_store r' ∧ out_err r = out_err r'.
Proof. intros Hf. by apply run_loop_skip. Qed.

(** ** Witnesses *)

(** Keep the first item; fail; zero the first item in place and fail. *)
Definition keep_one : Filter Z :=
  {| Name := "keep_one"; criticality := Critical; phase := 1;
     Apply := λ sl s, (s, ({| arr := arr sl; off := off sl; len := 1 |}, None)) |}.
Definition broken : Filter Z :=
  {| Name := "broken"; criticality := Enrichment; phase := 2;
     Apply := λ sl s, (s, (nil_slice, Some (EText "boom"))) |}.
Definition scribbler : Filter Z :=
  {| Name := "scribbler"; criticality := Enrichment; phase := 2;
     Apply := λ sl s,
       (<[arr sl := <[off sl := 0]> (default [] (s !! arr sl))]> s, (nil_slice, Some (EText "boom"))) |}.
Definition three : slice := {| arr := 5; off := 0; len := 3 |}.
Definition store3 : store Z := {[ 5%positive := [7; 8; 9] ]}.

(** The restriction matters: a filter that writes in place before failing leaves
    its writes in the items the pipeline continues with. *)
Example scribbler_leaks :
  let r := Run (New [scribbler]) (λ _, 0) three store3 in
  out_err r = None ∧ items_of (out_store r) (out_items r) = [0; 8; 9].
Proof. by vm_compute. Qed.

Lemma Run_by_phases_witness :
  Run (New ([keep_one] ++ [broken])) (λ _, 0) three store3 =
  and_then (RunPhase (New ([keep_one] ++ [broken])) 1 (λ _, 0) three store3)
    (RunPhase (New ([keep_one] ++ [broken])) 2 (λ _, 0)).
Proof. apply (Run_by_phases [keep_one] [broken] 1 2 (λ _, 0) three store3); [done|by constructor..]. Defined.

Lemma failed_enrichment_skipped_witness :
  out_items (Run (New [keep_one; broken]) (λ _, 0) three store3) = {| arr := 5; off := 0; len := 1 |}.
Proof.
  assert (Forall (λ f, criticality f = Critical ∨ fails_cleanly f) [keep_one; broken]) as Hf.
  { apply Forall_cons_2; [by left|]. apply Forall_cons_2; [|done].
    right. split; [done|]. intros. by do 2 eexists. }
  rewrite (proj1 (failed_enrichment_skipped (New [keep_one; broken]) (λ _, 0) three store3 Hf)).
  by vm_compute.
Defined.
