(* ===== verification/Codec.v ===== *)
(** * Package audio/codec

    The G.711 mu-law codec, the resamplers and the byte-stream conversions of
    src/audio/codec/codec.go.  A sample is a [Z] in the int16 range, a byte a
    [Z] below 256; conversions wrap at their width.  A loop that fills a
    preallocated slice index by index is a recursion on the input. *)

From S2P Require Import Prelude.
From stdpp Require Import base list.
From Stdlib Require Import ZArith Lia.
Open Scope Z_scope.

Definition mulawDecodeTable : list Z :=
  [ -32124; -31100; -30076; -29052; -28028; -27004; -25980; -24956;
    -23932; -22908; -21884; -20860; -19836; -18812; -17788; -16764;
    -15996; -15484; -14972; -14460; -13948; -13436; -12924; -12412;
    -11900; -11388; -10876; -10364; -9852; -9340; -8828; -8316;
    -7932; -7676; -7420; -7164; -6908; -6652; -6396; -6140;
    -5884; -5628; -5372; -5116; -4860; -4604; -4348; -4092;
    -3900; -3772; -3644; -3516; -3388; -3260; -3132; -3004;
    -2876; -2748; -2620; -2492; -2364; -2236; -2108; -1980;
    -1884; -1820; -1756; -1692; -1628; -1564; -1500; -1436;
    -1372; -1308; -1244; -1180; -1116; -1052; -988; -924;
    -876; -844; -812; -780; -748; -716; -684; -652;
    -620; -588; -556; -524; -492; -460; -428; -396;
    -372; -356; -340; -324; -308; -292; -276; -260;
    -244; -228; -212; -196; -180; -164; -148; -132;
    -120; -112; -104; -96; -88; -80; -72; -64;
    -56; -48; -40; -32; -24; -16; -8; 0;
    32124; 31100; 30076; 29052; 28028; 27004; 25980; 24956;
    23932; 22908; 21884; 20860; 19836; 18812; 17788; 16764;
    15996; 15484; 14972; 14460; 13948; 13436; 12924; 12412;
    11900; 11388; 10876; 10364; 9852; 9340; 8828; 8316;
    7932; 7676; 7420; 7164; 6908; 6652; 6396; 6140;
    5884; 5628; 5372; 5116; 4860; 4604; 4348; 4092;
    3900; 3772; 3644; 3516; 3388; 3260; 3132; 3004;
    2876; 2748; 2620; 2492; 2364; 2236; 2108; 1980;
    1884; 1820; 1756; 1692; 1628; 1564; 1500; 1436;
    1372; 1308; 1244; 1180; 1116; 1052; 988; 924;
    876; 844; 812; 780; 748; 716; 684; 652;
    620; 588; 556; 524; 492; 460; 428; 396;
    372; 356; 340; 324; 308; 292; 276; 260;
    244; 228; 212; 196; 180; 164; 148; 132;
    120; 112; 104; 96; 88; 80; 72; 64;
    56; 48; 40; 32; 24; 16; 8; 0 ].

Definition mulawBias : Z := 132.
Definition mulawClip : Z := 32635.

(** A byte always indexes the table. *)
Definition decode (b : Z) : Z := default 0 (mulawDecodeTable !! Z.to_nat b).

Definition MulawToPCM16 (mulaw : list Z) : list Z := decode <$> mulaw.

(** The search loop for the exponent, at most [fuel] more iterations. *)
Fixpoint find_exponent (fuel : nat) (mag exponent expMask : Z) : Z :=
  match fuel with
  | O => exponent
  | S fuel =>
      if negb (Z.land mag expMask =? 0) then exponent
      else find_exponent fuel mag (exponent - 1) (Z.shiftr expMask 1)
  end.

Definition encodeMulaw (sample : Z) : Z :=
  let sign := if sample <? 0 then 128 else 0 in
  let mag := if sample <? 0 then - sample else sample in
  let mag := if mulawClip <? mag then mulawClip else mag in
  let mag := mag + mulawBias in
  let exponent := find_exponent 8 mag 7 16384 in
  let mantissa := Z.land (Z.shiftr mag (uint64 (uint64 exponent + 3))) 15 in
  uint8 (Z.lnot (Z.lor (Z.lor sign (Z.shiftl exponent 4)) mantissa)).

Definition PCM16ToMulaw (pcm : list Z) : list Z := encodeMulaw <$> pcm.

Fixpoint Upsample8to16 (samples : list Z) : list Z :=
  match samples with
  | [] => []
  | x :: rest =>
      x :: match rest with
           | y :: _ => int16 (Z.quot (int32 (x + y)) 2)
           | [] => x
           end :: Upsample8to16 rest
  end.

Fixpoint Downsample24to8 (samples : list Z) : list Z :=
  match samples with
  | x :: _ :: _ :: rest => x :: Downsample24to8 rest
  | _ => []
  end.

(** binary.LittleEndian *)
Definition PutUint16 (v : Z) : list Z := [uint8 v; uint8 (Z.shiftr v 8)].
Definition Uint16 (b0 b1 : Z) : Z := Z.lor b0 (Z.shiftl b1 8).

Definition Mulaw8kToPCM16LE16k (mulaw : list Z) : list Z :=
  Upsample8to16 (MulawToPCM16 mulaw) ≫= λ s, PutUint16 (uint16 s).

(** The [len(pcmData) / 2] samples of a byte stream. *)
Fixpoint samplesLE (pcmData : list Z) : list Z :=
  match pcmData with
  | b0 :: b1 :: rest => int16 (Uint16 b0 b1) :: samplesLE rest
  | _ => []
  end.

Definition PCM16LE24kToMulaw8k (pcmData : list Z) : list Z :=
  PCM16ToMulaw (Downsample24to8 (samplesLE pcmData)).

(** ** Reference definitions *)

(** The expansion law of Recommendation G.711 on the complemented code. *)
Definition g711_expand (b : Z) : Z :=
  let u := 255 - b in
  let mag := Z.shiftl (8 * (u mod 16) + 132) (u / 16 mod 8) - 132 in
  if 128 <=? u then - mag else mag.

(** ** Lemmas *)

Lemma forall_bytes (P : Z → Prop) `{∀ b, Decision (P b)} :
  forallb_from (λ b, bool_decide (P b)) 0 256 = true → ∀ b, in_byte b → P b.
Proof.
  intros HP b Hb. apply (bool_decide_eq_true_1 (P b)).
  apply (forallb_from_spec _ _ _ HP). unfold in_byte in Hb. lia.
Qed.

#[export] Instance in_byte_dec z : Decision (in_byte z).
Proof. unfold in_byte. apply _. Defined.
#[export] Instance in_int16_dec z : Decision (in_int16 z).
Proof. unfold in_int16. apply _. Defined.

Lemma decode_g711 b : in_byte b → decode b = g711_expand b ∧ in_int16 (decode b).
Proof. revert b. apply (forall_bytes _). by vm_compute. Qed.

Lemma encode_decode b : in_byte b → encodeMulaw (decode b) = if b =? 127 then 255 else b.
Proof. revert b. apply (forall_bytes _). by vm_compute. Qed.

(** ** The encoder, segment by segment *)

Definition magnitude (s : Z) : Z := Z.min 32635 (Z.abs s) + 132.
Definition sign_bit (s : Z) : Z := if s <? 0 then 128 else 0.
Definition in_segment (e mag : Z) : Prop := 2 ^ (e + 7) ≤ mag < 2 ^ (e + 8).

Lemma magnitude_range s : 132 ≤ magnitude s ≤ 32767.
Proof. unfold magnitude. lia. Qed.

Lemma segments mag :
  132 ≤ mag ≤ 32767 → ∃ e, 0 ≤ e ≤ 7 ∧ in_segment e mag.
Proof.
  intros Hm. unfold in_segment. exists (Z.log2 mag - 7).
  pose proof (Z.log2_spec mag ltac:(lia)) as L. pose proof (Z.log2_le_mono 128 mag ltac:(lia)).
  pose proof (Z.log2_le_mono mag 32767 ltac:(lia)). change (Z.log2 128) with 7 in *.
  change (Z.log2 32767) with 14 in *.
  replace (Z.log2 mag - 7 + 7) with (Z.log2 mag) by lia.
  replace (Z.log2 mag - 7 + 8) with (Z.succ (Z.log2 mag)) by lia. split; [lia|done].
Qed.

Lemma land_pow2 m k : 0 ≤ k → (Z.land m (2 ^ k) =? 0) = negb (Z.testbit m k).
Proof.
  intros Hk. destruct (Z.testbit m k) eqn:E; simpl.
  - apply Z.eqb_neq. intros H0. apply (f_equal (λ z, Z.testbit z k)) in H0.
    rewrite Z.land_spec, E, Z.pow2_bits_true, Z.bits_0 in H0 by done. done.
  - apply Z.eqb_eq, Z.bits_inj'. intros n Hn. rewrite Z.land_spec, Z.bits_0.
    destruct (decide (n = k)) as [->|]; [by rewrite E|].
    rewrite Z.pow2_bits_false by done. apply andb_false_r.
Qed.

Lemma find_exponent_at mag e k (fuel : nat) :
  0 ≤ e → in_segment e mag → e ≤ k ≤ 7 → k - e < Z.of_nat fuel →
  find_exponent fuel mag k (2 ^ (k + 7)) = e.
Proof.
  intros He [H1 H2]. revert k. induction fuel as [|fuel IH]; intros k Hk Hf; [lia|].
  simpl. rewrite land_pow2, negb_involutive by lia. destruct (decide (k = e)) as [->|].
  - assert (Z.log2 mag = e + 7) as <-.
    { apply Z.log2_unique; [lia|]. by replace (Z.succ (e + 7)) with (e + 8) by lia. }
    rewrite Z.bit_log2; [done|]. assert (0 < 2 ^ (e + 7)) by (apply Z.pow_pos_nonneg; lia). lia.
  - rewrite Z.bits_above_log2; [|assert (0 < 2 ^ (e + 7)) by (apply Z.pow_pos_nonneg; lia); lia|].
    + rewrite Z.shiftr_div_pow2 by lia. replace (k + 7) with (k - 1 + 7 + 1) by lia.
      rewrite Z.pow_add_r, Z.div_mul by lia. apply IH; lia.
    + apply Z.log2_lt_pow2.
      * assert (0 < 2 ^ (e + 7)) by (apply Z.pow_pos_nonneg; lia). lia.
      * apply Z.lt_le_trans with (2 ^ (e + 8)); [done|]. apply Z.pow_le_mono_r; lia.
Qed.

(** Case analysis on the segment [e] and on everything that then computes. *)
Ltac segment_cases e :=
  assert (e = 0 ∨ e = 1 ∨ e = 2 ∨ e = 3 ∨ e = 4 ∨ e = 5 ∨ e = 6 ∨ e = 7)
    as [->|[->|[->|[->|[->|[->|[->| ->]]]]]]] by lia.

Lemma encode_segment s e :
  0 ≤ e ≤ 7 → in_segment e (magnitude s) →
  encodeMulaw s = 255 - (sign_bit s + 16 * e + (magnitude s / 2 ^ (e + 3) - 16)).
Proof.
  intros He Hs. unfold encodeMulaw. cbv zeta.
  replace ((if mulawClip <? (if s <? 0 then - s else s) then mulawClip else if s <? 0 then - s else s)
    + mulawBias) with (magnitude s)
    by (unfold magnitude, mulawClip, mulawBias; repeat case_match; zbool; lia).
  change 16384 with (2 ^ (7 + 7)).
  rewrite (find_exponent_at _ e) by (done || lia).
  fold (sign_bit s). pose proof Hs as [H1 H2].
  assert (0 ≤ magnitude s / 2 ^ (e + 3) - 16 < 16) as Hm.
  { segment_cases e; eval_pow2; dlia. }
  set (m := magnitude s / 2 ^ (e + 3) - 16) in *.
  assert (Z.land (Z.shiftr (magnitude s) (uint64 (uint64 e + 3))) 15 = m) as ->.
  { replace (uint64 (uint64 e + 3)) with (e + 3) by (segment_cases e; reflexivity).
    rewrite Z.shiftr_div_pow2 by lia.
    change 15 with (Z.ones 4). rewrite Z.land_ones by lia.
    symmetry. apply (Z.mod_unique _ _ 1); [lia|]. unfold m. change (2 ^ 4) with 16. lia. }
  assert (0 ≤ m < 16) as Hm' by done. clearbody m. clear Hm Hs H1 H2.
  assert (∃ n, (n < 16)%nat ∧ m = Z.of_nat n) as (n & Hn & ->) by (exists (Z.to_nat m); lia).
  unfold sign_bit.
  segment_cases e; destruct (s <? 0); do 16 (destruct n as [|n]; [reflexivity|]); lia.
Qed.

(** A magnitude of segment [e] after a trip through the codec: the middle of
    its quantization interval. *)
Definition requantize (mag e : Z) : Z := mag / 2 ^ (e + 3) * 2 ^ (e + 3) + 2 ^ (e + 2) - 132.

Lemma decode_encode s e :
  0 ≤ e ≤ 7 → in_segment e (magnitude s) →
  in_byte (encodeMulaw s) ∧
  decode (encodeMulaw s) = if s <? 0 then - requantize (magnitude s) e else requantize (magnitude s) e.
Proof.
  intros He Hs. rewrite (encode_segment s e) by done. pose proof Hs as [H1 H2].
  assert (0 ≤ magnitude s / 2 ^ (e + 3) - 16 < 16) as Hm by (segment_cases e; eval_pow2; dlia).
  assert (in_byte (255 - (sign_bit s + 16 * e + (magnitude s / 2 ^ (e + 3) - 16)))) as Hb.
  { unfold in_byte, sign_bit. destruct (s <? 0); lia. }
  split; [done|]. destruct (decode_g711 _ Hb) as [-> _]. unfold g711_expand, requantize.
  set (m := magnitude s / 2 ^ (e + 3)) in *. cbv zeta.
  replace (255 - (255 - (sign_bit s + 16 * e + (m - 16)))) with (sign_bit s + 16 * e + (m - 16)) by lia.
  set (u := sign_bit s + 16 * e + (m - 16)).
  assert (u mod 16 = m - 16) as -> by (unfold u, sign_bit; destruct (s <? 0); dlia).
  assert (u / 16 mod 8 = e) as -> by (unfold u, sign_bit; destruct (s <? 0); dlia).
  rewrite Z.shiftl_mul_pow2 by lia.
  assert ((128 <=? u) = (s <? 0)) as ->.
  { unfold u, sign_bit. destruct (s <? 0); [apply Z.leb_le|apply Z.leb_gt]; lia. }
  rewrite !Z.pow_add_r by lia. destruct (s <? 0); change (2 ^ 3) with 8; change (2 ^ 2) with 4; lia.
Qed.

Lemma requantize_error mag e :
  0 ≤ e ≤ 7 → in_segment e mag → 32 * Z.abs (requantize mag e + 132 - mag) ≤ mag ∧ 0 ≤ requantize mag e ∨ mag < 132.
Proof. intros He [H1 H2]. unfold requantize. segment_cases e; eval_pow2; dlia. Qed.

Lemma requantize_mono mag mag' e e' :
  0 ≤ e ≤ 7 → 0 ≤ e' ≤ 7 → in_segment e mag → in_segment e' mag' → mag ≤ mag' →
  requantize mag e ≤ requantize mag' e'.
Proof.
  intros He He' [H1 H2] [H3 H4] Hle. unfold requantize.
  segment_cases e; segment_cases e'; eval_pow2; dlia.
Qed.

Lemma segment_of s : ∃ e, 0 ≤ e ≤ 7 ∧ in_segment e (magnitude s).
Proof. apply segments, magnitude_range. Qed.

(** ** Streams *)

Lemma quot2_between x y :
  in_int16 x → in_int16 y → let a := int16 (Z.quot (int32 (x + y)) 2) in
  a = Z.quot (x + y) 2 ∧ in_int16 a ∧ Z.min x y ≤ a ≤ Z.max x y.
Proof.
  intros Hx Hy a. unfold in_int16 in *.
  assert (a = Z.quot (x + y) 2) as ->.
  { unfold a, int32, int16. rewrite (swrap_id 32) by (eval_pow2; dlia). apply swrap_id; simpl; eval_pow2; dlia. }
  split_and!; try done; eval_pow2; dlia.
Qed.

Lemma Upsample_range l : Forall in_int16 l → Forall in_int16 (Upsample8to16 l).
Proof.
  induction 1 as [|x l Hx Hl IH]; [done|]. destruct l as [|y l]; simpl in *; [by apply Forall_cons_2, Forall_cons_2|].
  inversion Hl; subst. constructor; [done|]. constructor; [by apply quot2_between|done].
Qed.

Lemma Upsample_length l : length (Upsample8to16 l) = (2 * length l)%nat.
Proof. induction l as [|x l IH]; [done|]. cbn [Upsample8to16 length]. lia. Qed.

Lemma Upsample_lookup l i x :
  Forall in_int16 l → l !! i = Some x →
  Upsample8to16 l !! (2 * i)%nat = Some x ∧
  Upsample8to16 l !! (2 * i + 1)%nat = Some (Z.quot (x + default x (l !! S i)) 2).
Proof.
  intros Hl. revert i. induction Hl as [|y l Hy Hl IH]; intros i; [done|].
  destruct i as [|i]; cbn [lookup list_lookup].
  - intros [= ->]. destruct l as [|z l]; simpl; (split; [done|]); f_equal.
    + dlia.
    + inversion Hl; subst. by apply quot2_between.
  - intros Hi. destruct (IH i Hi) as [E1 E2].
    replace (2 * S i)%nat with (S (S (2 * i))) by lia.
    replace (S (S (2 * i)) + 1)%nat with (S (S (2 * i + 1))) by lia. by cbn [Upsample8to16].
Qed.

Lemma samplesLE_PutUint16 l :
  Forall in_int16 l → samplesLE (l ≫= λ s, PutUint16 (uint16 s)) = l.
Proof.
  induction 1 as [|x l Hx _ IH]; [done|]. cbn. f_equal; [|exact IH].
  unfold Uint16, uint16, int16, uint8, uwrap, in_int16 in *.
  assert (0 ≤ x mod 2 ^ 16 < 2 ^ 16) as Hv by (apply Z.mod_pos_bound; lia).
  set (v := x mod 2 ^ 16) in *.
  rewrite Z.shiftr_div_pow2, Z.shiftl_mul_pow2 by lia. rewrite (Z.mod_small (v / 2 ^ 8)) by (eval_pow2; dlia).
  assert (Z.lor (v mod 2 ^ 8) (v / 2 ^ 8 * 2 ^ 8) = v) as ->.
  { rewrite lor_shift_add by (lia || apply Z.mod_pos_bound; lia). eval_pow2. dlia. }
  unfold v, swrap. simpl. eval_pow2. dlia.
Qed.

Lemma samplesLE_length l : length (samplesLE l) = (length l / 2)%nat.
Proof.
  induction l as [[|a [|b l]] IH] using (induction_ltof1 _ (@length Z)); unfold ltof in *; try done.
  cbn [samplesLE length]. rewrite IH by (simpl; lia).
  change (S (S (length l))) with (1 * 2 + length l)%nat. rewrite Nat.div_add_l by done. lia.
Qed.

Lemma Downsample_length l : length (Downsample24to8 l) = (length l / 3)%nat.
Proof.
  induction l as [[|a [|b [|c l]]] IH] using (induction_ltof1 _ (@length Z)); unfold ltof in *; try done.
  cbn [Downsample24to8 length]. rewrite IH by (simpl; lia).
  change (S (S (S (length l)))) with (1 * 3 + length l)%nat. rewrite Nat.div_add_l by done. lia.
Qed.

Lemma length_bind_two {A B} (f : A → list B) l :
  (∀ x, length (f x) = 2%nat) → length (l ≫= f) = (2 * length l)%nat.
Proof. intros Hf. induction l as [|x l IH]; [done|]. rewrite bind_cons, length_app, Hf, IH. simpl. lia. Qed.

Lemma decode_range bs : Forall in_byte bs → Forall in_int16 (MulawToPCM16 bs).
Proof. intros Hb. apply Forall_fmap. eapply Forall_impl; [exact Hb|]. intros. by apply decode_g711. Qed.

(** ** Properties *)

(** C39: the decode table is the expansion law of G.711, and encoding what was
    decoded gives every byte back, except that the two codes of zero (0x7F and
    0xFF) both come back as 0xFF; so one trip through the codec changes nothing
    more on further trips. *)
Theorem mulaw_roundtrip bs :
  Forall in_byte bs →
  MulawToPCM16 bs = g711_expand <$> bs ∧
  PCM16ToMulaw (MulawToPCM16 bs) = (λ b, if b =? 127 then 255 else b) <$> bs ∧
  MulawToPCM16 (PCM16ToMulaw (MulawToPCM16 bs)) = MulawToPCM16 bs.
Proof.
  intros Hb. unfold MulawToPCM16, PCM16ToMulaw. rewrite <-!list_fmap_compose.
  split_and!; apply list_fmap_ext; intros i b Hi;
    pose proof (Forall_lookup_1 _ _ _ _ Hb Hi) as Hb'; unfold compose.
  - by apply decode_g711.
  - by apply encode_decode.
  - rewrite encode_decode by done. destruct (Z.eqb_spec b 127) as [->|]; done.
Qed.

(** quantization.  Every sample encodes to a byte; what it decodes to has
    the sample's sign and differs from the sample, clipped to +-32635, by at
    most 1/32 of its biased magnitude; and the codec is monotone, so it never
    swaps two samples.  In particular -32768 is clipped, not wrapped. *)
Theorem mulaw_quantization s t :
  let q x := decode (encodeMulaw x) in
  in_byte (encodeMulaw s) ∧
  32 * Z.abs (q s - Z.max (-32635) (Z.min 32635 s)) ≤ Z.min 32635 (Z.abs s) + 132 ∧
  0 ≤ s * q s ∧
  (s ≤ t → q s ≤ q t).
Proof.
  cbv zeta. destruct (segment_of s) as (e & He & Hs), (segment_of t) as (e' & He' & Ht).
  destruct (decode_encode s e He Hs) as [Hb ->], (decode_encode t e' He' Ht) as [_ ->].
  pose proof (magnitude_range s). pose proof (magnitude_range t).
  destruct (requantize_error _ _ He Hs) as [[Her Hp]|]; [|lia].
  destruct (requantize_error _ _ He' Ht) as [[_ Hp']|]; [|lia].
  pose proof (requantize_mono _ _ _ _ He He' Hs Ht). pose proof (requantize_mono _ _ _ _ He' He Ht Hs).
  fold (magnitude s). set (r := requantize (magnitude s) e) in *.
  set (r' := requantize (magnitude t) e') in *. unfold magnitude in *.
  split_and!; [done|..]; destruct (Z.ltb_spec s 0); try destruct (Z.ltb_spec t 0); nia.
Qed.

(** the telephony-to-model bridge.  The byte stream has four bytes per
    input byte, and read back as little-endian samples it is the decoded input
    at the even positions with, between two neighbours, their average (rounded
    toward zero, no overflow); the last sample is repeated.  The way back makes
    one byte of six, dropping an incomplete group. *)
Theorem bridge_samples mulaw i b pcm :
  Forall in_byte mulaw → mulaw !! i = Some b →
  length (PCM16LE24kToMulaw8k pcm) = (length pcm / 6)%nat ∧
  let out := Mulaw8kToPCM16LE16k mulaw in
  length out = (4 * length mulaw)%nat ∧
  samplesLE out !! (2 * i)%nat = Some (decode b) ∧
  samplesLE out !! (2 * i + 1)%nat =
    Some (Z.quot (decode b + default (decode b) (decode <$> mulaw !! S i)) 2).
Proof.
  intros Hb Hi. split.
  { unfold PCM16LE24kToMulaw8k, PCM16ToMulaw.
    by rewrite length_fmap, Downsample_length, samplesLE_length, Nat.Div0.div_div. }
  intros out. pose proof (decode_range _ Hb) as Hr.
  assert (samplesLE out = Upsample8to16 (MulawToPCM16 mulaw)) as ->
    by (apply samplesLE_PutUint16, Upsample_range, Hr).
  assert (MulawToPCM16 mulaw !! i = Some (decode b)) as Hd
    by (unfold MulawToPCM16; by rewrite list_lookup_fmap, Hi).
  destruct (Upsample_lookup _ _ _ Hr Hd) as [-> ->]. split_and!; [|done|].
  - unfold out, Mulaw8kToPCM16LE16k. rewrite length_bind_two, Upsample_length by done.
    unfold MulawToPCM16. rewrite length_fmap. lia.
  - unfold MulawToPCM16. by rewrite list_lookup_fmap.
Qed.

(** ** Witnesses *)

Lemma some_bytes : Forall in_byte [0; 127; 128; 255].
Proof. unfold in_byte. repeat (apply Forall_cons_2; [lia|]). done. Qed.

Lemma mulaw_roundtrip_witness :
  PCM16ToMulaw (MulawToPCM16 [0; 127; 128; 255]) = [0; 255; 128; 255].
Proof. apply (mulaw_roundtrip [0; 127; 128; 255] some_bytes). Defined.

Lemma mulaw_quantization_witness :
  decode (encodeMulaw (-32768)) ≤ decode (encodeMulaw (-32000)).
Proof. apply (mulaw_quantization (-32768) (-32000)). lia. Defined.

Lemma bridge_samples_witness :
  samplesLE (Mulaw8kToPCM16LE16k [0; 127; 128; 255]) !! 5%nat = Some 16062.
Proof. apply (bridge_samples [0; 127; 128; 255] 2 128 [] some_bytes). done. Defined.
