(* ===== verification/SqlBuilder.v ===== *)
(** * Package sqlbuilder

    The query builder of src/sqlbuilder/sqlbuilder.go.  A method that mutates
    the builder and returns it is a function on the record; a value of type
    [any] is nil, a string, a bool or something else. *)

From S2P Require Import Prelude GoString.
From stdpp Require Import base list strings.
From Stdlib Require Import ZArith Lia.
Open Scope Z_scope.

Section builder.
Context {X : Type}.

Inductive any := ANil | AString (s : string) | ABool (b : bool) | AOther (x : X).

Record Builder := {
  table : string;
  columns : string;
  where_ : list string;
  args : list any;
  orderBy : string;
  paramSeq : Z
}.

Definition New (tbl : string) : Builder :=
  {| table := tbl; columns := "*"; where_ := []; args := []; orderBy := ""; paramSeq := 0 |}.

Definition Select (cols : string) (b : Builder) : Builder :=
  {| table := table b; columns := cols; where_ := where_ b; args := args b;
     orderBy := orderBy b; paramSeq := paramSeq b |}.

(** [b.paramSeq++], then the two appends; [text] renders the condition with its
    placeholder number. *)
Definition push (text : Z → string) (v : any) (b : Builder) : Builder :=
  let n := int64 (paramSeq b + 1) in
  {| table := table b; columns := columns b; where_ := where_ b ++ [text n];
     args := args b ++ [v]; orderBy := orderBy b; paramSeq := n |}.

Definition Where (col : string) (v : any) (b : Builder) : Builder :=
  push (λ n, col +:+ " = $" +:+ fmt_d n) v b.

Definition WhereOp (col op : string) (v : any) (b : Builder) : Builder :=
  push (λ n, col +:+ " " +:+ op +:+ " $" +:+ fmt_d n) v b.

Definition WhereNotEmpty (col s : string) (b : Builder) : Builder :=
  if String.eqb s "" then b else Where col (AString s) b.

Definition WhereNotNil (col : string) (v : any) (b : Builder) : Builder :=
  match v with ANil => b | _ => Where col v b end.

Definition WhereBool (col : string) (v gate : bool) (b : Builder) : Builder :=
  if negb gate then b else Where col (ABool v) b.

Definition WhereLike (col pattern : string) (b : Builder) : Builder :=
  if String.eqb pattern "" then b
  else push (λ n, col +:+ " ILIKE $" +:+ fmt_d n) (AString pattern) b.

Definition WhereMultiLike (pattern : string) (cols : list string) (b : Builder) : Builder :=
  if String.eqb pattern "" || (length cols =? 0)%nat then b
  else push (λ n, "(" +:+ GoString.Join ((λ c, c +:+ " ILIKE $" +:+ fmt_d n) <$> cols) " OR " +:+ ")")
         (AString pattern) b.

Definition OrderBy (clause : string) (b : Builder) : Builder :=
  {| table := table b; columns := columns b; where_ := where_ b; args := args b;
     orderBy := clause; paramSeq := paramSeq b |}.

(** The copied slices start empty and receive the elements. *)
Definition Clone (b : Builder) : Builder :=
  {| table := table b; columns := columns b; where_ := [] ++ where_ b; args := [] ++ args b;
     orderBy := orderBy b; paramSeq := paramSeq b |}.

Definition where_clause (b : Builder) : string :=
  if (0 <? length (where_ b))%nat then " WHERE " +:+ GoString.Join (where_ b) " AND " else "".

Definition BuildCountQuery (b : Builder) : string * list any :=
  ("SELECT COUNT(*) FROM " +:+ table b +:+ where_clause b, args b).

Definition BuildListQuery (cols0 : string) (limit page : Z) (b : Builder) : string * list any :=
  let cols := if String.eqb cols0 "" then columns b else cols0 in
  let limit := if limit <=? 0 then 50 else limit in
  let page := if page <=? 0 then 1 else page in
  let offset := int64 (int64 (page - 1) * limit) in
  let q := "SELECT " +:+ cols +:+ " FROM " +:+ table b +:+ where_clause b in
  let q := if negb (String.eqb (orderBy b) "") then q +:+ " ORDER BY " +:+ orderBy b else q in
  (q +:+ " LIMIT " +:+ fmt_d limit +:+ " OFFSET " +:+ fmt_d offset, args b).

(** The fluent operations. *)
Inductive op :=
| OpSelect (cols : string)
| OpWhere (col : string) (v : any)
| OpWhereOp (col o : string) (v : any)
| OpNotEmpty (col s : string)
| OpNotNil (col : string) (v : any)
| OpBool (col : string) (v gate : bool)
| OpLike (col pattern : string)
| OpMultiLike (pattern : string) (cols : list string)
| OpOrderBy (clause : string)
| OpClone.

Definition apply (o : op) (b : Builder) : Builder :=
  match o with
  | OpSelect cols => Select cols b
  | OpWhere col v => Where col v b
  | OpWhereOp col o v => WhereOp col o v b
  | OpNotEmpty col s => WhereNotEmpty col s b
  | OpNotNil col v => WhereNotNil col v b
  | OpBool col v gate => WhereBool col v gate b
  | OpLike col pattern => WhereLike col pattern b
  | OpMultiLike pattern cols => WhereMultiLike pattern cols b
  | OpOrderBy clause => OrderBy clause b
  | OpClone => Clone b
  end.

(** ** The specification: a list of conditions *)

(** A condition: one comparison, or a disjunction of comparisons with the same
    operator; one bound value. *)
Record condition := { c_cols : list string; c_group : bool; c_op : string; c_value : any }.

Definition cond (col o : string) (v : any) : condition :=
  {| c_cols := [col]; c_group := false; c_op := o; c_value := v |}.

(** The condition an operation contributes, if any. *)
Definition condition_of (o : op) : option condition :=
  match o with
  | OpWhere col v | OpNotNil col v =>
      match o, v with OpNotNil _ _, ANil => None | _, _ => Some (cond col "=" v) end
  | OpWhereOp col o v => Some (cond col o v)
  | OpNotEmpty col s => if String.eqb s "" then None else Some (cond col "=" (AString s))
  | OpBool col v true => Some (cond col "=" (ABool v))
  | OpLike col p => if String.eqb p "" then None else Some (cond col "ILIKE" (AString p))
  | OpMultiLike p (c :: cs) =>
      if String.eqb p "" then None
      else Some {| c_cols := c :: cs; c_group := true; c_op := "ILIKE"; c_value := AString p |}
  | _ => None
  end.

(** A condition as SQL, its value bound to placeholder [n]. *)
Definition render (n : Z) (c : condition) : string :=
  let t := GoString.Join ((λ col, col +:+ " " +:+ c_op c +:+ " $" +:+ fmt_d n) <$> c_cols c) " OR " in
  if c_group c then "(" +:+ t +:+ ")" else t.

Definition render_all (cs : list condition) : list string :=
  imap (λ i c, render (Z.of_nat i + 1) c) cs.

(** The builder holds exactly the conditions [cs]. *)
Definition holds (b : Builder) (cs : list condition) : Prop :=
  where_ b = render_all cs ∧ args b = c_value <$> cs ∧ paramSeq b = Z.of_nat (length cs).

(** ** Lemmas *)

Lemma push_holds text v c b cs :
  holds b cs → Z.of_nat (length cs) < MaxInt64 →
  (∀ n, text n = render n c) → c_value c = v → holds (push text v b) (cs ++ [c]).
Proof.
  intros (Hw & Ha & Hp) Hl Ht Hv. unfold push, holds, render_all. simpl.
  rewrite Hp, int64_id by (unfold in_int64, MinInt64, MaxInt64 in *; lia).
  rewrite imap_app, fmap_app, length_app, Hw, Ha, Ht. simpl. rewrite Nat.add_0_r, Hv.
  split_and!; try done. lia.
Qed.

Lemma apply_holds o b cs :
  holds b cs → Z.of_nat (length cs) < MaxInt64 →
  holds (apply o b) (cs ++ option_list (condition_of o)).
Proof.
  intros Hb Hl.
  assert (∀ b' : Builder, where_ b' = where_ b → args b' = args b → paramSeq b' = paramSeq b →
    holds b' (cs ++ [])) as Same.
  { intros b' E1 E2 E3. rewrite app_nil_r. unfold holds. by rewrite E1, E2, E3. }
  destruct o as [cols|col v|col o v|col s|col v|col v gate|col p|p cols|clause|]; simpl;
    try (by apply Same).
  - by apply push_holds.
  - by apply push_holds.
  - unfold WhereNotEmpty. destruct (String.eqb s ""); simpl; [by apply Same|by apply push_holds].
  - unfold WhereNotNil. destruct v; simpl; [by apply Same|by apply push_holds..].
  - unfold WhereBool. destruct gate; simpl; [by apply push_holds|by apply Same].
  - unfold WhereLike. destruct (String.eqb p ""); simpl; [by apply Same|by apply push_holds].
  - unfold WhereMultiLike. destruct cols as [|c cols]; simpl.
    + rewrite orb_true_r. by apply Same.
    + rewrite orb_false_r. destruct (String.eqb p ""); simpl; [by apply Same|by apply push_holds].
Qed.

Lemma apply_all_holds ops b cs :
  holds b cs → Z.of_nat (length cs + length ops) < MaxInt64 →
  holds (foldl (flip apply) b ops) (cs ++ omap condition_of ops).
Proof.
  revert b cs. induction ops as [|o ops IH]; intros b cs Hb Hl; simpl in *; [by rewrite app_nil_r|].
  pose proof (apply_holds o b cs Hb ltac:(lia)) as H1.
  specialize (IH _ _ H1). rewrite length_app, <-app_assoc in IH.
  destruct (condition_of o); simpl in *; apply IH; lia.
Qed.

Lemma render_all_nil cs : (0 <? length (render_all cs))%nat = negb (bool_decide (cs = [])).
Proof. destruct cs; [done|]. unfold render_all. by rewrite length_imap. Qed.

Lemma apply_table o b : table (apply o b) = table b.
Proof.
  destruct o as [ | | | |? []|? ? []| |? []| |]; simpl; unfold WhereNotEmpty, WhereLike, WhereMultiLike;
    try done; by repeat case_match.
Qed.

Lemma apply_all_table ops b : table (foldl (flip apply) b ops) = table b.
Proof. revert b. induction ops as [|o ops IH]; intros b; simpl; [done|]. by rewrite IH, apply_table. Qed.
End builder.

Arguments any X : clear implicits.
Arguments Builder X : clear implicits.
Arguments op X : clear implicits.

(** ** Properties *)

Definition sql_where {X} (cs : list (@condition X)) : string :=
  if bool_decide (cs = []) then "" else " WHERE " +:+ GoString.Join (render_all cs) " AND ".

(** C5: any chain of builder calls amounts to the list of the conditions its
    effective calls contribute (a call whose gate is off, whose text is empty or
    whose value is nil contributes none).  The count query and the list query
    carry the same WHERE clause and the same arguments; the i-th condition is
    rendered with placeholder $(i+1) and the i-th argument is its value, so
    every placeholder is bound and binds its own condition's value. *)
Theorem builder_refines {X} tbl (ops : list (op X)) cols limit page :
  Z.of_nat (length ops) < MaxInt64 →
  let b := foldl (flip apply) (New tbl) ops in
  let cs := omap condition_of ops in
  BuildCountQuery b = ("SELECT COUNT(*) FROM " +:+ tbl +:+ sql_where cs, c_value <$> cs) ∧
  ∃ tail, BuildListQuery cols limit page b =
    ("SELECT " +:+ (if String.eqb cols "" then columns b else cols) +:+ " FROM " +:+ tbl
       +:+ sql_where cs +:+ tail, c_value <$> cs).
Proof.
  intros Hl b cs.
  destruct (apply_all_holds ops (New tbl) []) as (Hw & Ha & Hp); [done|simpl; lia|].
  fold b in Hw, Ha. simpl in Hw, Ha. fold cs in Hw, Ha.
  assert (where_clause b = sql_where cs) as Ew.
  { unfold where_clause, sql_where. rewrite Hw, render_all_nil. by destruct (bool_decide _). }
  assert (table b = tbl) as Et by apply apply_all_table.
  unfold BuildCountQuery, BuildListQuery. rewrite Ew, Et, Ha. split; [done|].
  destruct (String.eqb (orderBy b) ""); simpl;
    eexists; rewrite !string_app_assoc; done.
Qed.

(** pagination.  The rendered OFFSET is (page - 1) * limit with the defaults
    applied, exactly, while the product fits an int64; the product is not
    checked, so past that point the rendered offset differs from the requested
    one by a multiple of 2^64 and can be negative. *)
Theorem pagination {X} (b : Builder X) cols limit page :
  let l := if limit <=? 0 then 50 else limit in
  let p := if page <=? 0 then 1 else page in
  in_int64 limit → in_int64 page →
  ∃ q offset, fst (BuildListQuery cols limit page b) =
      q +:+ " LIMIT " +:+ fmt_d l +:+ " OFFSET " +:+ fmt_d offset ∧
    (offset = (p - 1) * l ↔ (p - 1) * l ≤ MaxInt64) ∧
    ∃ k, offset = (p - 1) * l + k * 2 ^ 64.
Proof.
  intros l p Hl Hp. unfold BuildListQuery. cbv zeta. fold l p.
  assert (1 ≤ l ∧ 1 ≤ p ≤ MaxInt64) as [Hl1 Hp1].
  { unfold l, p, in_int64, MaxInt64 in *. repeat case_match; zbool; lia. }
  rewrite (int64_id (p - 1)) by (unfold in_int64, MinInt64; lia).
  eexists _, _. split; [simpl; reflexivity|]. split; [|apply int64_cong].
  rewrite int64_eq_iff. unfold in_int64, MinInt64. nia.
Qed.

(** ** Witnesses *)

Definition search_ops : list (op unit) :=
  [OpNotEmpty "status" "open"; OpNotEmpty "city" ""; OpMultiLike "%x%" ["name"; "email"];
   OpWhereOp "age" ">=" (AOther ())].

Lemma builder_refines_witness :
  fst (BuildCountQuery (foldl (flip apply) (New "users") search_ops)) =
  "SELECT COUNT(*) FROM users WHERE status = $1 AND (name ILIKE $2 OR email ILIKE $2) AND age >= $3".
Proof. rewrite (proj1 (builder_refines "users" search_ops "" 10 1 ltac:(done))). reflexivity. Defined.

Lemma pagination_witness :
  ∃ q offset, fst (BuildListQuery "" (2 ^ 62) 4 (@New unit "t")) =
      q +:+ " LIMIT " +:+ fmt_d (2 ^ 62) +:+ " OFFSET " +:+ fmt_d offset ∧
    offset ≠ 3 * 2 ^ 62.
Proof.
  destruct (pagination (@New unit "t") "" (2 ^ 62) 4) as (q & offset & E & Ho & _);
    [by vm_compute..|]. exists q, offset. split; [exact E|]. intros ->. by apply (proj1 Ho eq_refl).
Defined.
