(* ===== verification/Generics.v ===== *)
(** * Packages slicex, mapx and ptr

    The generic helpers of src/slicex/slicex.go, src/mapx/mapx.go and
    src/ptr/ptr.go.  A slice is the list of its elements, a Go map a finite map
    whose [range] visits its entries in an order that is an argument
    ([visits]), a pointer an option. *)

From S2P Require Import Prelude.
From stdpp Require Import base list gmap sorting strings.
From Stdlib Require Import ZArith Lia.
Open Scope Z_scope.

Module Slicex.
Section slicex.
Context {T : Type}.

Fixpoint Map {R} (in_ : list T) (fn : T → R) : list R :=
  match in_ with
  | [] => []
  | v :: in_ => fn v :: Map in_ fn
  end.

(** The loops append to [out]. *)
Fixpoint filter_loop (in_ : list T) (keep : T → bool) (out : list T) : list T :=
  match in_ with
  | [] => out
  | v :: in_ => filter_loop in_ keep (if keep v then out ++ [v] else out)
  end.
Definition Filter (in_ : list T) (keep : T → bool) : list T := filter_loop in_ keep [].

Fixpoint Reduce {R} (in_ : list T) (acc : R) (fn : R → T → R) : R :=
  match in_ with
  | [] => acc
  | v :: in_ => Reduce in_ (fn acc v) fn
  end.

Fixpoint unique_loop `{Countable T} (in_ : list T) (seen : gset T) (out : list T) : list T :=
  match in_ with
  | [] => out
  | v :: in_ =>
      if decide (v ∈ seen) then unique_loop in_ seen out
      else unique_loop in_ ({[ v ]} ∪ seen) (out ++ [v])
  end.
Definition Unique `{Countable T} (in_ : list T) : list T := unique_loop in_ ∅ [].

(** The loop of Chunk from index [i]; [fuel] bounds the iterations. *)
Fixpoint chunk_loop (fuel : nat) (in_ : list T) (n i : Z) (chunks : list (list T))
  : option (list (list T)) :=
  let len := Z.of_nat (length in_) in
  if i <? len then
    match fuel with
    | O => None
    | S fuel =>
        let end_ := int64 (i + n) in
        let end_ := if len <? end_ then len else end_ in
        chunk_loop fuel in_ n (int64 (i + n))
          (chunks ++ [take (Z.to_nat (end_ - i)) (drop (Z.to_nat i) in_)])
    end
  else Some chunks.

(** [make([][]T, 0, (len(in)+n-1)/n)] panics on a negative capacity. *)
Definition Chunk (in_ : list T) (n : Z) : outcome (option (list (list T))) :=
  if n <=? 0 then Panic "slicex: Chunk n must be > 0"
  else if (length in_ =? 0)%nat then Return (Some [])
  else if div64 (int64 (int64 (Z.of_nat (length in_) + n) - 1)) n <? 0
  then Panic "runtime error: makeslice: cap out of range"
  else Return (chunk_loop (length in_) in_ n 0 []).

Fixpoint group_loop {K} `{Countable K} (in_ : list T) (keyFn : T → K) (out : gmap K (list T))
  : gmap K (list T) :=
  match in_ with
  | [] => out
  | v :: in_ =>
      let k := keyFn v in
      group_loop in_ keyFn (<[k := default [] (out !! k) ++ [v]]> out)
  end.
Definition GroupBy {K} `{Countable K} (in_ : list T) (keyFn : T → K) : gmap K (list T) :=
  group_loop in_ keyFn ∅.

Fixpoint partition_loop (in_ : list T) (keep : T → bool) (yes no : list T) : list T * list T :=
  match in_ with
  | [] => (yes, no)
  | v :: in_ =>
      if keep v then partition_loop in_ keep (yes ++ [v]) no
      else partition_loop in_ keep yes (no ++ [v])
  end.
Definition Partition (in_ : list T) (keep : T → bool) : list T * list T :=
  partition_loop in_ keep [] [].

Fixpoint Any (in_ : list T) (pred : T → bool) : bool :=
  match in_ with
  | [] => false
  | v :: in_ => if pred v then true else Any in_ pred
  end.

Fixpoint All (in_ : list T) (pred : T → bool) : bool :=
  match in_ with
  | [] => true
  | v :: in_ => if negb (pred v) then false else All in_ pred
  end.

Fixpoint Find (zero : T) (in_ : list T) (pred : T → bool) : T * bool :=
  match in_ with
  | [] => (zero, false)
  | v :: in_ => if pred v then (v, true) else Find zero in_ pred
  end.

(** ** Lemmas *)

Lemma chunk_loop_chunks fuel in_ n i chunks :
  1 ≤ n → 0 ≤ i → i + n ≤ MaxInt64 → Z.of_nat (length in_) + n ≤ MaxInt64 ∨ Z.of_nat (length in_) ≤ n →
  (Z.to_nat (Z.of_nat (length in_) - i) ≤ fuel)%nat →
  chunk_loop fuel in_ n i chunks =
  Some (chunks ++ chunks_fuel fuel (Z.to_nat n) (drop (Z.to_nat i) in_)).
Proof.
  intros Hn. revert i chunks. induction fuel as [|fuel IH]; intros i chunks Hi Hb Hl Hf; simpl;
    destruct (Z.ltb_spec i (Z.of_nat (length in_))) as [Hlt|Hge]; try lia.
  - by rewrite app_nil_r.
  - rewrite int64_id by (unfold in_int64, MinInt64; lia).
    destruct (drop (Z.to_nat i) in_) as [|x rest] eqn:Ed.
    { apply (f_equal length) in Ed. rewrite length_drop in Ed. simpl in Ed. lia. }
    assert (∀ cs, chunk_loop fuel in_ n (i + n) cs =
      Some (cs ++ chunks_fuel fuel (Z.to_nat n) (drop (Z.to_nat n) (x :: rest)))) as E.
    { intros cs. rewrite <-Ed, drop_drop. replace (Z.to_nat i + Z.to_nat n)%nat with (Z.to_nat (i + n)) by lia.
      destruct (decide (i + n < Z.of_nat (length in_))).
      - apply IH; lia.
      - rewrite drop_ge by lia. destruct fuel; simpl; destruct (Z.ltb_spec (i + n) (Z.of_nat (length in_)));
          try lia; by rewrite app_nil_r. }
    rewrite E, <-app_assoc. simpl app. do 3 f_equal. rewrite <-Ed.
    destruct (Z.ltb_spec (Z.of_nat (length in_)) (i + n)).
    + rewrite !take_ge; [done|rewrite length_drop; lia..].
    + by replace (i + n - i) with n by lia.
  - rewrite drop_ge by lia. by rewrite app_nil_r.
Qed.

Lemma chunks_fuel_sizes fuel n (l : list T) :
  (0 < n)%nat → (length l ≤ fuel)%nat →
  ∀ i c, chunks_fuel fuel n l !! i = Some c →
    c ≠ [] ∧ (length c ≤ n)%nat ∧ (is_Some (chunks_fuel fuel n l !! S i) → length c = n).
Proof.
  intros Hn. revert l. induction fuel as [|fuel IH]; intros [|x l] Hl i c; try done.
  cbn [chunks_fuel]. destruct i as [|i]; cbn [lookup list_lookup].
  - intros [= <-]. rewrite length_take. split_and!; [destruct n; [lia|done]|lia|]. intros [c' Hc'].
    destruct (drop n (x :: l)) as [|y rest] eqn:Ed; [by destruct fuel|].
    apply (f_equal length) in Ed. rewrite length_drop in Ed. simpl in *. lia.
  - apply IH. rewrite length_drop. simpl in *. lia.
Qed.

Lemma cap_negative len n :
  1 ≤ len < 2 ^ 62 → 1 ≤ n < 2 ^ 63 →
  (div64 (int64 (int64 (len + n) - 1)) n <? 0) =
  bool_decide (2 ^ 63 ≤ len + n - 1 ∧ 2 * n ≤ 2 ^ 64 - len + 1).
Proof.
  intros Hl Hn.
  assert (int64 (int64 (len + n) - 1) = if decide (2 ^ 63 ≤ len + n - 1) then len + n - 1 - 2 ^ 64
    else len + n - 1) as ->.
  { unfold int64, swrap. eval_pow2. case_decide; dlia. }
  unfold div64. case_decide.
  - assert (Z.quot (len + n - 1 - 2 ^ 64) n = if decide (2 * n ≤ 2 ^ 64 - len + 1) then -1 else 0) as ->.
    { replace (len + n - 1 - 2 ^ 64) with (- (2 ^ 64 - len - n + 1)) by lia.
      rewrite Z.quot_opp_l, Z.quot_div_nonneg by (eval_pow2; lia).
      case_decide; [rewrite <-(Z.div_unique _ n 1 (2 ^ 64 - len - n + 1 - n))
                   |rewrite Z.div_small]; eval_pow2; lia. }
    case_decide; [rewrite bool_decide_true by done|rewrite bool_decide_false by tauto]; done.
  - rewrite bool_decide_false by tauto. apply Z.ltb_ge.
    rewrite int64_id; [apply Z.quot_pos; lia|].
    assert (0 ≤ Z.quot (len + n - 1) n ≤ len + n - 1).
    { split; [apply Z.quot_pos; lia|]. apply Z.quot_le_upper_bound; nia. }
    unfold in_int64, MinInt64, MaxInt64. lia.
Qed.

Lemma unique_loop_spec `{Countable T} in_ seen out :
  ∃ rest, unique_loop in_ seen out = out ++ rest ∧ NoDup rest ∧ rest `sublist_of` in_ ∧
    ∀ x, x ∈ rest ↔ x ∈ in_ ∧ x ∉ seen.
Proof.
  revert seen out. induction in_ as [|v in_ IH]; intros seen out; simpl.
  - exists []. rewrite app_nil_r. split_and!; [done|constructor|done|]. intros x. split; [set_solver|set_solver].
  - destruct (decide (v ∈ seen)).
    + destruct (IH seen out) as (rest & E & Hn & Hs & Hx). exists rest. split_and!; try done.
      * by apply sublist_cons.
      * intros x. rewrite Hx. set_solver.
    + destruct (IH ({[v]} ∪ seen) (out ++ [v])) as (rest & E & Hn & Hs & Hx).
      exists (v :: rest). rewrite E, <-app_assoc. split_and!; try done.
      * constructor; [rewrite Hx; set_solver|done].
      * by apply sublist_skip.
      * intros x. rewrite elem_of_cons, Hx. destruct (decide (x = v)); set_solver.
Qed.

Lemma unique_loop_app `{Countable T} in1 in2 seen out :
  ∃ seen', unique_loop (in1 ++ in2) seen out = unique_loop in2 seen' (unique_loop in1 seen out).
Proof.
  revert seen out. induction in1 as [|v in1 IH]; intros seen out; simpl; [by eexists|].
  case_decide; apply IH.
Qed.

Lemma group_loop_lookup {K} `{Countable K} in_ (keyFn : T → K) out k :
  group_loop in_ keyFn out !! k =
  match out !! k, filter (λ v, keyFn v = k) in_ with
  | None, [] => None
  | o, vs => Some (default [] o ++ vs)
  end.
Proof.
  revert out. induction in_ as [|v in_ IH]; intros out; simpl.
  - destruct (out !! k); simpl; [by rewrite app_nil_r|done].
  - rewrite IH. destruct (decide (keyFn v = k)) as [<-|Hne].
    + rewrite lookup_insert_eq, filter_cons_True by done. simpl. rewrite <-app_assoc. simpl.
      by destruct (out !! keyFn v).
    + by rewrite lookup_insert_ne, filter_cons_False by done.
Qed.

Lemma partition_loop_spec in_ keep yes no :
  partition_loop in_ keep yes no =
  (yes ++ filter (λ v, Is_true (keep v)) in_, no ++ filter (λ v, Is_true (negb (keep v))) in_).
Proof.
  revert yes no. induction in_ as [|v in_ IH]; intros yes no; simpl; [by rewrite !app_nil_r|].
  destruct (keep v) eqn:E; rewrite IH.
  - rewrite filter_cons_True, filter_cons_False by (rewrite E; simpl; tauto). by rewrite <-app_assoc.
  - rewrite filter_cons_False, filter_cons_True by (rewrite E; simpl; tauto). by rewrite <-app_assoc.
Qed.
End slicex.

(** Chunk panics exactly when n is not positive, or when the capacity hint
    (len+n-1)/n wraps to a negative number, which happens for n close to
    MaxInt64 only; otherwise it terminates with chunks whose concatenation is
    the input, none empty, all of length n but the last, which is at most n. *)
Theorem Chunk_spec {T} (in_ : list T) n :
  in_int64 n → Z.of_nat (length in_) < 2 ^ 62 →
  let len := Z.of_nat (length in_) in
  match Chunk in_ n with
  | Panic _ => n ≤ 0 ∨ (2 ^ 63 ≤ len + n - 1 ∧ 2 * n ≤ 2 ^ 64 - len + 1)
  | Return None => False
  | Return (Some cs) =>
      0 < n ∧ ¬ (2 ^ 63 ≤ len + n - 1 ∧ 2 * n ≤ 2 ^ 64 - len + 1) ∧ concat cs = in_ ∧
      ∀ i c, cs !! i = Some c →
        c ≠ [] ∧ Z.of_nat (length c) ≤ n ∧ (is_Some (cs !! S i) → Z.of_nat (length c) = n)
  end.
Proof.
  intros Hi Hlen len. unfold Chunk. unfold in_int64, MinInt64, MaxInt64 in Hi. fold len.
  destruct (Z.leb_spec n 0); [by left|].
  destruct (Nat.eqb_spec (length in_) 0) as [H0|H0].
  { split_and!; [lia|unfold len; lia|by apply nil_length_inv in H0 as ->|done]. }
  assert ((div64 (int64 (int64 (len + n) - 1)) n <? 0) =
    bool_decide (2 ^ 63 ≤ len + n - 1 ∧ 2 * n ≤ 2 ^ 64 - len + 1)) as ->.
  { apply cap_negative; unfold len; lia. }
  destruct (bool_decide _) eqn:Eb; [right; by apply bool_decide_eq_true in Eb|].
  apply bool_decide_eq_false in Eb.
  rewrite chunk_loop_chunks by (unfold MaxInt64, len in *; lia). simpl. rewrite drop_0.
  split_and!; [lia|done|apply chunks_fuel_concat; lia|].
  intros i c Hc. apply chunks_fuel_sizes in Hc as (? & ? & Hl); [|lia|done].
  split_and!; [done|lia|]. intros Hs. rewrite (Hl Hs). lia.
Qed.

(** Unique keeps exactly the first occurrence of every element: no
    duplicates, the same elements, in their order, and extending the input only
    appends to the result.  GroupBy files every element under its key, in the
    order of the input, with no other keys; Partition is the pair of filters. *)
Theorem Unique_GroupBy_Partition {T} `{Countable T} {K} `{Countable K}
    (in_ more : list T) (key : T → K) keep :
  (NoDup (Unique in_) ∧ Unique in_ `sublist_of` in_ ∧ (∀ x, x ∈ Unique in_ ↔ x ∈ in_) ∧
   Unique in_ `prefix_of` Unique (in_ ++ more)) ∧
  (∀ k vs, GroupBy in_ key !! k = Some vs ↔ vs ≠ [] ∧ vs = filter (λ v, key v = k) in_) ∧
  (let '(yes, no) := Partition in_ keep in
   yes = filter (λ v, Is_true (keep v)) in_ ∧ no = filter (λ v, Is_true (negb (keep v))) in_ ∧
   yes ++ no ≡ₚ in_).
Proof.
  split; [|split].
  - unfold Unique. destruct (unique_loop_app in_ more ∅ []) as [seen' ->].
    destruct (unique_loop_spec more seen' (unique_loop in_ ∅ [])) as (r2 & -> & _).
    destruct (unique_loop_spec in_ ∅ []) as (rest & -> & Hn & Hs & Hx). simpl.
    split_and!; try done; [intros x; rewrite Hx; set_solver|by exists r2].
  - intros k vs. unfold GroupBy. rewrite group_loop_lookup, lookup_empty.
    destruct (filter _ in_) eqn:Ef; simpl; naive_solver.
  - unfold Partition. rewrite partition_loop_spec. simpl. split_and!; try done.
    clear. induction in_ as [|v in_ IH]; [done|]. destruct (keep v) eqn:E.
    + rewrite filter_cons_True, filter_cons_False by (rewrite E; simpl; tauto). simpl. by rewrite IH.
    + rewrite filter_cons_False, filter_cons_True by (rewrite E; simpl; tauto).
      by rewrite <-Permutation_middle, IH.
Qed.

Lemma Chunk_spec_witness :
  match Chunk [1; 2; 3; 4; 5] 2 with
  | Return (Some cs) => concat cs = [1; 2; 3; 4; 5]
  | _ => False
  end ∧ match Chunk [1; 2] MaxInt64 with Panic _ => True | Return _ => False end.
Proof.
  split; [|done]. pose proof (Chunk_spec [1; 2; 3; 4; 5] 2 ltac:(done) ltac:(done)) as H.
  vm_compute Chunk in *. apply H.
Defined.
End Slicex.

Module Mapx.
Section mapx.
Context {K V : Type} `{Countable K}.

(** A visiting order of [for k, v := range m]. *)
Definition visits (order : list (K * V)) (m : gmap K V) : Prop := order ≡ₚ map_to_list m.

Definition Keys (order : list (K * V)) : list K := foldl (λ out kv, out ++ [kv.1]) [] order.
Definition Values (order : list (K * V)) : list V := foldl (λ out kv, out ++ [kv.2]) [] order.

(** [sort_Slice] is sort.Slice with the order of the keys. *)
Definition KeysSorted (sort_Slice : list K → list K) (order : list (K * V)) : list K :=
  sort_Slice (Keys order).

Definition copy_into (order : list (K * V)) (out : gmap K V) : gmap K V :=
  foldl (λ out kv, <[kv.1 := kv.2]> out) out order.
Definition Merge (orders : list (list (K * V))) : gmap K V :=
  foldl (λ out order, copy_into order out) ∅ orders.

Definition Invert `{Countable V} (order : list (K * V)) : gmap V K :=
  foldl (λ out kv, <[kv.2 := kv.1]> out) ∅ order.

Definition Filter (keep : K → V → bool) (order : list (K * V)) : gmap K V :=
  foldl (λ out kv, if keep kv.1 kv.2 then <[kv.1 := kv.2]> out else out) ∅ order.

Definition MapValues {R} (fn : K → V → R) (order : list (K * V)) : gmap K R :=
  foldl (λ out kv, <[kv.1 := fn kv.1 kv.2]> out) ∅ order.

(** The loop over [a], visited as [order]. *)
Fixpoint equal_loop `{EqDecision V} (order : list (K * V)) (b : gmap K V) : bool :=
  match order with
  | [] => true
  | (k, av) :: order =>
      match b !! k with
      | None => false
      | Some bv => if negb (bool_decide (bv = av)) then false else equal_loop order b
      end
  end.
Definition Equal `{EqDecision V} (order : list (K * V)) (a b : gmap K V) : bool :=
  if negb (size a =? size b)%nat then false else equal_loop order b.

(** ** Lemmas *)

Lemma Keys_fst order : Keys order = order.*1.
Proof.
  unfold Keys. assert (∀ out, foldl (λ out kv, out ++ [kv.1]) out order = out ++ order.*1) as E; [|by rewrite E].
  induction order as [|kv order IH]; intros out; simpl; [by rewrite app_nil_r|].
  by rewrite IH, <-app_assoc.
Qed.

Lemma visits_NoDup order m : visits order m → NoDup order.*1.
Proof. intros ->. apply NoDup_fst_map_to_list. Qed.

Lemma visits_lookup order m k v : visits order m → m !! k = Some v ↔ (k, v) ∈ order.
Proof. intros ->. by rewrite elem_of_map_to_list. Qed.

Lemma fold_insert_lookup {R} (f : K → V → R) (p : K → V → bool) order (out : gmap K R) k :
  NoDup order.*1 →
  foldl (λ out kv, if p kv.1 kv.2 then <[kv.1 := f kv.1 kv.2]> out else out) out order !! k =
  match list_find (λ kv : K * V, kv.1 = k) order with
  | Some (_, (_, v)) => if p k v then Some (f k v) else out !! k
  | None => out !! k
  end.
Proof.
  revert out. induction order as [|[k' v] order IH]; intros out Hn; [done|]. simpl.
  inversion Hn as [|? ? Hk Hn']; subst. rewrite IH by done.
  destruct (decide (k' = k)) as [->|].
  - replace (list_find (λ kv : K * V, kv.1 = k) order) with (@None (nat * (K * V))).
    + destruct (p k v); [by rewrite lookup_insert_eq|done].
    + symmetry. apply list_find_None, Forall_forall. intros [k2 v2] Hin E. simpl in E. subst. apply Hk.
      apply list_elem_of_fmap. by exists (k, v2).
  - assert ((if p k' v then <[k':=f k' v]> out else out) !! k = out !! k) as ->.
    { destruct (p k' v); [by rewrite lookup_insert_ne|done]. }
    by destruct (list_find _ order) as [[? []]|].
Qed.

Lemma visits_find order m k : visits order m →
  (λ p : nat * (K * V), p.2.2) <$> list_find (λ kv, kv.1 = k) order = m !! k.
Proof.
  intros Hv. destruct (m !! k) as [v|] eqn:E.
  - apply (visits_lookup _ _ _ _ Hv) in E.
    destruct (list_find_elem_of (λ kv : K * V, kv.1 = k) order (k, v) E eq_refl) as [[i [k' v']] F].
    rewrite F. simpl. f_equal. apply list_find_Some in F as (F & Hk & _). simpl in Hk. subst.
    apply list_elem_of_lookup_2 in F.
    assert (m !! k = Some v') by (by apply (visits_lookup _ _ _ _ Hv)).
    assert (m !! k = Some v) by (by apply (visits_lookup _ _ _ _ Hv)). congruence.
  - destruct (list_find _ order) as [[i [k' v]]|] eqn:F; [|done]. exfalso.
    apply list_find_Some in F as (F & Hk & _). simpl in Hk. subst.
    apply list_elem_of_lookup_2, (visits_lookup _ _ _ _ Hv) in F. congruence.
Qed.

Lemma fold_insert_visits {R} (f : K → V → R) (p : K → V → bool) order m (out : gmap K R) k :
  visits order m →
  foldl (λ out kv, if p kv.1 kv.2 then <[kv.1 := f kv.1 kv.2]> out else out) out order !! k =
  match m !! k with
  | Some v => if p k v then Some (f k v) else out !! k
  | None => out !! k
  end.
Proof.
  intros Hv. rewrite fold_insert_lookup by (by eapply visits_NoDup).
  rewrite <-(visits_find order m k Hv). by destruct (list_find _ order) as [[? []]|].
Qed.

Lemma copy_into_union order m out : visits order m → copy_into order out = m ∪ out.
Proof.
  intros Hv. apply map_eq. intros k. unfold copy_into.
  rewrite (fold_insert_visits (λ _ v, v) (λ _ _, true) order m out k Hv), lookup_union.
  destruct (m !! k), (out !! k); done.
Qed.

Lemma equal_loop_spec `{EqDecision V} order b :
  equal_loop order b = true ↔ ∀ k v, (k, v) ∈ order → b !! k = Some v.
Proof.
  induction order as [|[k v] order IH]; simpl; [set_solver|].
  setoid_rewrite elem_of_cons. destruct (b !! k) as [bv|] eqn:E.
  - destruct (bool_decide (bv = v)) eqn:Ed; simpl.
    + apply bool_decide_eq_true in Ed as ->. rewrite IH. naive_solver.
    + apply bool_decide_eq_false in Ed. split; [done|]. intros Hb.
      assert (b !! k = Some v) by (apply Hb; by left). congruence.
  - split; [done|]. intros Hb. assert (b !! k = Some v) by (apply Hb; by left). congruence.
Qed.

End mapx.

(** the results that must not depend on Go's random iteration order do not:
    for all visiting orders of the inputs, Merge is the union in which later
    maps win, Filter and MapValues act pointwise, Equal decides equality of the
    maps, and KeysSorted is the one sorted enumeration of the keys. *)
Theorem mapx_order_independent {K V R} `{Countable K} `{EqDecision V}
    (le : relation K) `{!AntiSymm (=) le} (sort_Slice : list K → list K)
    (keep : K → V → bool) (fn : K → V → R) (a b : gmap K V) oa ob oa' :
  (∀ l, sort_Slice l ≡ₚ l ∧ StronglySorted le (sort_Slice l)) →
  visits oa a → visits ob b → visits oa' a →
  Merge [oa; ob] = b ∪ a ∧
  (∀ k, Filter keep oa !! k = (v ← a !! k; if keep k v then Some v else None)) ∧
  (∀ k, MapValues fn oa !! k = fn k <$> a !! k) ∧
  (Equal oa a b = true ↔ a = b) ∧
  KeysSorted sort_Slice oa = KeysSorted sort_Slice oa'.
Proof.
  intros Hsort Ha Hb Ha'. split_and!.
  - unfold Merge. simpl. rewrite (copy_into_union oa a), (copy_into_union ob b) by done.
    by rewrite (right_id_L ∅ _).
  - intros k. unfold Filter. rewrite (fold_insert_visits (λ _ v, v) keep oa a ∅ k Ha), lookup_empty.
    by destruct (a !! k).
  - intros k. unfold MapValues.
    rewrite (fold_insert_visits fn (λ _ _, true) oa a ∅ k Ha), lookup_empty. by destruct (a !! k).
  - unfold Equal. destruct (Nat.eqb_spec (size a) (size b)) as [Es|Es]; simpl.
    + rewrite equal_loop_spec. split; [|intros ->; intros k v; by apply visits_lookup].
      intros Hk. apply map_subseteq_size_eq; [|by rewrite Es]. apply map_subseteq_spec.
      intros k v. rewrite (visits_lookup _ _ _ _ Ha). apply Hk.
    + split; [done|]. by intros ->.
  - unfold KeysSorted. rewrite !Keys_fst. apply (StronglySorted_unique le); [apply Hsort..|].
    rewrite (proj1 (Hsort oa.*1)), (proj1 (Hsort oa'.*1)). apply fmap_Permutation.
    etrans; [exact Ha|symmetry; exact Ha'].
Qed.

Definition ab : gmap Z bool := list_to_map [(1, true); (2, true)].
Definition bb : gmap Z bool := {[ 2 := false ]}.

Lemma ab_visits : visits [(1, true); (2, true)] ab ∧ visits [(2, true); (1, true)] ab ∧
  visits [(2, false)] bb.
Proof.
  unfold visits, ab, bb. rewrite map_to_list_singleton, map_to_list_to_map by (vm_compute; repeat constructor; set_solver).
  split_and!; [done|apply Permutation_swap|done].
Qed.

Lemma mapx_order_independent_witness :
  Merge [[(1, true); (2, true)]; [(2, false)]] = bb ∪ ab.
Proof.
  destruct ab_visits as (H1 & H2 & H3).
  assert (∀ l, merge_sort Z.le l ≡ₚ l ∧ StronglySorted Z.le (merge_sort Z.le l)) as Hs.
  { intros l. split; [apply merge_sort_Permutation|apply StronglySorted_merge_sort; apply _]. }
  apply (mapx_order_independent Z.le (merge_sort Z.le) (λ _ _, true) (λ _ b, b)
    ab bb [(1, true); (2, true)] [(2, false)] [(2, true); (1, true)] Hs H1 H3 H2).
Defined.
End Mapx.

Module Ptr.
Section ptr.
Context {T : Type}.

(** A pointer that is only dereferenced: nil, or the value behind it. *)
Definition To (v : T) : option T := Some v.
Definition Deref (zero : T) (p : option T) : T :=
  match p with None => zero | Some v => v end.
Definition Or (p : option T) (fallback : T) : T :=
  match p with None => fallback | Some v => v end.
Definition Equal `{EqDecision T} (a b : option T) : bool :=
  match a, b with
  | None, None => true
  | None, _ | _, None => false
  | Some a, Some b => bool_decide (a = b)
  end.
Definition IsNilOrZero `{EqDecision T} (zero : T) (p : option T) : bool :=
  match p with None => true | Some v => bool_decide (v = zero) end.
End ptr.
End Ptr.
