(* ===== verification/StringCase.v ===== *)
(** * Package stringcase

    Splitting into words and the case conversions of
    src/stringcase/stringcase.go, on the runes of the input. *)

From S2P Require Import Prelude GoString.
From stdpp Require Import base list strings.
From Stdlib Require Import ZArith Lia.
Open Scope Z_scope.

Section stringcase.
Context `{Unicode}.

(** '_', '-', ' ' and '.' *)
Definition separator (r : Z) : bool := (r =? 95) || (r =? 45) || (r =? 32) || (r =? 46).

(** [if len(cur) > 0 { words = append(words, string(cur)) }], and the loop of
    Split over the runes left. *)
Definition flush (words : list string) (cur : list Z) : list string :=
  if (0 <? length cur)%nat then words ++ [of_runes cur] else words.

Fixpoint split_loop (rs : list Z) (words : list string) (cur : list Z) (prev : Z) : list string :=
  match rs with
  | [] => flush words cur
  | r :: rs =>
      if separator r then split_loop rs (flush words cur) [] r
      else if IsUpper r then
        if (0 <? length cur)%nat && (IsLower prev || IsDigit prev)
        then split_loop rs (words ++ [of_runes cur]) [r] r
        else split_loop rs words (cur ++ [r]) r
      else if IsLower r then
        if (1 <? length cur)%nat && IsUpper prev && (2 <=? length cur)%nat
           && IsUpper (default 0 (cur !! (length cur - 2)%nat))
        then
          let next := default 0 (cur !! (length cur - 1)%nat) in
          split_loop rs (words ++ [of_runes (take (length cur - 1) cur)]) ([next] ++ [r]) r
        else split_loop rs words (cur ++ [r]) r
      else if IsDigit r then split_loop rs words (cur ++ [r]) r
      else split_loop rs words cur r
  end.

Definition Split (s : string) : list string := split_loop (runes s) [] [] 0.

Definition Snake (s : string) : string := GoString.Join (ToLower <$> Split s) "_".
Definition ScreamingSnake (s : string) : string := GoString.Join (ToUpper <$> Split s) "_".
Definition Kebab (s : string) : string := GoString.Join (ToLower <$> Split s) "-".

Definition title (w : string) : string :=
  if String.eqb w "" then w
  else
    match runes (ToLower w) with
    | [] => of_runes []
    | r :: rs => of_runes (ToUpperRune r :: rs)
    end.

Definition Camel (s : string) : string :=
  match Split s with
  | [] => ""
  | w :: ws => foldl (λ b w, b +:+ title w) (ToLower w) ws
  end.

Definition Pascal (s : string) : string := foldl (λ b w, b +:+ title w) "" (Split s).

(** ** Words *)

Definition lower_alnum (r : Z) : Prop := 97 ≤ r ≤ 122 ∨ 48 ≤ r ≤ 57.
Definition alnum (r : Z) : Prop := lower_alnum r ∨ 65 ≤ r ≤ 90.

(** A nonempty word over a class of characters, as runes. *)
Definition word (P : Z → Prop) (rs : list Z) : Prop := rs ≠ [] ∧ Forall P rs.

(** ** Character classes on ASCII *)

Lemma alnum_ascii r : alnum r → is_ascii r.
Proof. unfold alnum, lower_alnum, is_ascii. lia. Qed.
Lemma lower_alnum_ascii r : lower_alnum r → is_ascii r.
Proof. unfold lower_alnum, is_ascii. lia. Qed.

Ltac classes :=
  unfold separator, ascii_upper, ascii_lower, ascii_digit, is_ascii, lower_alnum, alnum in *;
  repeat match goal with
  | |- context [?a =? ?b] => destruct (Z.eqb_spec a b)
  | |- context [?a <=? ?b] => destruct (Z.leb_spec a b)
  end; simpl in *; try lia; try done.

Lemma class_lower r : lower_alnum r →
  separator r = false ∧ IsUpper r = false ∧ (IsLower r = true ∨ IsLower r = false ∧ IsDigit r = true).
Proof.
  intros Hr. pose proof (lower_alnum_ascii r Hr) as Ha.
  rewrite IsUpper_ascii, IsLower_ascii, IsDigit_ascii by done.
  destruct Hr; split_and!; classes; tauto.
Qed.

Lemma ascii_classes r : is_ascii r → separator r = false →
  (IsUpper r || IsLower r || IsDigit r = true) → alnum r.
Proof.
  intros Ha. rewrite IsUpper_ascii, IsLower_ascii, IsDigit_ascii by done. unfold alnum, lower_alnum.
  classes.
Qed.

Lemma lower_of_alnum r : alnum r → lower_alnum (ToLowerRune r).
Proof.
  intros Hr. rewrite ToLower_ascii by (by apply alnum_ascii). unfold ascii_to_lower.
  destruct Hr as [[]|]; classes.
Qed.

(** ** Split on separated lower-case words *)

Lemma split_lower_run w rest words cur prev :
  Forall lower_alnum w → IsUpper prev = false →
  ∃ prev', IsUpper prev' = false ∧
    split_loop (w ++ rest) words cur prev = split_loop rest words (cur ++ w) prev'.
Proof.
  intros Hw. revert cur prev. induction Hw as [|r w Hr _ IH]; intros cur prev Hp; simpl.
  { exists prev. by rewrite app_nil_r. }
  destruct (class_lower r Hr) as (-> & Hu & Hl). rewrite Hu, Hp, !andb_false_r. simpl.
  destruct (IH (cur ++ [r]) r Hu) as (prev' & ? & E). rewrite <-app_assoc in E.
  exists prev'. split; [done|]. by destruct Hl as [->|[-> ->]].
Qed.

(** The runes of the words joined by the separator [sep]. *)
Fixpoint join_runes (sep : Z) (ws : list (list Z)) : list Z :=
  match ws with
  | [] => []
  | [w] => w
  | w :: ws => w ++ sep :: join_runes sep ws
  end.

Lemma split_joined sep ws words prev :
  separator sep = true → IsUpper sep = false → IsUpper prev = false →
  Forall (word lower_alnum) ws →
  split_loop (join_runes sep ws) words [] prev = words ++ (of_runes <$> ws).
Proof.
  intros Hsep Hus Hp Hw. revert words prev Hp.
  induction Hw as [|w ws [Hne Hw] Hws IH]; intros words prev Hp; [by rewrite app_nil_r|].
  assert (flush words w = words ++ [of_runes w]) as Ef by (by destruct w).
  destruct ws as [|w' ws].
  - destruct (split_lower_run w [] words [] prev Hw Hp) as (prev' & _ & E).
    rewrite app_nil_r in E. simpl. by rewrite E.
  - destruct (split_lower_run w (sep :: join_runes sep (w' :: ws)) words [] prev Hw Hp) as (prev' & _ & E).
    change (join_runes sep (w :: w' :: ws)) with (w ++ sep :: join_runes sep (w' :: ws)).
    rewrite E. cbn [split_loop app]. rewrite Hsep, Ef, IH by done. by rewrite <-app_assoc.
Qed.

(** ** The words of an ASCII string *)

Lemma split_loop_words rs words cur prev :
  Forall is_ascii rs → Forall alnum cur →
  ∃ ws, split_loop rs words cur prev = words ++ (of_runes <$> ws) ∧ Forall (word alnum) ws.
Proof.
  intros Hr. revert words cur prev. induction Hr as [|r rs Hr _ IH]; intros words cur prev Hc; simpl.
  { unfold flush. destruct cur as [|c cur]; [exists []; by rewrite app_nil_r|].
    exists [c :: cur]. split; [done|]. by apply Forall_singleton. }
  assert (∀ cur', Forall alnum cur' → ∀ words', (words' = words ∨ ∃ w, word alnum w ∧ words' = words ++ [of_runes w]) →
    ∃ ws, split_loop rs words' cur' r = words ++ (of_runes <$> ws) ∧ Forall (word alnum) ws) as Go.
  { intros cur' Hc' words' [->|(w & Hw & ->)]; [by apply IH|].
    destruct (IH (words ++ [of_runes w]) cur' r Hc') as (ws & -> & Hws).
    exists (w :: ws). rewrite <-app_assoc. split; [done|by constructor]. }
  assert (IsUpper r || IsLower r || IsDigit r = true → separator r = false →
    ∀ c, Forall alnum c → Forall alnum (c ++ [r])) as Snoc.
  { intros. apply Forall_app. split; [done|]. apply Forall_singleton. by apply ascii_classes. }
  destruct (separator r) eqn:Es.
  { unfold flush. destruct cur as [|c cur]; apply Go; try done; [by left|].
    right. by exists (c :: cur). }
  destruct (IsUpper r) eqn:Eu.
  { destruct cur as [|c cur]; simpl.
    - apply Go; [by apply (Snoc eq_refl eq_refl [])|by left].
    - case_match; apply Go; [by apply (Snoc eq_refl eq_refl [])| |by apply (Snoc eq_refl eq_refl (c :: cur))|by left].
      right. by exists (c :: cur). }
  destruct (IsLower r) eqn:El.
  { destruct ((1 <? length cur)%nat) eqn:E1; simpl; [|by apply Go; [apply Snoc|left]].
    apply Nat.ltb_lt in E1. case_match; [|by apply Go; [apply Snoc|left]].
    apply Go.
    - destruct (cur !! (length cur - 1)%nat) as [n|] eqn:En.
      + simpl; apply Forall_cons_2; [by eapply Forall_lookup_1|]. by apply (Snoc eq_refl eq_refl []).
      + apply lookup_ge_None in En. lia.
    - right. exists (take (length cur - 1) cur). split; [split|done]; [|by apply Forall_take].
      intros En. apply (f_equal length) in En. rewrite length_take in En. simpl in En. lia. }
  destruct (IsDigit r) eqn:Ed; [by apply Go; [apply Snoc|left]|by apply Go; [|left]].
Qed.

Lemma ascii_runes s : ascii_string s → Forall is_ascii (runes s).
Proof. intros Hs. by rewrite runes_ascii. Qed.

(** ** Joining *)

Lemma word_ascii P w : (∀ r, P r → is_ascii r) → word P w → Forall is_ascii w.
Proof. intros HP [_ Hw]. by eapply Forall_impl. Qed.

Lemma ToLower_of_runes w :
  word alnum w → ∃ w', ToLower (of_runes w) = of_runes w' ∧ word lower_alnum w'.
Proof.
  intros [Hne Hw]. exists (ToLowerRune <$> w). unfold ToLower.
  rewrite runes_of_runes by (eapply Forall_impl; [exact Hw|apply alnum_ascii]). split; [done|].
  split; [by destruct w|]. apply Forall_fmap. eapply Forall_impl; [exact Hw|]. intros. by apply lower_of_alnum.
Qed.

Lemma bytes_of_Join sep ws :
  is_ascii sep → Forall (word lower_alnum) ws →
  bytes_of (GoString.Join (of_runes <$> ws) (of_runes [sep])) = join_runes sep ws.
Proof.
  intros Hs. induction 1 as [|w ws Hw Hws IH]; [done|].
  assert (bytes_of (of_runes w) = w) as Ew.
  { apply bytes_of_of_runes. eapply word_ascii; [apply lower_alnum_ascii|done]. }
  destruct ws as [|w' ws]; [done|].
  change (bytes_of (of_runes w +:+ of_runes [sep] +:+ GoString.Join (of_runes <$> w' :: ws) (of_runes [sep])) =
    w ++ sep :: join_runes sep (w' :: ws)).
  rewrite !bytes_of_app, IH, Ew, (bytes_of_of_runes [sep]) by (by apply Forall_singleton). done.
Qed.

Lemma join_runes_ascii sep ws :
  is_ascii sep → Forall (word lower_alnum) ws → Forall is_ascii (join_runes sep ws).
Proof.
  intros Hs. induction 1 as [|w ws Hw Hws IH]; [done|].
  assert (Forall is_ascii w) by (by eapply word_ascii; [apply lower_alnum_ascii|]).
  destruct ws; [done|]. apply Forall_app. split; [done|]. by constructor.
Qed.

Lemma Split_Join sep ws :
  is_ascii sep → separator sep = true → Forall (word lower_alnum) ws →
  Split (GoString.Join (of_runes <$> ws) (of_runes [sep])) = of_runes <$> ws.
Proof.
  intros Hs Hsep Hw. unfold Split, runes. rewrite bytes_of_Join by done.
  rewrite decode_runes_ascii by (by apply join_runes_ascii).
  apply (split_joined sep ws [] 0); try done.
  - rewrite IsUpper_ascii by done. revert Hsep. classes.
  - by rewrite IsUpper_ascii.
Qed.

(** The lower-cased words of an ASCII string. *)
Lemma lower_words s :
  ascii_string s → ∃ ws, ToLower <$> Split s = of_runes <$> ws ∧ Forall (word lower_alnum) ws.
Proof.
  intros Hs. destruct (split_loop_words (runes s) [] [] 0) as (ws & E & Hw); [by apply ascii_runes|done|].
  unfold Split. rewrite E. simpl. clear E.
  induction Hw as [|w ws Hw _ (ws' & IH & Hws')]; [by exists []|].
  destruct (ToLower_of_runes w Hw) as (w' & E & Hw'). exists (w' :: ws'). rewrite !fmap_cons, E, IH.
  split; [done|by constructor].
Qed.

Lemma ToLower_idem ws :
  Forall (word lower_alnum) ws → ToLower <$> (of_runes <$> ws) = of_runes <$> ws.
Proof.
  induction 1 as [|w ws Hw _ IH]; [done|]. rewrite !fmap_cons, IH. f_equal. unfold ToLower.
  rewrite runes_of_runes by (by eapply word_ascii; [apply lower_alnum_ascii|]). f_equal.
  destruct Hw as [_ Hw]. induction Hw as [|r w Hr _ IHw]; [done|]. rewrite fmap_cons, IHw. f_equal.
  rewrite ToLower_ascii by (by apply lower_alnum_ascii). unfold ascii_to_lower.
  destruct Hr; classes.
Qed.

(** ** Properties *)

(** the snake and kebab forms are normal forms.  For every ASCII string,
    Snake and Kebab consist of lower-case letters and digits between their
    separators, each absorbs itself and the other (so converting back and forth
    settles at once), and splitting a normal form gives back its words. *)
Theorem snake_kebab_normal s :
  ascii_string s →
  Snake (Snake s) = Snake s ∧ Snake (Kebab s) = Snake s ∧
  Kebab (Kebab s) = Kebab s ∧ Kebab (Snake s) = Kebab s ∧
  Split (Snake s) = ToLower <$> Split s ∧
  Forall (λ r, lower_alnum r ∨ r = 95) (bytes_of (Snake s)).
Proof.
  intros Hs. destruct (lower_words s Hs) as (ws & E & Hw).
  pose proof (Split_Join 95 ws ltac:(done) eq_refl Hw) as Es.
  pose proof (Split_Join 45 ws ltac:(done) eq_refl Hw) as Ek.
  change (of_runes [95]) with "_" in Es. change (of_runes [45]) with "-" in Ek.
  assert (∀ t, Split t = of_runes <$> ws → ToLower <$> Split t = of_runes <$> ws) as Low
    by (intros t ->; by apply ToLower_idem).
  unfold Snake, Kebab. rewrite E, !Low by done. rewrite Es. split_and!; try done.
  change "_" with (of_runes [95]). rewrite bytes_of_Join by done. clear -Hw.
  induction Hw as [|w ws [_ Hw] _ IH]; [done|].
  assert (Forall (λ r, lower_alnum r ∨ r = 95) w) by (eapply Forall_impl; [exact Hw|]; tauto).
  destruct ws; [done|]. apply Forall_app. split; [done|]. constructor; [by right|done].
Qed.
End stringcase.

Lemma snake_kebab_normal_witness :
  Snake "HTTPRequest v2.userID" = "http_request_v2_user_id" ∧
  Snake (Kebab "HTTPRequest v2.userID") = Snake "HTTPRequest v2.userID".
Proof.
  assert (ascii_string "HTTPRequest v2.userID") as Ha by (apply (bool_decide_unpack _); by vm_compute).
  split; [by vm_compute|]. exact (proj1 (proj2 (snake_kebab_normal "HTTPRequest v2.userID" Ha))).
Defined.

(** A digit does not end a word: the boundary is only before an upper-case
    letter. *)
Example digits_no_boundary : Split "version2beta" = ["version2beta"] ∧ Split "v2Beta" = ["v2"; "Beta"].
Proof. by vm_compute. Qed.
