(* ===== verification/Validate.v ===== *)
(** * Package validate

    The validators of src/validate/validate.go.  The two regular expressions
    are anchored sequences of character classes with bounded repetition; such a
    pattern is a list of classes with their bounds, matched on the runes of the
    whole text.  Email and URL, which only call the parsers of net/mail and
    net/url, are not modelled. *)

From S2P Require Import Prelude GoString GoErrors.
From stdpp Require Import base list strings.
From Stdlib Require Import ZArith Lia.
Open Scope Z_scope.

Definition ErrInvalidEmail : error := ENew "validate: invalid email".
Definition ErrInvalidURL : error := ENew "validate: invalid URL".
Definition ErrInvalidPhone : error := ENew "validate: invalid phone (E.164 required)".
Definition ErrInvalidUUID : error := ENew "validate: invalid UUID".
Definition ErrPasswordTooShort : error := ENew "validate: password too short".
Definition ErrPasswordNoUpper : error := ENew "validate: password missing uppercase letter".
Definition ErrPasswordNoLower : error := ENew "validate: password missing lowercase letter".
Definition ErrPasswordNoDigit : error := ENew "validate: password missing digit".
Definition ErrPasswordNoSymbol : error := ENew "validate: password missing symbol".

(** ** Anchored patterns *)

(** A class repeated between [lo] and [lo + more] times. *)
Record piece := { cls : Z → bool; lo : nat; more : nat }.

(** [c{n}] matched at the head, then [k] on what is left. *)
Fixpoint match_exactly (n : nat) (c : Z → bool) (k : list Z → bool) (rs : list Z) : bool :=
  match n, rs with
  | O, _ => k rs
  | S n, r :: rs => c r && match_exactly n c k rs
  | S _, [] => false
  end.
(** [c{0,n}], then [k]. *)
Fixpoint match_upto (n : nat) (c : Z → bool) (k : list Z → bool) (rs : list Z) : bool :=
  k rs ||
  match n, rs with
  | S n, r :: rs => c r && match_upto n c k rs
  | _, _ => false
  end.
Fixpoint match_pattern (p : list piece) (rs : list Z) : bool :=
  match p with
  | [] => match rs with [] => true | _ => false end
  | q :: p => match_exactly (lo q) (cls q) (match_upto (more q) (cls q) (match_pattern p)) rs
  end.
Definition MatchString (p : list piece) (s : string) : bool := match_pattern p (runes s).

Definition chr (c : Z) (r : Z) : bool := r =? c.
Definition range (a b : Z) (r : Z) : bool := (a <=? r) && (r <=? b).
Definition hex (r : Z) : bool := range 48 57 r || range 97 102 r || range 65 70 r.
Definition once (c : Z → bool) : piece := {| cls := c; lo := 1; more := 0 |}.
Definition times (n : nat) (c : Z → bool) : piece := {| cls := c; lo := n; more := 0 |}.

Definition phoneE164 : list piece :=
  [once (chr 43); once (range 49 57); {| cls := range 48 57; lo := 1; more := 13 |}].

Definition uuidRe : list piece :=
  [times 8 hex; once (chr 45); times 4 hex; once (chr 45); once (range 49 56); times 3 hex;
   once (chr 45); once (λ r, (r =? 56) || (r =? 57) || (r =? 97) || (r =? 98) || (r =? 65) || (r =? 66));
   times 3 hex; once (chr 45); times 12 hex].

(** [ParseAddress] is mail.ParseAddress: its error. *)
Definition Email (ParseAddress : string → option error) (s : string) : option error :=
  match ParseAddress s with Some _ => Some ErrInvalidEmail | None => None end.
(** [Parse] is url.Parse: the scheme and the host; IsAbs is a scheme. *)
Definition URL (Parse : string → result error (string * string)) (s : string) : option error :=
  match Parse s with
  | Err _ => Some ErrInvalidURL
  | Ok (scheme, host) =>
      if String.eqb scheme "" || String.eqb host "" then Some ErrInvalidURL else None
  end.

Definition PhoneE164 (s : string) : option error :=
  if negb (MatchString phoneE164 s) then Some ErrInvalidPhone else None.

Definition UUID (s : string) : option error :=
  if negb (MatchString uuidRe s) then Some ErrInvalidUUID else None.

Record PasswordPolicy := {
  MinLength : Z;
  RequireUppercase : bool;
  RequireLowercase : bool;
  RequireDigit : bool;
  RequireSymbol : bool
}.

Definition DefaultPasswordPolicy : PasswordPolicy :=
  {| MinLength := 8; RequireUppercase := true; RequireLowercase := true;
     RequireDigit := true; RequireSymbol := true |}.

Section unicode.
Context `{Unicode}.

(** The flags hasUpper, hasLower, hasDigit, hasSymbol after the scan. *)
Record seen := { hasUpper : bool; hasLower : bool; hasDigit : bool; hasSymbol : bool }.

Definition scan_rune (f : seen) (r : Z) : seen :=
  if IsUpper r then
    {| hasUpper := true; hasLower := hasLower f; hasDigit := hasDigit f; hasSymbol := hasSymbol f |}
  else if IsLower r then
    {| hasUpper := hasUpper f; hasLower := true; hasDigit := hasDigit f; hasSymbol := hasSymbol f |}
  else if IsDigit r then
    {| hasUpper := hasUpper f; hasLower := hasLower f; hasDigit := true; hasSymbol := hasSymbol f |}
  else if IsPunct r || IsSymbol r then
    {| hasUpper := hasUpper f; hasLower := hasLower f; hasDigit := hasDigit f; hasSymbol := true |}
  else f.

Definition scan (p : string) : seen :=
  foldl scan_rune {| hasUpper := false; hasLower := false; hasDigit := false; hasSymbol := false |} (runes p).

Definition Password (p : string) (policy : PasswordPolicy) : option error :=
  if slen p <? MinLength policy then Some ErrPasswordTooShort
  else
    let f := scan p in
    if RequireUppercase policy && negb (hasUpper f) then Some ErrPasswordNoUpper
    else if RequireLowercase policy && negb (hasLower f) then Some ErrPasswordNoLower
    else if RequireDigit policy && negb (hasDigit f) then Some ErrPasswordNoDigit
    else if RequireSymbol policy && negb (hasSymbol f) then Some ErrPasswordNoSymbol
    else None.

Definition NormalizeEmail (s : string) : string := ToLower (TrimSpace s).
End unicode.

(** ** Lemmas *)

Lemma match_exactly_run n c k w rest :
  length w = n → Forall (λ r, c r = true) w → match_exactly n c k (w ++ rest) = k rest.
Proof.
  intros <- Hw. induction Hw as [|r w Hr _ IH]; [done|]. simpl. by rewrite Hr.
Qed.

Lemma match_upto_0 c k rs : match_upto 0 c k rs = k rs.
Proof. destruct rs; simpl; by rewrite orb_false_r. Qed.

(** A fixed run of [n] characters of class [c]. *)
Lemma match_times n c p w rest :
  length w = n → Forall (λ r, c r = true) w →
  match_pattern (times n c :: p) (w ++ rest) = match_pattern p rest.
Proof. intros Hl Hw. cbn [match_pattern times lo more cls]. rewrite match_exactly_run by done. apply match_upto_0. Qed.

Lemma match_once c p r rest :
  c r = true → match_pattern (once c :: p) (r :: rest) = match_pattern p rest.
Proof.
  intros Hr. cbn [match_pattern once lo more cls match_exactly]. rewrite Hr. apply match_upto_0.
Qed.

Lemma match_upto_iff n c rs :
  match_upto n c (match_pattern []) rs = true ↔ (length rs ≤ n)%nat ∧ Forall (λ r, c r = true) rs.
Proof.
  revert rs. induction n as [|n IH]; intros [|r rs]; simpl.
  - by split.
  - split; [done|]. intros [? _]. lia.
  - split; [|done]. intros _. split; [lia|done].
  - rewrite andb_true_iff, IH, Forall_cons. split; intros; intuition lia.
Qed.

Lemma match_once_iff c p rs :
  match_pattern (once c :: p) rs = true ↔
  ∃ r rest, rs = r :: rest ∧ c r = true ∧ match_pattern p rest = true.
Proof.
  destruct rs as [|r rest].
  - split; [done|]. by intros (? & ? & ? & _).
  - cbn [match_pattern once lo more cls match_exactly]. rewrite match_upto_0, andb_true_iff. split.
    + intros [Hr Hm]. by exists r, rest.
    + by intros (? & ? & [= <- <-] & Hr & Hm).
Qed.

Lemma match_last_iff c n rs :
  match_pattern [{| cls := c; lo := 1; more := n |}] rs = true ↔
  (1 ≤ length rs ≤ S n)%nat ∧ Forall (λ r, c r = true) rs.
Proof.
  destruct rs as [|r rs].
  - split; [done|]. simpl. intros [? _]. lia.
  - cbn [match_pattern lo more cls match_exactly]. rewrite andb_true_iff, match_upto_iff, Forall_cons. simpl.
    split; intros; intuition lia.
Qed.

(** The error of the first rule that is not met. *)
Fixpoint first_unmet (rules : list (bool * error)) : option error :=
  match rules with
  | [] => None
  | (unmet, err) :: rules => if unmet then Some err else first_unmet rules
  end.

Section password.
Context `{Unicode}.

(** The class a rune counts for. *)
Definition symbolic (r : Z) : bool :=
  negb (IsUpper r) && negb (IsLower r) && negb (IsDigit r) && (IsPunct r || IsSymbol r).

Lemma scan_fold rs f :
  let f' := foldl scan_rune f rs in
  hasUpper f' = hasUpper f || existsb IsUpper rs ∧
  hasLower f' = hasLower f || existsb (λ r, negb (IsUpper r) && IsLower r) rs ∧
  hasDigit f' = hasDigit f || existsb (λ r, negb (IsUpper r) && negb (IsLower r) && IsDigit r) rs ∧
  hasSymbol f' = hasSymbol f || existsb symbolic rs.
Proof.
  revert f. induction rs as [|r rs IH]; intros f; simpl; [by rewrite !orb_false_r|].
  destruct (IH (scan_rune f r)) as (-> & -> & -> & ->). unfold scan_rune, symbolic.
  destruct (IsUpper r), (IsLower r), (IsDigit r), (IsPunct r), (IsSymbol r), f as [[] [] [] []];
    simpl; done.
Qed.
End password.

(** ** Properties *)

(** PhoneE164 accepts exactly a plus sign, a digit 1-9 and one to fourteen
    further digits: two to fifteen digits in all. *)
Theorem PhoneE164_iff s :
  PhoneE164 s = None ↔
  ∃ d ds, runes s = 43 :: d :: ds ∧ 49 ≤ d ≤ 57 ∧ (1 ≤ length ds ≤ 14)%nat ∧
    Forall (λ r, 48 ≤ r ≤ 57) ds.
Proof.
  unfold PhoneE164, MatchString.
  assert (∀ a b r, range a b r = true ↔ a ≤ r ≤ b) as Hrange.
  { intros. unfold range. by rewrite andb_true_iff, !Z.leb_le. }
  transitivity (match_pattern phoneE164 (runes s) = true); [by destruct (match_pattern _ _)|].
  unfold phoneE164. rewrite match_once_iff. setoid_rewrite match_once_iff. setoid_rewrite match_last_iff.
  setoid_rewrite Hrange. unfold chr. setoid_rewrite Z.eqb_eq. split.
  - intros (? & ? & -> & -> & d & ds & -> & Hd & Hl & Hf). by exists d, ds.
  - intros (d & ds & -> & Hd & Hl & Hf). eexists _, _. split_and!; [done..|]. by exists d, ds.
Qed.

(** Password reports the first unmet rule, in the order length, upper,
    lower, digit, symbol, and accepts exactly the passwords that are at least
    MinLength bytes long and contain every required kind of character.  A
    character counts for the first of the four kinds it belongs to. *)
Theorem Password_first_failure `{Unicode} p policy :
  Password p policy = first_unmet
    [(slen p <? MinLength policy, ErrPasswordTooShort);
     (RequireUppercase policy && negb (existsb IsUpper (runes p)), ErrPasswordNoUpper);
     (RequireLowercase policy && negb (existsb (λ r, negb (IsUpper r) && IsLower r) (runes p)),
       ErrPasswordNoLower);
     (RequireDigit policy && negb (existsb (λ r, negb (IsUpper r) && negb (IsLower r) && IsDigit r) (runes p)),
       ErrPasswordNoDigit);
     (RequireSymbol policy && negb (existsb symbolic (runes p)), ErrPasswordNoSymbol)].
Proof.
  unfold Password. destruct (slen p <? MinLength policy); [done|].
  unfold scan. destruct (scan_fold (runes p)
    {| hasUpper := false; hasLower := false; hasDigit := false; hasSymbol := false |})
    as (-> & -> & -> & ->). simpl.
  by repeat case_match.
Qed.
