(* ===== verification/Id.v ===== *)
(** * Package id

    UUIDv7 generation of src/id/id.go, as a function of the clock reading (in
    milliseconds) and of the sixteen bytes crypto/rand delivers. *)

From S2P Require Import Prelude GoString GoErrors Validate.
From stdpp Require Import base list strings.
From Stdlib Require Import ZArith Lia.
Open Scope Z_scope.

(** [rand] after [rand.Read]; the first six bytes are overwritten by [now]. *)
Definition uuidv7Bytes (nowMilli : Z) (rand : list Z) : list Z :=
  let now := uint64 nowMilli in
  let b := rand in
  let b := <[0%nat := uint8 (Z.shiftr now 40)]> b in
  let b := <[1%nat := uint8 (Z.shiftr now 32)]> b in
  let b := <[2%nat := uint8 (Z.shiftr now 24)]> b in
  let b := <[3%nat := uint8 (Z.shiftr now 16)]> b in
  let b := <[4%nat := uint8 (Z.shiftr now 8)]> b in
  let b := <[5%nat := uint8 now]> b in
  let b := alter (λ x, Z.lor (Z.land x 15) 112) 6%nat b in
  alter (λ x, Z.lor (Z.land x 63) 128) 8%nat b.

(** encoding/hex *)
Definition hex_digit (d : Z) : Z := if d <? 10 then 48 + d else 87 + d.
Definition hex_byte (b : Z) : list Z := [hex_digit (Z.shiftr b 4); hex_digit (Z.land b 15)].
Definition hex_Encode (bs : list Z) : list Z := bs ≫= hex_byte.

(** [b[i:j]] *)
Definition sub (i j : nat) (b : list Z) : list Z := take (j - i) (drop i b).

Definition uuid_chars (b : list Z) : list Z :=
  hex_Encode (sub 0 4 b) ++ 45 :: hex_Encode (sub 4 6 b) ++ 45 :: hex_Encode (sub 6 8 b) ++
  45 :: hex_Encode (sub 8 10 b) ++ 45 :: hex_Encode (sub 10 16 b).
Definition uuidToString (b : list Z) : string := of_bytes (uuid_chars b).

Definition UUIDv7 (nowMilli : Z) (rand : list Z) : string := uuidToString (uuidv7Bytes nowMilli rand).
Definition UUIDv7Raw (nowMilli : Z) (rand : list Z) : list Z := uuidv7Bytes nowMilli rand.

(** ** Reference: byte-wise comparison of strings *)

Fixpoint lex_lt (a b : list Z) : Prop :=
  match a, b with
  | [], _ :: _ => True
  | x :: a, y :: b => x < y ∨ (x = y ∧ lex_lt a b)
  | _, [] => False
  end.
Definition string_lt (s t : string) : Prop := lex_lt (bytes_of s) (bytes_of t).

(** ** Lemmas *)

Lemma hex_byte_alt b : in_byte b → hex_byte b = [hex_digit (b / 16); hex_digit (b mod 16)].
Proof.
  intros. unfold hex_byte. change 15 with (Z.ones 4). by rewrite Z.land_ones, Z.shiftr_div_pow2 by lia.
Qed.

Lemma hex_digit_range d : 0 ≤ d < 16 → 48 ≤ hex_digit d ≤ 102 ∧ hex (hex_digit d) = true.
Proof.
  intros Hd. unfold hex_digit, hex, range. destruct (Z.ltb_spec d 10); (split; [lia|]);
    rewrite ?orb_true_iff, ?andb_true_iff, ?Z.leb_le; lia.
Qed.

Lemma hex_digit_mono d d' : 0 ≤ d < 16 → 0 ≤ d' < 16 → d < d' → hex_digit d < hex_digit d'.
Proof.
  intros. unfold hex_digit. destruct (Z.ltb_spec d 10), (Z.ltb_spec d' 10); lia.
Qed.

Lemma hex_Encode_props bs : Forall in_byte bs →
  length (hex_Encode bs) = (2 * length bs)%nat ∧
  Forall (λ r, hex r = true ∧ 48 ≤ r ≤ 102) (hex_Encode bs).
Proof.
  induction 1 as [|b bs Hb _ [IHl IHf]]; [done|]. unfold hex_Encode in *.
  rewrite bind_cons, length_app, IHl, hex_byte_alt by done. split; [simpl; lia|].
  unfold in_byte in Hb.
  apply Forall_cons_2; [split; apply hex_digit_range; dlia|].
  apply Forall_cons_2; [split; apply hex_digit_range; dlia|]. done.
Qed.

(** Comparing the encodings of two byte sequences followed by more. *)
Lemma lex_hex b b' r r' :
  in_byte b → in_byte b' → b < b' ∨ (b = b' ∧ lex_lt r r') →
  lex_lt (hex_byte b ++ r) (hex_byte b' ++ r').
Proof.
  intros Hb Hb'. rewrite !hex_byte_alt by done. unfold in_byte in *. intros [Hlt|[-> Hr]]; simpl.
  - assert (b / 16 < b' / 16 ∨ b / 16 = b' / 16 ∧ b mod 16 < b' mod 16) as [|[-> ]] by dlia.
    + left. apply hex_digit_mono; dlia.
    + right. split; [done|]. left. apply hex_digit_mono; dlia.
  - right. split; [done|]. right. by split.
Qed.

Lemma version_byte r : in_byte r →
  let b := Z.lor (Z.land r 15) 112 in in_byte b ∧ hex_digit (b / 16) = 55.
Proof.
  intros Hr b. unfold b. change 15 with (Z.ones 4). rewrite Z.land_ones by lia.
  change 112 with (7 * 2 ^ 4).
  rewrite lor_shift_add by (lia || apply Z.mod_pos_bound; lia).
  eval_pow2. assert (0 ≤ r mod 16 < 16) by (apply Z.mod_pos_bound; lia). unfold in_byte. split; [lia|].
  replace ((r mod 16 + 7 * 16) / 16) with 7 by dlia. done.
Qed.

Lemma variant_byte r : in_byte r →
  let b := Z.lor (Z.land r 63) 128 in in_byte b ∧ 8 ≤ b / 16 ≤ 11.
Proof.
  intros Hr b. unfold b. change 63 with (Z.ones 6). rewrite Z.land_ones by lia.
  change 128 with (2 * 2 ^ 6).
  rewrite lor_shift_add by (lia || apply Z.mod_pos_bound; lia).
  eval_pow2. assert (0 ≤ r mod 64 < 64) by (apply Z.mod_pos_bound; lia). unfold in_byte.
  split; [lia|dlia].
Qed.

(** The sixteen bytes: timestamp, version, variant, random rest. *)
Lemma uuidv7_layout now rand :
  0 ≤ now < 2 ^ 48 → length rand = 16%nat → Forall in_byte rand →
  ∃ t0 t1 t2 t3 t4 t5 v r7 w rest,
    uuidv7Bytes now rand = t0 :: t1 :: t2 :: t3 :: t4 :: t5 :: v :: r7 :: w :: rest ∧
    Forall in_byte (t0 :: t1 :: t2 :: t3 :: t4 :: t5 :: v :: r7 :: w :: rest) ∧ length rest = 7%nat ∧
    now = t0 * 2 ^ 40 + t1 * 2 ^ 32 + t2 * 2 ^ 24 + t3 * 2 ^ 16 + t4 * 2 ^ 8 + t5 ∧
    hex_digit (v / 16) = 55 ∧ 8 ≤ w / 16 ≤ 11.
Proof.
  intros Hn Hl Hr.
  do 16 (destruct rand as [|? rand]; [done|]). destruct rand as [|? rand]; [|done].
  repeat match goal with H : Forall _ (_ :: _) |- _ => apply Forall_cons in H as [? H] end.
  do 10 eexists. split; [reflexivity|].
  assert (uint64 now = now) as ->.
  { unfold uint64, uwrap. apply Z.mod_small. eval_pow2. lia. }
  split; [|split; [done|split; [|split; [by apply version_byte|by apply variant_byte]]]].
  - repeat (apply Forall_cons_2; [apply uint8_range || done || by apply version_byte || by apply variant_byte|]).
    done.
  - unfold uint8, uwrap. rewrite !Z.shiftr_div_pow2 by lia. eval_pow2. dlia.
Qed.

Lemma uuid_chars_range b : Forall in_byte b → Forall is_ascii (uuid_chars b).
Proof.
  intros Hb.
  assert (∀ i j, Forall is_ascii (hex_Encode (sub i j b))) as Hs.
  { intros i j. eapply Forall_impl; [apply hex_Encode_props; by apply Forall_take, Forall_drop|].
    unfold is_ascii. intros ? [_ ?]. lia. }
  unfold uuid_chars.
  repeat first [apply Forall_app; split; [apply Hs|] | apply Forall_cons_2; [done|] | apply Hs].
Qed.

Lemma UUIDv7_bytes now rand b :
  uuidv7Bytes now rand = b → Forall in_byte b → bytes_of (UUIDv7 now rand) = uuid_chars b.
Proof.
  intros E Hb. unfold UUIDv7, uuidToString. rewrite E. apply bytes_of_of_bytes.
  eapply Forall_impl; [by apply uuid_chars_range|apply is_ascii_byte].
Qed.

(** A group of the string is a run of hex digits. *)
Lemma match_group i j n b p rest :
  Forall in_byte b → length (sub i j b) = n →
  match_pattern (times (2 * n) hex :: p) (hex_Encode (sub i j b) ++ rest) = match_pattern p rest.
Proof.
  intros Hb Hl. destruct (hex_Encode_props (sub i j b)) as [Hn Hf]; [by apply Forall_take, Forall_drop|].
  rewrite Hl in Hn. apply match_times; [done|]. eapply Forall_impl; [exact Hf|]. by intros ? [].
Qed.

(** The third and fourth groups: a distinguished digit, then three hex digits. *)
Lemma match_digit_group c x y p rest :
  in_byte x → in_byte y → c (hex_digit (x / 16)) = true →
  match_pattern (once c :: times 3 hex :: p) (hex_Encode [x; y] ++ rest) = match_pattern p rest.
Proof.
  intros Hx Hy Hc. destruct (hex_Encode_props [x; y]) as [_ Hf]; [by repeat apply Forall_cons_2|].
  unfold hex_Encode in *. cbn [mbind list_bind] in *. rewrite !hex_byte_alt in * by done. cbn [app] in *.
  apply Forall_cons in Hf as [_ Hf]. rewrite match_once by done.
  apply (match_times 3 hex p [_; _; _]); [done|]. eapply Forall_impl; [exact Hf|]. by intros ? [].
Qed.

Lemma hex_variant d : 8 ≤ d ≤ 11 →
  (λ r, (r =? 56) || (r =? 57) || (r =? 97) || (r =? 98) || (r =? 65) || (r =? 66)) (hex_digit d) = true.
Proof.
  intros Hd. assert (d = 8 ∨ d = 9 ∨ d = 10 ∨ d = 11) as [->|[->|[->| ->]]] by lia; done.
Qed.

Lemma uuid_chars_valid t0 t1 t2 t3 t4 t5 v r7 w rest :
  let b := t0 :: t1 :: t2 :: t3 :: t4 :: t5 :: v :: r7 :: w :: rest in
  Forall in_byte b → length rest = 7%nat → hex_digit (v / 16) = 55 → 8 ≤ w / 16 ≤ 11 →
  match_pattern uuidRe (uuid_chars b) = true ∧ length (uuid_chars b) = 36%nat.
Proof.
  intros b Hb Hl Hv Hw. destruct rest as [|r9 rest]; [done|].
  pose proof Hb as Hb'. unfold b in Hb'.
  repeat match goal with H : Forall _ (_ :: _) |- _ => apply Forall_cons in H as [? H] end.
  assert (length (sub 10 16 b) = 6%nat) as Hsix.
  { unfold sub. change (drop 10 b) with rest. rewrite length_take. simpl in Hl. lia. }
  unfold uuidRe, uuid_chars. split.
  - rewrite (match_group 0 4 4), match_once, (match_group 4 6 2), match_once by done.
    change (sub 6 8 b) with [v; r7]. change (sub 8 10 b) with [w; r9].
    rewrite match_digit_group, match_once by (try done; by rewrite Hv).
    rewrite match_digit_group, match_once by (try done; by apply hex_variant).
    rewrite <-(app_nil_r (hex_Encode _)). by rewrite (match_group 10 16 6).
  - assert (∀ i j n, length (sub i j b) = n → length (hex_Encode (sub i j b)) = (2 * n)%nat) as Hx.
    { intros i j n <-. apply hex_Encode_props. by apply Forall_take, Forall_drop. }
    rewrite !length_app. cbn [length]. rewrite !length_app. cbn [length]. rewrite !length_app.
    cbn [length]. rewrite !length_app. cbn [length].
    rewrite (Hx 0 4 4)%nat, (Hx 4 6 2)%nat, (Hx 6 8 2)%nat, (Hx 8 10 2)%nat, (Hx 10 16 6)%nat by done. done.
Qed.

Lemma uuid_chars_ordered t0 t1 t2 t3 t4 t5 rest t0' t1' t2' t3' t4' t5' rest' :
  let b := t0 :: t1 :: t2 :: t3 :: t4 :: t5 :: rest in
  let b' := t0' :: t1' :: t2' :: t3' :: t4' :: t5' :: rest' in
  Forall in_byte b → Forall in_byte b' →
  t0 * 2 ^ 40 + t1 * 2 ^ 32 + t2 * 2 ^ 24 + t3 * 2 ^ 16 + t4 * 2 ^ 8 + t5 <
  t0' * 2 ^ 40 + t1' * 2 ^ 32 + t2' * 2 ^ 24 + t3' * 2 ^ 16 + t4' * 2 ^ 8 + t5' →
  lex_lt (uuid_chars b) (uuid_chars b').
Proof.
  intros b b' Hb Hb' Hlt. unfold uuid_chars, hex_Encode.
  change (sub 0 4 b) with [t0; t1; t2; t3]. change (sub 0 4 b') with [t0'; t1'; t2'; t3'].
  change (sub 4 6 b) with [t4; t5]. change (sub 4 6 b') with [t4'; t5'].
  do 6 (apply Forall_cons in Hb as [? Hb]; apply Forall_cons in Hb' as [? Hb']).
  rewrite !bind_cons, <-!app_assoc. cbn [app mbind list_bind]. unfold in_byte in *. eval_pow2.
  apply lex_hex; [done..|]. destruct (decide (t0 = t0')) as [<-|]; [right; split; [done|]|left; lia].
  apply lex_hex; [done..|]. destruct (decide (t1 = t1')) as [<-|]; [right; split; [done|]|left; lia].
  apply lex_hex; [done..|]. destruct (decide (t2 = t2')) as [<-|]; [right; split; [done|]|left; lia].
  apply lex_hex; [done..|]. destruct (decide (t3 = t3')) as [<-|]; [right; split; [done|]|left; lia].
  right. split; [done|].
  apply lex_hex; [done..|]. destruct (decide (t4 = t4')) as [<-|]; [right; split; [done|]|left; lia].
  apply lex_hex; [done..|]. left. lia.
Qed.

(** ** Properties *)

(** C40: every generated UUIDv7 is accepted by validate.UUID, has 36 characters,
    and the strings are time-ordered: a later millisecond gives a string that is
    greater byte by byte, whatever the random bytes, for all clock readings of
    the 48-bit field (until the year 10889). *)
Theorem UUIDv7_valid_and_ordered now now' rand rand' :
  0 ≤ now < 2 ^ 48 → 0 ≤ now' < 2 ^ 48 →
  length rand = 16%nat → Forall in_byte rand → length rand' = 16%nat → Forall in_byte rand' →
  UUID (UUIDv7 now rand) = None ∧ slen (UUIDv7 now rand) = 36 ∧
  (now < now' → string_lt (UUIDv7 now rand) (UUIDv7 now' rand')).
Proof.
  intros Hn Hn' Hl Hr Hl' Hr'.
  destruct (uuidv7_layout now rand Hn Hl Hr) as
    (t0 & t1 & t2 & t3 & t4 & t5 & v & r7 & w & rest & E & Hb & Hrest & Et & Hv & Hw).
  destruct (uuidv7_layout now' rand' Hn' Hl' Hr') as
    (t0' & t1' & t2' & t3' & t4' & t5' & v' & r7' & w' & rest' & E' & Hb' & Hrest' & Et' & _ & _).
  pose proof (UUIDv7_bytes _ _ _ E Hb) as Eb. pose proof (UUIDv7_bytes _ _ _ E' Hb') as Eb'.
  destruct (uuid_chars_valid _ _ _ _ _ _ _ _ _ _ Hb Hrest Hv Hw) as [Hm Hlen].
  split_and!.
  - unfold UUID, MatchString, runes.
    rewrite Eb, decode_runes_ascii, Hm by (by apply uuid_chars_range). done.
  - unfold slen. by rewrite <-bytes_of_length, Eb, Hlen.
  - intros Hlt. unfold string_lt. rewrite Eb, Eb'. apply uuid_chars_ordered; [done..|lia].
Qed.

Lemma UUIDv7_valid_and_ordered_witness :
  string_lt (UUIDv7 1700000000000 (replicate 16 255)) (UUIDv7 1700000000001 (replicate 16 0)).
Proof.
  apply (UUIDv7_valid_and_ordered 1700000000000 1700000000001 (replicate 16 255) (replicate 16 0));
    try done; try lia; apply Forall_replicate; unfold in_byte; lia.
Defined.
