(* ===== verification/Clock.v ===== *)
(** * Package clock

    The mock clock of src/clock/clock.go.  A channel made by After is a number;
    the values sent on channels are returned as a log of pairs.  The methods
    hold the mutex around their reads and writes of the state; the sends of
    Advance come after the unlock, on channels nobody else sends on.  Real only
    calls package time. *)

From S2P Require Import Prelude.
From stdpp Require Import base list.
From Stdlib Require Import ZArith Lia.
Open Scope Z_scope.

Record waiter := { deadline : Time; ch : nat }.

Record Mock := {
  now : Time;
  waiters : list waiter;
  fresh : nat            (* the next channel *)
}.

Definition NewMock (start : Time) : Mock :=
  let start := if IsZeroTime start then 0 else start in
  {| now := start; waiters := []; fresh := 0 |}.

Definition Now (m : Mock) : Time := now m.
Definition Since (t : Time) (m : Mock) : Duration := time_Sub (Now m) t.

(** The mock, the channel returned, and the sends. *)
Definition After (d : Duration) (m : Mock) : Mock * nat * list (nat * Time) :=
  let c := fresh m in
  let w := {| deadline := time_Add (now m) d; ch := c |} in
  let ws := waiters m ++ [w] in
  if negb (time_After (deadline w) (now m))
  then ({| now := now m; waiters := take (length ws - 1) ws; fresh := S c |}, c, [(c, now m)])
  else ({| now := now m; waiters := ws; fresh := S c |}, c, []).

(** The loop that sorts the waiters into [remaining] and [fire]. *)
Definition split_due (t : Time) (ws : list waiter) : list waiter * list waiter :=
  foldl (λ '(remaining, fire) w,
    if negb (time_After (deadline w) t) then (remaining, fire ++ [w]) else (remaining ++ [w], fire))
    ([], []) ws.

Definition Advance (d : Duration) (m : Mock) : Mock * list (nat * Time) :=
  let t := time_Add (now m) d in
  let '(remaining, fire) := split_due t (waiters m) in
  ({| now := t; waiters := remaining; fresh := fresh m |}, (λ w, (ch w, t)) <$> fire).

Definition Set_ (t : Time) (m : Mock) : Mock * list (nat * Time) :=
  Advance 0 {| now := t; waiters := waiters m; fresh := fresh m |}.

(** ** Runs *)

Inductive op := OAfter (d : Duration) | OAdvance (d : Duration) | OSet (t : Time).

(** A run: the mock, the channels created with their deadlines, the sends. *)
Record run_state := { mock : Mock; created : list waiter; sent : list (nat * Time) }.

Definition step (s : run_state) (o : op) : run_state :=
  match o with
  | OAfter d =>
      let '(m, c, sends) := After d (mock s) in
      {| mock := m; created := created s ++ [{| deadline := time_Add (now (mock s)) d; ch := c |}];
         sent := sent s ++ sends |}
  | OAdvance d =>
      let '(m, sends) := Advance d (mock s) in
      {| mock := m; created := created s; sent := sent s ++ sends |}
  | OSet t =>
      let '(m, sends) := Set_ t (mock s) in
      {| mock := m; created := created s; sent := sent s ++ sends |}
  end.

Definition run (start : Time) (ops : list op) : run_state :=
  foldl step {| mock := NewMock start; created := []; sent := [] |} ops.

(** Every channel has a number below [fresh]; the pending ones and the ones
    that received a value are disjoint and cover those created. *)
Record Inv (s : run_state) : Prop := {
  inv_chans : ch <$> created s = seq 0 (fresh (mock s));
  inv_waiting : Forall (λ w, now (mock s) < deadline w) (waiters (mock s));
  inv_split : (ch <$> waiters (mock s)) ++ (sent s).*1 ≡ₚ seq 0 (fresh (mock s));
  inv_waiters : ∀ w, w ∈ waiters (mock s) → w ∈ created s;
  inv_sent : ∀ c t, (c, t) ∈ sent s → ∃ w, w ∈ created s ∧ ch w = c ∧ deadline w ≤ t
}.

(** ** Lemmas *)

Lemma split_due_spec t ws :
  let '(remaining, fire) := split_due t ws in
  remaining ++ fire ≡ₚ ws ∧ Forall (λ w, t < deadline w) remaining ∧ Forall (λ w, deadline w ≤ t) fire.
Proof.
  unfold split_due.
  assert (∀ r f, Forall (λ w, t < deadline w) r → Forall (λ w, deadline w ≤ t) f →
    let '(remaining, fire) := foldl (λ '(remaining, fire) w,
      if negb (time_After (deadline w) t) then (remaining, fire ++ [w]) else (remaining ++ [w], fire))
      (r, f) ws in
    remaining ++ fire ≡ₚ (r ++ f) ++ ws ∧ Forall (λ w, t < deadline w) remaining ∧
    Forall (λ w, deadline w ≤ t) fire) as G; [|exact (G [] [] ltac:(done) ltac:(done))].
  induction ws as [|w ws IH]; intros r f Hr Hf; cbn [foldl]; [split_and!; try done; by rewrite app_nil_r|].
  assert (time_After (deadline w) t = (t <? deadline w)) as -> by done. destruct (Z.ltb_spec t (deadline w)); simpl.
  - specialize (IH (r ++ [w]) f). destruct (foldl _ _ ws) as [rem fire].
    destruct IH as (-> & ? & ?); [by apply Forall_app_2; [|apply Forall_singleton]|done|].
    split_and!; try done. rewrite <-!app_assoc. simpl.
    apply Permutation_app_head, Permutation_middle.
  - specialize (IH r (f ++ [w])). destruct (foldl _ _ ws) as [rem fire].
    destruct IH as (-> & ? & ?); [done|by apply Forall_app_2; [|apply Forall_singleton]|].
    split_and!; try done. by rewrite <-!app_assoc.
Qed.

Lemma advance_inv s t : Inv s →
  let '(remaining, fire) := split_due t (waiters (mock s)) in
  Inv {| mock := {| now := t; waiters := remaining; fresh := fresh (mock s) |};
         created := created s; sent := sent s ++ ((λ w, (ch w, t)) <$> fire) |}.
Proof.
  intros [Hc Hw Hs Hi Ht]. pose proof (split_due_spec t (waiters (mock s))) as D.
  destruct (split_due t (waiters (mock s))) as [rem fire]. destruct D as (Hp & Hr & Hf).
  assert (∀ w, w ∈ rem ++ fire → w ∈ created s) as Hin by (intros w; rewrite Hp; apply Hi).
  split; simpl; try done.
  - rewrite <-Hs, <-Hp, !fmap_app, <-list_fmap_compose, <-!app_assoc. apply Permutation_app_head.
    rewrite (Permutation_app_comm (sent s).*1). done.
  - intros w Hw'. apply Hin, elem_of_app. by left.
  - intros c t' [H|H]%elem_of_app; [by apply Ht|].
    apply list_elem_of_fmap in H as (w & [= -> ->] & Hw'). exists w. split_and!; try done.
    + apply Hin, elem_of_app. by right.
    + by eapply Forall_forall in Hf.
Qed.

Lemma after_inv s d : Inv s → Inv (step s (OAfter d)).
Proof.
  intros [Hc Hw Hs Hi Ht]. unfold step, After. cbv zeta.
  set (w := {| deadline := time_Add (now (mock s)) d; ch := fresh (mock s) |}).
  assert (∀ x, x ∈ created s → x ∈ created s ++ [w]) as Hl by (intros; apply elem_of_app; by left).
  assert (w ∈ created s ++ [w]) as Hin by (apply elem_of_app; right; by apply list_elem_of_singleton).
  unfold time_After. destruct (Z.ltb_spec (now (mock s)) (deadline w)); simpl.
  - split; cbn [mock created sent now waiters fresh]; fold w; rewrite ?app_nil_r.
    + by rewrite fmap_app, Hc, seq_S.
    + by apply Forall_app_2; [|apply Forall_singleton].
    + rewrite fmap_app, seq_S, <-Hs, <-!app_assoc. apply Permutation_app_head, Permutation_app_comm.
    + intros x [|Hx%list_elem_of_singleton]%elem_of_app; [by apply Hl, Hi|by subst].
    + intros c t Hct. destruct (Ht c t Hct) as (x & ? & ?). exists x. auto.
  - rewrite length_app, Nat.add_sub, take_app_length.
    split; cbn [mock created sent now waiters fresh]; fold w.
    + by rewrite fmap_app, Hc, seq_S.
    + done.
    + rewrite fmap_app, seq_S, <-Hs, <-app_assoc. done.
    + intros x Hx. by apply Hl, Hi.
    + intros c t [Hct|Hct%list_elem_of_singleton]%elem_of_app.
      * destruct (Ht c t Hct) as (x & ? & ?). exists x. auto.
      * simplify_eq. by exists w.
Qed.

Lemma clock_step_inv s o : Inv s → Inv (step s o).
Proof.
  intros I. destruct o as [d|d|t]; [by apply after_inv|..].
  - pose proof (advance_inv s (time_Add (now (mock s)) d) I) as A. simpl. unfold Advance.
    by destruct (split_due _ _).
  - pose proof (advance_inv s (time_Add t 0) I) as A. simpl. unfold Set_, Advance. simpl.
    by destruct (split_due _ _).
Qed.

Lemma run_inv start ops : Inv (run start ops).
Proof.
  unfold run. assert (Inv {| mock := NewMock start; created := []; sent := [] |}) as I.
  { split; simpl; try done; intros; by apply not_elem_of_nil in H. }
  revert I. generalize {| mock := NewMock start; created := []; sent := [] |}.
  induction ops as [|o ops IH]; intros s I; simpl; [done|]. by apply IH, clock_step_inv.
Qed.

(** ** Properties *)

(** after any sequence of After, Advance and Set, every channel handed out
    either is still pending, with a deadline in the future of the mock and
    nothing sent on it, or has received exactly one value, a mock time at or
    after its deadline; never both and never more than one, so no send can
    block on the one-element buffer and no timer is lost. *)
Theorem mock_timers start ops :
  let s := run start ops in
  NoDup (sent s).*1 ∧
  ∀ w, w ∈ created s →
    (w ∈ waiters (mock s) ∧ now (mock s) < deadline w ∧ ch w ∉ (sent s).*1) ∨
    ((ch w ∉ (ch <$> waiters (mock s))) ∧ ∃ t, (ch w, t) ∈ sent s ∧ deadline w ≤ t).
Proof.
  intros s. destruct (run_inv start ops) as [Hc Hw Hs Hi Ht]. fold s in Hc, Hw, Hs, Hi, Ht.
  assert (NoDup ((ch <$> waiters (mock s)) ++ (sent s).*1)) as Hn by (rewrite Hs; apply NoDup_seq).
  apply NoDup_app in Hn as (Hn1 & Hd & Hn2). split; [done|]. intros w Hin.
  assert (∀ x, x ∈ created s → ch x = ch w → x = w) as Inj.
  { intros x Hx E. apply list_elem_of_lookup in Hin as [i Hi'], Hx as [j Hj].
    assert (i = j) as ->; [|congruence].
    assert (NoDup (ch <$> created s)) as Hnd by (rewrite Hc; apply NoDup_seq).
    eapply NoDup_lookup; [exact Hnd|rewrite list_lookup_fmap, Hi'; done|].
    rewrite list_lookup_fmap, Hj. simpl. by rewrite E. }
  assert (ch w ∈ (ch <$> waiters (mock s)) ++ (sent s).*1) as H.
  { rewrite Hs, <-Hc. by apply list_elem_of_fmap_2. }
  apply elem_of_app in H as [H|H].
  - left. pose proof (Hd _ H) as Hnot. apply list_elem_of_fmap in H as (x & E & Hx).
    assert (x = w) as -> by (apply Inj; [by apply Hi|done]). split_and!; try done.
    by eapply (Forall_forall _ _) in Hw.
  - right. split; [intros H'; by apply (Hd _ H')|].
    apply list_elem_of_fmap in H as ([c t] & E & Hx). simpl in E. exists t. rewrite E. split; [done|].
    destruct (Ht c t Hx) as (x & Hx' & Ex & Hle). by rewrite (Inj x Hx') in Hle by congruence.
Qed.
