(* ===== verification/Fx.v ===== *)
(** * Package financial/fx

    The rate stores of src/financial/fx/fx.go: Memory (a mutable table behind a
    lock) and Static (an immutable one), both implementations of the interface
    Rates, which is a class whose laws are what its comment promises.  A nil Go
    map is [None]; the rendering of a float64 by [%v] is an argument of the
    operations that put one in an error text. *)

From S2P Require Import Prelude GoFloat GoString GoErrors.
From stdpp Require Import base list gmap strings.
From Stdlib Require Import ZArith Lia SpecFloat.
Open Scope Z_scope.

Definition ErrRateNotFound : error := ENew "fx: rate not found".
Definition ErrInvalidRate : error := ENew "fx: invalid rate (must be finite and > 0)".

Definition key (from to : string) : string := from +:+ ">" +:+ to.

Definition validRate (r : float64) : bool :=
  flt (float_of_Z 0) r && negb (IsInf r) && negb (IsNaN r).

Definition one : float64 := float_of_Z 1.
Definition zero : float64 := float_of_Z 0.

Definition pair_text (from to : string) : string := from +:+ "→" +:+ to.

(** ** The interface *)

Class Rates (S : Type) := {
  GetRate : option error → string → string → S → float64 * option error;
  Convert : option error → float64 → string → string → S → float64 * option error;
  (** a cancelled context wins; a same-currency pair has rate 1 *)
  GetRate_cancelled e from to s : GetRate (Some e) from to s = (zero, Some e);
  GetRate_same c s : GetRate None c c s = (one, None);
  (** an unknown pair is reported as ErrRateNotFound *)
  GetRate_err from to s r e :
    GetRate None from to s = (r, Some e) → errors_Is e ErrRateNotFound = true;
  Convert_spec c amount from to s :
    Convert c amount from to s =
    match GetRate c from to s with
    | (_, Some e) => (zero, Some e)
    | (rate, None) => (fmul amount rate, None)
    end
}.

(** The body GetRate shares between the two stores. *)
Definition lookup_rate (c : option error) (from to : string) (rates : option (gmap string float64))
  : float64 * option error :=
  match c with
  | Some err => (zero, Some err)
  | None =>
      if String.eqb from to then (one, None)
      else
        match rates ≫= λ m, m !! key from to with
        | None => (zero, Some (EWrap "" (": " +:+ pair_text from to) ErrRateNotFound))
        | Some r => (r, None)
        end
  end.

Definition convert_with (get : float64 * option error) (amount : float64) : float64 * option error :=
  let '(rate, err) := get in
  match err with
  | Some e => (zero, Some e)
  | None => (fmul amount rate, None)
  end.

Lemma lookup_rate_cancelled e from to m : lookup_rate (Some e) from to m = (zero, Some e).
Proof. done. Qed.
Lemma lookup_rate_same c m : lookup_rate None c c m = (one, None).
Proof. unfold lookup_rate. by rewrite String.eqb_refl. Qed.
Lemma lookup_rate_err from to m r e :
  lookup_rate None from to m = (r, Some e) → errors_Is e ErrRateNotFound = true.
Proof. unfold lookup_rate. by destruct (String.eqb from to), (m ≫= λ m, m !! key from to); intros [= <- <-]. Qed.
Lemma convert_with_spec get amount :
  convert_with get amount =
  match get with (_, Some e) => (zero, Some e) | (rate, None) => (fmul amount rate, None) end.
Proof. by destruct get as [? []]. Qed.

(** ** Memory *)

Module Memory.
(** The zero value has a nil map. *)
Record Memory := { rates : option (gmap string float64) }.

Definition zero_value : Memory := {| rates := None |}.
Definition NewMemory : Memory := {| rates := Some ∅ |}.

Section ops.
Variable show_float : float64 → string.

Definition invalid (from to : string) (rate : float64) : error :=
  EWrap "" (": " +:+ pair_text from to +:+ " = " +:+ show_float rate) ErrInvalidRate.

(** Assignment to an entry of a nil map panics. *)
Definition assign (k : string) (r : float64) (m : option (gmap string float64))
  : outcome (gmap string float64) :=
  match m with
  | None => Panic "assignment to entry in nil map"
  | Some m => Return (<[k := r]> m)
  end.

Definition Set_ (from to : string) (rate : float64) (m : Memory) : outcome (Memory * option error) :=
  if negb (validRate rate) then Return (m, Some (invalid from to rate))
  else
    match assign (key from to) rate (rates m) with
    | Panic msg => Panic msg
    | Return t => Return ({| rates := Some t |}, None)
    end.

Definition SetPair (from to : string) (rate : float64) (m : Memory) : outcome (Memory * option error) :=
  if negb (validRate rate) then Return (m, Some (invalid from to rate))
  else
    match assign (key from to) rate (rates m) with
    | Panic msg => Panic msg
    | Return t =>
        match assign (key to from) (fdiv one rate) (Some t) with
        | Panic msg => Panic msg
        | Return t => Return ({| rates := Some t |}, None)
        end
    end.

(** The validation loop, along a visiting order of the argument map. *)
Fixpoint validate (order : list (string * float64)) : option error :=
  match order with
  | [] => None
  | (k, v) :: order =>
      if negb (validRate v) then Some (EWrap "" (": " +:+ k +:+ " = " +:+ show_float v) ErrInvalidRate)
      else validate order
  end.

Definition copy (order : list (string * float64)) : gmap string float64 :=
  foldl (λ next kv, <[kv.1 := kv.2]> next) ∅ order.

Definition Load (order : list (string * float64)) (m : Memory) : Memory * option error :=
  match validate order with
  | Some err => (m, Some err)
  | None => ({| rates := Some (copy order) |}, None)
  end.
End ops.

Definition GetRate (c : option error) (from to : string) (m : Memory) := lookup_rate c from to (rates m).
Definition Convert (c : option error) (amount : float64) (from to : string) (m : Memory) :=
  convert_with (GetRate c from to m) amount.
Definition Pairs (m : Memory) : gmap string float64 := default ∅ (rates m).

#[global] Program Instance memory_rates : Rates Memory :=
  {| Fx.GetRate := GetRate; Fx.Convert := Convert |}.
Next Obligation. done. Qed.
Next Obligation. intros. apply lookup_rate_same. Qed.
Next Obligation. intros *. apply lookup_rate_err. Qed.
Next Obligation. intros. apply convert_with_spec. Qed.
End Memory.

(** ** Static *)

Module Static.
Record Static := { rates : gmap string float64 }.

Definition NewStatic (show_float : float64 → string) (order : list (string * float64))
  : result error Static :=
  match Memory.validate show_float order with
  | Some err => Err err
  | None => Ok {| rates := Memory.copy order |}
  end.

Definition GetRate (c : option error) (from to : string) (s : Static) :=
  lookup_rate c from to (Some (rates s)).
Definition Convert (c : option error) (amount : float64) (from to : string) (s : Static) :=
  convert_with (GetRate c from to s) amount.

#[global] Program Instance static_rates : Rates Static :=
  {| Fx.GetRate := GetRate; Fx.Convert := Convert |}.
Next Obligation. done. Qed.
Next Obligation. intros. apply lookup_rate_same. Qed.
Next Obligation. intros *. apply lookup_rate_err. Qed.
Next Obligation. intros. apply convert_with_spec. Qed.
End Static.

(** ** Clients of the interface *)

(** Converting within one currency through any implementation multiplies by
    exactly one, and Convert fails exactly when GetRate fails, with the same
    error. *)
Section client.
Context {S : Type} `{Rates S}.

Lemma Convert_fails_iff c amount from to s e :
  snd (Convert c amount from to s) = Some e ↔ snd (GetRate c from to s) = Some e.
Proof. rewrite Convert_spec. by destruct (GetRate c from to s) as [? []]. Qed.

Lemma Convert_same amount c s : Convert None amount c c s = (fmul amount one, None).
Proof. by rewrite Convert_spec, GetRate_same. Qed.
End client.

(** ** Lemmas *)

(** No '>' in a currency code. *)
Definition plain (s : string) : Prop := 62 ∉ bytes_of s.

Lemma key_bytes from to : bytes_of (key from to) = bytes_of from ++ 62 :: bytes_of to.
Proof. unfold key. by rewrite !bytes_of_app. Qed.

(** The composite key identifies the pair, for codes without '>'. *)
Lemma key_inj from to from' to' :
  plain from → plain from' → key from to = key from' to' → from = from' ∧ to = to'.
Proof.
  intros Hf Hf' E. apply (f_equal bytes_of) in E. rewrite !key_bytes in E.
  apply split_at_inj in E as [E1 E2]; [|done..]. split; by apply bytes_of_inj.
Qed.

Lemma lookup_rate_set from to from' to' r m :
  plain from → plain from' → from' ≠ to' →
  lookup_rate None from' to' (Some (<[key from to := r]> m)) =
  if decide (from' = from ∧ to' = to) then (r, None) else lookup_rate None from' to' (Some m).
Proof.
  intros Hf Hf' Hne. unfold lookup_rate. apply String.eqb_neq in Hne. rewrite Hne. simpl.
  destruct (decide (from' = from ∧ to' = to)) as [[-> ->]|Hn]; [by rewrite lookup_insert_eq|].
  rewrite lookup_insert_ne; [done|]. intros E. apply Hn. apply key_inj in E as [-> ->]; done.
Qed.

(** ** Properties *)

(** for currency codes without '>', Memory behaves as a table indexed by
    ordered pairs: a Set of a valid rate is read back exactly, changes no other
    pair, and a same-currency pair stays at 1 whatever was set; an invalid rate
    is refused with ErrInvalidRate and changes nothing. *)
Theorem Memory_is_pair_table show from to rate m t from' to' :
  plain from → plain from' → Memory.rates m = Some t →
  if validRate rate then
    ∃ m', Memory.Set_ show from to rate m = Return (m', None) ∧
      GetRate None from' to' m' =
      if String.eqb from' to' then (one, None)
      else if decide (from' = from ∧ to' = to) then (rate, None) else GetRate None from' to' m
  else ∃ e, Memory.Set_ show from to rate m = Return (m, Some e) ∧ errors_Is e ErrInvalidRate = true.
Proof.
  intros Hf Hf' Em. unfold Memory.Set_. destruct (validRate rate); cbn [negb]; [|by eexists].
  assert (∀ m0, GetRate None from' to' m0 = lookup_rate None from' to' (Memory.rates m0)) as G by done.
  rewrite Em. cbn [Memory.assign]. eexists. split; [done|]. rewrite !G, Em. cbn [Memory.rates].
  destruct (String.eqb_spec from' to') as [->|]; [apply lookup_rate_same|].
  by apply lookup_rate_set.
Qed.

(** SetPair validates the rate but not its inverse: a positive finite rate
    below about 2^-1024 (a subnormal) is accepted, and the opposite direction
    then holds +Inf, which no Set, Load or NewStatic would accept. *)
Theorem SetPair_stores_infinity show from to :
  plain from → plain to → from ≠ to →
  ∃ rate m', validRate rate = true ∧
    Memory.SetPair show from to rate Memory.NewMemory = Return (m', None) ∧
    GetRate None to from m' = (S754_infinity false, None) ∧ validRate (S754_infinity false) = false.
Proof.
  intros Hf Ht Hne. exists (S754_finite false 1 (-1074)). unfold Memory.SetPair.
  assert (validRate (S754_finite false 1 (-1074)) = true) as -> by done. simpl.
  eexists. split_and!; [done|reflexivity| |done].
  change (lookup_rate None to from (Some (<[key to from := S754_infinity false]>
    (<[key from to := S754_finite false 1 (-1074)]> ∅))) = (S754_infinity false, None)).
  rewrite lookup_rate_set by done. by rewrite decide_True by done.
Qed.

(** ** Witnesses *)

Lemma Memory_is_pair_table_witness :
  ∃ m', Memory.Set_ (λ _, "") "USD" "IQD" (float_of_Z 1500) Memory.NewMemory = Return (m', None) ∧
    GetRate None "USD" "IQD" m' = (float_of_Z 1500, None).
Proof.
  apply (Memory_is_pair_table (λ _, "") "USD" "IQD" (float_of_Z 1500) Memory.NewMemory ∅ "USD" "IQD").
  - apply (bool_decide_unpack _). by vm_compute.
  - apply (bool_decide_unpack _). by vm_compute.
  - done.
Defined.

Lemma SetPair_stores_infinity_witness :
  ∃ rate m', validRate rate = true ∧
    Memory.SetPair (λ _, "") "USD" "IQD" rate Memory.NewMemory = Return (m', None) ∧
    GetRate None "IQD" "USD" m' = (S754_infinity false, None) ∧ validRate (S754_infinity false) = false.
Proof.
  apply (SetPair_stores_infinity (λ _, "") "USD" "IQD"); try done;
    apply (bool_decide_unpack _); by vm_compute.
Defined.

(** Codes that contain the separator collide. *)
Example key_collision : key "A>B" "C" = key "A" "B>C".
Proof. done. Qed.
