(* ===== verification/Provider.v ===== *)
(** * Package communication/provider

    The delivery-provider contract of src/communication/provider/provider.go and
    the registry of registry.go.  A provider is the record of what its methods
    answer; nil is [None].  Every registry method holds the lock. *)

From S2P Require Import Prelude GoString GoErrors.
From stdpp Require Import base list gmap strings.
From Stdlib Require Import ZArith Lia.
Open Scope Z_scope.

Definition Channel := string.
Definition ChannelEmail : Channel := "email".
Definition ChannelSMS : Channel := "sms".
Definition ChannelPush : Channel := "push".
Definition ChannelWhatsApp : Channel := "whatsapp".
Definition ChannelTelegram : Channel := "telegram".
Definition ChannelVoice : Channel := "voice".

Inductive Status :=
| StatusUnknown | StatusQueued | StatusSent | StatusDelivered | StatusRead | StatusFailed.

(** The values of Options that an adapter looks at. *)
Inductive option_value := OptString (s : string) | OptHeaders (m : gmap string string) | OptOther.
Record SendRequest := {
  RecipientEmail : string;
  RecipientPhone : string;
  RecipientDeviceToken : string;
  RecipientTelegramChatID : string;
  Subject : string;
  Body : string;
  HTMLBody : string;
  TemplateCode : string;
  Language : string;
  CorrelationID : string;
  ContextData : gmap string string;
  Options : gmap string option_value
}.

Record SendResponse := {
  Success : bool;
  ProviderCode : string;
  ProviderMessageID : string;
  ErrorText : string;
  RawResponse : list Z
}.

(** The zero Status, an empty string, is [None]. *)
Record DeliveryStatus := {
  MessageID : string; DStatus : option Status; DeliveredAt : option string; FailedAt : option string;
  ErrorCode : string; ErrorMessage : string; DRawResponse : list Z
}.
Record Attachment := { Filename : string; ContentType : string; Content : list Z }.

(** The interface Provider, and whether the value also implements SMSProvider. *)
Record Provider := {
  Code : string;
  SupportedChannels : list Channel;
  Send : SendRequest → option SendResponse * option error;
  Enabled : bool;
  is_sms : bool
}.

Definition NewProviderError (code errCode message : string) (retryable : bool) (raw : option error) : error :=
  EProvider code errCode message retryable raw.

(** ** Registry *)

Record Registry := {
  providers : gmap string Provider;
  byChannel : gmap Channel (list Provider)
}.

Definition NewRegistry : Registry := {| providers := ∅; byChannel := ∅ |}.

(** [r.byChannel[ch] = append(r.byChannel[ch], p)] for each channel. *)
Definition index_channels (p : Provider) (m : gmap Channel (list Provider)) : gmap Channel (list Provider) :=
  foldl (λ m c, <[c := default [] (m !! c) ++ [p]]> m) m (SupportedChannels p).

Definition Register (p : option Provider) (r : Registry) : Registry * option error :=
  match p with
  | None => (r, Some (EText "provider: nil"))
  | Some p =>
      let code := Code p in
      if String.eqb code "" then (r, Some (EText "provider: empty Code"))
      else
        match providers r !! code with
        | Some _ => (r, Some (EText ("provider " +:+ quote code +:+ " already registered")))
        | None =>
            ({| providers := <[code := p]> (providers r); byChannel := index_channels p (byChannel r) |}, None)
        end
  end.

Definition Get (code : string) (r : Registry) : option Provider := providers r !! code.
Definition ByChannel (c : Channel) (r : Registry) : list Provider := default [] (byChannel r !! c).
(** The keys in the visiting order [order]. *)
Definition Codes (order : list (string * Provider)) : list string :=
  foldl (λ out kv, out ++ [kv.1]) [] order.
Definition Len (r : Registry) : nat := size (providers r).

(** ** The invariant: the channel index lists the registered providers *)

Definition registered (r : Registry) (p : Provider) : Prop := providers r !! Code p = Some p.

Record Inv (r : Registry) : Prop := {
  inv_code : ∀ code p, providers r !! code = Some p → Code p = code ∧ code ≠ "";
  inv_channel : ∀ c p, p ∈ ByChannel c r ↔ registered r p ∧ c ∈ SupportedChannels p
}.

Lemma index_channels_lookup p m c q :
  q ∈ default [] (index_channels p m !! c) ↔
  q ∈ default [] (m !! c) ∨ (q = p ∧ c ∈ SupportedChannels p).
Proof.
  unfold index_channels. generalize (SupportedChannels p) as cs. intros cs. revert m.
  induction cs as [|c' cs IH]; intros m; simpl; [set_solver|]. rewrite IH.
  destruct (decide (c = c')) as [->|].
  - rewrite lookup_insert_eq. simpl. set_solver.
  - rewrite lookup_insert_ne by done. set_solver.
Qed.

Lemma Register_inv p r : Inv r → Inv (fst (Register p r)).
Proof.
  intros [Hc Hch]. unfold Register. destruct p as [p|]; [|done].
  destruct (String.eqb_spec (Code p) "") as [|Hne]; [done|].
  destruct (providers r !! Code p) as [p'|] eqn:E; [done|]. simpl. split; simpl.
  - intros code q. destruct (decide (code = Code p)) as [->|].
    + rewrite lookup_insert_eq. by intros [= <-].
    + rewrite lookup_insert_ne by done. apply Hc.
  - intros c q. unfold ByChannel, registered. simpl. rewrite index_channels_lookup.
    fold (ByChannel c r). rewrite Hch. unfold registered.
    destruct (decide (Code q = Code p)) as [Eq|].
    + rewrite Eq, lookup_insert_eq, E. naive_solver.
    + rewrite lookup_insert_ne by done. naive_solver.
Qed.

Lemma Inv_new : Inv NewRegistry.
Proof.
  split; simpl; [done|]. intros c p. unfold ByChannel, registered. simpl.
  rewrite !lookup_empty. simpl. split; [by intros ?%not_elem_of_nil|by intros [? _]].
Qed.
Lemma registry_inv ps : Inv (foldl (λ r p, fst (Register p r)) NewRegistry ps).
Proof.
  generalize Inv_new. generalize NewRegistry. induction ps as [|p ps IH]; intros r HI; [done|]. by apply IH, Register_inv.
Qed.

(** after any sequence of registrations, ByChannel lists exactly the
    registered providers that support the channel, codes are unique and
    nonempty, and Get returns the first provider registered under a code. *)
Theorem registry_index ps :
  let r := foldl (λ r p, fst (Register p r)) NewRegistry ps in
  (∀ c p, p ∈ ByChannel c r ↔ Get (Code p) r = Some p ∧ c ∈ SupportedChannels p) ∧
  (∀ code p, Get code r = Some p → Code p = code ∧ code ≠ "" ∧ Some p ∈ ps).
Proof.
  assert (∀ r0, Inv r0 → Inv (foldl (λ r p, fst (Register p r)) r0 ps) ∧
    ∀ code p, providers (foldl (λ r p, fst (Register p r)) r0 ps) !! code = Some p →
      providers r0 !! code = Some p ∨ Some p ∈ ps) as G.
  { induction ps as [|p ps IH]; intros r0 I; simpl; [split; [done|naive_solver]|].
    destruct (IH _ (Register_inv p r0 I)) as [HI Hp]. split; [done|].
    intros code q Hq. destruct (Hp code q Hq) as [H|H]; [|right; by right].
    revert H. unfold Register. destruct p as [p|]; [|by left].
    destruct (String.eqb (Code p) ""), (providers r0 !! Code p); simpl; try (by left).
    destruct (decide (code = Code p)) as [->|].
    - rewrite lookup_insert_eq. intros [= <-]. right. by left.
    - rewrite lookup_insert_ne by done. by left. }
  destruct (G NewRegistry Inv_new) as [[Hc Hch] Hp].
  split; [exact Hch|]. intros code p E. destruct (Hc code p E). split_and!; try done.
  destruct (Hp code p E) as [Hx|Hx]; [|done]. change (providers NewRegistry) with (∅ : gmap string Provider) in Hx.
  by rewrite lookup_empty in Hx.
Qed.
