(* ===== verification/Delivery.v ===== *)
(** * What the delivery adapters share

    The HTTP exchange the vendor adapters of src/communication make, the masking
    of recipients in their logs, and what the adapters of provider.Provider have in
    common in Send: how often the vendor is asked, for whom, and that success means
    the vendor's acceptance.  The adapters' files prove it of each of them; the
    cancellation of a context and concurrent use are not part of it. *)

From S2P Require Import Prelude GoString GoErrors Provider.
From stdpp Require Import base list gmap strings.
From Stdlib Require Import ZArith Lia.
Open Scope Z_scope.

(** ** Requests *)

(** The JSON values of the payloads. *)
#[warnings="-register-all"]
Inductive jv :=
| JS (s : string) | JB (b : bool) | JN (n : Z) | JA (l : list jv) | JO (m : gmap string jv).
Record HttpRequest := { h_method : string; h_url : string; h_headers : list (string * string); h_body : string }.

(** net/http and encoding/json: an exchange fails, or yields a status and a body
    whose reading may fail. *)
Class Http := {
  Marshal : jv → result error string;
  NewRequest : string → string → option error;
  exchange : list HttpRequest → HttpRequest → result error (Z * result error string)
}.
Inductive post_result :=
| PMarshal (err : error) | PBuild (err : error) | PDo (err : error) | PRead (status : Z) (err : error) | PDone (status : Z) (raw : string).
Definition post `{Http} (url : string) (headers : list (string * string)) (payload : jv) (sent : list HttpRequest)
    : post_result * list HttpRequest :=
  match Marshal payload with
  | Err err => (PMarshal err, sent)
  | Ok body =>
      match NewRequest "POST" url with
      | Some err => (PBuild err, sent)
      | None =>
          let req := {| h_method := "POST"; h_url := url; h_headers := headers; h_body := body |} in
          (match exchange sent req with
           | Err err => PDo err
           | Ok (status, Err err) => PRead status err
           | Ok (status, Ok raw) => PDone status raw
           end, sent ++ [req])
      end
  end.
(** What the vendor answered to a request that was made. *)
Definition outcome_of (r : post_result) : result error (Z * result error string) :=
  match r with
  | PMarshal err | PBuild err | PDo err => Err err
  | PRead status err => Ok (status, Err err)
  | PDone status raw => Ok (status, Ok raw)
  end.
Lemma post_sent `{Http} url headers payload sent r sent' :
  post url headers payload sent = (r, sent') →
  match r with
  | PMarshal _ | PBuild _ => sent' = sent
  | _ => ∃ req, sent' = sent ++ [req] ∧ Marshal payload = Ok (h_body req) ∧ exchange sent req = outcome_of r
  end.
Proof.
  unfold post. destruct (Marshal payload) eqn:Em; [|by intros [= <- <-]].
  destruct (NewRequest _ _); [by intros [= <- <-]|].
  intros [= <- <-]. destruct (exchange _ _) as [[? []]|] eqn:Ee; by eexists.
Qed.

(** ** Answers *)

Abbreviation answer := (option SendResponse * option error)%type.
Definition reply (r : SendResponse) : answer := (Some r, None).
Definition failure (code text : string) : answer :=
  reply {| Success := false; ProviderCode := code; ProviderMessageID := ""; ErrorText := text; RawResponse := [] |}.
Definition success (code id : string) (raw : list Z) : answer :=
  reply {| Success := true; ProviderCode := code; ProviderMessageID := id; ErrorText := ""; RawResponse := raw |}.
Definition sent_status (messageID : string) (st : option Status) : DeliveryStatus :=
  {| MessageID := messageID; DStatus := st; DeliveredAt := None; FailedAt := None; ErrorCode := ""; ErrorMessage := ""; DRawResponse := [] |}.

(** One send: the answer and the vendor requests made so far. *)
Definition send_result (T : Type) : Type := answer * list T.

(** ** The contract of a send *)

(** How a vendor's requests are read: whom a request is for, and the message id
    under which the vendor accepted it, if it did. *)
Record vendor (T : Type) := { addressed : string → T → Prop; verdict : list T → T → option string }.
Arguments addressed {T}.
Arguments verdict {T}.
(** A vendor over HTTP: [read] takes a status and a body for an acceptance. *)
Definition http_vendor `{Http} (to : string → HttpRequest → Prop) (read : Z → result error string → option string)
    : vendor HttpRequest :=
  {| addressed := to;
     verdict sent x := match exchange sent x with Ok (status, body) => read status body | Err _ => None end |}.
(** The body of the request is the encoding of a payload with a property. *)
Definition carries `{Http} (P : jv → Prop) (x : HttpRequest) : Prop := ∃ payload, Marshal payload = Ok (h_body x) ∧ P payload.
Definition has_member (k : string) (v payload : jv) : Prop :=
  match payload with JO m => m !! k = Some v | _ => False end.

(** One send answers with a response or an error and not both, under its own
    provider code; it makes at most one vendor request, for the recipient; it
    reports success exactly when the vendor accepted that request, with the
    vendor's message id and no error text; without a recipient it makes no request
    and does not succeed. *)
Record delivered {T} (v : vendor T) (code recipient : string) (sent : list T) (r : send_result T) : Prop := {
  d_answer : is_Some r.1.1 ↔ r.1.2 = None;
  d_code : ∀ resp, r.1.1 = Some resp → ProviderCode resp = code;
  d_once : r.2 = sent ∨ ∃ x, r.2 = sent ++ [x] ∧ addressed v recipient x;
  d_success : ∀ resp, r.1.1 = Some resp → Success resp = true →
    ∃ x, r.2 = sent ++ [x] ∧ verdict v sent x = Some (ProviderMessageID resp) ∧ ErrorText resp = "";
  d_accepted : ∀ x id, r.2 = sent ++ [x] → verdict v sent x = Some id →
    ∃ resp, r.1.1 = Some resp ∧ Success resp = true;
  d_recipient : recipient = "" → r.2 = sent ∧ ∀ resp, r.1.1 = Some resp → Success resp = false
}.

(** An answer that reports no success. *)
Inductive refusal (code : string) : answer → Prop :=
| refusal_reply resp : ProviderCode resp = code → Success resp = false → refusal code (reply resp)
| refusal_error err : refusal code (None, Some err).
(** The answer to a verdict of the vendor. *)
Definition answers (code : string) (accepted : option string) (a : answer) : Prop :=
  match accepted with Some id => ∃ raw, a = success code id raw | None => refusal code a end.

Lemma snoc_ne {A} (l : list A) x : l ≠ l ++ [x].
Proof. intros E. apply (f_equal length) in E. rewrite length_app in E. cbn in E. lia. Qed.
(** No request was made, and no success is reported. *)
Lemma delivered_unasked {T} (v : vendor T) code to sent a : refusal code a → delivered v code to sent (a, sent).
Proof.
  assert (∀ x id, sent = sent ++ [x] → verdict v sent x = Some id → ∃ resp, a.1 = Some resp ∧ Success resp = true) as Hno
    by (intros x id E; by destruct (snoc_ne _ _ E)).
  destruct 1 as [resp Hc Hs|err]; constructor; cbn; try (by left); try done.
  - by intros ? [= <-].
  - intros ? [= <-]. congruence.
  - intros _. split; [done|]. by intros ? [= <-].
Qed.
(** One request was made, and the answer follows the vendor's verdict. *)
Lemma delivered_asked {T} (v : vendor T) code to sent x a :
  to ≠ "" → addressed v to x → answers code (verdict v sent x) a → delivered v code to sent (a, sent ++ [x]).
Proof.
  intros Hto Ha. unfold answers. destruct (verdict v sent x) as [id|] eqn:Ev.
  - intros [raw ->]. constructor; cbn; [done|by intros ? [= <-]|right; by eexists| | |done].
    + intros ? [= <-] _. by exists x.
    + intros ? ? _ _. by eexists.
  - destruct 1 as [resp Hc Hs|err]; constructor; cbn; try (right; by eexists); try done.
    + by intros ? [= <-].
    + intros ? [= <-]. congruence.
    + intros x' id E. assert (x = x') as <- by (by simplify_list_eq). by rewrite Ev.
    + intros x' id E. assert (x = x') as <- by (by simplify_list_eq). by rewrite Ev.
Qed.

Create HintDb delivery.
#[export] Hint Resolve delivered_unasked delivered_asked : delivery.
#[export] Hint Extern 2 (refusal _ (reply _)) => apply refusal_reply; [reflexivity|reflexivity] : delivery.
#[export] Hint Extern 2 (refusal _ (failure _ _)) => apply refusal_reply; [reflexivity|reflexivity] : delivery.
#[export] Hint Extern 2 (refusal _ (None, Some _)) => apply refusal_error : delivery.
(** The cases of a send that starts by refusing an empty recipient. *)
Ltac recipient_given := match goal with |- context [String.eqb ?s ""] => destruct (String.eqb_spec s ""); [eauto with delivery|] end.
(** The cases of a post; the ones that made no request are refusals. *)
Ltac posted :=
  match goal with |- context [post ?u ?hs ?p ?s] =>
    let r := fresh "r" in let s' := fresh "sent'" in let Ep := fresh "Ep" in
    destruct (post u hs p s) as [r s'] eqn:Ep; apply post_sent in Ep; destruct r; cbn in Ep;
    try (destruct Ep as (? & -> & Hbody & Hexch)); subst; try (by eauto with delivery)
  end.
(** The vendor's answer, in its verdict. *)
Ltac vendor_says :=
  match goal with |- answers _ (verdict ?v ?s ?x) _ => let v' := eval hnf in v in change v with v' end; cbn [verdict];
  match goal with E : exchange _ _ = _ |- _ => rewrite E; clear E end; cbn iota beta.

(** ** Masking *)

(** The first [n] bytes of a string, and the rest. *)
Definition prefix_of_len (n : Z) (s : string) : string := of_bytes (take (Z.to_nat n) (bytes_of s)).
Definition suffix_from (n : Z) (s : string) : string := of_bytes (drop (Z.to_nat n) (bytes_of s)).
Definition MaskPhone (phone : string) : string :=
  if slen phone <=? 4 then "****" else prefix_of_len (slen phone - 4) phone +:+ "****".
Definition MaskToken (token : string) : string := if slen token <=? 8 then "****" else prefix_of_len 8 token +:+ "****".
Fixpoint index_at (i : Z) (bs : list Z) : Z :=
  match bs with [] => -1 | b :: bs => if b =? 64 then i else index_at (i + 1) bs end.
Definition MaskEmail (email : string) : string :=
  if slen email <=? 4 then "****"
  else
    let at_ := index_at 0 (bytes_of email) in
    if at_ <=? 0 then "****"
    else if at_ <=? 2 then prefix_of_len 1 email +:+ "***" +:+ suffix_from at_ email
    else prefix_of_len 2 email +:+ "***" +:+ suffix_from at_ email.
