(* ===== verification/TwilioAdapters.v ===== *)
(** * The Twilio adapters

    src/communication/sms/twilio, src/communication/voice/twilio and
    src/communication/whatsapp/twilio over the Twilio SDK: the calls that create
    and fetch a message or a call are arguments, and the parameters a call is made
    with are recorded. *)

From S2P Require Import Prelude GoFloat GoString GoErrors GoStrconv Provider Delivery.
From stdpp Require Import base list gmap strings.
From Stdlib Require Import ZArith Lia.
Open Scope Z_scope.

(** ** The SDK *)

(** The parameters of CreateMessage that are set, and of CreateCall. *)
Inductive twilio_request :=
| CreateMessage (to from : string) (body contentSid contentVariables : option string) (mediaUrl : list string)
| CreateCall (to from url : string).
(** The fields of a message or call resource that the adapters read. *)
Record resource := {
  Sid : option string; RStatus : option string; RErrorCode : option Z; RErrorMessage : option string; DateSent : option string
}.
Class TwilioAPI := {
  create : list twilio_request → twilio_request → result error resource;
  fetch : string → result error resource;
  marshal : resource → list Z;
  marshal_vars : gmap string string → result error string
}.
(** The success statuses of a created message. *)
Definition accepted (status : string) : bool :=
  String.eqb status "queued" || String.eqb status "sending" || String.eqb status "sent" || String.eqb status "delivered".

(** ** sms/twilio *)

Module Sms.
Definition ProviderCode : string := "twilio_sms".
Record Config := { AccountSID : string; AuthToken : string; FromNumber : string }.
Record Provider := { cfg : Config; Countries : option (list string); CountryPricing : option (gmap string float64) }.

Definition DefaultCountries : list string := ["+1"; "+44"; "+49"; "+33"; "+964"; "+971"; "+966"; "+962"; "+20"; "+91"].
Definition DefaultCountryPricing : gmap string float64 :=
  {[ "+1" := float_dec 75 4; "+44" := float_dec 4 2; "+49" := float_dec 65 3; "+964" := float_dec 758 4;
     "+971" := float_dec 322 4; "+966" := float_dec 424 4 ]}.
Definition New (cfg : Config) : Provider := {| cfg := cfg; Countries := None; CountryPricing := None |}.
Definition Enabled (p : Provider) : bool :=
  negb (String.eqb (AccountSID (cfg p)) "") && negb (String.eqb (AuthToken (cfg p)) "") && negb (String.eqb (FromNumber (cfg p)) "").

Section api.
Context `{TwilioAPI}.
Definition Send (p : Provider) (req : SendRequest) (sent : list twilio_request) : send_result twilio_request :=
  if String.eqb (RecipientPhone req) "" then (failure ProviderCode "recipient phone is required", sent)
  else
    let params := CreateMessage (RecipientPhone req) (FromNumber (cfg p)) (Some (Body req)) None None [] in
    (match create sent params with
     | Err err => failure ProviderCode (error_text err)
     | Ok resp =>
         let status := default "" (RStatus resp) in
         if accepted status then success ProviderCode (default "" (Sid resp)) (marshal resp)
         else reply {| Success := false; Provider.ProviderCode := ProviderCode; ProviderMessageID := default "" (Sid resp);
                       ErrorText := "twilio: status " +:+ status +:+ ": " +:+ default "" (RErrorMessage resp);
                       RawResponse := marshal resp |}
     end, sent ++ [params]).
Definition status_of (s : string) : Status :=
  if String.eqb s "queued" || String.eqb s "sending" then StatusQueued
  else if String.eqb s "sent" then StatusSent
  else if String.eqb s "delivered" then StatusDelivered
  else if String.eqb s "undelivered" || String.eqb s "failed" then StatusFailed else StatusUnknown.
Definition GetStatus (messageID : string) : result error DeliveryStatus :=
  match fetch messageID with
  | Err err => Err (EWrap ("twilio sms: fetch " +:+ messageID +:+ ": ") "" err)
  | Ok resp => Ok {| MessageID := messageID; DStatus := status_of <$> RStatus resp; DeliveredAt := DateSent resp; FailedAt := None;
                     ErrorCode := default "" (fmt_d <$> RErrorCode resp); ErrorMessage := default "" (RErrorMessage resp);
                     DRawResponse := marshal resp |}
  end.
End api.
Definition SupportedCountries (p : Provider) : list string := default DefaultCountries (Countries p).
(** The loop over the price map in the order in which the range visits it. *)
Definition dials (phone code : string) : bool := (slen code <? slen phone) && HasPrefix phone code.
Fixpoint price_loop (phone : string) (order : list (string * float64)) : option float64 :=
  match order with
  | [] => None
  | (code, price) :: order => if dials phone code then Some price else price_loop phone order
  end.
Definition pricing (p : Provider) : gmap string float64 := default DefaultCountryPricing (CountryPricing p).
Definition CostEstimate (order : list (string * float64)) (phone : string) : float64 * string :=
  (default (float_dec 5 2) (price_loop phone order), "USD").
Definition MaskPhone (phone : string) : string := Delivery.MaskPhone phone.
End Sms.

(** ** voice/twilio *)

Module Voice.
Definition ProviderCode : string := "twilio_voice".
Definition DefaultRejectURL : string := "https://twimlets.com/reject".
Record Config := { AccountSID : string; AuthToken : string; FromNumber : string; RejectURL : string }.
Definition New (cfg : Config) : Config :=
  {| AccountSID := AccountSID cfg; AuthToken := AuthToken cfg; FromNumber := FromNumber cfg;
     RejectURL := if String.eqb (RejectURL cfg) "" then DefaultRejectURL else RejectURL cfg |}.
Definition Enabled (cfg : Config) : bool :=
  negb (String.eqb (AccountSID cfg) "") && negb (String.eqb (AuthToken cfg) "") && negb (String.eqb (FromNumber cfg) "").
Section api.
Context `{TwilioAPI}.
Definition Send (cfg : Config) (req : SendRequest) (sent : list twilio_request) : send_result twilio_request :=
  if String.eqb (RecipientPhone req) "" then (failure ProviderCode "recipient phone is required", sent)
  else
    let params := CreateCall (RecipientPhone req) (FromNumber cfg) (RejectURL cfg) in
    (match create sent params with
     | Err err => failure ProviderCode (error_text err)
     | Ok resp => success ProviderCode (default "" (Sid resp)) (marshal resp)
     end, sent ++ [params]).
Definition status_of (s : string) : Status :=
  if String.eqb s "queued" || String.eqb s "ringing" then StatusQueued
  else if String.eqb s "in-progress" then StatusSent
  else if String.eqb s "completed" then StatusDelivered
  else if String.eqb s "failed" || String.eqb s "busy" || String.eqb s "no-answer" || String.eqb s "canceled" then StatusFailed
  else StatusUnknown.
Definition GetStatus (callSID : string) : result error DeliveryStatus :=
  match fetch callSID with
  | Err err => Err (EWrap ("twilio voice: fetch call " +:+ callSID +:+ ": ") "" err)
  | Ok resp => Ok {| MessageID := callSID; DStatus := status_of <$> RStatus resp; DeliveredAt := None; FailedAt := None;
                     ErrorCode := ""; ErrorMessage := ""; DRawResponse := marshal resp |}
  end.
End api.
Definition MaskPhone (phone : string) : string := Delivery.MaskPhone phone.
End Voice.

(** ** whatsapp/twilio *)

Module WhatsApp.
Definition ProviderCode : string := "twilio_whatsapp".
Record Config := { AccountSID : string; AuthToken : string; From : string; ContentSid : string }.
Definition Enabled (cfg : Config) : bool :=
  negb (String.eqb (AccountSID cfg) "") && negb (String.eqb (AuthToken cfg) "") && negb (String.eqb (From cfg) "").
Definition withWhatsAppPrefix (addr : string) : string :=
  if HasPrefix addr "whatsapp:" then addr else "whatsapp:" +:+ addr.
Definition MaskPhone (phone : string) : string := Delivery.MaskPhone (TrimPrefix phone "whatsapp:").
Section api.
Context `{TwilioAPI}.
Definition buildResponse (r : result error resource) : answer :=
  match r with
  | Err err => failure ProviderCode (error_text err)
  | Ok resp => success ProviderCode (default "" (Sid resp)) (marshal resp)
  end.
Definition send_with (cfg : Config) (req : SendRequest) (body contentSid vars : option string) (media : list string)
    (sent : list twilio_request) : send_result twilio_request :=
  let params := CreateMessage (withWhatsAppPrefix (RecipientPhone req)) (withWhatsAppPrefix (From cfg)) body contentSid vars media in
  (buildResponse (create sent params), sent ++ [params]).
Definition Send (cfg : Config) (req : SendRequest) (sent : list twilio_request) : send_result twilio_request :=
  if String.eqb (RecipientPhone req) "" then (failure ProviderCode "recipient phone is required", sent)
  else send_with cfg req (Some (Body req)) None None [] sent.
(** Options["content_sid"] when it is a nonempty string, else the configured one. *)
Definition content_sid (cfg : Config) (req : SendRequest) : string :=
  match Options req !! "content_sid" with
  | Some (OptString v) => if String.eqb v "" then ContentSid cfg else v
  | _ => ContentSid cfg
  end.
(** The loop that numbers the parameters from one. *)
Fixpoint number_vars (i : nat) (parameters : list string) (vars : gmap string string) : gmap string string :=
  match parameters with
  | [] => vars
  | v :: parameters => number_vars (S i) parameters (<[fmt_d (Z.of_nat i + 1) := v]> vars)
  end.
Definition SendTemplate (cfg : Config) (req : SendRequest) (templateName : string) (parameters : list string)
    (sent : list twilio_request) : send_result twilio_request :=
  if String.eqb (RecipientPhone req) "" then (failure ProviderCode "recipient phone is required", sent)
  else if String.eqb (content_sid cfg req) "" then (failure ProviderCode "content_sid not configured", sent)
  else
    let vars := match parameters with
                | [] => None
                | _ => match marshal_vars (number_vars 0 parameters ∅) with Ok b => Some b | Err _ => None end
                end in
    send_with cfg req None (Some (content_sid cfg req)) vars [] sent.
Definition SendMedia (cfg : Config) (req : SendRequest) (mediaURL : string) (sent : list twilio_request)
    : send_result twilio_request :=
  if String.eqb (RecipientPhone req) "" then (failure ProviderCode "recipient phone is required", sent)
  else send_with cfg req (if String.eqb (Body req) "" then None else Some (Body req)) None None
         (if String.eqb mediaURL "" then [] else [mediaURL]) sent.
Definition status_of (s : string) : Status :=
  if String.eqb s "queued" || String.eqb s "sending" then StatusQueued
  else if String.eqb s "sent" then StatusSent
  else if String.eqb s "delivered" then StatusDelivered
  else if String.eqb s "read" then StatusRead
  else if String.eqb s "undelivered" || String.eqb s "failed" then StatusFailed else StatusUnknown.
Definition GetStatus (messageID : string) : result error DeliveryStatus :=
  match fetch messageID with
  | Err err => Err (EWrap ("whatsapp-twilio: fetch " +:+ messageID +:+ ": ") "" err)
  | Ok resp => Ok {| MessageID := messageID; DStatus := status_of <$> RStatus resp; DeliveredAt := None; FailedAt := None;
                     ErrorCode := ""; ErrorMessage := ""; DRawResponse := marshal resp |}
  end.
End api.
End WhatsApp.

(** ** The contract *)

Section contract.
Context `{TwilioAPI}.
(** Twilio's side: whom a request is for; a created resource is an acceptance,
    and the SMS adapter also wants a message under way. *)
Definition to_of (x : twilio_request) : string :=
  match x with CreateMessage to _ _ _ _ _ | CreateCall to _ _ => to end.
Definition created (sent : list twilio_request) (x : twilio_request) : option string :=
  match create sent x with Ok r => Some (default "" (Sid r)) | Err _ => None end.
Definition under_way (sent : list twilio_request) (x : twilio_request) : option string :=
  match create sent x with
  | Ok r => if bool_decide (default "" (RStatus r) ∈ ["queued"; "sending"; "sent"; "delivered"])
            then Some (default "" (Sid r)) else None
  | Err _ => None
  end.
Definition sms_vendor : vendor twilio_request := {| addressed to x := to_of x = to; verdict := under_way |}.
Definition voice_vendor : vendor twilio_request := {| addressed to x := to_of x = to; verdict := created |}.
Definition whatsapp_vendor : vendor twilio_request :=
  {| addressed to x := to_of x = WhatsApp.withWhatsAppPrefix to; verdict := created |}.

Lemma accepted_in status : accepted status = bool_decide (status ∈ ["queued"; "sending"; "sent"; "delivered"]).
Proof.
  unfold accepted. symmetry. destruct (_ || _) eqn:E.
  - apply bool_decide_eq_true_2. rewrite !elem_of_cons. rewrite !orb_true_iff, !String.eqb_eq in E. tauto.
  - apply bool_decide_eq_false_2. rewrite !orb_false_iff, !String.eqb_neq in E.
    rewrite !elem_of_cons, elem_of_nil. tauto.
Qed.
Lemma sms_delivers p req sent : delivered sms_vendor Sms.ProviderCode (RecipientPhone req) sent (Sms.Send p req sent).
Proof.
  unfold Sms.Send. recipient_given. apply delivered_asked; [done..|]. cbn. unfold under_way.
  destruct (create _ _) as [resp|err]; cbn; [|by constructor]. rewrite accepted_in.
  destruct (bool_decide _); [by eexists|by constructor].
Qed.
Lemma voice_delivers cfg req sent : delivered voice_vendor Voice.ProviderCode (RecipientPhone req) sent (Voice.Send cfg req sent).
Proof.
  unfold Voice.Send. recipient_given. apply delivered_asked; [done..|]. cbn. unfold created.
  destruct (create _ _); cbn; [by eexists|by constructor].
Qed.
Lemma send_with_delivers cfg req body cs vars media sent :
  RecipientPhone req ≠ "" →
  delivered whatsapp_vendor WhatsApp.ProviderCode (RecipientPhone req) sent (WhatsApp.send_with cfg req body cs vars media sent).
Proof.
  intros. unfold WhatsApp.send_with, WhatsApp.buildResponse. apply delivered_asked; [done..|]. cbn. unfold created.
  destruct (create _ _); cbn; [by eexists|by constructor].
Qed.
#[local] Hint Resolve send_with_delivers : delivery.
Lemma whatsapp_twilio_delivers cfg req sent :
  let ok := delivered whatsapp_vendor WhatsApp.ProviderCode (RecipientPhone req) sent in
  ok (WhatsApp.Send cfg req sent) ∧ (∀ name ps, ok (WhatsApp.SendTemplate cfg req name ps sent)) ∧
  (∀ url, ok (WhatsApp.SendMedia cfg req url sent)).
Proof.
  unfold WhatsApp.Send, WhatsApp.SendTemplate, WhatsApp.SendMedia. cbv zeta.
  split_and!; [recipient_given; eauto with delivery|intros; recipient_given|intros; recipient_given; eauto with delivery].
  destruct (String.eqb (WhatsApp.content_sid cfg req) ""); eauto with delivery.
Qed.
End contract.

(** ** Prices and statuses *)

Lemma prefix_comparable s a b : HasPrefix s a = true → HasPrefix s b = true → HasPrefix a b = true ∨ HasPrefix b a = true.
Proof.
  unfold HasPrefix. revert a b. induction s as [|c s IH]; intros [|x a] [|y b]; cbn; try (by auto).
  destruct (Ascii.ascii_dec x c) as [->|]; [|done]. destruct (Ascii.ascii_dec y c) as [->|]; [|done].
  intros Ha Hb. destruct (Ascii.ascii_dec c c); [|done]. by apply IH.
Qed.
(** No dial code of the map starts with another. *)
Definition prefix_free (m : gmap string float64) : Prop :=
  ∀ c1 c2, is_Some (m !! c1) → is_Some (m !! c2) → HasPrefix c1 c2 = true → c1 = c2.
Lemma price_loop_spec phone m order pr :
  order ≡ₚ map_to_list m → prefix_free m →
  Sms.price_loop phone order = Some pr ↔ ∃ code, m !! code = Some pr ∧ Sms.dials phone code = true.
Proof.
  intros Ho Hf. assert (∀ c p, (c, p) ∈ order → m !! c = Some p) as Hin
    by (intros c p Hc; rewrite Ho in Hc; by apply elem_of_map_to_list).
  transitivity (∃ code, (code, pr) ∈ order ∧ Sms.dials phone code = true).
  - clear Ho. induction order as [|[c p] order IH]; cbn [Sms.price_loop].
    { split; [done|]. intros (? & Hc & _). by apply elem_of_nil in Hc. }
    destruct (Sms.dials phone c) eqn:Ed.
    + split; [intros [= ->]; exists c; by split; [left|]|]. intros (c' & Hc' & Hd').
      assert (c = c') as ->; [|assert (m !! c' = Some p ∧ m !! c' = Some pr) as [? ?] by (split; apply Hin; [left|done]); congruence].
      unfold Sms.dials in Ed, Hd'. apply andb_true_iff in Ed as [_ Ed], Hd' as [_ Hd'].
      destruct (prefix_comparable _ _ _ Ed Hd') as [Hp|Hp].
      * apply Hf; [eexists; apply Hin; by left|eexists; by apply Hin|done].
      * symmetry. apply Hf; [eexists; by apply Hin|eexists; apply Hin; by left|done].
    + rewrite IH by (intros; apply Hin; by right). split; intros (c' & Hc' & Hd'); exists c'; (split; [|done]).
      * by right.
      * apply elem_of_cons in Hc' as [[= -> ->]|]; [congruence|done].
  - split; intros (c & Hc & Hd); exists c; (split; [|done]); [by apply Hin|]. rewrite Ho. by apply elem_of_map_to_list.
Qed.
Lemma default_prefix_free : prefix_free Sms.DefaultCountryPricing.
Proof.
  assert (∀ c, is_Some (Sms.DefaultCountryPricing !! c) → c ∈ ["+1"; "+44"; "+49"; "+964"; "+971"; "+966"]) as Hd.
  { intros c. unfold Sms.DefaultCountryPricing. rewrite !lookup_insert_is_Some, lookup_singleton_is_Some. set_solver. }
  intros c1 c2 H1%Hd H2%Hd. revert H1 H2. rewrite !elem_of_cons, !elem_of_nil.
  intros H1 H2. destruct_or?; subst; done.
Qed.

(** SMS prices.  When no dial code of the price table starts with another,
    the estimate does not depend on the order in which the map is visited: it is
    the price of the code the number starts with, and five cents when there is
    none; the default table is such a table. *)
Theorem CostEstimate_deterministic p phone order :
  order ≡ₚ map_to_list (Sms.pricing p) → prefix_free (Sms.pricing p) →
  (∀ code pr, Sms.pricing p !! code = Some pr → Sms.dials phone code = true → Sms.CostEstimate order phone = (pr, "USD")) ∧
  ((∀ code, is_Some (Sms.pricing p !! code) → Sms.dials phone code = false) → Sms.CostEstimate order phone = (float_dec 5 2, "USD")) ∧
  prefix_free Sms.DefaultCountryPricing.
Proof.
  intros Ho Hf. split_and!; [| |apply default_prefix_free]; unfold Sms.CostEstimate.
  - intros code pr Hc Hd. assert (Sms.price_loop phone order = Some pr) as ->; [|done].
    apply (price_loop_spec phone _ order pr Ho Hf). by exists code.
  - intros Hno. destruct (Sms.price_loop phone order) as [pr|] eqn:E; [|done].
    apply (price_loop_spec phone _ order pr Ho Hf) in E as (code & Hc & Hd). rewrite Hno in Hd by done. done.
Qed.
Lemma CostEstimate_deterministic_witness :
  Sms.CostEstimate (map_to_list Sms.DefaultCountryPricing) "+9647701234567" = (float_dec 758 4, "USD").
Proof.
  apply (CostEstimate_deterministic (Sms.New {| Sms.AccountSID := ""; Sms.AuthToken := ""; Sms.FromNumber := "" |})
           "+9647701234567" (map_to_list Sms.DefaultCountryPricing)) with "+964".
  - done.
  - apply default_prefix_free.
  - reflexivity.
  - reflexivity.
Defined.
(** With overlapping codes the estimate depends on the order of the map. *)
Lemma CostEstimate_ambiguous :
  let m : gmap string float64 := {[ "+1" := float_dec 75 4; "+1868" := float_dec 2 1 ]} in
  ∃ o1 o2, o1 ≡ₚ map_to_list m ∧ o2 ≡ₚ map_to_list m ∧ Sms.CostEstimate o1 "+18681234567" ≠ Sms.CostEstimate o2 "+18681234567".
Proof.
  intros m. exists [("+1", float_dec 75 4); ("+1868", float_dec 2 1)], [("+1868", float_dec 2 1); ("+1", float_dec 75 4)].
  assert (map_to_list m ≡ₚ [("+1", float_dec 75 4); ("+1868", float_dec 2 1)]) as Hm.
  { unfold m. rewrite map_to_list_insert by (by rewrite lookup_singleton_ne). by rewrite map_to_list_singleton. }
  split; [done|]. split; [by rewrite Hm; apply Permutation_swap|]. vm_compute. congruence.
Qed.

(** The status of a resource without one is the empty string and not unknown. *)
Lemma missing_status `{TwilioAPI} id r : fetch id = Ok r → RStatus r = None →
  ∃ d, Sms.GetStatus id = Ok d ∧ DStatus d = None.
Proof. intros Hf Hr. unfold Sms.GetStatus. rewrite Hf. eexists. split; [done|]. cbn. by rewrite Hr. Qed.
(** The WhatsApp adapter reports a message that Twilio created as failed as sent; the SMS adapter does not. *)
Lemma whatsapp_ignores_status `{TwilioAPI} cfg req sent r :
  RecipientPhone req ≠ "" → (∀ s x, create s x = Ok r) → RStatus r = Some "failed" →
  (WhatsApp.Send cfg req sent).1 = success WhatsApp.ProviderCode (default "" (Sid r)) (marshal r) ∧
  ∀ p, Success <$> (Sms.Send p req sent).1.1 = Some false.
Proof.
  intros Hne Hc Hr. apply String.eqb_neq in Hne. unfold WhatsApp.Send, Sms.Send, WhatsApp.send_with. rewrite Hne, Hc.
  split; [done|]. intros p. cbn [fst]. rewrite Hc, Hr. done.
Qed.

(** *** Template variables *)

(** The variable of each position is the parameter there. *)
Lemma number_vars_lookup i ps m k :
  WhatsApp.number_vars i ps m !! fmt_d (Z.of_nat k + 1) =
    if decide (i ≤ k)%nat then match ps !! (k - i)%nat with Some v => Some v | None => m !! fmt_d (Z.of_nat k + 1) end
    else m !! fmt_d (Z.of_nat k + 1).
Proof.
  revert i m. induction ps as [|v ps IH]; intros i m; cbn [WhatsApp.number_vars]; [by destruct (decide _)|].
  rewrite IH. destruct (decide (S i ≤ k)%nat), (decide (i ≤ k)%nat); try lia.
  - replace (k - i)%nat with (S (k - S i)) by lia. cbn. destruct (ps !! _); [done|].
    rewrite lookup_insert_ne; [done|]. intros E%fmt_d_inj. lia.
  - assert (k = i) as -> by lia. rewrite Nat.sub_diag. cbn. by rewrite lookup_insert_eq.
  - rewrite lookup_insert_ne; [done|]. intros E%fmt_d_inj. lia.
Qed.
