(* ===== verification/WhatsAppAdapters.v ===== *)
(** * The WhatsApp adapters over HTTP

    src/communication/whatsapp/meta (messages, calls, webhooks and their
    signatures) and src/communication/whatsapp/adminli.  encoding/json and the
    message authentication code are arguments. *)

From S2P Require Import Prelude GoString GoErrors Id Provider Delivery.
From stdpp Require Import base list gmap strings.
From Stdlib Require Import ZArith Lia.
Open Scope Z_scope.

(** ** whatsapp/meta *)

Module Meta.
Definition ProviderCode : string := "meta_whatsapp".
Definition DefaultGraphAPIBase : string := "https://graph.facebook.com/v21.0".
Record Config := { PhoneNumberID : string; AccessToken : string; GraphAPIBase : string; AppSecret : string; Timeout : Duration }.
Definition New (cfg : Config) : Config :=
  {| PhoneNumberID := PhoneNumberID cfg; AccessToken := AccessToken cfg;
     GraphAPIBase := if String.eqb (GraphAPIBase cfg) "" then DefaultGraphAPIBase else GraphAPIBase cfg;
     AppSecret := AppSecret cfg; Timeout := if Timeout cfg =? 0 then 15 * Second else Timeout cfg |}.
Definition ValidateConfig (cfg : Config) : option error :=
  if String.eqb (PhoneNumberID cfg) "" then Some (EText "meta: PhoneNumberID is required")
  else if String.eqb (AccessToken cfg) "" then Some (EText "meta: AccessToken is required") else None.
Definition Enabled (cfg : Config) : bool := negb (String.eqb (PhoneNumberID cfg) "") && negb (String.eqb (AccessToken cfg) "").

Record APIError := { Message : string; Type_ : string; Code : Z }.
Record MessagesResponse := { Messages : list string; Error : option APIError }.   (* the ids of the messages *)
Record CallsResponse := { Calls : list string; CallsError : option APIError }.

Definition stripPhonePrefix (s : string) : string := TrimPrefix (TrimPrefix s "whatsapp:") "+".
Definition MaskPhone (phone : string) : string := Delivery.MaskPhone (stripPhonePrefix phone).

(** What json.Unmarshal leaves in the value, its error ignored, or the error. *)
Class Decoders := {
  decode_messages : string → MessagesResponse;
  decode_envelope : string → option APIError;
  decode_calls : string → result error CallsResponse
}.
Section api.
Context `{Http} `{Decoders}.
Variable cfg : Config.

Definition endpoint (name : string) : string := GraphAPIBase cfg +:+ "/" +:+ PhoneNumberID cfg +:+ "/" +:+ name.
Definition auth_headers : list (string * string) :=
  [("Authorization", "Bearer " +:+ AccessToken cfg); ("Content-Type", "application/json")].
Definition api_error_text (e : APIError) : string := fmt_d (Code e) +:+ " " +:+ Message e +:+ " (" +:+ Type_ e +:+ ")".
Definition http_error_text (status : Z) (raw : string) : string := "HTTP " +:+ fmt_d status +:+ ": " +:+ raw.
Definition postMessage (payload : jv) (sent : list HttpRequest) : send_result HttpRequest :=
  let '(r, sent) := post (endpoint "messages") auth_headers payload sent in
  (match r with
   | PMarshal err => (None, Some (EWrap "meta: marshal: " "" err))
   | PBuild err => (None, Some (EWrap "meta: build request: " "" err))
   | PDo err => failure ProviderCode (error_text err)
   | PRead _ err => (None, Some (EWrap "meta: read body: " "" err))
   | PDone status raw =>
       let parsed := decode_messages raw in
       if (300 <=? status) || match Error parsed with Some _ => true | None => false end then
         reply {| Success := false; Provider.ProviderCode := ProviderCode; ProviderMessageID := "";
                  ErrorText := match Error parsed with Some e => api_error_text e | None => http_error_text status raw end;
                  RawResponse := bytes_of raw |}
       else success ProviderCode (default "" (head (Messages parsed))) (bytes_of raw)
   end, sent).

Definition Send (req : SendRequest) (sent : list HttpRequest) : send_result HttpRequest :=
  if String.eqb (RecipientPhone req) "" then (failure ProviderCode "recipient phone is required", sent)
  else
    let text := if String.eqb (HTMLBody req) "" then Body req else HTMLBody req in
    postMessage (JO {[ "messaging_product" := JS "whatsapp"; "to" := JS (stripPhonePrefix (RecipientPhone req)); "type" := JS "text";
                       "text" := JO {[ "preview_url" := JB false; "body" := JS text ]} ]}) sent.
Definition template_components (parameters : list string) : list jv :=
  match parameters with
  | [] => []
  | _ => [JO {[ "type" := JS "body"; "parameters" := JA ((λ v, JO {[ "type" := JS "text"; "text" := JS v ]}) <$> parameters) ]}]
  end.
Definition SendTemplate (req : SendRequest) (templateName : string) (parameters : list string) (sent : list HttpRequest)
    : send_result HttpRequest :=
  if String.eqb (RecipientPhone req) "" then (failure ProviderCode "recipient phone is required", sent)
  else if String.eqb templateName "" then (failure ProviderCode "template name is required", sent)
  else
    let lang := if String.eqb (Language req) "" then "en_US" else Language req in
    postMessage (JO {[ "messaging_product" := JS "whatsapp"; "to" := JS (stripPhonePrefix (RecipientPhone req)); "type" := JS "template";
                       "template" := JO {[ "name" := JS templateName; "language" := JO {[ "code" := JS lang ]};
                                           "components" := JA (template_components parameters) ]} ]}) sent.
(** The key mediaType is set last: it replaces a field of that name. *)
Definition SendMedia (req : SendRequest) (mediaURL mediaType : string) (sent : list HttpRequest) : send_result HttpRequest :=
  if String.eqb (RecipientPhone req) "" then (failure ProviderCode "recipient phone is required", sent)
  else if String.eqb mediaURL "" || String.eqb mediaType "" then (failure ProviderCode "mediaURL and mediaType are required", sent)
  else
    let obj := {[ "link" := JS mediaURL ]} : gmap string jv in
    let obj := if String.eqb (Body req) "" then obj else <["caption" := JS (Body req)]> obj in
    postMessage (JO (<[mediaType := JO obj]> {[ "messaging_product" := JS "whatsapp";
                     "to" := JS (stripPhonePrefix (RecipientPhone req)); "type" := JS mediaType ]})) sent.
Definition GetStatus (messageID : string) : DeliveryStatus := sent_status messageID (Some StatusSent).

(** *** calling.go *)

Definition CallActionConnect : string := "connect".
Definition CallActionPreAccept : string := "pre_accept".
Definition CallActionAccept : string := "accept".
Definition CallActionReject : string := "reject".
Definition CallActionTerminate : string := "terminate".
Record CallRequest := { To : string; CallID : string; SDPType : string; SDP : string; CallbackData : string }.
Record CallResult := { CSuccess : bool; CProviderCode : string; CCallID : string; CError : string; CRaw : option string }.
Definition callFailure (msg : string) : CallResult :=
  {| CSuccess := false; CProviderCode := ProviderCode; CCallID := ""; CError := msg; CRaw := None |}.
Definition sessionObj (defaultType : string) (req : CallRequest) : jv :=
  JO {[ "sdp_type" := JS (if String.eqb (SDPType req) "" then defaultType else SDPType req); "sdp" := JS (SDP req) ]}.
(** The body (nil is [None]), whether it succeeded, and the error text. *)
Definition doJSON (name : string) (payload : jv) (sent : list HttpRequest) : (option string * bool * string) * list HttpRequest :=
  let '(r, sent) := post (endpoint name) auth_headers payload sent in
  (match r with
   | PMarshal err => (None, false, "marshal: " +:+ error_text err)
   | PBuild err => (None, false, "build request: " +:+ error_text err)
   | PDo err => (None, false, error_text err)
   | PRead _ err => (None, false, "read body: " +:+ error_text err)
   | PDone status raw =>
       match decode_envelope raw with
       | Some e => (Some raw, false, api_error_text e)
       | None => if 300 <=? status then (Some raw, false, http_error_text status raw) else (Some raw, true, "")
       end
   end, sent).
Definition postCalls (payload : jv) (sent : list HttpRequest) : CallResult * list HttpRequest :=
  let '((raw, ok, errMsg), sent) := doJSON "calls" payload sent in
  let id := if (ok : bool) then match decode_calls (default "" raw) with
                       | Ok parsed => default "" (head (Calls parsed))
                       | Err _ => ""
                       end else "" in
  ({| CSuccess := ok; CProviderCode := ProviderCode; CCallID := id; CError := errMsg; CRaw := raw |}, sent).
Definition Connect (req : CallRequest) (sent : list HttpRequest) : CallResult * list HttpRequest :=
  if String.eqb (To req) "" then (callFailure "recipient phone is required", sent)
  else
    let payload := {[ "messaging_product" := JS "whatsapp"; "to" := JS (stripPhonePrefix (To req));
                      "action" := JS CallActionConnect; "session" := sessionObj "offer" req ]} : gmap string jv in
    let payload := if String.eqb (CallbackData req) "" then payload
                   else <["biz_opaque_callback_data" := JS (CallbackData req)]> payload in
    postCalls (JO payload) sent.
Definition callAction (action : string) (req : CallRequest) (needsSDP : bool) (sent : list HttpRequest)
    : CallResult * list HttpRequest :=
  if String.eqb (CallID req) "" then (callFailure "call_id is required", sent)
  else
    let payload := {[ "messaging_product" := JS "whatsapp"; "call_id" := JS (CallID req); "action" := JS action ]} : gmap string jv in
    postCalls (JO (if needsSDP then <["session" := sessionObj "answer" req]> payload else payload)) sent.
Definition PreAccept (req : CallRequest) := callAction CallActionPreAccept req true.
Definition Accept (req : CallRequest) := callAction CallActionAccept req true.
Definition Reject (req : CallRequest) := callAction CallActionReject req false.
Definition Terminate (req : CallRequest) := callAction CallActionTerminate req false.
(** Success, error text and body. *)
Definition RequestCallPermission (to : string) (sent : list HttpRequest) : (bool * string * option string) * list HttpRequest :=
  if String.eqb to "" then ((false, "recipient phone is required", None), sent)
  else
    let '((raw, ok, errMsg), sent) := doJSON "messages" (JO {[ "messaging_product" := JS "whatsapp"; "recipient_type" := JS "individual";
      "to" := JS (stripPhonePrefix to); "type" := JS "interactive"; "interactive" := JO {[ "type" := JS "call_permission_request" ]} ]}) sent in
    ((ok, errMsg, raw), sent).
End api.

(** *** webhook.go *)

Record InboundMessage := { ID : string; From : string; Timestamp : string; MType : string; Text : string; PhoneNumber : string; Raw : string }.
Record CallEvent := {
  EID : string; EFrom : string; ETo : string; EEvent : string; Direction : string; EStatus : string; ETimestamp : string;
  Session : option (string * string); ERaw : string
}.
Record WebhookEvent := { Object : string; EMessages : list InboundMessage; ECalls : list CallEvent; Statuses : list string }.
(** A change: the phone number id, and the raw messages, calls and statuses. *)
Record change := { pn_id : string; c_messages : list string; c_calls : list string; c_statuses : list string }.
Record rawWebhook := { w_object : string; Entry : list (list change) }.
Record raw_message := { m_id : string; m_from : string; m_timestamp : string; m_type : string; m_body : string }.

Section webhook.
Variable unmarshal_webhook : string → result error rawWebhook.
Variable unmarshal_message : string → result error raw_message.
Variable unmarshal_call : string → result error CallEvent.

Definition inbound_message (pn raw : string) (m : raw_message) : InboundMessage :=
  {| ID := m_id m; From := m_from m; Timestamp := m_timestamp m; MType := m_type m; Text := m_body m; PhoneNumber := pn; Raw := raw |}.
Fixpoint parse_messages (pn : string) (raws : list string) (ev : WebhookEvent) : result error WebhookEvent :=
  match raws with
  | [] => Ok ev
  | raw :: raws =>
      match unmarshal_message raw with
      | Err err => Err (EWrap "meta: parse message: " "" err)
      | Ok m => parse_messages pn raws {| Object := Object ev; EMessages := EMessages ev ++ [inbound_message pn raw m];
                                          ECalls := ECalls ev; Statuses := Statuses ev |}
      end
  end.
Definition with_raw (raw : string) (ce : CallEvent) : CallEvent :=
  {| EID := EID ce; EFrom := EFrom ce; ETo := ETo ce; EEvent := EEvent ce; Direction := Direction ce; EStatus := EStatus ce;
     ETimestamp := ETimestamp ce; Session := Session ce; ERaw := raw |}.
Fixpoint parse_calls (raws : list string) (ev : WebhookEvent) : result error WebhookEvent :=
  match raws with
  | [] => Ok ev
  | raw :: raws =>
      match unmarshal_call raw with
      | Err err => Err (EWrap "meta: parse call event: " "" err)
      | Ok ce => parse_calls raws {| Object := Object ev; EMessages := EMessages ev; ECalls := ECalls ev ++ [with_raw raw ce];
                                     Statuses := Statuses ev |}
      end
  end.
Definition parse_change (ch : change) (ev : WebhookEvent) : result error WebhookEvent :=
  match parse_messages (pn_id ch) (c_messages ch) ev with
  | Err err => Err err
  | Ok ev =>
      match parse_calls (c_calls ch) ev with
      | Err err => Err err
      | Ok ev => Ok {| Object := Object ev; EMessages := EMessages ev; ECalls := ECalls ev; Statuses := Statuses ev ++ c_statuses ch |}
      end
  end.
Fixpoint parse_changes (chs : list change) (ev : WebhookEvent) : result error WebhookEvent :=
  match chs with
  | [] => Ok ev
  | ch :: chs => match parse_change ch ev with Err err => Err err | Ok ev => parse_changes chs ev end
  end.
Fixpoint parse_entries (es : list (list change)) (ev : WebhookEvent) : result error WebhookEvent :=
  match es with
  | [] => Ok ev
  | e :: es => match parse_changes e ev with Err err => Err err | Ok ev => parse_entries es ev end
  end.
Definition ParseWebhook (raw : string) : result error WebhookEvent :=
  match unmarshal_webhook raw with
  | Err err => Err (EWrap "meta: parse webhook: " "" err)
  | Ok rw => parse_entries (Entry rw) {| Object := w_object rw; EMessages := []; ECalls := []; Statuses := [] |}
  end.
End webhook.
Definition VerifyTokenChallenge (mode token challenge expectedToken : string) : string * bool :=
  if String.eqb mode "subscribe" && negb (String.eqb token "") && String.eqb token expectedToken then (challenge, true) else ("", false).

(** *** signature.go *)

(** hex.DecodeString. *)
Definition hex_value (c : Z) : option Z :=
  if (48 <=? c) && (c <=? 57) then Some (c - 48)
  else if (97 <=? c) && (c <=? 102) then Some (c - 87)
  else if (65 <=? c) && (c <=? 70) then Some (c - 55) else None.
Fixpoint hex_decode (cs : list Z) : option (list Z) :=
  match cs with
  | [] => Some []
  | c0 :: c1 :: cs => h ← hex_value c0; l ← hex_value c1; r ← hex_decode cs; Some (h * 16 + l :: r)
  | _ => None
  end.
Section signature.
(** HMAC-SHA256 of a message under a key. *)
Variable hmac_sha256 : list Z → list Z → list Z.
Definition VerifySignature (rawBody : list Z) (header appSecret : string) : bool :=
  if String.eqb appSecret "" || String.eqb header "" then false
  else match hex_decode (bytes_of (TrimPrefix header "sha256=")) with
       | None => false
       | Some expected => bool_decide (expected = hmac_sha256 (bytes_of appSecret) rawBody)
       end.
End signature.
End Meta.

(** ** whatsapp/adminli *)

Module Adminli.
Definition ProviderCode : string := "adminli_whatsapp".
Definition ModuleCode : string := "ADMINLI_WHATSAPP".
Definition DefaultBaseURL : string := "https://api.adminli.app".
Record Config := { APIKey : string; BaseURL : string; Timeout : Duration }.
Record TemplateSend := { Name : string; TLanguage : string; BodyParameters : list string; ButtonParameters : list string }.
Record SendMessageResponse := { MessageID : string; RTo : string; RChannel : string; RStatus : string }.
Record APIError := { Error : string; Code : Z; Message : string }.
Definition Reason (e : APIError) : string := if String.eqb (Message e) "" then Error e else Message e.
Record Result := { Success : bool; RMessageID : string; RError : string; Retryable : bool; Status : Z; Raw : option string }.
Definition error_result (text : string) (retryable : bool) : Result :=
  {| Success := false; RMessageID := ""; RError := text; Retryable := retryable; Status := 0; Raw := None |}.

Section adminli.
Context `{Unicode}.
Definition blank (s : string) : bool := String.eqb (TrimSpace s) "".
Definition New (cfg : Config) : Config :=
  {| APIKey := APIKey cfg; BaseURL := if blank (BaseURL cfg) then DefaultBaseURL else BaseURL cfg;
     Timeout := if Timeout cfg =? 0 then 15 * Second else Timeout cfg |}.
Definition ValidateConfig (cfg : Config) : option error :=
  if blank (APIKey cfg) then Some (EText "adminli: APIKey is required") else None.
Definition Enabled (cfg : Config) : bool := negb (blank (APIKey cfg)).
Definition isRetryableStatus (status : Z) : bool := (status =? 429) || (500 <=? status).
Definition NormalizePhone (phone : string) : string :=
  let phone := TrimSpace (TrimPrefix phone "whatsapp:") in
  if negb (String.eqb phone "") && negb (HasPrefix phone "+") then "+" +:+ phone else phone.
Definition MaskPhone (phone : string) : string := Delivery.MaskPhone (TrimPrefix phone "whatsapp:").
(** strings.TrimSuffix(s, "/"). *)
Definition trim_slash (s : string) : string :=
  match last (bytes_of s) with Some 47 => prefix_of_len (slen s - 1) s | _ => s end.
Definition failResp (msg : string) : answer := failure ProviderCode msg.
Definition toSendResponse (r : Result) : SendResponse :=
  {| Provider.Success := Success r; Provider.ProviderCode := ProviderCode; ProviderMessageID := RMessageID r;
     ErrorText := RError r; RawResponse := match Raw r with Some raw => bytes_of raw | None => [] end |}.

Context `{Http}.
Variable decode_error : string → APIError.
Variable decode_response : string → result error SendMessageResponse.
(** omitempty leaves out an empty language and empty lists. *)
Definition template_json (t : TemplateSend) : jv :=
  let m := {[ "name" := JS (Name t) ]} : gmap string jv in
  let m := if String.eqb (TLanguage t) "" then m else <["language" := JS (TLanguage t)]> m in
  let m := match BodyParameters t with [] => m | ps => <["bodyParameters" := JA (JS <$> ps)]> m end in
  JO (match ButtonParameters t with [] => m | ps => <["buttonParameters" := JA (JS <$> ps)]> m end).
Definition SendTemplateMessage (cfg : Config) (to : string) (tmpl : TemplateSend) (sent : list HttpRequest) : Result * list HttpRequest :=
  if blank (APIKey cfg) then (error_result "adminli: api_key not configured" false, sent)
  else if blank (Name tmpl) then (error_result "adminli: template name is required" false, sent)
  else
    let '(r, sent) := post (trim_slash (BaseURL cfg) +:+ "/v1/messages")
      [("Content-Type", "application/json"); ("Authorization", "Bearer " +:+ APIKey cfg)]
      (JO {[ "to" := JS (NormalizePhone to); "template" := template_json tmpl ]}) sent in
    (match r with
     | PMarshal err => error_result ("adminli: marshal request: " +:+ error_text err) false
     | PBuild err => error_result ("adminli: create request: " +:+ error_text err) false
     | PDo err => error_result ("adminli: http call: " +:+ error_text err) true
     | PRead _ err => error_result ("adminli: read response: " +:+ error_text err) true
     | PDone status raw =>
         if (status <? 200) || (300 <=? status) then
           let message := Reason (decode_error raw) in
           let message := if String.eqb message "" then TrimSpace raw else message in
           {| Success := false; RMessageID := ""; RError := "adminli: http " +:+ fmt_d status +:+ ": " +:+ message;
              Retryable := isRetryableStatus status; Status := status; Raw := Some raw |}
         else match decode_response raw with
              | Err err => {| Success := false; RMessageID := ""; RError := "adminli: decode response: " +:+ error_text err;
                              Retryable := false; Status := status; Raw := Some raw |}
              | Ok d => {| Success := true; RMessageID := MessageID d; RError := ""; Retryable := false; Status := status; Raw := Some raw |}
              end
     end, sent).
(** A nil request is [None]. *)
Definition SendTemplate (cfg : Config) (req : option SendRequest) (templateName : string) (parameters : list string)
    (sent : list HttpRequest) : send_result HttpRequest :=
  match req with
  | None => (failResp "adminli: recipient phone is required", sent)
  | Some req =>
      if String.eqb (RecipientPhone req) "" then (failResp "adminli: recipient phone is required", sent)
      else if String.eqb templateName "" then (failResp "adminli: template name is required", sent)
      else
        let '(res, sent) := SendTemplateMessage cfg (RecipientPhone req)
          {| Name := templateName; TLanguage := Language req; BodyParameters := parameters; ButtonParameters := [] |} sent in
        (reply (toSendResponse res), sent)
  end.
Definition Send (req : SendRequest) (sent : list HttpRequest) : send_result HttpRequest :=
  (failResp "adminli: free-form session send is not supported; use SendTemplate", sent).
Definition SendMedia (req : SendRequest) (mediaURL mediaType : string) (sent : list HttpRequest) : send_result HttpRequest :=
  (failResp "adminli: media send is not supported", sent).
Definition GetStatus (messageID : string) : DeliveryStatus := sent_status messageID (Some StatusSent).
End adminli.
End Adminli.

(** ** The contract *)

Section contract.
Context `{Http}.
(** The vendors' acceptances: Meta answers below 300 without an error, Adminli with
    a 2xx status and a readable body. *)
Definition meta_reads `{Meta.Decoders} (status : Z) (body : result error string) : option string :=
  match body with
  | Ok raw =>
      if (status <? 300) && bool_decide (Meta.Error (Meta.decode_messages raw) = None)
      then Some (default "" (head (Meta.Messages (Meta.decode_messages raw)))) else None
  | Err _ => None
  end.
Definition meta_vendor `{Meta.Decoders} : vendor HttpRequest :=
  http_vendor (λ to, carries (has_member "to" (JS (Meta.stripPhonePrefix to)))) meta_reads.
Definition adminli_reads (decode_response : string → result error Adminli.SendMessageResponse)
    (status : Z) (body : result error string) : option string :=
  match body with
  | Ok raw =>
      if (200 <=? status) && (status <? 300)
      then match decode_response raw with Ok d => Some (Adminli.MessageID d) | Err _ => None end else None
  | Err _ => None
  end.
Definition adminli_vendor `{Unicode} decode_response : vendor HttpRequest :=
  http_vendor (λ to, carries (has_member "to" (JS (Adminli.NormalizePhone to)))) (adminli_reads decode_response).

Lemma postMessage_delivers `{Meta.Decoders} cfg m to sent :
  to ≠ "" → m !! "to" = Some (JS (Meta.stripPhonePrefix to)) →
  delivered meta_vendor Meta.ProviderCode to sent (Meta.postMessage cfg (JO m) sent).
Proof.
  intros Ht Hm. unfold Meta.postMessage. posted.
  all: apply delivered_asked; [done|by exists (JO m)|]; vendor_says; try (by constructor).
  unfold meta_reads. rewrite Z.ltb_antisym. destruct (300 <=? status); cbn; [by constructor|].
  destruct (Meta.Error _) eqn:E; [rewrite bool_decide_eq_false_2 by done; by constructor|].
  rewrite bool_decide_eq_true_2 by done. by eexists.
Qed.
#[local] Hint Resolve postMessage_delivers : delivery.
(** A media type named "to" would replace the recipient. *)
Lemma meta_delivers `{Meta.Decoders} cfg req sent :
  let ok := delivered meta_vendor Meta.ProviderCode (RecipientPhone req) sent in
  ok (Meta.Send cfg req sent) ∧ (∀ name ps, ok (Meta.SendTemplate cfg req name ps sent)) ∧
  (∀ url ty, ty ≠ "to" → ok (Meta.SendMedia cfg req url ty sent)).
Proof.
  unfold Meta.Send, Meta.SendTemplate, Meta.SendMedia. cbv zeta. split_and!; intros; recipient_given.
  - by apply postMessage_delivers.
  - destruct (String.eqb name ""); [eauto with delivery|by apply postMessage_delivers].
  - destruct (String.eqb url "" || String.eqb ty ""); [eauto with delivery|]. apply postMessage_delivers; [done|].
    by rewrite lookup_insert_ne.
Qed.
Lemma adminli_delivers `{Unicode} de dr cfg req sent :
  let ok := delivered (adminli_vendor dr) Adminli.ProviderCode (RecipientPhone req) sent in
  ok (Adminli.Send req sent) ∧ (∀ name ps, ok (Adminli.SendTemplate de dr cfg (Some req) name ps sent)) ∧
  (∀ url ty, ok (Adminli.SendMedia req url ty sent)).
Proof.
  cbv zeta. split_and!; [unfold Adminli.Send, Adminli.failResp; eauto with delivery| |
    intros; unfold Adminli.SendMedia, Adminli.failResp; eauto with delivery].
  intros name ps. unfold Adminli.SendTemplate, Adminli.failResp. recipient_given.
  destruct (String.eqb name ""); [eauto with delivery|]. unfold Adminli.SendTemplateMessage.
  destruct (Adminli.blank (Adminli.APIKey cfg)); [eauto with delivery|].
  destruct (Adminli.blank _); [eauto with delivery|]. posted.
  all: apply delivered_asked; [done|by eexists|]; vendor_says; try (by constructor).
  unfold adminli_reads. rewrite (Z.leb_antisym status 200), (Z.ltb_antisym 300 status).
  destruct (status <? 200), (300 <=? status); cbn; try (by constructor).
  destruct (dr raw); [by eexists|by constructor].
Qed.
End contract.

(** ** Webhooks *)

Section webhook.
Variable unmarshal_webhook : string → result error Meta.rawWebhook.
Variable unmarshal_message : string → result error Meta.raw_message.
Variable unmarshal_call : string → result error Meta.CallEvent.

Definition messages_of (ch : Meta.change) : list Meta.InboundMessage :=
  omap (λ raw, match unmarshal_message raw with Ok m => Some (Meta.inbound_message (Meta.pn_id ch) raw m) | Err _ => None end)
    (Meta.c_messages ch).
Definition calls_of (ch : Meta.change) : list Meta.CallEvent :=
  omap (λ raw, match unmarshal_call raw with Ok ce => Some (Meta.with_raw raw ce) | Err _ => None end) (Meta.c_calls ch).
Definition readable (ch : Meta.change) : bool :=
  forallb (λ raw, match unmarshal_message raw with Ok _ => true | Err _ => false end) (Meta.c_messages ch) &&
  forallb (λ raw, match unmarshal_call raw with Ok _ => true | Err _ => false end) (Meta.c_calls ch).
(** The event extended by the contents of some changes. *)
Definition extended (ev : Meta.WebhookEvent) (chs : list Meta.change) : Meta.WebhookEvent :=
  {| Meta.Object := Meta.Object ev; Meta.EMessages := Meta.EMessages ev ++ (chs ≫= messages_of);
     Meta.ECalls := Meta.ECalls ev ++ (chs ≫= calls_of); Meta.Statuses := Meta.Statuses ev ++ (chs ≫= Meta.c_statuses) |}.

Lemma parse_messages_spec pn raws ev :
  match Meta.parse_messages unmarshal_message pn raws ev with
  | Ok ev' => forallb (λ raw, match unmarshal_message raw with Ok _ => true | Err _ => false end) raws = true ∧
      ev' = {| Meta.Object := Meta.Object ev; Meta.ECalls := Meta.ECalls ev; Meta.Statuses := Meta.Statuses ev;
               Meta.EMessages := Meta.EMessages ev ++ omap (λ raw, match unmarshal_message raw with
                 | Ok m => Some (Meta.inbound_message pn raw m) | Err _ => None end) raws |}
  | Err _ => forallb (λ raw, match unmarshal_message raw with Ok _ => true | Err _ => false end) raws = false
  end.
Proof.
  revert ev. induction raws as [|raw raws IH]; intros ev; cbn.
  - rewrite app_nil_r. by destruct ev.
  - destruct (unmarshal_message raw) as [m|err]; [|done]. cbn.
    specialize (IH {| Meta.Object := Meta.Object ev; Meta.EMessages := Meta.EMessages ev ++ [Meta.inbound_message pn raw m];
      Meta.ECalls := Meta.ECalls ev; Meta.Statuses := Meta.Statuses ev |}).
    destruct (Meta.parse_messages _ _ _ _); [|done]. destruct IH as [-> ->]. cbn. by rewrite <-app_assoc.
Qed.
Lemma parse_calls_spec raws ev :
  match Meta.parse_calls unmarshal_call raws ev with
  | Ok ev' => forallb (λ raw, match unmarshal_call raw with Ok _ => true | Err _ => false end) raws = true ∧
      ev' = {| Meta.Object := Meta.Object ev; Meta.EMessages := Meta.EMessages ev; Meta.Statuses := Meta.Statuses ev;
               Meta.ECalls := Meta.ECalls ev ++ omap (λ raw, match unmarshal_call raw with
                 | Ok ce => Some (Meta.with_raw raw ce) | Err _ => None end) raws |}
  | Err _ => forallb (λ raw, match unmarshal_call raw with Ok _ => true | Err _ => false end) raws = false
  end.
Proof.
  revert ev. induction raws as [|raw raws IH]; intros ev; cbn.
  - rewrite app_nil_r. by destruct ev.
  - destruct (unmarshal_call raw) as [ce|err]; [|done]. cbn.
    specialize (IH {| Meta.Object := Meta.Object ev; Meta.EMessages := Meta.EMessages ev;
      Meta.ECalls := Meta.ECalls ev ++ [Meta.with_raw raw ce]; Meta.Statuses := Meta.Statuses ev |}).
    destruct (Meta.parse_calls _ _ _); [|done]. destruct IH as [-> ->]. cbn. by rewrite <-app_assoc.
Qed.
Lemma parse_change_spec ch ev :
  match Meta.parse_change unmarshal_message unmarshal_call ch ev with
  | Ok ev' => readable ch = true ∧ ev' = extended ev [ch]
  | Err _ => readable ch = false
  end.
Proof.
  unfold Meta.parse_change, readable, extended. cbn [mbind list_bind]. rewrite !app_nil_r.
  pose proof (parse_messages_spec (Meta.pn_id ch) (Meta.c_messages ch) ev) as H1.
  destruct (Meta.parse_messages _ _ _ _) as [ev1|]; [|by rewrite H1]. destruct H1 as [-> ->]. cbn [andb].
  pose proof (parse_calls_spec (Meta.c_calls ch) {| Meta.Object := Meta.Object ev; Meta.ECalls := Meta.ECalls ev;
    Meta.Statuses := Meta.Statuses ev; Meta.EMessages := Meta.EMessages ev ++ messages_of ch |}) as H2.
  unfold messages_of in H2. destruct (Meta.parse_calls _ _ _) as [ev2|]; [|done]. destruct H2 as [-> ->]. done.
Qed.
Lemma parse_changes_spec chs ev :
  match Meta.parse_changes unmarshal_message unmarshal_call chs ev with
  | Ok ev' => forallb readable chs = true ∧ ev' = extended ev chs
  | Err _ => forallb readable chs = false
  end.
Proof.
  revert ev. induction chs as [|ch chs IH]; intros ev; cbn.
  - unfold extended. cbn. rewrite !app_nil_r. by destruct ev.
  - pose proof (parse_change_spec ch ev) as H1. destruct (Meta.parse_change _ _ ch ev) as [ev1|]; [|by rewrite H1].
    destruct H1 as [-> ->]. specialize (IH (extended ev [ch])). destruct (Meta.parse_changes _ _ _ _); [|done].
    destruct IH as [-> ->]. split; [done|]. unfold extended. cbn. by rewrite !app_nil_r, <-!app_assoc.
Qed.
Lemma parse_entries_spec es ev :
  match Meta.parse_entries unmarshal_message unmarshal_call es ev with
  | Ok ev' => forallb readable (concat es) = true ∧ ev' = extended ev (concat es)
  | Err _ => forallb readable (concat es) = false
  end.
Proof.
  revert ev. induction es as [|e es IH]; intros ev; cbn [Meta.parse_entries concat].
  - unfold extended. cbn. rewrite !app_nil_r. by destruct ev.
  - rewrite forallb_app. pose proof (parse_changes_spec e ev) as H1. destruct (Meta.parse_changes _ _ e ev) as [ev1|]; [|by rewrite H1].
    destruct H1 as [-> ->]. specialize (IH (extended ev e)). destruct (Meta.parse_entries _ _ _ _); [|done].
    destruct IH as [-> ->]. split; [done|]. unfold extended. by rewrite !bind_app; cbn; rewrite <-!app_assoc.
Qed.

(** inbound webhooks.  A body that parses yields every message with the phone
    number of its change, every call event and every status of all its entries,
    in order; one unreadable message or call makes the whole body an error. *)
Theorem ParseWebhook_flattens raw rw :
  unmarshal_webhook raw = Ok rw →
  let chs := concat (Meta.Entry rw) in
  match Meta.ParseWebhook unmarshal_webhook unmarshal_message unmarshal_call raw with
  | Ok ev => forallb readable chs = true ∧ Meta.Object ev = Meta.w_object rw ∧ Meta.EMessages ev = chs ≫= messages_of ∧
             Meta.ECalls ev = chs ≫= calls_of ∧ Meta.Statuses ev = chs ≫= Meta.c_statuses ∧
             length (Meta.EMessages ev) = length (chs ≫= Meta.c_messages)
  | Err _ => forallb readable chs = false
  end.
Proof.
  intros Hr chs. unfold Meta.ParseWebhook. rewrite Hr.
  pose proof (parse_entries_spec (Meta.Entry rw) {| Meta.Object := Meta.w_object rw; Meta.EMessages := []; Meta.ECalls := [];
    Meta.Statuses := [] |}) as H. fold chs in H. destruct (Meta.parse_entries _ _ _ _); [|done]. destruct H as [Hb ->].
  split_and!; try done. cbn. clear -Hb. induction chs as [|ch chs IH]; [done|]. cbn in *. apply andb_true_iff in Hb as [Hr Hb].
  rewrite !length_app, IH by done. f_equal. unfold readable in Hr. apply andb_true_iff in Hr as [Hm _]. unfold messages_of. clear -Hm.
  induction (Meta.c_messages ch) as [|raw raws IH]; [done|]. cbn in *. destruct (unmarshal_message raw); [|done]. cbn. by rewrite IH.
Qed.
End webhook.
Definition one_change : Meta.change :=
  {| Meta.pn_id := "1"; Meta.c_messages := ["m"]; Meta.c_calls := []; Meta.c_statuses := ["s"] |}.
Definition plain_message : Meta.raw_message :=
  {| Meta.m_id := "wamid"; Meta.m_from := "964"; Meta.m_timestamp := "0"; Meta.m_type := "text"; Meta.m_body := "hi" |}.
Lemma ParseWebhook_flattens_witness :
  ∃ ev, Meta.ParseWebhook (λ _, Ok {| Meta.w_object := "whatsapp_business_account"; Meta.Entry := [[one_change]] |})
          (λ _, Ok plain_message) (λ _, Err (EText "bad")) "body" = Ok ev ∧
    Meta.EMessages ev = [Meta.inbound_message "1" "m" plain_message].
Proof.
  pose proof (ParseWebhook_flattens (λ _, Ok {| Meta.w_object := "whatsapp_business_account"; Meta.Entry := [[one_change]] |})
    (λ _, Ok plain_message) (λ _, Err (EText "bad")) "body" _ eq_refl) as H.
  cbn in *. eexists. split; [done|]. apply H.
Defined.

(** ** Signatures *)

Section signature.
Variable hmac_sha256 : list Z → list Z → list Z.
Lemma hex_value_digit d : 0 ≤ d < 16 → Meta.hex_value (hex_digit d) = Some d.
Proof.
  intros Hd. unfold Meta.hex_value, hex_digit. destruct (Z.ltb_spec d 10).
  - destruct (Z.leb_spec 48 (48 + d)), (Z.leb_spec (48 + d) 57); try lia. cbn. f_equal. lia.
  - destruct (Z.leb_spec 48 (87 + d)), (Z.leb_spec (87 + d) 57), (Z.leb_spec 97 (87 + d)), (Z.leb_spec (87 + d) 102); try lia. cbn. f_equal. lia.
Qed.
Lemma hex_decode_encode bs : Forall in_byte bs → Meta.hex_decode (hex_Encode bs) = Some bs.
Proof.
  unfold hex_Encode. induction 1 as [|b bs Hb _ IH]; [done|]. cbn [mbind list_bind]. rewrite (hex_byte_alt b Hb). cbn [app Meta.hex_decode].
  unfold in_byte in Hb. rewrite !hex_value_digit by dlia. change (list_bind _ _ hex_byte bs) with (bs ≫= hex_byte) in *.
  cbn. rewrite IH. cbn. do 2 f_equal. dlia.
Qed.
Definition signature (key body : list Z) : string := of_bytes (hex_Encode (hmac_sha256 key body)).
Lemma hex_Encode_bytes bs : Forall in_byte bs → Forall in_byte (hex_Encode bs).
Proof.
  intros Hb. unfold hex_Encode. apply Forall_bind. eapply Forall_impl; [exact Hb|]. intros b Hb'. unfold compose. rewrite hex_byte_alt by done.
  unfold in_byte in *. pose proof (hex_digit_range (b / 16)). pose proof (hex_digit_range (b mod 16)). repeat constructor; dlia.
Qed.

(** C37: webhook authentication.  A signature is accepted only when an app secret
    is configured and the header, less its prefix, is the hexadecimal text of the
    code of exactly this body under that secret; and the header Meta sends for it
    is accepted.  For a code whose output is a list of bytes. *)
Theorem signature_checked body header secret :
  (∀ k m, Forall in_byte (hmac_sha256 k m)) →
  (Meta.VerifySignature hmac_sha256 body header secret = true →
     secret ≠ "" ∧ Meta.hex_decode (bytes_of (TrimPrefix header "sha256=")) = Some (hmac_sha256 (bytes_of secret) body)) ∧
  (secret ≠ "" → Meta.VerifySignature hmac_sha256 body ("sha256=" +:+ signature (bytes_of secret) body) secret = true).
Proof.
  intros Hb. unfold Meta.VerifySignature. split.
  - destruct (String.eqb_spec secret ""); [done|]. destruct (String.eqb header ""); [done|]. cbn [orb].
    destruct (Meta.hex_decode _) as [x|]; [|done]. rewrite bool_decide_eq_true. by intros ->.
  - intros Hs. apply String.eqb_neq in Hs. rewrite Hs. cbn [orb].
    change (String.eqb ("sha256=" +:+ _) "") with false. cbv iota.
    assert (TrimPrefix ("sha256=" +:+ signature (bytes_of secret) body) "sha256=" = signature (bytes_of secret) body) as -> by apply TrimPrefix_app.
    unfold signature. rewrite bytes_of_of_bytes by (by apply hex_Encode_bytes). rewrite hex_decode_encode by done.
    by apply bool_decide_eq_true.
Qed.
End signature.
Lemma signature_checked_witness :
  Meta.VerifySignature (λ _ _, [1; 171]) [] "sha256=01ab" "secret" = true.
Proof.
  apply (proj2 (signature_checked (λ _ _, [1; 171]) [] "" "secret" ltac:(intros; repeat constructor; lia))). done.
Defined.
(** A header without the prefix is accepted as well. *)
Lemma signature_without_prefix : Meta.VerifySignature (λ _ _, [1; 171]) [] "01ab" "secret" = true.
Proof. by vm_compute. Qed.
(** A response of 200 that does not parse counts as sent, with no message id. *)
Lemma unparsable_success `{Http} `{Meta.Decoders} cfg req sent raw :
  RecipientPhone req ≠ "" → (∀ j, is_Some (match Marshal j with Ok b => Some b | Err _ => None end)) → (∀ m u, NewRequest m u = None) →
  (∀ s r, exchange s r = Ok (200, Ok raw)) → Meta.decode_messages raw = {| Meta.Messages := []; Meta.Error := None |} →
  (Meta.Send cfg req sent).1 = success Meta.ProviderCode "" (bytes_of raw).
Proof.
  intros Hr%String.eqb_neq Hm Hn He Hd. unfold Meta.Send, Meta.postMessage, post. rewrite Hr.
  destruct (Hm (JO {[ "messaging_product" := JS "whatsapp"; "to" := JS (Meta.stripPhonePrefix (RecipientPhone req)); "type" := JS "text";
    "text" := JO {[ "preview_url" := JB false; "body" := JS (if String.eqb (HTMLBody req) "" then Body req else HTMLBody req) ]} ]})) as [b Hb].
  cbv zeta. destruct (Marshal _); [|done]. rewrite Hn, He, Hd. done.
Qed.
