(* ===== verification/VendorAdapters.v ===== *)
(** * The push, e-mail and Telegram adapters, and all adapters together

    src/communication/push/{expo,fcm}, src/communication/email/{sendgrid,ses,
    cloudflare} and src/communication/telegram/telegram.go; vendor SDKs are
    arguments.  The last part states what the sends of the eleven adapters share, and
    their registration with communication/provider. *)

From S2P Require Import Prelude GoString GoErrors Base64 Provider Delivery TwilioAdapters WhatsAppAdapters.
From stdpp Require Import base list gmap strings.
From Stdlib Require Import ZArith Lia.
Open Scope Z_scope.

(** ** push/expo *)

Module Expo.
Definition ProviderCode : string := "expo_push".
Definition ExpoPushAPIURL : string := "https://exp.host/--/api/v2/push/send".
Record PushMessage := { To : string; Title : string; MBody : string; Data : gmap string string; Sound : string; Priority : string }.
Record PushTicket := { ID : string; TStatus : string; Message : string }.
Definition IsExpoToken (s : string) : bool := HasPrefix s "ExponentPushToken[" || HasPrefix s "ExpoPushToken[".
Definition buildMessage (token : string) (req : SendRequest) : PushMessage :=
  {| To := token; Title := Subject req; MBody := Body req; Sound := "default"; Priority := "high"; Data := ContextData req |}.
(** The JSON of a message; empty optional fields are left out. *)
Definition message_json (m : PushMessage) : jv :=
  let f := {[ "to" := JS (To m); "body" := JS (MBody m); "sound" := JS (Sound m); "priority" := JS (Priority m) ]} : gmap string jv in
  let f := if String.eqb (Title m) "" then f else <["title" := JS (Title m)]> f in
  JO (if decide (Data m = ∅) then f else <["data" := JO (JS <$> Data m)]> f).

Section api.
Context `{Http}.
Variable decode_tickets : string → result error (list PushTicket).
Variable marshal_ticket : PushTicket → list Z.
Definition sendBatch (messages : list PushMessage) (sent : list HttpRequest) : result error (list PushTicket) * list HttpRequest :=
  let '(r, sent) := post ExpoPushAPIURL [("Content-Type", "application/json"); ("Accept", "application/json"); ("Accept-Encoding", "gzip, deflate")]
    (JA (message_json <$> messages)) sent in
  (match r with
   | PMarshal err => Err (EWrap "expo: marshal: " "" err)
   | PBuild err => Err (EWrap "expo: build request: " "" err)
   | PDo err => Err (EWrap "expo: http: " "" err)
   | PRead _ err => Err (EWrap "expo: read response: " "" err)
   | PDone status raw =>
       if 300 <=? status then Err (EText ("expo: HTTP " +:+ fmt_d status +:+ ": " +:+ raw))
       else match decode_tickets raw with Err err => Err (EWrap "expo: decode response: " "" err) | Ok ts => Ok ts end
   end, sent).
Definition Send (req : SendRequest) (sent : list HttpRequest) : send_result HttpRequest :=
  if String.eqb (RecipientDeviceToken req) "" then (failure ProviderCode "device token is required", sent)
  else if negb (IsExpoToken (RecipientDeviceToken req)) then (failure ProviderCode "not an Expo push token", sent)
  else
    let '(r, sent) := sendBatch [buildMessage (RecipientDeviceToken req) req] sent in
    (match r with
     | Err err => failure ProviderCode (error_text err)
     | Ok [] => failure ProviderCode "no ticket returned from Expo"
     | Ok (t :: _) => if String.eqb (TStatus t) "error" then failure ProviderCode (Message t)
                      else success ProviderCode (ID t) (marshal_ticket t)
     end, sent).
Definition ticket_response (t : PushTicket) : SendResponse :=
  if String.eqb (TStatus t) "error"
  then {| Success := false; Provider.ProviderCode := ProviderCode; ProviderMessageID := ""; ErrorText := Message t; RawResponse := [] |}
  else {| Success := true; Provider.ProviderCode := ProviderCode; ProviderMessageID := ID t; ErrorText := ""; RawResponse := [] |}.
Definition SendMulticast (tokens : list string) (req : SendRequest) (sent : list HttpRequest)
    : result error (list SendResponse) * list HttpRequest :=
  match tokens with
  | [] => (Err (EText "expo: at least one token is required"), sent)
  | _ =>
      match filter (λ t, IsExpoToken t = true) tokens with
      | [] => (Err (EText "expo: no valid Expo tokens in batch"), sent)
      | ts =>
          let '(r, sent) := sendBatch ((λ t, buildMessage t req) <$> ts) sent in
          (match r with Err err => Err err | Ok tickets => Ok (ticket_response <$> tickets) end, sent)
      end
  end.
Definition SendToTopic : error := EText "expo: topic-based sending not supported".
Definition GetStatus (messageID : string) : DeliveryStatus := sent_status messageID (Some StatusSent).
End api.
Definition MaskToken (token : string) : string := Delivery.MaskToken token.
End Expo.

(** ** push/fcm *)

Module Fcm.
Definition ProviderCode : string := "firebase_fcm".
Record Config := { ProjectID : string; CredentialsJSON : string }.
(** What is sent: to one token or topic, or to several tokens; the platform
    defaults (sound, priority, badge) are set for tokens and not for topics. *)
Inductive fcm_request :=
| ToToken (token title body : string) (data : gmap string string) (platformDefaults : bool)
| ToTopic (topic title body : string) (data : gmap string string)
| Multicast (tokens : list string) (title body : string) (data : gmap string string) (platformDefaults : bool).
Inductive fcm_reply := MessageName (id : string) | Batch (responses : list (result error string)).
Section api.
(** The SDK: Send answers with a name, SendEachForMulticast with one response per token. *)
Variable call : list fcm_request → fcm_request → result error fcm_reply.
Variable marshal_id : list (string * string) → list Z.

Definition New (cfg : Config) (newApp messagingClient : option error) : result error Config :=
  if String.eqb (ProjectID cfg) "" || String.eqb (CredentialsJSON cfg) "" then Err (EText "fcm: ProjectID and CredentialsJSON are required")
  else match newApp with
       | Some err => Err (EWrap "fcm: initialize app: " "" err)
       | None => match messagingClient with
                 | Some err => Err (EWrap "fcm: messaging client: " "" err)
                 | None => Ok cfg
                 end
       end.
Definition name_of (r : fcm_reply) : string := match r with MessageName id => id | Batch _ => "" end.
Definition Send (req : SendRequest) (sent : list fcm_request) : send_result fcm_request :=
  if String.eqb (RecipientDeviceToken req) "" then (failure ProviderCode "device token is required", sent)
  else
    let m := ToToken (RecipientDeviceToken req) (Subject req) (Body req) (ContextData req) true in
    (match call sent m with
     | Err err => failure ProviderCode (error_text err)
     | Ok resp => success ProviderCode (name_of resp) (marshal_id [("message_id", name_of resp)])
     end, sent ++ [m]).
Definition SendToTopic (topic : string) (req : SendRequest) (sent : list fcm_request) : send_result fcm_request :=
  let m := ToTopic topic (Subject req) (Body req) (ContextData req) in
  (match call sent m with
   | Err err => failure ProviderCode (error_text err)
   | Ok resp => success ProviderCode (name_of resp) (marshal_id [("message_id", name_of resp); ("topic", topic)])
   end, sent ++ [m]).
Definition one_response (r : result error string) : SendResponse :=
  match r with
  | Ok id => {| Success := true; Provider.ProviderCode := ProviderCode; ProviderMessageID := id; ErrorText := ""; RawResponse := [] |}
  | Err err => {| Success := false; Provider.ProviderCode := ProviderCode; ProviderMessageID := ""; ErrorText := error_text err; RawResponse := [] |}
  end.
Definition SendMulticast (tokens : list string) (req : SendRequest) (sent : list fcm_request)
    : result error (list SendResponse) * list fcm_request :=
  match tokens with
  | [] => (Err (EText "fcm: at least one token is required"), sent)
  | _ =>
      let m := Multicast tokens (Subject req) (Body req) (ContextData req) true in
      (match call sent m with
       | Err err => Err (EWrap "fcm: multicast: " "" err)
       | Ok (Batch rs) => Ok (one_response <$> rs)
       | Ok (MessageName _) => Ok []
       end, sent ++ [m])
  end.
Definition GetStatus (messageID : string) : DeliveryStatus := sent_status messageID (Some StatusSent).
End api.
Definition MaskToken (token : string) : string := Delivery.MaskToken token.
Definition ValidateConfig (cfg : Config) : option error :=
  if String.eqb (ProjectID cfg) "" then Some (EText "fcm: ProjectID required")
  else if String.eqb (CredentialsJSON cfg) "" then Some (EText "fcm: CredentialsJSON required") else None.
End Fcm.

(** ** email/sendgrid *)

Module SendGrid.
Definition ProviderCode : string := "sendgrid".
Record Config := { APIKey : string; FromEmail : string; FromName : string }.
Record mail_attachment := { A_Content : string; A_Type : string; A_Filename : string; A_Disposition : string }.
Record mail := {
  M_FromName : string; M_From : string; M_To : string; M_Subject : string; M_Text : string; M_HTML : string;
  M_Headers : gmap string string; M_Attachments : list mail_attachment
}.
Record api_response := { StatusCode : Z; RBody : string; MessageIds : list string }.
Definition ValidateConfig (cfg : Config) : option error :=
  if String.eqb (APIKey cfg) "" then Some (EText "sendgrid: APIKey is required")
  else if String.eqb (FromEmail cfg) "" then Some (EText "sendgrid: FromEmail is required") else None.
Definition Enabled (cfg : Config) : bool := negb (String.eqb (APIKey cfg) "") && negb (String.eqb (FromEmail cfg) "").
Definition buildMessage (cfg : Config) (req : SendRequest) : mail :=
  let h := ∅ : gmap string string in
  let h := if String.eqb (CorrelationID req) "" then h else <["X-Correlation-ID" := CorrelationID req]> h in
  let h := if String.eqb (TemplateCode req) "" then h else <["X-Template-Code" := TemplateCode req]> h in
  {| M_FromName := FromName cfg; M_From := FromEmail cfg; M_To := RecipientEmail req; M_Subject := Subject req;
     M_Text := Body req; M_HTML := HTMLBody req; M_Headers := h; M_Attachments := [] |}.
(** The content is the bytes as a string. *)
Definition attach (att : Attachment) (m : mail) : mail :=
  {| M_FromName := M_FromName m; M_From := M_From m; M_To := M_To m; M_Subject := M_Subject m; M_Text := M_Text m; M_HTML := M_HTML m;
     M_Headers := M_Headers m;
     M_Attachments := M_Attachments m ++ [{| A_Content := of_bytes (Content att); A_Type := ContentType att;
                                             A_Filename := Filename att; A_Disposition := "attachment" |}] |}.
Section api.
Variable call : list mail → mail → result error api_response.
Variable marshal : api_response → list Z.
Definition sendMessage (m : mail) (sent : list mail) : send_result mail :=
  (match call sent m with
   | Err err => failure ProviderCode (error_text err)
   | Ok resp =>
       let messageID := default "" (head (MessageIds resp)) in
       if (200 <=? StatusCode resp) && (StatusCode resp <? 300) then success ProviderCode messageID (marshal resp)
       else reply {| Success := false; Provider.ProviderCode := ProviderCode; ProviderMessageID := messageID;
                     ErrorText := "sendgrid: status " +:+ fmt_d (StatusCode resp) +:+ ": " +:+ RBody resp; RawResponse := marshal resp |}
   end, sent ++ [m]).
Definition Send (cfg : Config) (req : SendRequest) (sent : list mail) : send_result mail :=
  if String.eqb (RecipientEmail req) "" then (failure ProviderCode "recipient email is required", sent)
  else sendMessage (buildMessage cfg req) sent.
Definition SendWithAttachments (cfg : Config) (req : SendRequest) (attachments : list Attachment) (sent : list mail) : send_result mail :=
  if String.eqb (RecipientEmail req) "" then (failure ProviderCode "recipient email is required", sent)
  else sendMessage (foldl (λ m att, attach att m) (buildMessage cfg req) attachments) sent.
Definition GetStatus (messageID : string) : DeliveryStatus := sent_status messageID (Some StatusSent).
End api.
Definition MaskEmail (email : string) : string := Delivery.MaskEmail email.
End SendGrid.

(** ** email/ses *)

Module Ses.
Definition ProviderCode : string := "ses".
Record Config := { AccessKeyID : string; SecretAccessKey : string; Region : string; FromEmail : string; FromName : string }.
Record SendEmailInput := {
  Source : string; ToAddresses : list string; ISubject : string; Html : option string; Text : string; Tags : list (string * string)
}.
Definition New (cfg : Config) (loadConfig : option error) : result error Config :=
  match loadConfig with Some err => Err (EWrap "ses: load aws config: " "" err) | None => Ok cfg end.
Definition ValidateConfig (cfg : Config) : option error :=
  if String.eqb (FromEmail cfg) "" then Some (EText "ses: FromEmail is required") else None.
Definition Enabled (cfg : Config) : bool := negb (String.eqb (FromEmail cfg) "").
Definition build_input (cfg : Config) (req : SendRequest) : SendEmailInput :=
  {| Source := if String.eqb (FromName cfg) "" then FromEmail cfg else FromName cfg +:+ " <" +:+ FromEmail cfg +:+ ">";
     ToAddresses := [RecipientEmail req]; ISubject := Subject req;
     Html := if String.eqb (HTMLBody req) "" then None else Some (HTMLBody req); Text := Body req;
     Tags := (if String.eqb (CorrelationID req) "" then [] else [("CorrelationID", CorrelationID req)])
             ++ (if String.eqb (TemplateCode req) "" then [] else [("TemplateCode", TemplateCode req)]) |}.
Section api.
Variable call : list SendEmailInput → SendEmailInput → result error (option string).
Variable marshal_id : string → list Z.
Definition Send (cfg : Config) (req : SendRequest) (sent : list SendEmailInput) : send_result SendEmailInput :=
  if String.eqb (RecipientEmail req) "" then (failure ProviderCode "recipient email is required", sent)
  else
    let input := build_input cfg req in
    (match call sent input with
     | Err err => failure ProviderCode (error_text err)
     | Ok id => success ProviderCode (default "" id) (marshal_id (default "" id))
     end, sent ++ [input]).
(** The attachments are counted in a warning and dropped. *)
Definition SendWithAttachments (cfg : Config) (req : SendRequest) (attachments : list Attachment) (sent : list SendEmailInput)
    : send_result SendEmailInput := Send cfg req sent.
Definition GetStatus (messageID : string) : DeliveryStatus := sent_status messageID (Some StatusSent).
End api.
Definition MaskEmail (email : string) : string := Delivery.MaskEmail email.
End Ses.

(** ** email/cloudflare *)

Module Cloudflare.
Definition ProviderCode : string := "cloudflare".
Definition apiBase : string := "https://api.cloudflare.com/client/v4".
Record Config := { AccountID : string; APIToken : string; FromEmail : string; FromName : string }.
Record parsed_response := { PSuccess : bool; Errors : list (string * string); ResultID : string }.
Record Inbound := {
  From : string; IFromName : string; ITo : string; ISubject : string; IText : string; IHTML : string; IMessageID : string; InReplyTo : string
}.
Definition ValidateConfig (cfg : Config) : option error :=
  if String.eqb (AccountID cfg) "" || String.eqb (APIToken cfg) "" || String.eqb (FromEmail cfg) ""
  then Some (EText "cloudflare: AccountID, APIToken and FromEmail are required") else None.
Definition Enabled (cfg : Config) : bool :=
  negb (String.eqb (AccountID cfg) "") && negb (String.eqb (APIToken cfg) "") && negb (String.eqb (FromEmail cfg) "").
Definition from (cfg : Config) : string :=
  if String.eqb (FromName cfg) "" then FromEmail cfg else FromName cfg +:+ " <" +:+ FromEmail cfg +:+ ">".
Definition attach_json (a : Attachment) : jv :=
  JO {[ "filename" := JS (Filename a); "type" := JS (ContentType a); "content" := JS (EncodeToString (Content a)) ]}.
(** omitempty leaves out empty texts, headers and attachments. *)
Definition sendBody (cfg : Config) (req : SendRequest) (atts : list Attachment) : jv :=
  let f := {[ "from" := JS (from cfg); "to" := JA [JS (RecipientEmail req)]; "subject" := JS (Subject req) ]} : gmap string jv in
  let f := if String.eqb (HTMLBody req) "" then f else <["html" := JS (HTMLBody req)]> f in
  let f := if String.eqb (Body req) "" then f else <["text" := JS (Body req)]> f in
  let f := match Options req !! "headers" with
           | Some (OptHeaders h) => if decide (h = ∅) then f else <["headers" := JO (JS <$> h)]> f
           | _ => f
           end in
  JO (match atts with [] => f | _ => <["attachments" := JA (attach_json <$> atts)]> f end).
Section api.
Context `{Http}.
(** What Decode leaves in the value, its error and that of the reading ignored. *)
Variable decode : string → parsed_response.
Definition rejection (status : Z) (parsed : parsed_response) : error :=
  match head (Errors parsed) with
  | Some (code, message) => NewProviderError ProviderCode code (code +:+ ": " +:+ message) (500 <=? status) None
  | None => NewProviderError ProviderCode "E_SEND_FAILED" "cloudflare rejected the message" (500 <=? status) None
  end.
(** [partial] is what was decoded of a body whose reading failed. *)
Definition send (partial : error → parsed_response) (cfg : Config) (req : SendRequest) (atts : list Attachment)
    (sent : list HttpRequest) : send_result HttpRequest :=
  match ValidateConfig cfg with
  | Some err => ((None, Some err), sent)
  | None =>
      if String.eqb (RecipientEmail req) ""
      then ((None, Some (NewProviderError ProviderCode "E_NO_RECIPIENT" "RecipientEmail is required" false None)), sent)
      else
        let '(r, sent) := post (apiBase +:+ "/accounts/" +:+ AccountID cfg +:+ "/email/sending/send")
          [("Authorization", "Bearer " +:+ APIToken cfg); ("Content-Type", "application/json")] (sendBody cfg req atts) sent in
        let finish := λ (status : Z) (parsed : parsed_response),
          if (300 <=? status) || negb (PSuccess parsed) then (None, Some (rejection status parsed))
          else success ProviderCode (ResultID parsed) [] in
        (match r with
         | PMarshal err | PBuild err => (None, Some err)
         | PDo err => (None, Some (NewProviderError ProviderCode "E_TRANSPORT" "cloudflare send failed" true (Some err)))
         | PRead status err => finish status (partial err)
         | PDone status raw => finish status (decode raw)
         end, sent)
  end.
Definition Send (partial : error → parsed_response) (cfg : Config) (req : SendRequest) (sent : list HttpRequest) :=
  send partial cfg req [] sent.
Definition SendWithAttachments (partial : error → parsed_response) (cfg : Config) (req : SendRequest) (atts : list Attachment)
    (sent : list HttpRequest) := send partial cfg req atts sent.
Definition GetStatus (messageID : string) : DeliveryStatus := sent_status messageID (Some StatusUnknown).
End api.
(** [unmarshal] is json.Unmarshal of the worker's payload. *)
Definition ParseInbound (unmarshal : string → result error Inbound) (body : string) : result error Inbound :=
  match unmarshal body with
  | Err err => Err (EWrap "cloudflare: parse inbound: " "" err)
  | Ok i => if String.eqb (From i) "" then Err (EText "cloudflare: inbound missing From") else Ok i
  end.
End Cloudflare.

(** ** telegram *)

Module Telegram.
Definition ProviderCode : string := "telegram_bot".
Definition APIBaseURL : string := "https://api.telegram.org".
Record Config := { BotToken : string; CAPIBaseURL : string; Timeout : Duration }.
Record APIResponse := { OK : bool; Result : string; Description : string; ErrorCode : Z }.
Definition New (cfg : Config) : Config :=
  {| BotToken := BotToken cfg; CAPIBaseURL := if String.eqb (CAPIBaseURL cfg) "" then APIBaseURL else CAPIBaseURL cfg;
     Timeout := if Timeout cfg =? 0 then 10 * Second else Timeout cfg |}.
Definition ValidateConfig (cfg : Config) : option error :=
  if String.eqb (BotToken cfg) "" then Some (EText "telegram: BotToken is required") else None.
Definition Enabled (cfg : Config) : bool := negb (String.eqb (BotToken cfg) "").
Section api.
Context `{Http}.
Variable decode : string → result error APIResponse.
(** url.Values.Encode: the query of the form, its keys in order. *)
Variable form_encode : list (string * string) → string.
Definition form (req : SendRequest) : list (string * string) :=
  let html := negb (String.eqb (HTMLBody req) "") in
  [("chat_id", RecipientTelegramChatID req)] ++ (if html then [("parse_mode", "HTML")] else [])
  ++ [("text", if html then HTMLBody req else Body req)].
Definition call (endpoint : string) (f : list (string * string)) (sent : list HttpRequest) : result error APIResponse * list HttpRequest :=
  match NewRequest "POST" endpoint with
  | Some err => (Err (EWrap "build request: " "" err), sent)
  | None =>
      let req := {| h_method := "POST"; h_url := endpoint +:+ "?" +:+ form_encode f; h_headers := []; h_body := "" |} in
      (match exchange sent req with
       | Err err => Err (EWrap "http: " "" err)
       | Ok (_, Err err) => Err (EWrap "read body: " "" err)
       | Ok (_, Ok body) =>
           match decode body with
           | Err err => Err (EWrap "decode: " (" (body: " +:+ body +:+ ")") err)
           | Ok api => Ok api
           end
       end, sent ++ [req])
  end.
Definition endpoint (cfg : Config) : string := CAPIBaseURL cfg +:+ "/bot" +:+ BotToken cfg +:+ "/sendMessage".
Definition Send (cfg : Config) (req : SendRequest) (sent : list HttpRequest) : send_result HttpRequest :=
  if String.eqb (RecipientTelegramChatID req) "" then (failure ProviderCode "recipient chat_id is required", sent)
  else if String.eqb (BotToken cfg) "" then (failure ProviderCode "bot token not configured", sent)
  else
    let '(r, sent) := call (endpoint cfg) (form req) sent in
    (match r with
     | Err err => failure ProviderCode (error_text err)
     | Ok resp => if OK resp then success ProviderCode "" (bytes_of (Result resp))
                  else failure ProviderCode ("telegram: " +:+ fmt_d (ErrorCode resp) +:+ " " +:+ Description resp)
     end, sent).
Definition GetStatus (messageID : string) : DeliveryStatus := sent_status messageID (Some StatusSent).
End api.
End Telegram.

(** ** The contract *)

Section contract.
Context `{Http}.
(** The vendors' acceptances, as each adapter is documented to read them: an Expo
    ticket that is no error, an FCM name, a 2xx of SendGrid, an SES id, a success
    flag below 300 of Cloudflare, Telegram's ok. *)
Definition expo_vendor (decode_tickets : string → result error (list Expo.PushTicket)) : vendor HttpRequest :=
  http_vendor (λ to, carries (λ p, ∃ m, p = JA [m] ∧ has_member "to" (JS to) m))
    (λ status body, match body with
     | Ok raw => if status <? 300 then
                   match decode_tickets raw with
                   | Ok (t :: _) => if String.eqb (Expo.TStatus t) "error" then None else Some (Expo.ID t)
                   | _ => None
                   end else None
     | Err _ => None
     end).
Definition fcm_vendor (call : list Fcm.fcm_request → Fcm.fcm_request → result error Fcm.fcm_reply) : vendor Fcm.fcm_request :=
  {| addressed to x := match x with Fcm.ToToken token _ _ _ _ => token = to | _ => False end;
     verdict sent x := match call sent x with Ok r => Some (Fcm.name_of r) | Err _ => None end |}.
Definition sendgrid_vendor (call : list SendGrid.mail → SendGrid.mail → result error SendGrid.api_response) : vendor SendGrid.mail :=
  {| addressed to x := SendGrid.M_To x = to;
     verdict sent x := match call sent x with
       | Ok r => if (200 <=? SendGrid.StatusCode r) && (SendGrid.StatusCode r <? 300)
                 then Some (default "" (head (SendGrid.MessageIds r))) else None
       | Err _ => None
       end |}.
Definition ses_vendor (call : list Ses.SendEmailInput → Ses.SendEmailInput → result error (option string))
    : vendor Ses.SendEmailInput :=
  {| addressed to x := Ses.ToAddresses x = [to];
     verdict sent x := match call sent x with Ok id => Some (default "" id) | Err _ => None end |}.
Definition cloudflare_vendor (decode : string → Cloudflare.parsed_response) (partial : error → Cloudflare.parsed_response)
    : vendor HttpRequest :=
  http_vendor (λ to, carries (has_member "to" (JA [JS to])))
    (λ status body, let parsed := match body with Ok raw => decode raw | Err err => partial err end in
     if (status <? 300) && Cloudflare.PSuccess parsed then Some (Cloudflare.ResultID parsed) else None).
(** Telegram's answer is read for ok alone; the adapter keeps no message id. *)
Definition telegram_vendor (decode : string → result error Telegram.APIResponse) (form_encode : list (string * string) → string)
    : vendor HttpRequest :=
  http_vendor (λ to x, ∃ base f, h_url x = base +:+ "?" +:+ form_encode f ∧ ("chat_id", to) ∈ f)
    (λ _ body, match body with
     | Ok raw => match decode raw with Ok r => if Telegram.OK r then Some "" else None | Err _ => None end
     | Err _ => None
     end).

Lemma expo_delivers dt mt req sent :
  delivered (expo_vendor dt) Expo.ProviderCode (RecipientDeviceToken req) sent (Expo.Send dt mt req sent).
Proof.
  unfold Expo.Send. recipient_given. destruct (negb _); [eauto with delivery|]. unfold Expo.sendBatch. posted.
  all: apply delivered_asked; [done| |vendor_says; try (by constructor)].
  all: try (eexists; split; [done|]; eexists; split; [done|]; unfold Expo.message_json, has_member; cbn;
    repeat case_match; by simplify_map_eq).
  rewrite Z.ltb_antisym. destruct (300 <=? status); cbn; [by constructor|].
  destruct (dt raw) as [[|t ts]|]; cbn; [by constructor| |by constructor].
  destruct (String.eqb (Expo.TStatus t) "error"); [by constructor|by eexists].
Qed.
Lemma fcm_delivers call mi req sent :
  delivered (fcm_vendor call) Fcm.ProviderCode (RecipientDeviceToken req) sent (Fcm.Send call mi req sent).
Proof.
  unfold Fcm.Send. recipient_given. apply delivered_asked; [done..|]. cbn. destruct (call _ _); cbn; [by eexists|by constructor].
Qed.
Lemma sendMessage_delivers call ma m to sent :
  to ≠ "" → SendGrid.M_To m = to → delivered (sendgrid_vendor call) SendGrid.ProviderCode to sent (SendGrid.sendMessage call ma m sent).
Proof.
  intros. unfold SendGrid.sendMessage. apply delivered_asked; [done..|]. cbn.
  destruct (call _ _); cbn; [|by constructor]. destruct (_ && _); [by eexists|by constructor].
Qed.
Lemma attached_to atts m : SendGrid.M_To (foldl (λ m att, SendGrid.attach att m) m atts) = SendGrid.M_To m.
Proof. revert m. induction atts as [|a atts IH]; intros m; [done|]. cbn [foldl]. by rewrite IH. Qed.
Lemma sendgrid_delivers call ma cfg req sent :
  let ok := delivered (sendgrid_vendor call) SendGrid.ProviderCode (RecipientEmail req) sent in
  ok (SendGrid.Send call ma cfg req sent) ∧ ∀ atts, ok (SendGrid.SendWithAttachments call ma cfg req atts sent).
Proof.
  unfold SendGrid.Send, SendGrid.SendWithAttachments. cbv zeta. split; intros; recipient_given; apply sendMessage_delivers; try done.
  by rewrite attached_to.
Qed.
Lemma ses_delivers call mi cfg req sent :
  delivered (ses_vendor call) Ses.ProviderCode (RecipientEmail req) sent (Ses.Send call mi cfg req sent).
Proof.
  unfold Ses.Send. recipient_given. apply delivered_asked; [done..|]. cbn. destruct (call _ _); cbn; [by eexists|by constructor].
Qed.
Lemma cloudflare_delivers decode partial cfg req atts sent :
  delivered (cloudflare_vendor decode partial) Cloudflare.ProviderCode (RecipientEmail req) sent
    (Cloudflare.send decode partial cfg req atts sent).
Proof.
  unfold Cloudflare.send. destruct (Cloudflare.ValidateConfig cfg); [eauto with delivery|]. recipient_given. cbv zeta. posted.
  all: apply delivered_asked; [done| |vendor_says; cbv zeta; try (by constructor)].
  all: try (eexists; split; [done|]; unfold Cloudflare.sendBody, has_member; cbn; repeat case_match; by simplify_map_eq).
  all: rewrite Z.ltb_antisym; destruct (300 <=? status); cbn; [by constructor|].
  all: destruct (Cloudflare.PSuccess _); cbn; [by eexists|by constructor].
Qed.
Lemma telegram_delivers decode fe cfg req sent :
  delivered (telegram_vendor decode fe) Telegram.ProviderCode (RecipientTelegramChatID req) sent (Telegram.Send decode fe cfg req sent).
Proof.
  unfold Telegram.Send. recipient_given. destruct (String.eqb (Telegram.BotToken cfg) ""); [eauto with delivery|].
  unfold Telegram.call. destruct (NewRequest _ _); [eauto with delivery|].
  apply delivered_asked; [done|eexists _, _; split; [done|by left]|]. cbn.
  destruct (exchange _ _) as [[? [body|]]|]; cbn; [|by constructor..]. destruct (decode body) as [r|]; cbn; [|by constructor].
  destruct (Telegram.OK r); [by eexists|by constructor].
Qed.
End contract.

(** *** The adapters as providers *)

(** An adapter: its code and channels, where it sends to, and its Send over the
    vendor requests of its own kind. *)
Record adapter := {
  a_code : string; a_channels : list Channel; a_recipient : SendRequest → string; a_enabled : bool; a_sms : bool;
  a_traffic : Type; a_vendor : vendor a_traffic; a_send : SendRequest → list a_traffic → send_result a_traffic
}.
(** Every send is a delivery under the vendor's verdicts. *)
Definition adapter_ok (a : adapter) : Prop :=
  ∀ req sent, delivered (a_vendor a) (a_code a) (a_recipient a req) sent (a_send a req sent).
(** The value of the interface, for one state of the vendor. *)
Definition as_provider (a : adapter) (sent : list (a_traffic a)) : Provider :=
  {| Code := a_code a; SupportedChannels := a_channels a; Provider.Send := λ req, (a_send a req sent).1; Enabled := a_enabled a; is_sms := a_sms a |}.

Lemma Register_Get p q r code :
  Get code r = Some q → Get code (fst (Register (Some p) r)) = Some q.
Proof.
  unfold Get, Register. intros Hq. destruct (String.eqb (Code p) ""); [done|]. destruct (providers r !! Code p) eqn:E; [done|].
  cbn. rewrite lookup_insert_ne; [done|]. intros <-. congruence.
Qed.
(** Providers with distinct codes are all registered. *)
Lemma register_distinct ps r :
  NoDup (Code <$> ps) → Forall (λ p, Code p ≠ "" ∧ Get (Code p) r = None) ps →
  ∀ p, p ∈ ps → Get (Code p) (foldl (λ r p, fst (Register p r)) r (Some <$> ps)) = Some p.
Proof.
  revert r. induction ps as [|q ps IH]; intros r Hd Hf p Hp; [by apply elem_of_nil in Hp|].
  apply NoDup_cons in Hd as [Hq Hd]. apply Forall_cons in Hf as [[Hne Hnone] Hf]. cbn [fmap list_fmap foldl].
  assert (Get (Code q) (fst (Register (Some q) r)) = Some q ∧
    Forall (λ p, Code p ≠ "" ∧ Get (Code p) (fst (Register (Some q) r)) = None) ps) as [Hg Hf'].
  { apply String.eqb_neq in Hne. unfold Register, Get in *. rewrite Hne, Hnone. cbn. split; [by rewrite lookup_insert_eq|].
    apply Forall_forall. intros p' Hp'. rewrite Forall_forall in Hf. destruct (Hf p' Hp') as [H1 H2]. split; [done|].
    rewrite lookup_insert_ne; [done|]. intros Ec. apply Hq. rewrite Ec. by apply list_elem_of_fmap_2. }
  apply elem_of_cons in Hp as [->|Hp]; [|by apply IH].
  clear -Hg. revert Hg. generalize (fst (Register (Some q) r)) as r0. induction ps as [|p ps IH]; intros r0 Hg; [done|].
  cbn [fmap list_fmap foldl]. apply IH. by apply Register_Get.
Qed.

(** Adapters with distinct codes, registered together. *)
Definition registry_of (l : list adapter) : Registry :=
  foldl (λ r p, fst (Register p r)) NewRegistry (Some <$> ((λ a, as_provider a []) <$> l)).
Lemma register_adapters l a c :
  NoDup (a_code <$> l) → Forall (λ a, a_code a ≠ "") l → a ∈ l →
  Get (a_code a) (registry_of l) = Some (as_provider a []) ∧ (as_provider a [] ∈ ByChannel c (registry_of l) ↔ c ∈ a_channels a).
Proof.
  intros Hd Hn Ha. unfold registry_of. set (ps := (λ a, as_provider a []) <$> l).
  assert (as_provider a [] ∈ ps) as Hin by (by apply (list_elem_of_fmap_2 (λ a, as_provider a []))).
  assert (Get (Code (as_provider a [])) (foldl (λ r p, fst (Register p r)) NewRegistry (Some <$> ps)) = Some (as_provider a [])) as Hget.
  { apply register_distinct; [| |done].
    - unfold ps. rewrite <-list_fmap_compose. exact Hd.
    - apply Forall_forall. intros p (a' & -> & Ha')%list_elem_of_fmap_1. split; [|done].
      rewrite Forall_forall in Hn. by apply Hn. }
  split; [done|]. rewrite (inv_channel _ (registry_inv (Some <$> ps)) c (as_provider a [])). cbn.
  split; [by intros [_ ?]|by intros ?].
Qed.

Section all.
Context `{TwilioAPI} `{Http} `{Meta.Decoders} `{Unicode}.
Variable sms : Sms.Provider.
Variable voice : Voice.Config.
Variable wa : WhatsApp.Config.
Variable meta : Meta.Config.
Variable adminli : Adminli.Config.
Variable adminli_decode : string → result error Adminli.SendMessageResponse.
Variable fcm_call : list Fcm.fcm_request → Fcm.fcm_request → result error Fcm.fcm_reply.
Variable fcm_marshal : list (string * string) → list Z.
Variable decode_tickets : string → result error (list Expo.PushTicket).
Variable marshal_ticket : Expo.PushTicket → list Z.
Variable sendgrid : SendGrid.Config.
Variable sendgrid_call : list SendGrid.mail → SendGrid.mail → result error SendGrid.api_response.
Variable sendgrid_marshal : SendGrid.api_response → list Z.
Variable ses : Ses.Config.
Variable ses_call : list Ses.SendEmailInput → Ses.SendEmailInput → result error (option string).
Variable ses_marshal : string → list Z.
Variable cloudflare : Cloudflare.Config.
Variable cloudflare_decode : string → Cloudflare.parsed_response.
Variable cloudflare_partial : error → Cloudflare.parsed_response.
Variable telegram : Telegram.Config.
Variable telegram_decode : string → result error Telegram.APIResponse.
Variable form_encode : list (string * string) → string.

Definition adapters : list adapter := [
  {| a_code := Sms.ProviderCode; a_channels := [ChannelSMS]; a_recipient := RecipientPhone; a_enabled := Sms.Enabled sms; a_sms := true;
     a_vendor := sms_vendor; a_send := Sms.Send sms |};
  {| a_code := Voice.ProviderCode; a_channels := [ChannelVoice]; a_recipient := RecipientPhone; a_enabled := Voice.Enabled voice; a_sms := false;
     a_vendor := voice_vendor; a_send := Voice.Send voice |};
  {| a_code := WhatsApp.ProviderCode; a_channels := [ChannelWhatsApp]; a_recipient := RecipientPhone; a_enabled := WhatsApp.Enabled wa; a_sms := false;
     a_vendor := whatsapp_vendor; a_send := WhatsApp.Send wa |};
  {| a_code := Meta.ProviderCode; a_channels := [ChannelWhatsApp]; a_recipient := RecipientPhone; a_enabled := Meta.Enabled meta; a_sms := false;
     a_vendor := meta_vendor; a_send := Meta.Send meta |};
  {| a_code := Adminli.ProviderCode; a_channels := [ChannelWhatsApp]; a_recipient := RecipientPhone; a_enabled := Adminli.Enabled adminli; a_sms := false;
     a_vendor := adminli_vendor adminli_decode; a_send := Adminli.Send |};
  {| a_code := Fcm.ProviderCode; a_channels := [ChannelPush]; a_recipient := RecipientDeviceToken; a_enabled := true; a_sms := false;
     a_vendor := fcm_vendor fcm_call; a_send := Fcm.Send fcm_call fcm_marshal |};
  {| a_code := Expo.ProviderCode; a_channels := [ChannelPush]; a_recipient := RecipientDeviceToken; a_enabled := true; a_sms := false;
     a_vendor := expo_vendor decode_tickets; a_send := Expo.Send decode_tickets marshal_ticket |};
  {| a_code := SendGrid.ProviderCode; a_channels := [ChannelEmail]; a_recipient := RecipientEmail; a_enabled := SendGrid.Enabled sendgrid; a_sms := false;
     a_vendor := sendgrid_vendor sendgrid_call; a_send := SendGrid.Send sendgrid_call sendgrid_marshal sendgrid |};
  {| a_code := Ses.ProviderCode; a_channels := [ChannelEmail]; a_recipient := RecipientEmail; a_enabled := Ses.Enabled ses; a_sms := false;
     a_vendor := ses_vendor ses_call; a_send := Ses.Send ses_call ses_marshal ses |};
  {| a_code := Cloudflare.ProviderCode; a_channels := [ChannelEmail]; a_recipient := RecipientEmail; a_enabled := Cloudflare.Enabled cloudflare; a_sms := false;
     a_vendor := cloudflare_vendor cloudflare_decode cloudflare_partial; a_send := Cloudflare.Send cloudflare_decode cloudflare_partial cloudflare |};
  {| a_code := Telegram.ProviderCode; a_channels := [ChannelTelegram]; a_recipient := RecipientTelegramChatID; a_enabled := Telegram.Enabled telegram;
     a_sms := false; a_vendor := telegram_vendor telegram_decode form_encode; a_send := Telegram.Send telegram_decode form_encode telegram |}
].
Lemma adapters_ok : Forall adapter_ok adapters.
Proof.
  repeat apply Forall_cons_2; [..|apply Forall_nil_2]; intros req sent; cbn [a_code a_recipient a_vendor a_send].
  - apply sms_delivers.
  - apply voice_delivers.
  - apply whatsapp_twilio_delivers.
  - apply meta_delivers.
  - apply (adminli_delivers (λ _, {| Adminli.Error := ""; Adminli.Code := 0; Adminli.Message := "" |}) adminli_decode adminli).
  - apply fcm_delivers.
  - apply expo_delivers.
  - apply sendgrid_delivers.
  - apply ses_delivers.
  - apply cloudflare_delivers.
  - apply telegram_delivers.
Qed.

End all.

(** ** What the adapters do not do *)

(** Expo answers for the Expo tokens only: after a skipped token the responses are
    at other indices than their tokens. *)
Definition ok_http (raw : string) : Http :=
  {| Marshal := λ _, Ok ""; NewRequest := λ _ _, None; exchange := λ _ _, Ok (200, Ok raw) |}.
Definition push_request : SendRequest :=
  {| RecipientEmail := ""; RecipientPhone := ""; RecipientDeviceToken := ""; RecipientTelegramChatID := "7"; Subject := "t"; Body := "b";
     HTMLBody := ""; TemplateCode := ""; Language := ""; CorrelationID := ""; ContextData := ∅; Options := ∅ |}.
Lemma expo_skips_shift :
  let tickets := [{| Expo.ID := "A"; Expo.TStatus := "ok"; Expo.Message := "" |}; {| Expo.ID := "C"; Expo.TStatus := "ok"; Expo.Message := "" |}] in
  (@Expo.SendMulticast (ok_http "") (λ _, Ok tickets) ["ExpoPushToken[a]"; "fcm-token"; "ExpoPushToken[c]"] push_request []).1
  = Ok (Expo.ticket_response <$> tickets).
Proof. reflexivity. Qed.
(** A ticket with an error and no message is a failure without a text. *)
Lemma expo_silent_failure :
  ErrorText (Expo.ticket_response {| Expo.ID := ""; Expo.TStatus := "error"; Expo.Message := "" |}) = "" ∧
  Success (Expo.ticket_response {| Expo.ID := ""; Expo.TStatus := "error"; Expo.Message := "" |}) = false.
Proof. done. Qed.
(** SendGrid's attachment content is the raw bytes, Cloudflare's is base64. *)
Lemma sendgrid_content_not_base64 m :
  let att := {| Filename := "a.txt"; ContentType := "text/plain"; Content := [104; 105; 33] |} in
  SendGrid.A_Content <$> last (SendGrid.M_Attachments (SendGrid.attach att m)) = Some "hi!" ∧ DecodeString "hi!" = None ∧
  DecodeString (EncodeToString (Content att)) = Some (Content att).
Proof. split_and!; [|by vm_compute..]. cbn. by rewrite last_snoc. Qed.
(** When the transport error names the URL, as url.Error does, the text returned names the bot token. *)
Lemma telegram_error_names_token `{Http} decode fe cfg req sent err :
  RecipientTelegramChatID req ≠ "" → Telegram.BotToken cfg ≠ "" → (∀ m u, NewRequest m u = None) → (∀ s r, exchange s r = Err (err (h_url r))) →
  ErrorText <$> (Telegram.Send decode fe cfg req sent).1.1
  = Some ("http: " +:+ error_text (err (Telegram.endpoint cfg +:+ "?" +:+ fe (Telegram.form req)))).
Proof.
  intros H1%String.eqb_neq H2%String.eqb_neq Hn He. unfold Telegram.Send, Telegram.call. rewrite H1, H2, Hn, He.
  cbn. by rewrite string_app_nil_r.
Qed.

(** ** Masked recipients *)

(** The mask of a phone number keeps its length, and its last four characters are stars. *)
Lemma MaskPhone_hides phone :
  4 < slen phone →
  MaskPhone phone = of_bytes (take (String.length phone - 4) (bytes_of phone)) +:+ "****" ∧ slen (MaskPhone phone) = slen phone.
Proof.
  intros Hl. unfold MaskPhone. destruct (Z.leb_spec (slen phone) 4); [lia|].
  assert (Z.to_nat (slen phone - 4) = (String.length phone - 4)%nat) as En by (unfold slen in *; lia).
  unfold prefix_of_len. rewrite En. split; [done|]. rewrite slen_app. unfold slen in *.
  rewrite <-bytes_of_length, bytes_of_of_bytes, length_take, bytes_of_length by (apply Forall_take, bytes_of_range). cbn. lia.
Qed.
