(* ===== verification/Bus.v ===== *)
(** * Packages bus and bus/nats

    The options of a publish (src/bus/bus.go), the loggers (src/bus/logger.go)
    and the broker of src/bus/nats on JetStream.  The NATS connection is the
    class [Nats], which answers each call from the calls made before it; a world
    keeps those calls and what went to the logger. *)

From S2P Require Import Prelude GoString GoErrors Base64 Generics.
From stdpp Require Import base list gmap strings.
From Stdlib Require Import ZArith Lia.
Open Scope Z_scope.

(** ** bus.go *)

Record PublishConfig := { OrderingKey : string; Headers : option (gmap string string) }.
Definition PublishOption : Type := PublishConfig → PublishConfig.
Definition ApplyPublishOptions (opts : list PublishOption) : PublishConfig :=
  foldl (λ cfg opt, opt cfg) {| OrderingKey := ""; Headers := None |} opts.
Definition WithOrderingKey (key : string) : PublishOption := λ c,
  {| OrderingKey := key; Headers := Headers c |}.
(** [order] visits the caller's map. *)
Definition WithHeaders (order : list (string * string)) : PublishOption := λ c,
  {| OrderingKey := OrderingKey c; Headers := Some (Mapx.copy_into order (default ∅ (Headers c))) |}.

(** config.go *)
Record Config := { Type_ : string; URL : string; User : string; Password : string; ServiceName : string }.

(** ** logger.go *)

Inductive level := Info | Error.
Inductive Logger := NoopLogger | zapAdapter | CustomLogger (name : string).
(** What reaches a logger: the calls of zap, or those of the caller's own. *)
Inductive log_call := Zap (l : level) (msg : string) (fields : list (string * string))
                    | Custom (name : string) (l : level) (msg : string) (fields : list (string * string)).
Definition WrapZap (z : option unit) : Logger := match z with None => NoopLogger | Some _ => zapAdapter end.
Definition toZapFields (order : list (string * string)) : list (string * string) :=
  foldl (λ out kv, out ++ [kv]) [] order.
Definition log (l : Logger) (lv : level) (msg : string) (order : list (string * string)) : list log_call :=
  match l with
  | NoopLogger => []
  | zapAdapter => [Zap lv msg (toZapFields order)]
  | CustomLogger n => [Custom n lv msg order]
  end.

(** ** bus/nats *)

(** The options of natsgo.Connect; the handlers are [on_reconnect] and
    [on_disconnect]. *)
Inductive nats_option :=
| Name (s : string) | ReconnectWait (d : Duration) | MaxReconnects (n : Z)
| ReconnectHandler | DisconnectErrHandler | UserInfo (user pass : string).
Record ConsumerConfig := {
  CName : string; Durable : string; FilterSubject : string; AckExplicit : bool;
  AckWait : Duration; MaxDeliver : Z; DeliverNew : bool
}.
Inductive nats_call :=
| Connect (url : string) (opts : list nats_option)
| JetStream
| Publish (subject : string) (data : list Z)
| CreateOrUpdateConsumer (stream : string) (cfg : ConsumerConfig)
| Consume (consumer : string)
| Ack (id : nat) | Nak (id : nat)
| StopConsume (consumer : string)
| Drain_
| CloseConn.
Class Nats := {
  fails : list nats_call → nats_call → option error;   (* what a call returns *)
  IsConnected : list nats_call → bool;
  ConnectedUrl : string
}.

(** The argument [data] of PublishRaw: a []byte (nil or not), or another value. *)
Inductive payload {any : Type} := PBytes (b : option (list Z)) | PValue (x : any).
Arguments payload : clear implicits.

Record World := { calls : list nats_call; logs : list log_call }.
Record Broker := { logger : Logger; has_conn : bool; closed : bool }.
(** jetstream.Msg *)
Record Msg := { msg_id : nat; msg_subject : string; msg_data : list Z }.

Section nats.
Context `{Nats} {any : Type}.
Variable json_Marshal : any → result error (list Z).   (* of a value that is not a []byte *)

(** encoding/json writes a []byte in base64, a nil one as null. *)
Definition Marshal (d : payload any) : result error (list Z) :=
  match d with
  | PBytes None => Ok (bytes_of "null")
  | PBytes (Some b) => Ok (34 :: bytes_of (EncodeToString b) ++ [34])
  | PValue x => json_Marshal x
  end.

Definition do (c : nats_call) (w : World) : option error * World :=
  (fails (calls w) c, {| calls := calls w ++ [c]; logs := logs w |}).
Definition logs_to (l : Logger) (lv : level) (msg : string) (fields : list (string * string)) (w : World) : World :=
  {| calls := calls w; logs := logs w ++ log l lv msg fields |}.

Definition on_reconnect (l : Logger) (w : World) : World :=
  logs_to l Info "nats: reconnected" [("url", ConnectedUrl)] w.
Definition on_disconnect (l : Logger) (err : option error) (w : World) : World :=
  match err with Some e => logs_to l Error "nats: disconnected" [("error", error_text e)] w | None => w end.

Definition connect_options (cfg : Config) : list nats_option :=
  [Name (ServiceName cfg); ReconnectWait (2 * Second); MaxReconnects (-1); ReconnectHandler; DisconnectErrHandler]
  ++ (if negb (String.eqb (User cfg) "") && negb (String.eqb (Password cfg) "")
      then [UserInfo (User cfg) (Password cfg)] else []).
Definition NewBroker (cfg : option Config) (lg : option Logger) (w : World) : result error Broker * World :=
  match cfg with
  | None => (Err (EText "nats: URL and ServiceName are required"), w)
  | Some cfg =>
      if String.eqb (URL cfg) "" || String.eqb (ServiceName cfg) ""
      then (Err (EText "nats: URL and ServiceName are required"), w)
      else
        let lg := default NoopLogger lg in
        match do (Connect (URL cfg) (connect_options cfg)) w with
        | (Some err, w) => (Err (EWrap ("nats: connect " +:+ URL cfg +:+ ": ") "" err), w)
        | (None, w) =>
            match do JetStream w with
            | (Some err, w) => (Err (EWrap "nats: jetstream: " "" err), (do CloseConn w).2)
            | (None, w) =>
                (Ok {| logger := lg; has_conn := true; closed := false |},
                 logs_to lg Info "nats: connected" [("service", ServiceName cfg); ("url", URL cfg)] w)
            end
        end
  end.

(** The options are not used. *)
Definition PublishRaw (subject : string) (data : payload any) (opts : list PublishOption) (b : Broker) (w : World)
    : option error * World :=
  if closed b then (Some (EText "nats: broker closed"), w)
  else
    match Marshal data with
    | Err err => (Some (EWrap "nats: marshal: " "" err), w)
    | Ok bytes =>
        match do (Publish subject bytes) w with
        | (Some err, w) => (Some (EWrap ("nats: publish " +:+ subject +:+ ": ") "" err), w)
        | (None, w) => (None, w)
        end
    end.

Definition consumer_config (consumerName filterSubject : string) : ConsumerConfig :=
  {| CName := consumerName; Durable := consumerName; FilterSubject := filterSubject; AckExplicit := true;
     AckWait := 30 * Second; MaxDeliver := 5; DeliverNew := true |}.
Definition Subscribe (stream consumerName filterSubject : string) (b : Broker) (w : World)
    : result error string * World :=
  match do (CreateOrUpdateConsumer stream (consumer_config consumerName filterSubject)) w with
  | (Some err, w) => (Err (EWrap ("nats: create consumer " +:+ consumerName +:+ ": ") "" err), w)
  | (None, w) =>
      match do (Consume consumerName) w with
      | (Some err, w) => (Err (EWrap "nats: consume: " "" err), w)
      | (None, w) =>
          (Ok consumerName,
           logs_to (logger b) Info "nats: subscribed"
             [("stream", stream); ("consumer", consumerName); ("filter", filterSubject)] w)
      end
  end.
(** The callback given to Consume, for one delivery; the handler acts on a state
    of its own. *)
Definition deliver {S} (handler : Msg → S → option error * S) (b : Broker) (m : Msg) (sw : S * World) : S * World :=
  let '(s, w) := sw in
  match handler m s with
  | (Some err, s) =>
      let w := logs_to (logger b) Error "nats: handler error"
                 [("subject", msg_subject m); ("error", error_text err)] w in
      (s, (do (Nak (msg_id m)) w).2)
  | (None, s) => (s, (do (Ack (msg_id m)) w).2)
  end.

Definition Health (b : Broker) (w : World) : option error :=
  if negb (has_conn b) || negb (IsConnected (calls w)) then Some (EText "nats: not connected") else None.
Definition Drain (b : Broker) (w : World) : option error * World :=
  if has_conn b then do Drain_ w else (None, w).
Definition Close (b : Broker) (w : World) : option error * Broker * World :=
  if closed b || negb (has_conn b) then (None, {| logger := logger b; has_conn := has_conn b; closed := true |}, w)
  else
    let w := (do CloseConn w).2 in
    (None, {| logger := logger b; has_conn := has_conn b; closed := true |},
     logs_to (logger b) Info "nats: closed" [] w).
(** natsSubscription.Stop; nil is no consume context. *)
Definition Stop (sub : option string) (w : World) : World :=
  match sub with Some c => (do (StopConsume c) w).2 | None => w end.
End nats.

(** ** Options of a publish *)

Definition option_of (o : string + list (string * string)) : PublishOption :=
  match o with inl key => WithOrderingKey key | inr h => WithHeaders h end.

Lemma copy_into_lookup (order : list (string * string)) (m : gmap string string) k :
  Mapx.copy_into order m !! k =
    match last (filter (λ kv, kv.1 = k) order) with Some kv => Some kv.2 | None => m !! k end.
Proof.
  unfold Mapx.copy_into. induction order as [|[k' v] order IH] using rev_ind; [done|].
  rewrite foldl_app, filter_app, last_app. cbn [foldl fst snd]. rewrite filter_cons, filter_nil. cbn [fst].
  destruct (decide (k' = k)) as [->|]; [by rewrite lookup_insert_eq|]. by rewrite lookup_insert_ne.
Qed.

(** the options of a publish accumulate: the ordering key is the last one
    given, and each header has the value of the last WithHeaders that names it,
    in whatever order the options are mixed; without one there is no map. *)
Theorem publish_options os :
  let cfg := ApplyPublishOptions (option_of <$> os) in
  OrderingKey cfg = default "" (last (omap (λ o, match o with inl key => Some key | inr _ => None end) os)) ∧
  (Headers cfg = None ↔ omap (λ o, match o with inl _ => None | inr h => Some h end) os = []) ∧
  ∀ k, default ∅ (Headers cfg) !! k =
    snd <$> last (filter (λ kv, kv.1 = k) (mjoin (omap (λ o, match o with inl _ => None | inr h => Some h end) os))).
Proof.
  unfold ApplyPublishOptions. induction os as [|o os (IHk & IHn & IHh)] using rev_ind; [done|]. cbn zeta.
  rewrite fmap_app, foldl_app, !omap_app, !last_app. cbn [fmap list_fmap foldl omap list_omap].
  set (cfg := foldl _ _ _) in *. destruct o as [key|h]; cbn [option_of WithOrderingKey WithHeaders OrderingKey Headers].
  - rewrite app_nil_r. cbn [last]. split_and!; [done..|]. intros k. apply IHh.
  - rewrite IHk. cbn [last]. split_and!; [by destruct (last _)|split; [done|by intros []%app_nil]|].
    intros k. rewrite join_app, filter_app, last_app. cbn [mjoin list_join]. rewrite app_nil_r. cbn [default id].
    rewrite copy_into_lookup. destruct (last (filter _ h)); [done|]. apply IHh.
Qed.

(** ** The broker of bus/nats *)

Section broker.
Context `{Nats} {any : Type}.
Variable json_Marshal : any → result error (list Z).

(** Opening a broker either yields one on a connection left open, or
    an error that leaves no connection behind: nothing is dialled without a URL
    and a service name, and the connection is closed when JetStream is refused.
    Credentials are sent only when both are configured. *)
Theorem NewBroker_leaves_no_connection cfg lg w :
  let '(r, w') := NewBroker cfg lg w in
  match r with
  | Ok b =>
      ∃ c, cfg = Some c ∧ URL c ≠ "" ∧ ServiceName c ≠ "" ∧ closed b = false ∧ has_conn b = true ∧
      calls w' = calls w ++ [Connect (URL c) (connect_options c); JetStream]
  | Err err =>
      (calls w' = calls w ∧ ∀ c, cfg = Some c → URL c = "" ∨ ServiceName c = "") ∨
      ∃ c, cfg = Some c ∧
        ((∃ e, fails (calls w) (Connect (URL c) (connect_options c)) = Some e ∧
               calls w' = calls w ++ [Connect (URL c) (connect_options c)]) ∨
         calls w' = calls w ++ [Connect (URL c) (connect_options c); JetStream; CloseConn])
  end ∧
  ∀ c u p, cfg = Some c → UserInfo u p ∈ connect_options c → u = User c ∧ p = Password c ∧ u ≠ "" ∧ p ≠ "".
Proof.
  assert (∀ c u p, UserInfo u p ∈ connect_options c → u = User c ∧ p = Password c ∧ u ≠ "" ∧ p ≠ "") as Hui.
  { intros c u p. unfold connect_options. rewrite elem_of_app, !elem_of_cons, elem_of_nil.
    destruct (String.eqb_spec (User c) ""), (String.eqb_spec (Password c) ""); cbn [negb andb];
      rewrite ?elem_of_cons, ?elem_of_nil; naive_solver. }
  unfold NewBroker, do. destruct cfg as [c|]; [|split; [by left|done]].
  destruct (String.eqb_spec (URL c) ""); [split; [left; naive_solver|naive_solver]|].
  destruct (String.eqb_spec (ServiceName c) ""); [split; [left; naive_solver|naive_solver]|]. cbn [orb].
  destruct (fails _ (Connect _ _)) as [e|] eqn:Ec.
  { split; [|naive_solver]. right. exists c. split; [done|]. left. by exists e. }
  cbn [calls]. destruct (fails _ JetStream) as [e|] eqn:Ej; (split; [|naive_solver]).
  - right. exists c. split; [done|]. right. cbn [calls snd]. by rewrite <-!app_assoc.
  - exists c. split_and!; try done. unfold logs_to. cbn [calls]. by rewrite <-app_assoc.
Qed.

(** A broker in use by several goroutines: PublishRaw reads [closed] under the
    lock and publishes after it has given the lock back, so the calls that have
    passed the check are in flight; the other methods act at once. *)
Record Sys := { broker : Broker; world : World; inflight : list (string * list Z) }.
Inductive op :=
| OCheck (subject : string) (data : payload any) (opts : list PublishOption)   (* PublishRaw up to the marshalling *)
| OPublish (k : nat)                                                        (* call [k] in flight goes on *)
| OSubscribe (stream consumer filter : string)
| ODeliver (m : Msg) (answer : option error)
| OHealth | ODrain | OClose | OStop (sub : option string).
Definition with_world (w : World) (s : Sys) : Sys := {| broker := broker s; world := w; inflight := inflight s |}.
Definition exec (o : op) (s : Sys) : Sys :=
  let b := broker s in let w := world s in
  match o with
  | OCheck subject d opts =>
      if closed b then s
      else match Marshal json_Marshal d with
           | Err _ => s
           | Ok bytes => {| broker := b; world := w; inflight := inflight s ++ [(subject, bytes)] |}
           end
  | OPublish k =>
      match inflight s !! k with
      | Some (subject, bytes) =>
          {| broker := b; world := (do (Publish subject bytes) w).2; inflight := delete k (inflight s) |}
      | None => s
      end
  | OSubscribe st c f => with_world (Subscribe st c f b w).2 s
  | ODeliver m a => with_world (deliver (λ _ (_ : unit), (a, tt)) b m (tt, w)).2 s
  | OHealth => s
  | ODrain => with_world (Drain b w).2 s
  | OClose => let '(_, b, w) := Close b w in {| broker := b; world := w; inflight := inflight s |}
  | OStop sub => with_world (Stop sub w) s
  end.
Definition run (ops : list op) (s : Sys) : Sys := foldl (flip exec) s ops.
(** The calls that end the connection: Close at once, Drain when what is in flight
    was drained. *)
Definition ends (c : nats_call) : bool := match c with CloseConn | Drain_ => true | _ => false end.
Definition end_calls (cs : list nats_call) : list nats_call := filter (λ c, ends c = true) cs.
(** Those an operation makes, and a sequence of operations: every Drain, and the
    first Close. *)
Definition ended_by (closed : bool) (o : op) : list nats_call :=
  match o with ODrain => [Drain_] | OClose => if closed then [] else [CloseConn] | _ => [] end.
Definition closes (o : op) : bool := match o with OClose => true | _ => false end.
Fixpoint endings (closed : bool) (ops : list op) : list nats_call :=
  match ops with [] => [] | o :: ops => ended_by closed o ++ endings (closed || closes o) ops end.
Definition published (c : nats_call) : option (string * list Z) :=
  match c with Publish subject bytes => Some (subject, bytes) | _ => None end.

(** PublishRaw is its two steps. *)
Lemma PublishRaw_steps subject d opts s :
  world (exec (OPublish (length (inflight s))) (exec (OCheck subject d opts) s)) =
  (PublishRaw json_Marshal subject d opts (broker s) (world s)).2.
Proof.
  unfold PublishRaw. cbn [exec].
  destruct (closed (broker s)) eqn:Ec; [by rewrite (lookup_ge_None_2 _ _ (Nat.le_refl _))|].
  destruct (Marshal json_Marshal d) as [bytes|]; [|by rewrite (lookup_ge_None_2 _ _ (Nat.le_refl _))].
  cbn [inflight broker world]. rewrite lookup_app_r, Nat.sub_diag by done. cbn. by destruct (fails _ _).
Qed.

(** What an operation appends: the calls that end the connection are its own, and
    on a closed broker what is published was in flight. *)
Lemma exec_appends o s :
  has_conn (broker s) = true →
  has_conn (broker (exec o s)) = true ∧ closed (broker (exec o s)) = closed (broker s) || closes o ∧
  ∃ new, calls (world (exec o s)) = calls (world s) ++ new ∧ end_calls new = ended_by (closed (broker s)) o ∧
    (closed (broker s) || closes o = true → omap published new ++ inflight (exec o s) ≡ₚ inflight s).
Proof.
  intros Hh. destruct o as [sub d opts|k|st c f|m a| | | |sub]; cbn [exec closes ended_by]; rewrite ?orb_false_r, ?orb_true_r.
  - destruct (closed (broker s)) eqn:Ec; [|destruct (Marshal _ d)]; (split_and!; [done..|]); exists []; rewrite app_nil_r; by split_and!.
  - destruct (inflight s !! k) as [[sub bytes]|] eqn:E; (split_and!; [done..|]).
    + exists [Publish sub bytes]. split_and!; [done..|]. intros _. cbn. by rewrite <-(delete_Permutation _ _ _ E).
    + exists []. by rewrite app_nil_r.
  - split_and!; [done..|]. unfold Subscribe, do, logs_to. destruct (fails _ _); [|destruct (fails _ _)]; cbn; rewrite <-?app_assoc;
      eexists; by split_and!; [reflexivity|..].
  - split_and!; [done..|]. unfold deliver, do, logs_to. destruct a; cbn; eexists; by split_and!; [reflexivity|..].
  - split_and!; [done..|]. exists []. rewrite app_nil_r. by split_and!.
  - split_and!; [done..|]. unfold Drain, do. rewrite Hh. cbn. eexists. by split_and!; [reflexivity|..].
  - unfold Close. rewrite Hh. cbn [negb]. rewrite orb_false_r. destruct (closed (broker s)); cbn; (split_and!; [done..|]);
      [exists []; rewrite app_nil_r|eexists]; by split_and!; [reflexivity|..].
  - split_and!; [done..|]. destruct sub; cbn; [eexists|exists []; rewrite app_nil_r]; by split_and!; [reflexivity|..].
Qed.

Lemma run_appends ops s :
  has_conn (broker s) = true →
  has_conn (broker (run ops s)) = true ∧ closed (broker (run ops s)) = closed (broker s) || existsb closes ops ∧
  ∃ new, calls (world (run ops s)) = calls (world s) ++ new ∧ end_calls new = endings (closed (broker s)) ops ∧
    (closed (broker s) = true → omap published new ++ inflight (run ops s) ≡ₚ inflight s).
Proof.
  revert s. induction ops as [|o ops IH]; intros s Hh.
  { cbn. rewrite orb_false_r. split_and!; [done..|]. exists []. by rewrite app_nil_r. }
  destruct (exec_appends o s Hh) as (Hh' & Hc' & new & En & Ee & Hp).
  destruct (IH (exec o s) Hh') as (H1 & H2 & new' & En' & Ee' & Hp').
  unfold run in *. cbn [foldl flip existsb endings]. split_and!; [done|by rewrite H2, Hc', orb_assoc|].
  exists (new ++ new'). rewrite En', En, app_assoc. split_and!; [done| |].
  - unfold end_calls in *. by rewrite filter_app, Ee, Ee', Hc'.
  - intros Hc. rewrite omap_app, <-app_assoc, Hp' by (by rewrite Hc', Hc). apply Hp. by rewrite Hc.
Qed.

(** C38: a broker's life, in use by any number of goroutines, from its opening on.
    The calls that end its connection are exactly those its users ask for, in
    their order: the Close of the connection at the first Close of the broker, never
    again, and a Drain for every Drain (which closes the connection once drained;
    the broker does not count as closed for it).  After a Close, whatever else
    is done, what is still handed to the connection for publishing are publishes
    that had passed their check before, each at most once; a publish that comes
    later is an error and makes no call. *)
Theorem nats_lifecycle cfg lg w b w0 ops :
  end_calls (calls w) = [] → NewBroker cfg lg w = (Ok b, w0) →
  let s0 := {| broker := b; world := w0; inflight := [] |} in
  let s := run ops s0 in
  end_calls (calls (world s)) = endings false ops ∧
  (∀ before after, ops = before ++ OClose :: after →
     ∃ l, calls (world s) = calls (world (run before s0)) ++ l ∧
       omap published l ++ inflight s ≡ₚ inflight (run before s0)) ∧
  (OClose ∈ ops → ∀ subject d opts,
     PublishRaw json_Marshal subject d opts (broker s) (world s) = (Some (EText "nats: broker closed"), world s)).
Proof.
  intros Hw HN. pose proof (NewBroker_leaves_no_connection cfg lg w) as HNB. rewrite HN in HNB.
  destruct HNB as [(c & _ & _ & _ & Hopen & Hconn & Hcalls) _]. cbn zeta. split_and!.
  - destruct (run_appends ops {| broker := b; world := w0; inflight := [] |} Hconn) as (_ & _ & new & En & Ee & _).
    rewrite En. unfold end_calls in *. cbn [broker world] in *. rewrite filter_app, Ee, Hopen, Hcalls, filter_app, Hw. done.
  - intros before after ->.
    destruct (run_appends before {| broker := b; world := w0; inflight := [] |} Hconn) as (Hh & _).
    unfold run. rewrite foldl_app. change (foldl (flip exec) ?x before) with (run before x) in *. cbn [foldl flip].
    set (s1 := run before _) in *. destruct (exec_appends OClose s1 Hh) as (Hh' & Hc' & new & En & _ & Hp).
    cbn [closes] in Hc', Hp. rewrite orb_true_r in Hc', Hp.
    destruct (run_appends after (exec OClose s1) Hh') as (_ & _ & new' & En' & _ & Hp').
    exists (new ++ new'). change (foldl (flip exec) ?x after) with (run after x). rewrite En', En, app_assoc. split; [done|].
    rewrite omap_app, <-app_assoc, Hp' by done. by apply Hp.
  - intros Hin subject d opts. unfold PublishRaw.
    destruct (run_appends ops {| broker := b; world := w0; inflight := [] |} Hconn) as (_ & -> & _).
    cbn [broker]. rewrite Hopen. cbn [orb].
    assert (existsb closes ops = true) as ->; [|done]. apply existsb_exists. exists OClose. by rewrite <-list_elem_of_In.
Qed.
End broker.

(** *** What is published, and what is acknowledged *)

Lemma encode_groups_length bs : (length bs ≤ length (encode_groups bs))%nat.
Proof. induction bs as [|a|a b|a b c r IH] using groups_ind; cbn [encode_groups length]; lia. Qed.

Section wire.
Context `{Nats} {any : Type}.
Variable json_Marshal : any → result error (list Z).

(** A payload of bytes is not published as it is: the consumer receives a JSON
    string, whose base64 content is the bytes given. *)
Theorem published_bytes_are_encoded subject bs opts b w :
  Forall in_byte bs → closed b = false →
  ∃ d, (PublishRaw json_Marshal subject (PBytes (Some bs)) opts b w).2 =
         {| calls := calls w ++ [Publish subject (34 :: bytes_of d ++ [34])]; logs := logs w |} ∧
       DecodeString d = Some bs ∧ 34 :: bytes_of d ++ [34] ≠ bs.
Proof.
  intros Hb Ho. exists (EncodeToString bs). split_and!; [|by apply DecodeString_EncodeToString|].
  - unfold PublishRaw, do. rewrite Ho. cbn [Marshal]. by destruct (fails _ _).
  - intros E. apply (f_equal length) in E. cbn [length] in E. rewrite length_app in E.
    unfold EncodeToString in E. rewrite bytes_of_of_bytes in E.
    + pose proof (encode_groups_length bs). simpl in E. lia.
    + eapply Forall_impl; [by apply encode_groups_range|]. unfold in_byte. cbn beta. lia.
Qed.

(** Each delivery is answered once: acknowledged when the handler returns nil,
    refused, with a line in the log, when it fails; the handler runs once. *)
Theorem delivery_answered {S} (handler : Msg → S → option error * S) b m (s : S) w :
  let '(s', w') := deliver handler b m (s, w) in
  s' = (handler m s).2 ∧
  calls w' = calls w ++ [match (handler m s).1 with Some _ => Nak (msg_id m) | None => Ack (msg_id m) end] ∧
  logs w' = logs w ++ match (handler m s).1 with
                      | Some err => log (logger b) Error "nats: handler error"
                                      [("subject", msg_subject m); ("error", error_text err)]
                      | None => []
                      end.
Proof. unfold deliver, do, logs_to. destruct (handler m s) as [[err|] s']; split_and!; try done. by rewrite app_nil_r. Qed.
End wire.

#[global] Instance quiet_nats : Nats := {| fails := λ _ _, None; IsConnected := λ _, true; ConnectedUrl := "nats://a" |}.
Definition a_config : Config :=
  {| Type_ := "nats"; URL := "nats://a"; User := "u"; Password := ""; ServiceName := "svc" |}.

(** Two publishes pass the check, one goes on before Close and one after. *)
Definition busy_life : list (@op (list Z)) :=
  [OCheck "s" (PValue [1]) []; OCheck "t" (PValue [2]) []; OPublish 0; OClose; OPublish 0; OCheck "u" (PValue [3]) []; OClose; ODrain].
Lemma nats_lifecycle_witness :
  ∃ b w0, NewBroker (Some a_config) None {| calls := []; logs := [] |} = (Ok b, w0) ∧
  end_calls (calls (world (run (λ x : list Z, Ok x) busy_life {| broker := b; world := w0; inflight := [] |}))) = [CloseConn; Drain_].
Proof.
  eexists _, _. split; [reflexivity|].
  exact (proj1 (nats_lifecycle (λ x : list Z, Ok x) (Some a_config) None {| calls := []; logs := [] |} _ _ busy_life eq_refl eq_refl)).
Defined.
