(* ===== verification/Router.v ===== *)
(** * Package communication/router

    Country-based SMS routing of src/communication/router/sms_router.go.  The
    router state is its rule table and default rule; the provider registry it
    consults is any lookup function from codes to providers. *)

From S2P Require Import Prelude GoString GoErrors Provider.
From stdpp Require Import base list gmap strings sorting.
From Stdlib Require Import ZArith Lia.
Open Scope Z_scope.

Record SMSRoutingRule := {
  CountryCode : string;
  RuleProvider : string;       (* ProviderCode *)
  ProviderPriority : Z;
  IsActive : bool;
  IsFallback : bool;
  RateLimitPerSec : Z;
  RateLimitPerDay : Z
}.

Record SMSRouter := {
  registry : option (string → option Provider);   (* ProviderLookup; nil is None *)
  routes : gmap string (list SMSRoutingRule);
  defaultRoute : SMSRoutingRule
}.

Definition NewSMSRouter (reg : option (string → option Provider)) : SMSRouter :=
  {| registry := reg; routes := ∅;
     defaultRoute := {| CountryCode := "*"; RuleProvider := "twilio_sms"; ProviderPriority := 0;
                        IsActive := true; IsFallback := true; RateLimitPerSec := 0; RateLimitPerDay := 0 |} |}.

(** The body of the inner loop of sortRules. *)
Definition swap_step (rules : list SMSRoutingRule) (j : nat) : list SMSRoutingRule :=
  match rules !! j, rules !! S j with
  | Some a, Some b =>
      if ProviderPriority b <? ProviderPriority a then <[S j := a]> (<[j := b]> rules) else rules
  | _, _ => rules
  end.

Definition sortRules (rules : list SMSRoutingRule) : list SMSRoutingRule :=
  foldl (λ rules i, foldl swap_step rules (seq 0 (length rules - i - 1))) rules
    (seq 0 (length rules - 1)).

Definition add_rule (m : gmap string (list SMSRoutingRule)) (rule : SMSRoutingRule) :=
  <[CountryCode rule := default [] (m !! CountryCode rule) ++ [rule]]> m.

Definition with_routes (m : gmap string (list SMSRoutingRule)) (r : SMSRouter) : SMSRouter :=
  {| registry := registry r; routes := m; defaultRoute := defaultRoute r |}.

(** The second loop sorts each country's slice in place. *)
Definition LoadRoutes (rules : list SMSRoutingRule) (r : SMSRouter) : SMSRouter :=
  let m := foldl (λ m route, if negb (IsActive route) then m else add_rule m route) ∅ rules in
  with_routes (sortRules <$> m) r.

Definition AddRoute (rule : SMSRoutingRule) (r : SMSRouter) : SMSRouter :=
  let m := add_rule (routes r) rule in
  with_routes (alter sortRules (CountryCode rule) m) r.

Definition SetDefaultRoute (rule : SMSRoutingRule) (r : SMSRouter) : SMSRouter :=
  {| registry := registry r; routes := routes r; defaultRoute := rule |}.

Definition lookupSMS (code : string) (r : SMSRouter) : option Provider :=
  match registry r with
  | None => None
  | Some get =>
      match get code with
      | Some p => if is_sms p then Some p else None
      | None => None
      end
  end.

Definition countryCodeMap : list string :=
  ["964"; "971"; "966"; "962"; "963"; "965"; "968"; "973"; "974"; "961"; "967"; "970"; "218"; "249";
   "213"; "212"; "216"; "20"; "44"; "49"; "33"; "39"; "34"; "31"; "32"; "90"; "86"; "91"; "81"; "82";
   "61"; "64"; "1"; "7"].

(** strings.Map with the function that keeps digits and plus signs. *)
Definition clean (phoneNumber : string) : string :=
  of_runes (filter (λ r, Is_true (((48 <=? r) && (r <=? 57)) || (r =? 43))) (runes phoneNumber)).

Fixpoint first_code (cleaned : string) (ns : list nat) : option string :=
  match ns with
  | [] => None
  | n :: ns =>
      if (n <=? String.length cleaned)%nat
         && bool_decide (String.substring 0 n cleaned ∈ countryCodeMap)
      then Some (String.substring 0 n cleaned)
      else first_code cleaned ns
  end.

Definition ExtractCountryCode (phoneNumber : string) : string :=
  let cleaned := clean phoneNumber in
  if HasPrefix cleaned "+" then
    match first_code (String.substring 1 (String.length cleaned - 1) cleaned) [3%nat; 2%nat; 1%nat] with
    | Some code => "+" +:+ code
    | None => "+964"
    end
  else "+964".

(** The rule loop of GetProviderForNumber. *)
Fixpoint first_enabled (r : SMSRouter) (rules : list SMSRoutingRule) : option Provider :=
  match rules with
  | [] => None
  | rule :: rules =>
      if negb (IsActive rule) then first_enabled r rules
      else
        match lookupSMS (RuleProvider rule) r with
        | Some sms => if Enabled sms then Some sms else first_enabled r rules
        | None => first_enabled r rules
        end
  end.

Definition GetProviderForNumber (phoneNumber : string) (r : SMSRouter)
  : option Provider * string * option error :=
  let countryCode := ExtractCountryCode phoneNumber in
  let none := (None, countryCode, Some (EText ("no SMS provider available for country " +:+ countryCode))) in
  match first_enabled r (default [] (routes r !! countryCode)) with
  | Some sms => (Some sms, countryCode, None)
  | None =>
      match lookupSMS (RuleProvider (defaultRoute r)) r with
      | Some sms => if Enabled sms then (Some sms, countryCode, None) else none
      | None => none
      end
  end.

Definition SendSMS (req : SendRequest) (r : SMSRouter) : option SendResponse * option error :=
  match GetProviderForNumber (RecipientPhone req) r with
  | (_, _, Some err) => (None, Some err)
  | (Some sms, _, None) => Send sms req
  | (None, _, None) => (None, None)
  end.

Definition GetRoutesForCountry (countryCode : string) (r : SMSRouter) : list SMSRoutingRule :=
  default [] (routes r !! countryCode).
Definition ListAllRoutes (r : SMSRouter) : gmap string (list SMSRoutingRule) := routes r.

(** ** Bubble sort *)

Definition prio_le (a b : SMSRoutingRule) : Prop := ProviderPriority a ≤ ProviderPriority b.

(** One pass, carrying the element that bubbles up. *)
Fixpoint bubble (a : SMSRoutingRule) (l : list SMSRoutingRule) : list SMSRoutingRule :=
  match l with
  | [] => [a]
  | b :: l => if ProviderPriority b <? ProviderPriority a then b :: bubble a l else a :: bubble b l
  end.

Lemma swap_step_at d a b l :
  swap_step (d ++ a :: b :: l) (length d) =
  d ++ (if ProviderPriority b <? ProviderPriority a then b :: a :: l else a :: b :: l).
Proof.
  unfold swap_step. rewrite list_lookup_middle by done.
  replace ((d ++ a :: b :: l) !! S (length d)) with (Some b).
  - destruct (ProviderPriority b <? ProviderPriority a); [|done].
    rewrite insert_app_r_alt by lia. rewrite Nat.sub_diag. simpl.
    rewrite insert_app_r_alt by lia. by replace (S (length d) - length d)%nat with 1%nat by lia.
  - rewrite lookup_app_r by lia. by replace (S (length d) - length d)%nat with 1%nat by lia.
Qed.

Lemma pass_bubble d a l suf :
  foldl swap_step (d ++ a :: l ++ suf) (seq (length d) (length l)) = d ++ bubble a l ++ suf.
Proof.
  revert d a. induction l as [|b l IH]; intros d a; [done|]. simpl. rewrite swap_step_at.
  destruct (ProviderPriority b <? ProviderPriority a).
  - specialize (IH (d ++ [b]) a). rewrite length_app, Nat.add_1_r, <-!app_assoc in IH. exact IH.
  - specialize (IH (d ++ [a]) b). rewrite length_app, Nat.add_1_r, <-!app_assoc in IH. exact IH.
Qed.

Lemma bubble_last a l :
  ∃ pre x, bubble a l = pre ++ [x] ∧ length pre = length l ∧ Forall (λ y, prio_le y x) (bubble a l).
Proof.
  revert a. induction l as [|b l IH]; intros a; simpl.
  - exists [], a. split_and!; try done. apply Forall_singleton. unfold prio_le. lia.
  - assert (∀ c y, prio_le y c → ∃ pre x, y :: bubble c l = pre ++ [x] ∧ length pre = S (length l) ∧
      Forall (λ z, prio_le z x) (y :: bubble c l)) as G.
    { intros c y Hy. destruct (IH c) as (pre & x & E & Hl & Hf). exists (y :: pre), x. rewrite E in *.
      split_and!; [done|simpl; lia|]. constructor; [|done].
      assert (prio_le c x); [|unfold prio_le in *; lia].
      assert (c ∈ pre ++ [x]) as Hin; [|by eapply Forall_forall in Hf].
      rewrite <-E. clear. revert c. induction l as [|b l IH]; intros c; simpl; [by left|].
      case_match; [right; apply IH|by left]. }
    destruct (Z.ltb_spec (ProviderPriority b) (ProviderPriority a)); apply G; unfold prio_le; lia.
Qed.

(** A pass keeps the order of the elements of equal priority. *)
Lemma bubble_stable p a l :
  filter (λ x, ProviderPriority x = p) (bubble a l) = filter (λ x, ProviderPriority x = p) (a :: l).
Proof.
  revert a. induction l as [|b l IH]; intros a; [done|]. simpl bubble.
  destruct (Z.ltb_spec (ProviderPriority b) (ProviderPriority a)).
  - rewrite (filter_cons _ b), IH, !filter_cons. repeat case_decide; done || lia.
  - by rewrite (filter_cons _ a), IH, (filter_cons _ a).
Qed.

Lemma bubble_perm a l : bubble a l ≡ₚ a :: l.
Proof.
  revert a. induction l as [|b l IH]; intros a; simpl; [done|].
  case_match; rewrite IH; [apply Permutation_swap|done].
Qed.

Definition stable_perm (l l' : list SMSRoutingRule) : Prop :=
  l' ≡ₚ l ∧ ∀ p, filter (λ x, ProviderPriority x = p) l' = filter (λ x, ProviderPriority x = p) l.

(** After [i] passes the last [i] elements are in place. *)
Definition settled (i : nat) (l : list SMSRoutingRule) : Prop :=
  ∃ pre suf, l = pre ++ suf ∧ length suf = i ∧ StronglySorted prio_le suf ∧
    Forall (λ x, Forall (prio_le x) suf) pre.

Lemma pass_settles i l :
  (S i < length l)%nat → settled i l →
  settled (S i) (foldl swap_step l (seq 0 (length l - i - 1))) ∧
  stable_perm l (foldl swap_step l (seq 0 (length l - i - 1))).
Proof.
  intros Hi (pre & suf & -> & Hl & Hs & Hf). rewrite length_app, Hl in *.
  destruct pre as [|a pre]; [simpl in Hi; lia|].
  replace (length (a :: pre) + i - i - 1)%nat with (length pre) by (simpl; lia).
  pose proof (pass_bubble [] a pre suf) as E. simpl in E. simpl app. rewrite E. split.
  - destruct (bubble_last a pre) as (pre' & x & Eb & Hl' & Hm).
    assert (Forall (λ y, Forall (prio_le y) suf) (bubble a pre)) as Hb by (by rewrite bubble_perm).
    rewrite Eb in *. exists pre', (x :: suf). rewrite <-app_assoc.
    apply Forall_app in Hb as [Hb1 Hb2], Hm as [Hm1 _]. apply Forall_cons in Hb2 as [Hb2 _].
    split_and!; [done|simpl; lia|apply SSorted_cons; [exact Hs|exact Hb2]|].
    apply Forall_forall. intros y Hy. constructor; [by eapply Forall_forall in Hm1|by eapply Forall_forall in Hb1].
  - split; [by rewrite bubble_perm|]. intros p. by rewrite filter_app, bubble_stable, <-filter_app.
Qed.

Lemma passes_settle n i l :
  (i + n < length l)%nat → settled i l →
  let l' := foldl (λ rules i, foldl swap_step rules (seq 0 (length rules - i - 1))) l (seq i n) in
  settled (i + n) l' ∧ stable_perm l l'.
Proof.
  revert i l. induction n as [|n IH]; intros i l Hn Hs; simpl.
  - rewrite Nat.add_0_r. split; [done|]. by split.
  - destruct (pass_settles i l) as [Hs' [Hp Hst]]; [lia|done|].
    set (l1 := foldl swap_step l _) in *.
    assert (length l1 = length l) as El by (by apply Permutation_length).
    destruct (IH (S i) l1) as [H1 [H2 H3]]; [lia|done|].
    replace (i + S n)%nat with (S i + n)%nat by lia. split; [done|]. split.
    + by rewrite H2.
    + intros p. by rewrite H3.
Qed.

Lemma sortRules_spec l : StronglySorted prio_le (sortRules l) ∧ stable_perm l (sortRules l).
Proof.
  unfold sortRules. destruct l as [|a l].
  { split; [constructor|by split]. }
  destruct (passes_settle (length (a :: l) - 1) 0 (a :: l)) as [(pre & suf & E & Hl & Hs & Hf) Hst].
  { simpl. lia. }
  { exists (a :: l), []. rewrite app_nil_r. split_and!; try done; [constructor|].
    apply Forall_forall. intros. constructor. }
  split; [|done]. rewrite E.
  assert (length (pre ++ suf) = length (a :: l)) as El by (rewrite <-E; apply Permutation_length, Hst).
  rewrite length_app, Hl in El. simpl in El. destruct pre as [|x [|y pre]]; simpl in El; try lia.
  simpl. apply Forall_cons in Hf as [Hf _]. by apply SSorted_cons.
Qed.

(** ** Selection *)

(** The rule can be served: active, and its provider is an enabled SMS one. *)
Definition usable (r : SMSRouter) (rule : SMSRoutingRule) : Prop :=
  IsActive rule = true ∧ ∃ sms, lookupSMS (RuleProvider rule) r = Some sms ∧ Enabled sms = true.
#[export] Instance usable_dec r rule : Decision (usable r rule).
Proof.
  unfold usable. destruct (IsActive rule); [|right; by intros [? _]].
  destruct (lookupSMS (RuleProvider rule) r) as [sms|]; [|right; by intros (_ & ? & ? & _)].
  destruct (Enabled sms) eqn:E; [left; naive_solver|right; naive_solver congruence].
Defined.

Lemma first_enabled_filter r rules :
  first_enabled r rules =
  match filter (usable r) rules with
  | [] => None
  | c :: _ => lookupSMS (RuleProvider c) r
  end.
Proof.
  induction rules as [|rule rules IH]; [done|]. cbn [first_enabled].
  destruct (decide (usable r rule)) as [Hu|Hu].
  - rewrite filter_cons_True by done. destruct Hu as (-> & sms & -> & ->). done.
  - rewrite filter_cons_False by done. rewrite IH. destruct (IsActive rule) eqn:Ea; [|done]. simpl.
    destruct (lookupSMS (RuleProvider rule) r) as [sms|] eqn:El; [|done].
    destruct (Enabled sms) eqn:Ee; [|done]. exfalso. apply Hu. split; [done|]. by exists sms.
Qed.

Lemma load_lookup rules cc (m : gmap string (list SMSRoutingRule)) :
  default [] (foldl (λ m route, if negb (IsActive route) then m else add_rule m route) m rules !! cc) =
  default [] (m !! cc) ++ filter (λ x, IsActive x = true ∧ CountryCode x = cc) rules.
Proof.
  revert m. induction rules as [|x rules IH]; intros m; simpl; [by rewrite app_nil_r|]. rewrite IH.
  destruct (IsActive x) eqn:Ea; simpl.
  - unfold add_rule. destruct (decide (CountryCode x = cc)) as [<-|].
    + rewrite lookup_insert_eq, filter_cons_True by done. simpl. by rewrite <-app_assoc.
    + rewrite lookup_insert_ne, filter_cons_False by naive_solver. done.
  - rewrite filter_cons_False by (rewrite Ea; naive_solver). done.
Qed.

Lemma routes_LoadRoutes rules r cc :
  default [] (routes (LoadRoutes rules r) !! cc) =
  sortRules (filter (λ x, IsActive x = true ∧ CountryCode x = cc) rules).
Proof.
  unfold LoadRoutes. cbn [routes with_routes]. rewrite lookup_fmap.
  pose proof (load_lookup rules cc ∅) as E. rewrite lookup_empty in E. simpl in E. rewrite <-E.
  by destruct (foldl _ ∅ rules !! cc).
Qed.

(** The head of a stable sort is the first element of least priority. *)
Lemma stable_head (P : SMSRoutingRule → Prop) `{∀ x, Decision (P x)} l l' c rest :
  StronglySorted prio_le l' → stable_perm l l' → filter P l' = c :: rest →
  ∃ pre post, filter P l = pre ++ c :: post ∧
    Forall (λ x, ProviderPriority c < ProviderPriority x) pre ∧ Forall (prio_le c) post.
Proof.
  intros Hs [Hp Hst] E.
  assert (∀ x, x ∈ filter P l → prio_le c x) as Hmin.
  { intros x Hx. assert (x ∈ filter P l') as Hx' by (by rewrite Hp). rewrite E in Hx'.
    assert (StronglySorted prio_le (c :: rest)) as Hs'.
    { rewrite <-E. clear -Hs. induction Hs as [|y ys Hys IH Hy]; [constructor|].
      rewrite filter_cons. case_decide; [|done]. constructor; [done|].
      apply Forall_forall. intros z [_ Hz]%list_elem_of_filter. by eapply Forall_forall in Hy. }
    inversion Hs' as [|? ? _ Hall]; subst. apply elem_of_cons in Hx' as [->|Hx']; [unfold prio_le; lia|].
    by eapply Forall_forall in Hall. }
  set (p := ProviderPriority c) in *.
  assert (∃ rest', filter (λ x, ProviderPriority x = p) (filter P l) = c :: rest') as [rest' Ef].
  { exists (filter (λ x, ProviderPriority x = p) rest).
    assert (∀ k : list SMSRoutingRule, filter (λ x, ProviderPriority x = p) (filter P k) =
      filter P (filter (λ x, ProviderPriority x = p) k)) as Comm.
    { intros k. rewrite !list_filter_filter. apply list_filter_iff. tauto. }
    rewrite Comm, <-Hst, <-Comm, E. by rewrite filter_cons_True. }
  clear -Ef Hmin. induction (filter P l) as [|x k IH]; [done|].
  destruct (decide (ProviderPriority x = p)) as [Ex|Ex].
  - rewrite filter_cons_True in Ef by done. injection Ef as -> _. exists [], k. split_and!; try done.
    apply Forall_forall. intros y Hy. apply Hmin. by right.
  - rewrite filter_cons_False in Ef by done. destruct IH as (pre & post & -> & Hpre & Hpost); [|done|].
    { intros y Hy. apply Hmin. by right. }
    exists (x :: pre), post. split_and!; try done. constructor; [|done].
    assert (prio_le c x) by (apply Hmin; by left). unfold prio_le in *. lia.
Qed.

(** ** Properties *)

(** C7: after LoadRoutes the router sends a number to the provider of the best
    rule: among the loaded rules that are active, are for the country of the
    number and whose provider is an enabled SMS provider, the one of least
    priority value, the earliest loaded among equals.  Without such a rule it
    uses the default route's provider when that is an enabled SMS provider, and
    reports an error otherwise. *)
Theorem router_selects rules r phone :
  let cc := ExtractCountryCode phone in
  let cands := filter (usable r) (filter (λ x, IsActive x = true ∧ CountryCode x = cc) rules) in
  match cands with
  | [] =>
      GetProviderForNumber phone (LoadRoutes rules r) =
      match lookupSMS (RuleProvider (defaultRoute r)) r with
      | Some sms =>
          if Enabled sms then (Some sms, cc, None)
          else (None, cc, Some (EText ("no SMS provider available for country " +:+ cc)))
      | None => (None, cc, Some (EText ("no SMS provider available for country " +:+ cc)))
      end
  | _ =>
      ∃ pre c post sms, cands = pre ++ c :: post ∧
        Forall (λ x, ProviderPriority c < ProviderPriority x) pre ∧ Forall (prio_le c) post ∧
        lookupSMS (RuleProvider c) r = Some sms ∧
        GetProviderForNumber phone (LoadRoutes rules r) = (Some sms, cc, None)
  end.
Proof.
  intros cc cands. unfold GetProviderForNumber. fold cc. rewrite routes_LoadRoutes.
  set (l := filter (λ x, IsActive x = true ∧ CountryCode x = cc) rules) in *.
  destruct (sortRules_spec l) as [Hs Hp].
  assert (∀ k, first_enabled (LoadRoutes rules r) k = first_enabled r k) as Ef.
  { induction k as [|x k IH]; [done|]. simpl. by rewrite IH. }
  rewrite Ef, first_enabled_filter.
  destruct (filter (usable r) (sortRules l)) as [|c rest] eqn:E.
  - assert (cands = []) as ->; [|done].
    unfold cands. apply Permutation_nil_r. rewrite <-E. by rewrite (proj1 Hp).
  - destruct (stable_head (usable r) l (sortRules l) c rest Hs Hp E) as (pre & post & Ec & Hpre & Hpost).
    assert (usable r c) as (_ & sms & Hsms & _).
    { assert (c ∈ filter (usable r) (sortRules l)) as Hc by (rewrite E; by left).
      by apply list_elem_of_filter in Hc as [? _]. }
    fold cands in Ec. destruct cands as [|c0 cs]; [by destruct pre|].
    exists pre, c, post, sms. rewrite Hsms. done.
Qed.
