(* ===== verification/WorkerPool.v ===== *)
(** * Package workerpool

    The goroutine pool of src/workerpool/workerpool.go as a step relation.  The
    state holds the closed flag (set in the critical section that closes the
    channel), every worker goroutine, every call of Submit, SubmitCtx and Wait,
    and the tasks that have run.  A step is one critical section or one channel
    operation of one goroutine; the channel is unbuffered, so a send and the
    receive that takes it are one step. *)

From S2P Require Import Prelude GoErrors.
From stdpp Require Import base list relations strings.
From Stdlib Require Import ZArith Lia.
Open Scope Z_scope.

Definition ErrClosed : error := ENew "workerpool: closed".

Abbreviation task := nat.

(** A worker: at the range, running a task, or returned (wg.Done). *)
Inductive worker := Idle | Busy (t : task) | Exited.

Inductive call_kind := Submit | SubmitCtx.

(** A call of Submit or SubmitCtx: past the closed check and at the send, or over. *)
Inductive call :=
| Sending (k : call_kind) (t : task)
| Accepted (t : task)
| Panicked (msg : string)
| Refused (err : error).

(** A call of Wait: the one that closed the pool, in wg.Wait or returned; or one
    that found the pool closed and returned. *)
Inductive wait := Waiting | Waited | FoundClosed.

Record Pool := {
  closed : bool;
  workers : list worker;
  calls : list call;
  waits : list wait;
  finished : list task
}.

Definition New (n : Z) : Pool :=
  let n := if n <? 1 then 1 else n in
  {| closed := false; workers := replicate (Z.to_nat n) Idle; calls := []; waits := []; finished := [] |}.

Definition set_worker (i : nat) (w : worker) (p : Pool) : Pool :=
  {| closed := closed p; workers := <[i := w]> (workers p); calls := calls p; waits := waits p;
     finished := finished p |}.
Definition set_call (i : nat) (c : call) (p : Pool) : Pool :=
  {| closed := closed p; workers := workers p; calls := <[i := c]> (calls p); waits := waits p;
     finished := finished p |}.
Definition add_call (c : call) (p : Pool) : Pool :=
  {| closed := closed p; workers := workers p; calls := calls p ++ [c]; waits := waits p;
     finished := finished p |}.

(** The check of Submit and SubmitCtx under closeMu. *)
Definition submit_check (k : call_kind) (t : task) (p : Pool) : call :=
  if closed p then
    match k with
    | Submit => Panicked "workerpool: Submit on closed pool"
    | SubmitCtx => Refused ErrClosed
    end
  else Sending k t.

(** The critical section of Wait. *)
Definition wait_close (p : Pool) : Pool :=
  if closed p
  then {| closed := true; workers := workers p; calls := calls p; waits := waits p ++ [FoundClosed];
          finished := finished p |}
  else {| closed := true; workers := workers p; calls := calls p; waits := waits p ++ [Waiting];
          finished := finished p |}.

Definition finish (i : nat) (t : task) (p : Pool) : Pool :=
  {| closed := closed p; workers := <[i := Idle]> (workers p); calls := calls p; waits := waits p;
     finished := finished p ++ [t] |}.

(** The steps of the pool's own goroutines and of the calls in progress. *)
Inductive internal : Pool → Pool → Prop :=
| step_handoff i j k t p :
    closed p = false → calls p !! i = Some (Sending k t) → workers p !! j = Some Idle →
    internal p (set_worker j (Busy t) (set_call i (Accepted t) p))
| step_send_closed i k t p :
    closed p = true → calls p !! i = Some (Sending k t) →
    internal p (set_call i (Panicked "send on closed channel") p)
| step_finish i t p :
    (* the task returned, or panicked and was recovered *)
    workers p !! i = Some (Busy t) → internal p (finish i t p)
| step_exit i p :
    closed p = true → workers p !! i = Some Idle → internal p (set_worker i Exited p)
| step_waited i p :
    waits p !! i = Some Waiting → Forall (λ w, w = Exited) (workers p) →
    internal p {| closed := closed p; workers := workers p; calls := calls p;
                  waits := <[i := Waited]> (waits p); finished := finished p |}.

Inductive step : Pool → Pool → Prop :=
| step_internal p p' : internal p p' → step p p'
| step_submit k t p : step p (add_call (submit_check k t p) p)
| step_cancel i t err p :
    calls p !! i = Some (Sending SubmitCtx t) → step p (set_call i (Refused err) p)
| step_wait p : step p (wait_close p).

Definition reachable (n : Z) (p : Pool) : Prop := rtc step (New n) p.

(** ** The invariant *)

Definition running (ws : list worker) : list task := omap (λ w, match w with Busy t => Some t | _ => None end) ws.
Definition accepted (cs : list call) : list task := omap (λ c, match c with Accepted t => Some t | _ => None end) cs.

Record Inv (n : Z) (p : Pool) : Prop := {
  inv_size : Z.of_nat (length (workers p)) = Z.max 1 n;
  inv_tasks : accepted (calls p) ≡ₚ running (workers p) ++ finished p;
  inv_exited : Exited ∈ workers p → closed p = true;
  inv_waits : waits p ≠ [] → closed p = true;
  inv_waited : Waited ∈ waits p → Forall (λ w, w = Exited) (workers p)
}.

(** ** Lemmas *)

(** [omap] after an update at an index. *)
Lemma omap_insert_perm {A B} (f : A → option B) l i x y :
  l !! i = Some x →
  omap f (<[i := y]> l) ++ option_list (f x) ≡ₚ omap f l ++ option_list (f y).
Proof.
  intros Hi. rewrite <-(take_drop_middle l i x Hi) at 2.
  rewrite insert_take_drop by (by eapply lookup_lt_Some).
  rewrite !omap_app. cbn [omap list_omap]. destruct (f x), (f y); simpl; rewrite <-!app_assoc; simpl;
    apply Permutation_app_head; rewrite ?app_nil_r; try done; rewrite <-?Permutation_cons_append; try done.
  apply Permutation_swap.
Qed.

Lemma running_set ws i w w' :
  ws !! i = Some w →
  running (<[i := w']> ws) ++ option_list (match w with Busy t => Some t | _ => None end) ≡ₚ
  running ws ++ option_list (match w' with Busy t => Some t | _ => None end).
Proof. apply (omap_insert_perm (λ w, match w with Busy t => Some t | _ => None end)). Qed.

Lemma accepted_set cs i c c' :
  cs !! i = Some c →
  accepted (<[i := c']> cs) ++ option_list (match c with Accepted t => Some t | _ => None end) ≡ₚ
  accepted cs ++ option_list (match c' with Accepted t => Some t | _ => None end).
Proof. apply (omap_insert_perm (λ c, match c with Accepted t => Some t | _ => None end)). Qed.

Lemma accepted_snoc cs c :
  accepted (cs ++ [c]) = accepted cs ++ option_list (match c with Accepted t => Some t | _ => None end).
Proof. unfold accepted. rewrite omap_app. by destruct c. Qed.

Lemma not_all_exited ws i w :
  ws !! i = Some w → w ≠ Exited → ¬ Forall (λ w, w = Exited) ws.
Proof. intros Hi Hw Hf. by apply Hw, (Forall_lookup_1 _ _ _ _ Hf Hi). Qed.

Lemma exited_of_insert (ws : list worker) (i : nat) w : w ≠ Exited → Exited ∈ <[i := w]> ws → Exited ∈ ws.
Proof.
  intros Hw Hin. apply list_elem_of_lookup in Hin as [j Hj]. apply list_lookup_insert_Some in Hj as [(? & ? & _)|[_ Hj]].
  - congruence.
  - by eapply list_elem_of_lookup_2.
Qed.

Lemma internal_inv n p p' : internal p p' → Inv n p → Inv n p'.
Proof.
  intros Hs [Hn Ht He Hw Hd]. destruct Hs as [i j k t p Hc Hi Hj|i k t p Hc Hi|i t p Hi|i p Hc Hi|i p Hi Hf].
  - pose proof (running_set _ _ _ (Busy t) Hj) as R. pose proof (accepted_set _ _ _ (Accepted t) Hi) as A.
    simpl in R, A. rewrite app_nil_r in R, A.
    split; simpl; rewrite ?length_insert; try done.
    + rewrite A, R, Ht, <-!app_assoc. apply Permutation_app_head, Permutation_app_comm.
    + intros H. apply exited_of_insert in H; [|done]. by apply He.
    + intros H. exfalso. by eapply (not_all_exited _ _ _ Hj); [|apply Hd].
  - pose proof (accepted_set _ _ _ (Panicked "send on closed channel") Hi) as A. simpl in A.
    rewrite !app_nil_r in A. split; simpl; try done. by rewrite A.
  - pose proof (running_set _ _ _ Idle Hi) as R. simpl in R. rewrite app_nil_r in R.
    split; simpl; rewrite ?length_insert; try done.
    + rewrite Ht, <-R, <-!app_assoc. apply Permutation_app_head, Permutation_app_comm.
    + intros H. apply exited_of_insert in H; [|done]. by apply He.
    + intros H. exfalso. by eapply (not_all_exited _ _ _ Hi); [|apply Hd].
  - pose proof (running_set _ _ _ Exited Hi) as R. simpl in R. rewrite !app_nil_r in R.
    split; simpl; rewrite ?length_insert; try done.
    + by rewrite R.
    + intros H. exfalso. by eapply (not_all_exited _ _ _ Hi); [|apply Hd].
  - split; simpl; try done. intros _. apply Hw. by destruct (waits p).
Qed.

Lemma pool_step_inv n p p' : step p p' → Inv n p → Inv n p'.
Proof.
  intros Hs I. destruct Hs as [p p' Hs|k t p|i t err p Hi|p]; [by eapply internal_inv|..];
    destruct I as [Hn Ht He Hw Hd].
  - split; simpl; try done. rewrite accepted_snoc. unfold submit_check.
    by destruct (closed p), k; simpl; rewrite app_nil_r.
  - pose proof (accepted_set _ _ _ (Refused err) Hi) as A. simpl in A. rewrite !app_nil_r in A.
    split; simpl; try done. by rewrite A.
  - unfold wait_close. destruct (closed p); split; simpl; try done;
      intros [H|H%list_elem_of_singleton]%elem_of_app; try done; by apply Hd.
Qed.

Lemma reachable_inv n p : reachable n p → Inv n p.
Proof.
  intros Hr. assert (Inv n (New n)) as I0.
  { unfold New. split; simpl.
    - rewrite length_replicate. case_match; zbool; lia.
    - induction (Z.to_nat _) as [|m IH]; [done|exact IH].
    - by intros ?%elem_of_replicate_inv.
    - done.
    - by intros ?%not_elem_of_nil. }
  revert I0. unfold reachable in Hr. induction Hr as [|p1 p2 p3 Hs _ IH]; [done|].
  intros I. apply IH. by eapply pool_step_inv.
Qed.

Lemma running_exited ws : Forall (λ w, w = Exited) ws → running ws = [].
Proof. induction 1 as [|w ws -> _ IH]; [done|exact IH]. Qed.

(** The steps the workers have left after the pool is closed. *)
Definition work (ws : list worker) : nat :=
  sum_list_with (λ w, match w with Busy _ => 2 | Idle => 1 | Exited => 0 end)%nat ws.

Lemma work_zero ws : work ws = 0%nat → Forall (λ w, w = Exited) ws.
Proof. induction ws as [|[] ws IH]; unfold work in *; simpl in *; try lia; [done|]. constructor; [done|]. apply IH. lia. Qed.

Lemma work_insert ws i w w' :
  ws !! i = Some w →
  (work (<[i := w']> ws) + match w with Busy _ => 2 | Idle => 1 | Exited => 0 end =
   work ws + match w' with Busy _ => 2 | Idle => 1 | Exited => 0 end)%nat.
Proof.
  unfold work. revert i. induction ws as [|x ws IH]; intros [|i] Hi; simplify_eq/=; [lia|].
  specialize (IH i Hi). lia.
Qed.

Lemma work_pos ws : work ws ≠ 0%nat → ∃ i w, ws !! i = Some w ∧ w ≠ Exited.
Proof.
  induction ws as [|x ws IH]; [done|]. intros Hw. destruct x.
  - by exists 0%nat, Idle.
  - by exists 0%nat, (Busy t).
  - destruct IH as (i & w & Hi & Hne); [by unfold work in *|]. by exists (S i), w.
Qed.

(** Once closed, the workers can all run to their exit. *)
Lemma drain m n p :
  work (workers p) = m → Inv n p → closed p = true →
  ∃ p', rtc internal p p' ∧ Inv n p' ∧ waits p' = waits p ∧ Forall (λ w, w = Exited) (workers p').
Proof.
  revert p. induction m as [m IH] using lt_wf_ind. intros p Hm I Hc.
  destruct (decide (m = 0%nat)) as [->|Hne].
  { exists p. split_and!; [apply rtc_refl|done|done|by apply work_zero]. }
  destruct (work_pos (workers p)) as (i & w & Hi & Hw); [by rewrite Hm|].
  assert (∃ p1, internal p p1 ∧ waits p1 = waits p ∧ closed p1 = true ∧ (work (workers p1) < m)%nat)
    as (p1 & Hs & Ew & Hc1 & Hlt).
  { destruct w as [|t|]; [| |done].
    - exists (set_worker i Exited p). pose proof (work_insert _ _ _ Exited Hi) as E.
      split_and!; [by apply step_exit|done|done|]. cbn [finish set_worker workers]. cbn match in E. lia.
    - exists (finish i t p). pose proof (work_insert _ _ _ Idle Hi) as E.
      split_and!; [by apply step_finish|done|done|]. cbn [finish set_worker workers]. cbn match in E. lia. }
  destruct (IH _ Hlt p1 eq_refl) as (p' & Hs' & I' & Ew' & Hall); [by eapply internal_inv|done|].
  exists p'. split_and!; [by eapply rtc_l|done|by rewrite Ew'|done].
Qed.

(** ** Properties *)

(** C8: in every reachable state the accepted tasks are exactly those running
    and those finished, each once, on at most max(1, workers) goroutines; when
    the Wait that closed the pool has returned, every worker has exited and
    every accepted task has finished. *)
Theorem pool_runs_each_task_once n p :
  reachable n p →
  accepted (calls p) ≡ₚ running (workers p) ++ finished p ∧
  Z.of_nat (length (running (workers p))) ≤ Z.max 1 n ∧
  (Waited ∈ waits p → Forall (λ w, w = Exited) (workers p) ∧ accepted (calls p) ≡ₚ finished p).
Proof.
  intros Hr. destruct (reachable_inv n p Hr) as [Hn Ht _ _ Hd]. split_and!; [done| |].
  - rewrite <-Hn. clear. induction (workers p) as [|[] ws IH]; simpl in *; lia.
  - intros Hw. specialize (Hd Hw). split; [done|]. rewrite Ht.
    by rewrite (running_exited _ Hd).
Qed.

(** C35: Wait can always complete: from every reachable state in which the
    closing Wait is blocked, the pool's own goroutines have a sequence of steps
    (tasks finish, workers leave their loop) after which that Wait has returned
    and everything accepted has finished. *)
Theorem wait_completes n p i :
  reachable n p → waits p !! i = Some Waiting →
  ∃ p', rtc internal p p' ∧ waits p' !! i = Some Waited ∧ accepted (calls p') ≡ₚ finished p'.
Proof.
  intros Hr Hi. pose proof (reachable_inv n p Hr) as I.
  destruct (drain (work (workers p)) n p eq_refl I) as (p1 & Hs & I1 & Hw & Hall).
  { apply (inv_waits _ _ I). by destruct (waits p). }
  rewrite <-Hw in Hi.
  exists {| closed := closed p1; workers := workers p1; calls := calls p1;
            waits := <[i := Waited]> (waits p1); finished := finished p1 |}.
  split_and!.
  - eapply rtc_r; [exact Hs|]. by apply step_waited.
  - simpl. apply list_lookup_insert_eq. by eapply lookup_lt_Some.
  - simpl. rewrite (inv_tasks _ _ I1). by rewrite (running_exited _ Hall).
Qed.

(** SubmitCtx can panic instead of returning ErrClosed: its check and its
    send are separate steps, and when Wait closes the channel in between, the
    pending send panics with "send on closed channel".  This is reachable on
    every pool. *)
Theorem SubmitCtx_can_panic n :
  ∃ p, reachable n p ∧ calls p = [Panicked "send on closed channel"].
Proof.
  eexists. split.
  - eapply rtc_l; [apply (step_submit SubmitCtx 0)|].
    eapply rtc_l; [apply step_wait|].
    eapply rtc_l; [apply step_internal, (step_send_closed 0 SubmitCtx 0); done|]. apply rtc_refl.
  - done.
Qed.

(** only the first Wait waits: a second call returns at once although an
    accepted task is still running. *)
Theorem second_Wait_returns_early n :
  ∃ p t, reachable n p ∧ FoundClosed ∈ waits p ∧ t ∈ running (workers p) ∧ t ∈ accepted (calls p).
Proof.
  assert (∃ k, New n = {| closed := false; workers := Idle :: replicate k Idle; calls := [];
    waits := []; finished := [] |}) as [k Ek].
  { unfold New. exists (Z.to_nat ((if n <? 1 then 1 else n) - 1)).
    replace (Z.to_nat (if n <? 1 then 1 else n)) with (S (Z.to_nat ((if n <? 1 then 1 else n) - 1)))
      by (case_match; zbool; lia). done. }
  unfold reachable. rewrite Ek. eexists _, 7%nat. split.
  - eapply rtc_l; [apply (step_submit Submit 7)|].
    eapply rtc_l; [by apply step_internal, (step_handoff 0 0 Submit 7)|].
    eapply rtc_l; [apply step_wait|]. eapply rtc_l; [apply step_wait|]. apply rtc_refl.
  - split_and!; simpl; [right|..]; by left.
Qed.

(** ** Witnesses *)

(** One worker; a task handed over and finished; the pool closed and drained. *)
Definition drained : Pool :=
  {| closed := true; workers := [Exited]; calls := [Accepted 5]; waits := [Waited]; finished := [5%nat] |}.
Definition blocked : Pool :=
  {| closed := true; workers := [Busy 5]; calls := [Accepted 5]; waits := [Waiting]; finished := [] |}.

Lemma blocked_reachable : reachable 1 blocked.
Proof.
  eapply rtc_l; [apply (step_submit Submit 5)|].
  eapply rtc_l; [by apply step_internal, (step_handoff 0 0 Submit 5)|].
  eapply rtc_l; [apply step_wait|]. apply rtc_refl.
Qed.

Lemma drained_reachable : reachable 1 drained.
Proof.
  unfold reachable. etrans; [apply blocked_reachable|].
  eapply rtc_l; [by apply step_internal, (step_finish 0 5)|].
  eapply rtc_l; [by apply step_internal, (step_exit 0)|].
  eapply rtc_l; [apply step_internal, (step_waited 0); [done|by apply Forall_singleton]|]. apply rtc_refl.
Qed.

Lemma pool_runs_each_task_once_witness : accepted (calls drained) ≡ₚ finished drained.
Proof.
  apply (pool_runs_each_task_once 1 drained drained_reachable). by left.
Defined.

Lemma wait_completes_witness :
  ∃ p', rtc internal blocked p' ∧ waits p' !! 0%nat = Some Waited ∧ accepted (calls p') ≡ₚ finished p'.
Proof. apply (wait_completes 1 blocked 0 blocked_reachable). done. Defined.
