(* ===== verification/PaymentGateway.v ===== *)
(** * Package financial/paymentgateway

    The data types of the gateway contract and the two URL helpers of
    src/financial/paymentgateway/paymentgateway.go.  The helpers work on the
    bytes of the URL, as the functions of package strings do for one-byte
    separators.  The Gateway interface has no implementation in the
    repository. *)

From S2P Require Import Prelude GoString GoErrors.
From stdpp Require Import base list gmap strings.
From Stdlib Require Import ZArith Lia.
Open Scope Z_scope.

Inductive Status :=
| StatusPending | StatusAuthorized | StatusCaptured | StatusFailed | StatusCancelled | StatusRefunded.

Definition ErrDeclined : error := ENew "payment declined by gateway".
Definition ErrInsufficientFunds : error := ENew "insufficient funds".
Definition ErrInvalidAmount : error := ENew "invalid amount".
Definition ErrUnsupportedMethod : error := ENew "payment method not supported".
Definition ErrUnsupportedCurrency : error := ENew "currency not supported".
Definition ErrGatewayTimeout : error := ENew "gateway timeout".
Definition ErrInvalidRequest : error := ENew "invalid request".
Definition ErrNotFound : error := ENew "payment not found".

Record PaymentRequest := {
  Reference : string;
  Amount : Z;
  Currency : string;
  Method : string;
  Description : string;
  CallbackURL : string;
  Metadata : gmap string string
}.

Record RefundRequest := {
  RefundPaymentID : string;
  RefundAmount : Z;
  RefundCurrency : string;
  RefundReason : string;
  RefundReference : string
}.

(** The raw payload of the gateway has any type. *)
Record PaymentResponse {Raw : Type} := {
  RespReference : string; GatewayPaymentID : string; RespStatus : Status; RedirectURL : string;
  FailureReason : string; RespRaw : option Raw
}.
Arguments PaymentResponse : clear implicits.
Record RefundResponse {Raw : Type} := {
  RefundRespReference : string; GatewayRefundID : string; RefundStatus : Status; RefundedAmount : Z;
  RefundFailureReason : string; RefundRaw : option Raw
}.
Arguments RefundResponse : clear implicits.
Record StatusReport {Raw : Type} := {
  ReportPaymentID : string; ReportStatus : Status; CapturedAmount : Z; ReportCurrency : string;
  ReportFailureReason : string; ReportRaw : option Raw
}.
Arguments StatusReport : clear implicits.

(** The interface Gateway, over the state of the gateway, with what its comments
    ask of an implementation. *)
Class Gateway (S Raw : Type) := {
  Code : string;
  Name : string;
  SupportedCurrencies : list string;
  SupportedMethods : list string;
  Charge : PaymentRequest → S → result error (PaymentResponse Raw) * S;
  StatusOf : string → S → result error (StatusReport Raw);
  Cancel : string → S → option error * S;
  Refund : RefundRequest → S → result error (RefundResponse Raw) * S;
  known : string → S → Prop;                 (* the identifiers the gateway recognizes *)
  Charge_echo req s r s' : Charge req s = (Ok r, s') → RespReference r = Reference req;
  Status_unknown id s err : ¬ known id s → StatusOf id s = Err err → errors_Is err ErrNotFound = true;
  Cancel_unknown id s : ¬ known id s → ∃ err, (Cancel id s).1 = Some err ∧ errors_Is err ErrNotFound = true;
  Cancel_captured id s r : StatusOf id s = Ok r → ReportStatus r = StatusCaptured →
    ∃ err, (Cancel id s).1 = Some err ∧ errors_Is err ErrInvalidRequest = true
}.

(** ** Package strings on one-byte separators *)

Definition slash : Z := 47.
Definition question : Z := 63.

(** strings.Index and strings.LastIndex of a one-byte string. *)
Fixpoint Index (c : Z) (l : list Z) : option nat :=
  match l with
  | [] => None
  | x :: l => if x =? c then Some O else S <$> Index c l
  end.
Definition LastIndex (c : Z) (l : list Z) : option nat :=
  (λ i, (length l - 1 - i)%nat) <$> Index c (reverse l).

(** strings.TrimSuffix and strings.TrimRight of a one-byte string. *)
Definition TrimSuffix (c : Z) (l : list Z) : list Z :=
  match last l with
  | Some x => if x =? c then take (length l - 1) l else l
  | None => l
  end.
Fixpoint trim_left (c : Z) (l : list Z) : list Z :=
  match l with
  | [] => []
  | x :: l' => if x =? c then trim_left c l' else l
  end.
Definition TrimRight (c : Z) (l : list Z) : list Z := reverse (trim_left c (reverse l)).

Definition BuildCallbackURLWithReference (baseURL reference : string) : string :=
  if String.eqb baseURL "" then ""
  else
    let url := bytes_of baseURL in
    let '(path, query) :=
      match Index question url with
      | Some i => (take i url, drop i url)
      | None => (url, [])
      end in
    let path := TrimSuffix slash path in
    of_bytes (path ++ slash :: bytes_of reference ++ query).

Definition ExtractReferenceFromPath (urlPath : string) : result error string :=
  let p := TrimRight slash (bytes_of urlPath) in
  if (length p =? 0)%nat then Err (EWrap "" ": empty path" ErrInvalidRequest)
  else
    let p := match Index question p with Some i => take i p | None => p end in
    let p := match LastIndex slash p with Some i => drop (i + 1) p | None => p end in
    if (length p =? 0)%nat then Err (EWrap "" ": no trailing segment" ErrInvalidRequest)
    else Ok (of_bytes p).

(** ** Lemmas *)

Lemma Index_none c l : c ∉ l → Index c l = None.
Proof.
  induction l as [|x l IH]; intros Hc; [done|]. simpl. destruct (Z.eqb_spec x c) as [->|].
  - exfalso. apply Hc. by left.
  - rewrite IH; [done|]. intros ?. apply Hc. by right.
Qed.

Lemma Index_app c l r : c ∉ l → Index c (l ++ c :: r) = Some (length l).
Proof.
  induction l as [|x l IH]; intros Hc; simpl; [by rewrite Z.eqb_refl|].
  destruct (Z.eqb_spec x c) as [->|]; [exfalso; apply Hc; by left|].
  rewrite IH; [done|]. intros ?. apply Hc. by right.
Qed.

Lemma Index_Some c l i : Index c l = Some i → (c ∉ take i l) ∧ ∃ r, drop i l = c :: r.
Proof.
  revert i. induction l as [|x l IH]; intros i; simpl; [done|].
  destruct (Z.eqb_spec x c) as [->|Hne].
  - intros [= <-]. split; [by intros ?%not_elem_of_nil|by exists l].
  - destruct (Index c l) as [j|]; [|done]. intros [= <-]. destruct (IH j eq_refl) as [Hn [r Hr]].
    split; [|by exists r]. simpl. intros [->|?]%elem_of_cons; done.
Qed.

Lemma LastIndex_app c l r : c ∉ r → LastIndex c (l ++ c :: r) = Some (length l).
Proof.
  intros Hc. unfold LastIndex. rewrite reverse_app, reverse_cons, <-app_assoc. simpl.
  rewrite Index_app by (by rewrite elem_of_reverse). simpl. f_equal.
  rewrite length_app, length_reverse. simpl. lia.
Qed.

Lemma TrimRight_id c l x : x ≠ c → TrimRight c (l ++ [x]) = l ++ [x].
Proof.
  intros Hx. unfold TrimRight. rewrite reverse_snoc. simpl.
  destruct (Z.eqb_spec x c); [done|]. by rewrite reverse_cons, reverse_involutive.
Qed.

(** Trailing separators are dropped only down to the last other byte. *)
Lemma TrimRight_keeps c l x r : x ≠ c → ∃ r', TrimRight c (l ++ x :: r) = l ++ x :: r'.
Proof.
  intros Hx. induction r as [|y r IH] using rev_ind.
  - exists []. by apply TrimRight_id.
  - destruct (decide (y = c)) as [->|Hy].
    + destruct IH as [r' E]. exists r'. rewrite <-E. unfold TrimRight.
      rewrite app_comm_cons, app_assoc, reverse_snoc. simpl. by rewrite Z.eqb_refl.
    + exists (r ++ [y]). rewrite app_comm_cons, app_assoc. by rewrite TrimRight_id.
Qed.

Lemma Index_not_None c l : c ∈ l → Index c l ≠ None.
Proof.
  induction l as [|x l IH]; [by intros ?%not_elem_of_nil|]. simpl. destruct (Z.eqb_spec x c); [done|].
  intros [->|Hin]%elem_of_cons; [done|]. specialize (IH Hin). by destruct (Index c l).
Qed.

Lemma TrimSuffix_bytes c l : Forall in_byte l → Forall in_byte (TrimSuffix c l).
Proof.
  intros Hl. unfold TrimSuffix. destruct (last l) as [x|]; [|done].
  destruct (x =? c); [by apply Forall_take|done].
Qed.

Lemma TrimSuffix_question c l : question ∉ l → question ∉ TrimSuffix c l.
Proof.
  intros Hl. unfold TrimSuffix. destruct (last l) as [x|]; [|done].
  destruct (x =? c); [|done]. intros Hin. apply Hl.
  rewrite <-(take_drop (length l - 1) l), elem_of_app. by left.
Qed.

(** What may follow the path: nothing, or a query string. *)
Definition query_like (t : list Z) : Prop := t = [] ∨ ∃ q, t = question :: q.

(** The split of a URL at its first question mark. *)
Lemma split_query l :
  ∃ path query,
    match Index question l with Some i => (take i l, drop i l) | None => (l, []) end = (path, query) ∧
    path ++ query = l ∧ (question ∉ path) ∧ query_like query.
Proof.
  destruct (Index question l) as [i|] eqn:E; do 2 eexists; split; [done| |done|].
  - apply Index_Some in E as [Hn [r Hd]]. rewrite take_drop. split_and!; [done|done|]. right. by exists r.
  - rewrite app_nil_r. split_and!; [done| |by left]. intros Hin. by apply Index_not_None in Hin.
Qed.

(** Cutting a query string off again. *)
Lemma cut_query l t :
  question ∉ l → query_like t →
  match Index question (l ++ t) with Some i => take i (l ++ t) | None => l ++ t end = l.
Proof.
  intros Hl [->|[q ->]]; [by rewrite app_nil_r, Index_none|]. rewrite Index_app by done. apply take_app_length.
Qed.

(** Trimming slashes cannot reach a nonempty last segment without them. *)
Lemma TrimRight_segment l R query :
  R ≠ [] → slash ∉ R → query_like query →
  ∃ t, TrimRight slash (l ++ R ++ query) = (l ++ R) ++ t ∧ query_like t.
Proof.
  intros HR Hs [->|[q ->]].
  - exists []. rewrite !app_nil_r. split; [|by left].
    destruct (exists_last HR) as (init & x & ->). rewrite app_assoc.
    apply TrimRight_id. intros ->. apply Hs. rewrite elem_of_app. right. by left.
  - destruct (TrimRight_keeps slash (l ++ R) question q) as [r' E]; [done|].
    exists (question :: r'). rewrite <-E, <-app_assoc. split; [done|]. right. by exists r'.
Qed.

Lemma Extract_segment P R query ref :
  Forall in_byte (P ++ slash :: R ++ query) → question ∉ P → R = bytes_of ref → ref ≠ "" →
  slash ∉ R → question ∉ R → query_like query →
  ExtractReferenceFromPath (of_bytes (P ++ slash :: R ++ query)) = Ok ref.
Proof.
  intros Hb HP ER Hr Hs Hq Hquery. unfold ExtractReferenceFromPath. rewrite bytes_of_of_bytes by done.
  assert (R ≠ []) as HR by (subst R; intros E; apply Hr, bytes_of_inj, E).
  assert (question ∉ P ++ slash :: R) as HPR
    by (rewrite elem_of_app, elem_of_cons; intros [?|[?|?]]; done).
  destruct (TrimRight_segment (P ++ [slash]) R query HR Hs Hquery) as (t & E & Ht).
  rewrite <-!app_assoc in E. cbn [app] in E. cbv zeta. rewrite E, app_comm_cons, app_assoc, cut_query by done.
  rewrite LastIndex_app by done. rewrite Nat.add_1_r.
  replace (drop (S (length P)) (P ++ slash :: R)) with R
    by (rewrite drop_app_ge, Nat.sub_succ_l, Nat.sub_diag by lia; done).
  rewrite (proj2 (Nat.eqb_neq _ _)) by (rewrite !length_app; simpl; lia).
  rewrite (proj2 (Nat.eqb_neq _ _)) by (by destruct R).
  subst R. by rewrite of_bytes_bytes_of.
Qed.

(** ** Properties *)

Lemma callback_roundtrip base ref :
  base ≠ "" → ref ≠ "" → slash ∉ bytes_of ref → question ∉ bytes_of ref →
  ExtractReferenceFromPath (BuildCallbackURLWithReference base ref) = Ok ref.
Proof.
  intros Hb Hr Hs Hq. unfold BuildCallbackURLWithReference. apply String.eqb_neq in Hb. rewrite Hb.
  destruct (split_query (bytes_of base)) as (path & query & -> & Eb & Hp & Hquery).
  assert (Forall in_byte (path ++ query)) as [Hpath Hqr]%Forall_app by (rewrite Eb; apply bytes_of_range).
  apply Extract_segment; try done.
  - apply Forall_app_2; [by apply TrimSuffix_bytes|].
    apply Forall_cons_2; [done|]. apply Forall_app_2; [apply bytes_of_range|done].
  - by apply TrimSuffix_question.
Qed.

(** the reference survives the round trip: for every base URL and every
    nonempty reference without '/' and '?', extracting the reference from the
    built callback URL returns it, whatever query string and trailing slashes
    the base URL has. *)
Theorem callback_reference_roundtrip base ref :
  base ≠ "" → ref ≠ "" → slash ∉ bytes_of ref → question ∉ bytes_of ref →
  ExtractReferenceFromPath (BuildCallbackURLWithReference base ref) = Ok ref.
Proof. apply callback_roundtrip. Qed.

(** The path is stripped of its slashes before the query is cut, so a slash
    just before the query hides the last segment. *)
Example trailing_slash_before_query :
  ExtractReferenceFromPath "/cb/abc/?x=1" = Err (EWrap "" ": no trailing segment" ErrInvalidRequest) ∧
  ExtractReferenceFromPath "/cb/abc/" = Ok "abc".
Proof. by vm_compute. Qed.

Lemma callback_reference_roundtrip_witness :
  ExtractReferenceFromPath (BuildCallbackURLWithReference "https://x/cb/?a=1/" "abc") = Ok "abc".
Proof.
  apply (callback_reference_roundtrip "https://x/cb/?a=1/" "abc"); [done|done|..];
    apply (bool_decide_unpack _); by vm_compute.
Defined.

(** ** Gateways *)

(** A charge sent with a callback built for its reference: what the callback
    gives back is the reference of the response, for every gateway that keeps its
    contract. *)
Theorem callback_matches_charge {S Raw} `{Gateway S Raw} base req (s s' : S) r :
  base ≠ "" → Reference req ≠ "" → slash ∉ bytes_of (Reference req) → question ∉ bytes_of (Reference req) →
  CallbackURL req = BuildCallbackURLWithReference base (Reference req) →
  Charge req s = (Ok r, s') →
  ExtractReferenceFromPath (CallbackURL req) = Ok (RespReference r).
Proof. intros Hb Hr Hs Hq -> Hc. rewrite (Charge_echo _ _ _ _ Hc). by apply callback_roundtrip. Qed.

(** A gateway that keeps the status of each payment in memory. *)
Definition mem_Charge (req : PaymentRequest) (s : gmap string Status)
    : result error (PaymentResponse unit) * gmap string Status :=
  (Ok {| RespReference := Reference req; GatewayPaymentID := Reference req; RespStatus := StatusPending;
         RedirectURL := ""; FailureReason := ""; RespRaw := None |}, <[Reference req := StatusPending]> s).
Definition mem_Status (id : string) (s : gmap string Status) : result error (StatusReport unit) :=
  match s !! id with
  | Some st => Ok {| ReportPaymentID := id; ReportStatus := st; CapturedAmount := 0; ReportCurrency := "IQD";
                     ReportFailureReason := ""; ReportRaw := None |}
  | None => Err ErrNotFound
  end.
Definition mem_Cancel (id : string) (s : gmap string Status) : option error * gmap string Status :=
  match s !! id with
  | None => (Some ErrNotFound, s)
  | Some StatusCaptured => (Some (EWrap "memory: " "" ErrInvalidRequest), s)
  | Some _ => (None, <[id := StatusCancelled]> s)
  end.
#[global] Program Instance memory_gateway : Gateway (gmap string Status) unit := {|
  Code := "memory"; Name := "in memory"; SupportedCurrencies := ["IQD"; "USD"]; SupportedMethods := ["card"];
  Charge := mem_Charge; StatusOf := mem_Status; Cancel := mem_Cancel;
  Refund := λ _ s, (Err ErrNotFound, s);
  known := λ id s, is_Some (s !! id)
|}.
Next Obligation. by intros req s r s' [= <- _]. Qed.
Next Obligation.
  unfold mem_Status. intros id s err Hk. destruct (s !! id) eqn:E; [|by intros [= <-]]. destruct Hk. by eexists.
Qed.
Next Obligation. unfold mem_Cancel. intros id s Hk. destruct (s !! id) eqn:E; [destruct Hk; by eexists|]. by eexists. Qed.
Next Obligation.
  unfold mem_Status, mem_Cancel. intros id s r. destruct (s !! id) as [st|]; [|done]. intros [= <-]. cbn. intros ->. by eexists.
Qed.
