(* ===== verification/HttpClient.v ===== *)
(** * Package httpx/client

    The configuration defaults and the retrying transport of
    src/httpx/client/client.go.  The wrapped transport is the function of the
    attempt number and of the body it is handed; what a sleep observes (the
    context's error, or the timer) is an argument per attempt.  The
    construction of the net/http transport itself is not modelled. *)

From S2P Require Import Prelude GoFloat GoErrors.
From stdpp Require Import base list strings.
From Stdlib Require Import ZArith Lia SpecFloat.
Open Scope Z_scope.

Record RetryConfig := {
  MaxAttempts : Z;
  BackoffInitial : Duration;
  BackoffMax : Duration;
  BackoffMultiplier : float64;
  RetryOnStatuses : option (list Z);      (* a nil slice is None *)
  RetryOnNetErr : bool
}.

Record Config := {
  Timeout : Duration;
  DialTimeout : Duration;
  TLSHandshakeTimeout : Duration;
  IdleConnTimeout : Duration;
  MaxIdleConns : Z;
  MaxIdleConnsPerHost : Z;
  DisableKeepAlives : bool;
  Retry : RetryConfig
}.

Definition or_default (d z : Z) : Z := if z =? 0 then d else z.

Definition applyDefaults (c : Config) : Config :=
  {| Timeout := or_default (30 * Second) (Timeout c);
     DialTimeout := or_default (5 * Second) (DialTimeout c);
     TLSHandshakeTimeout := or_default (5 * Second) (TLSHandshakeTimeout c);
     IdleConnTimeout := or_default (90 * Second) (IdleConnTimeout c);
     MaxIdleConns := or_default 100 (MaxIdleConns c);
     MaxIdleConnsPerHost := or_default 10 (MaxIdleConnsPerHost c);
     DisableKeepAlives := DisableKeepAlives c;
     Retry :=
       let r := Retry c in
       {| MaxAttempts := MaxAttempts r;
          BackoffInitial := or_default (100 * Millisecond) (BackoffInitial r);
          BackoffMax := or_default (5 * Second) (BackoffMax r);
          BackoffMultiplier :=
            if feq (BackoffMultiplier r) (float_of_Z 0) then float_of_Z 2 else BackoffMultiplier r;
          RetryOnStatuses :=
            match RetryOnStatuses r with None => Some [502; 503; 504] | Some l => Some l end;
          RetryOnNetErr := if negb (RetryOnNetErr r) then true else RetryOnNetErr r |} |}.

(** The transport of a client: the caller's, a pooled one, or a retrying one
    around another. *)
Inductive transport :=
| Given
| Pooled (dial keepAlive tlsHandshake idleConn : Duration) (maxIdle maxIdlePerHost : Z) (disableKeepAlives : bool)
| Retrying (next : transport) (cfg : RetryConfig).
Record Client := { client_Timeout : Duration; client_Transport : transport }.
(** [given]: cfg.Transport is not nil. *)
Definition New (given : bool) (c : Config) : Client :=
  let c := applyDefaults c in
  let t := if given then Given
           else Pooled (DialTimeout c) (30 * Second) (TLSHandshakeTimeout c) (IdleConnTimeout c)
                  (MaxIdleConns c) (MaxIdleConnsPerHost c) (DisableKeepAlives c) in
  {| client_Timeout := Timeout c;
     client_Transport := if 1 <? MaxAttempts (Retry c) then Retrying t (Retry c) else t |}.

Abbreviation body := (list Z).

(** What the wrapped transport returns: a response, as its status code, or an
    error; a nil response without an error does not occur (http.RoundTripper). *)
Inductive reply := Response (status : Z) | Failure (err : error).

Definition shouldRetry (cfg : RetryConfig) (r : reply) : bool :=
  match r with
  | Failure err =>
      if negb (RetryOnNetErr cfg) then false
      else if errors_Is err Canceled || errors_Is err DeadlineExceeded then false
      else true
  | Response status => existsb (λ s, status =? s) (default [] (RetryOnStatuses cfg))
  end.

(** One run of RoundTrip: its result, the bodies the wrapped transport was
    handed, the responses whose body was drained and closed, the timers armed. *)
Record trip := {
  result : reply;
  handed : list (option body);
  discarded : list Z;
  slept : list Duration
}.

Section roundtrip.
Context `{FloatConv}.
Variables (cfg : RetryConfig) (next : nat → option body → reply) (sleepCtx : nat → option error).

Definition next_delay (delay : Duration) : Duration :=
  let delay := int64_of_float (fmul (float_of_Z delay) (BackoffMultiplier cfg)) in
  if BackoffMax cfg <? delay then BackoffMax cfg else delay.

Definition status_of (r : reply) : list Z := match r with Response s => [s] | Failure _ => [] end.

(** The loop from attempt [attempt]; [None]: out of fuel, or no attempt was
    made (MaxAttempts below 1, where the code returns a nil response and a nil
    error), neither of which happens behind New. *)
Fixpoint attempts (fuel : nat) (attempt : Z) (bodyBytes : option body) (delay : Duration)
    (last : option reply) : option trip :=
  if attempt <=? MaxAttempts cfg then
    match fuel with
    | O => None
    | S fuel =>
        let r := next (Z.to_nat attempt) bodyBytes in
        if negb (shouldRetry cfg r) || (attempt =? MaxAttempts cfg)
        then Some {| result := r; handed := [bodyBytes]; discarded := []; slept := [] |}
        else
          match sleepCtx (Z.to_nat attempt) with
          | Some err =>
              Some {| result := Failure err; handed := [bodyBytes]; discarded := status_of r; slept := [delay] |}
          | None =>
              t ← attempts fuel (attempt + 1) bodyBytes (next_delay delay) (Some r);
              Some {| result := result t; handed := bodyBytes :: handed t;
                      discarded := status_of r ++ discarded t; slept := delay :: slept t |}
          end
    end
  else
    r ← last; Some {| result := r; handed := []; discarded := []; slept := [] |}.

(** [reqBody]: nil or NoBody, or what reading the body to its end gives. *)
Definition RoundTrip (reqBody : option (Prelude.result error body)) : option trip :=
  match reqBody with
  | Some (Err err) =>
      Some {| result := Failure (EWrap "httpx: read body for retry: " "" err);
              handed := []; discarded := []; slept := [] |}
  | Some (Ok b) => attempts (Z.to_nat (MaxAttempts cfg)) 1 (Some b) (BackoffInitial cfg) None
  | None => attempts (Z.to_nat (MaxAttempts cfg)) 1 None (BackoffInitial cfg) None
  end.

(** ** Lemmas *)

(** Attempt [i] of [n] decides the run, with [r]. *)
Definition decides (b : option body) (i n : Z) (r : reply) : Prop :=
  let r0 := next (Z.to_nat i) b in
  (r = r0 ∧ (shouldRetry cfg r0 = false ∨ i = n)) ∨
  (shouldRetry cfg r0 = true ∧ i ≠ n ∧ ∃ err, sleepCtx (Z.to_nat i) = Some err ∧ r = Failure err).

Definition passes (b : option body) (i : Z) : Prop :=
  shouldRetry cfg (next (Z.to_nat i) b) = true ∧ sleepCtx (Z.to_nat i) = None.

Lemma attempts_spec fuel a b delay last :
  1 ≤ a ≤ MaxAttempts cfg → MaxAttempts cfg - a < Z.of_nat fuel →
  ∃ t k, attempts fuel a b delay last = Some t ∧ a ≤ k ≤ MaxAttempts cfg ∧
    decides b k (MaxAttempts cfg) (result t) ∧ (∀ i, a ≤ i < k → passes b i) ∧
    handed t = replicate (Z.to_nat (k - a + 1)) b ∧
    (length (slept t) ≤ Z.to_nat (k - a + 1))%nat.
Proof.
  revert a delay last. induction fuel as [|fuel IH]; intros a delay last Ha Hf; [lia|].
  cbn [attempts]. rewrite (proj2 (Z.leb_le _ _)) by lia.
  set (r := next (Z.to_nat a) b). unfold decides, passes.
  destruct (negb (shouldRetry cfg r) || (a =? MaxAttempts cfg)) eqn:E.
  - eexists _, a. split; [done|]. rewrite Z.sub_diag. simpl. split_and!; try lia; [|done].
    left. fold r. split; [done|]. apply orb_true_iff in E as [E|E]; [left; by apply negb_true_iff|].
    right. by apply Z.eqb_eq.
  - apply orb_false_iff in E as [E1 E2]. apply negb_false_iff in E1. apply Z.eqb_neq in E2.
    destruct (sleepCtx (Z.to_nat a)) as [err|] eqn:Es.
    + eexists _, a. split; [done|]. rewrite Z.sub_diag. simpl. split_and!; try lia; [|done].
      right. fold r. split_and!; try done. by exists err.
    + destruct (IH (a + 1) (next_delay delay) (Some r)) as (t & k & Et & Hk & Hd & Hp & Hh & Hl); [lia..|].
      rewrite Et. eexists _, k. split; [done|]. simpl.
      replace (Z.to_nat (k - a + 1)) with (S (Z.to_nat (k - (a + 1) + 1))) by lia.
      split_and!; try lia.
      * exact Hd.
      * intros i Hi. destruct (decide (i = a)) as [->|]; [by fold r|apply Hp; lia].
      * by rewrite Hh.
Qed.
End roundtrip.

(** ** Properties *)

(** a retried request is replayed faithfully.  The retrying transport always
    returns; the wrapped transport is called k times, 1 <= k <= MaxAttempts,
    each time with the same complete body; the first k-1 replies were retryable
    and followed by an uncancelled sleep; and the result is the k-th reply
    (which is not retryable, or k is the last attempt) or the context's error
    from the sleep after it. *)
Theorem RoundTrip_replays `{FloatConv} cfg next sleepCtx reqBody :
  1 ≤ MaxAttempts cfg → (∀ e, reqBody ≠ Some (Err e)) →
  let b := match reqBody with Some (Ok b) => Some b | _ => None end in
  ∃ t k, RoundTrip cfg next sleepCtx reqBody = Some t ∧ 1 ≤ k ≤ MaxAttempts cfg ∧
    handed t = replicate (Z.to_nat k) b ∧
    decides cfg next sleepCtx b k (MaxAttempts cfg) (result t) ∧
    (∀ i, 1 ≤ i < k → passes cfg next sleepCtx b i).
Proof.
  intros Hm Hb b. assert (RoundTrip cfg next sleepCtx reqBody =
    attempts cfg next sleepCtx (Z.to_nat (MaxAttempts cfg)) 1 b (BackoffInitial cfg) None) as ->.
  { destruct reqBody as [[]|]; try done. by edestruct Hb. }
  destruct (attempts_spec cfg next sleepCtx (Z.to_nat (MaxAttempts cfg)) 1 b (BackoffInitial cfg) None)
    as (t & k & Et & Hk & Hd & Hp & Hh & _); [lia..|].
  exists t, k. replace (k - 1 + 1) with k in Hh by lia. done.
Qed.

(** Turning RetryOnNetErr off has no effect: the defaults turn it on again. *)
Lemma RetryOnNetErr_always_on c : RetryOnNetErr (Retry (applyDefaults c)) = true.
Proof. simpl. by destruct (RetryOnNetErr (Retry c)). Qed.

(** ** Witnesses *)

Definition thrice : RetryConfig :=
  {| MaxAttempts := 3; BackoffInitial := 100 * Millisecond; BackoffMax := 5 * Second;
     BackoffMultiplier := float_of_Z 2; RetryOnStatuses := Some [503]; RetryOnNetErr := true |}.
Definition flaky (i : nat) (b : option body) : reply := if (i <? 2)%nat then Response 503 else Response 200.

Lemma RoundTrip_replays_witness :
  ∃ t k, RoundTrip thrice flaky (λ _, None) (Some (Ok [1; 2])) = Some t ∧ 1 ≤ k ≤ 3 ∧
    handed t = replicate (Z.to_nat k) (Some [1; 2]).
Proof.
  destruct (RoundTrip_replays thrice flaky (λ _, None) (Some (Ok [1; 2]))) as (t & k & E & Hk & Hh & _);
    [done|done|]. exists t, k. done.
Defined.

(** ** Clients *)

(** A client retries exactly when more than one attempt is configured, and then
    through the configuration with its defaults: some attempt is made, there is a
    list of statuses, network errors are always retried, and the delays are set.
    It always has a deadline unless a negative one was configured. *)
Theorem New_retries given c :
  let cl := New given c in
  (1 < MaxAttempts (Retry c) ↔ ∃ next cfg, client_Transport cl = Retrying next cfg) ∧
  (∀ next cfg, client_Transport cl = Retrying next cfg →
     cfg = Retry (applyDefaults c) ∧ 2 ≤ MaxAttempts cfg ∧ is_Some (RetryOnStatuses cfg) ∧ RetryOnNetErr cfg = true ∧
     BackoffInitial cfg ≠ 0 ∧ BackoffMax cfg ≠ 0 ∧ (next = Given ↔ given = true)) ∧
  client_Timeout cl ≠ 0.
Proof.
  unfold New. cbv zeta. cbn [client_Transport client_Timeout].
  assert (∀ d z, d ≠ 0 → or_default d z ≠ 0) as Hd by (intros d z ?; unfold or_default; case_match; zbool; lia).
  split_and!; [| |apply Hd; unfold Second; lia].
  - change (MaxAttempts (Retry (applyDefaults c))) with (MaxAttempts (Retry c)).
    destruct (Z.ltb_spec 1 (MaxAttempts (Retry c))); split; try lia; [by eexists _, _|]. intros (? & ? & E). by destruct given.
  - intros next cfg. destruct (Z.ltb_spec 1 (MaxAttempts (Retry (applyDefaults c)))) as [Hm|]; [|by destruct given].
    intros [= <- <-]. split_and!; [done|cbn in *; lia|cbn; by destruct (RetryOnStatuses _)|cbn; by destruct (RetryOnNetErr _)| | |by destruct given].
    + apply Hd. unfold Millisecond. lia.
    + apply Hd. unfold Second. lia.
Qed.
