(* ===== verification/Middleware.v ===== *)
(** * Packages httpx/middleware and observability/health

    The net/http middlewares of src/httpx/middleware/middleware.go and the health
    checker of src/observability/health/health.go.  A handler is the program of
    what it does to the ResponseWriter it is given, so that a middleware can wrap
    the writer (Logger, Timeout), catch its panics (Recover) or act before it;
    [serve] runs a program on a response of net/http. *)

From S2P Require Import Prelude GoString GoErrors Id.
From stdpp Require Import base list gmap strings.
From Stdlib Require Import ZArith Lia.
Open Scope Z_scope.

(** ** net/http *)

Abbreviation headers := (gmap string string).

(** textproto.CanonicalMIMEHeaderKey: the bytes of a token are capitalised at the
    start and after a hyphen; a key with another byte is left alone. *)
Definition token_byte (c : Z) : bool :=
  ascii_digit c || ascii_upper c || ascii_lower c || bool_decide (c ∈ bytes_of "!#$%&'*+-.^_`|~").
Fixpoint capitalise (upper : bool) (cs : list Z) : list Z :=
  match cs with
  | [] => []
  | c :: cs => (if upper then ascii_to_upper c else ascii_to_lower c) :: capitalise (c =? 45) cs
  end.
Definition CanonicalHeaderKey (k : string) : string :=
  if forallb token_byte (bytes_of k) then of_bytes (capitalise true (bytes_of k)) else k.
Definition header_Get (h : headers) (k : string) : string := default "" (h !! CanonicalHeaderKey k).
Definition header_Set (k v : string) (h : headers) : headers := <[CanonicalHeaderKey k := v]> h.

(** One completed request, as Logger reports it. *)
Record LogEntry := {
  Method : string; Path : string; Status : Z; LogDuration : Duration; BytesOut : Z;
  LogRequestID : string; RemoteAddr : string
}.
(** The calls of the callbacks: logFn of Logger, logFn of Recover. *)
Inductive event := Logged (e : LogEntry) | PanicLogged (v : string).

(** What a handler does.  [WriteHeader] goes on with false when the writer
    panics, [Write] with the number of bytes written. *)
#[warnings="-register-all"]
Inductive prog :=
| Done
| Throw (v : string)
| Header (f : headers → headers) (p : prog)
| WriteHeader (code : Z) (k : bool → prog)
| Write (b : string) (k : Z → prog)
| Emit (e : event) (p : prog).

Record Response := { header : headers; sent : option (Z * headers); body : string }.
Definition fresh_response : Response := {| header := ∅; sent := None; body := "" |}.
Definition valid_code (code : Z) : bool := (100 <=? code) && (code <=? 999).
Definition informational (code : Z) : bool := (100 <=? code) && (code <=? 199) && negb (code =? 101).
(** response.WriteHeader: ignored once sent; an invalid code panics. *)
Definition write_header (code : Z) (s : Response) : bool * Response :=
  match sent s with
  | Some _ => (true, s)
  | None =>
      if negb (valid_code code) then (false, s)
      else if informational code then (true, s)
      else (true, {| header := header s; sent := Some (code, header s); body := body s |})
  end.
Definition body_allowed (code : Z) : bool := negb ((code =? 101) || (code =? 204) || (code =? 304)).
(** response.Write: the first write sends 200; no body for 204 and 304. *)
Definition write (b : string) (s : Response) : Z * Response :=
  let s := (write_header 200 s).2 in
  match sent s with
  | Some (code, _) =>
      if body_allowed code then (slen b, {| header := header s; sent := sent s; body := body s +:+ b |}) else (0, s)
  | None => (0, s)
  end.
Fixpoint serve (p : prog) (s : Response) : option string * Response * list event :=
  match p with
  | Done => (None, s, [])
  | Throw v => (Some v, s, [])
  | Header f p => serve p {| header := f (header s); sent := sent s; body := body s |}
  | WriteHeader code k => let '(ok, s) := write_header code s in serve (k ok) s
  | Write b k => let '(n, s) := write b s in serve (k n) s
  | Emit e p => let '(x, s, es) := serve p s in (x, s, e :: es)
  end.
(** A call of WriteHeader in a handler that does not recover. *)
Definition call_WriteHeader (code : Z) (p : prog) : prog :=
  WriteHeader code (λ ok, if ok then p else Throw ("invalid WriteHeader code " +:+ fmt_d code)).
(** http.Error, then nothing more. *)
Definition http_Error (msg : string) (code : Z) : prog :=
  Header (λ h, header_Set "X-Content-Type-Options" "nosniff"
                 (header_Set "Content-Type" "text/plain; charset=utf-8" (delete "Content-Length" h)))
    (call_WriteHeader code (Write (msg +:+ of_bytes [10]) (λ _, Done))).

(** A request with what its handling draws from the outside: random bytes and the
    clock before and after, and whether the handler beats a deadline. *)
Record Request := {
  r_method : string; r_path : string; r_header : headers; r_remote : string;
  r_ctx_id : option string;        (* the context value of requestIDKey *)
  r_random : option (list Z); r_start : Time; r_end : Time; r_in_time : Duration → bool
}.
Definition Handler : Type := Request → prog.

(** ** middleware.go *)

Definition Middleware : Type := Handler → Handler.
(** The loop from the last to the first. *)
Fixpoint chain_loop (i : nat) (mws : list Middleware) (h : Handler) : Handler :=
  match i with
  | O => h
  | S i => chain_loop i mws (match @lookup nat Middleware (list Middleware) _ i mws with Some m => m h | None => h end)
  end.
Definition Chain (mws : list Middleware) : Middleware := λ next, chain_loop (length mws) mws next.

(** A deferred recover: the panic of the handler is replaced by what is done with it. *)
Fixpoint on_panic (p : prog) (handle : string → prog) : prog :=
  match p with
  | Done => Done
  | Throw v => handle v
  | Header f p => Header f (on_panic p handle)
  | WriteHeader code k => WriteHeader code (λ ok, on_panic (k ok) handle)
  | Write b k => Write b (λ n, on_panic (k n) handle)
  | Emit e p => Emit e (on_panic p handle)
  end.
Definition Recover (logFn : bool) : Middleware := λ next r,
  on_panic (next r) (λ v, (if logFn then Emit (PanicLogged v) else id) (http_Error "internal server error" 500)).

Definition HeaderRequestID : string := "X-Request-Id".
Definition newRequestID (random : option (list Z)) (now : Time) : string :=
  match random with None => fmt_d now | Some b => of_bytes (hex_Encode b) end.
Definition with_id (id : string) (r : Request) : Request :=
  {| r_method := r_method r; r_path := r_path r; r_header := r_header r; r_remote := r_remote r; r_ctx_id := Some id;
     r_random := r_random r; r_start := r_start r; r_end := r_end r; r_in_time := r_in_time r |}.
Definition RequestID (headerName : string) : Middleware := λ next r,
  let headerName := if String.eqb headerName "" then HeaderRequestID else headerName in
  let id := header_Get (r_header r) headerName in
  let id := if String.eqb id "" then newRequestID (r_random r) (r_start r) else id in
  Header (header_Set headerName id) (next (with_id id r)).
Definition RequestIDFromContext (r : Request) : string := default "" (r_ctx_id r).

(** The writes of a program seen by statusRecorder, then [fin] with what it recorded. *)
Fixpoint recorded (p : prog) (status bytes : Z) (fin : Z → Z → prog) : prog :=
  match p with
  | Done => fin status bytes
  | Throw v => Throw v
  | Header f p => Header f (recorded p status bytes fin)
  | WriteHeader code k => WriteHeader code (λ ok, recorded (k ok) code bytes fin)
  | Write b k => Write b (λ n, recorded (k n) status (bytes + n) fin)
  | Emit e p => Emit e (recorded p status bytes fin)
  end.
(** A nil logFn is replaced by one that does nothing. *)
Definition Logger (logFn : bool) : Middleware := λ next r,
  recorded (next r) 200 0 (λ status bytes,
    (if logFn then Emit (Logged {| Method := r_method r; Path := r_path r; Status := status;
                                   LogDuration := time_Sub (r_end r) (r_start r); BytesOut := bytes;
                                   LogRequestID := RequestIDFromContext r; RemoteAddr := r_remote r |})
     else id) Done).

(** http.TimeoutHandler: the handler writes to a buffer, which is copied when it
    returns in time. *)
Record timeoutWriter := { tw_h : headers; tw_code : option Z; tw_buf : string }.
Definition tw_writeHeader (code : Z) (tw : timeoutWriter) : bool * timeoutWriter :=
  if negb (valid_code code) then (false, tw)
  else match tw_code tw with
       | Some _ => (true, tw)
       | None => (true, {| tw_h := tw_h tw; tw_code := Some code; tw_buf := tw_buf tw |})
       end.
Definition tw_write (b : string) (tw : timeoutWriter) : timeoutWriter :=
  {| tw_h := tw_h tw; tw_code := Some (default 200 (tw_code tw)); tw_buf := tw_buf tw +:+ b |}.
Fixpoint buffered (p : prog) (tw : timeoutWriter) : prog :=
  match p with
  | Done => Header (λ h, tw_h tw ∪ h) (call_WriteHeader (default 200 (tw_code tw)) (Write (tw_buf tw) (λ _, Done)))
  | Throw v => Throw v
  | Header f p => buffered p {| tw_h := f (tw_h tw); tw_code := tw_code tw; tw_buf := tw_buf tw |}
  | WriteHeader code k => let '(ok, tw) := tw_writeHeader code tw in buffered (k ok) tw
  | Write b k => buffered (k (slen b)) (tw_write b tw)
  | Emit e p => Emit e (buffered p tw)
  end.
Definition Timeout (d : Duration) : Middleware := λ next r,
  if r_in_time r d then buffered (next r) {| tw_h := ∅; tw_code := None; tw_buf := "" |}
  else call_WriteHeader 503 (Write "request timeout" (λ _, Done)).

Record CORSConfig := {
  AllowOrigins : list string; AllowMethods : list string; AllowHeaders : list string;
  AllowCredentials : bool; MaxAge : Z
}.
Definition cors_defaults (cfg : CORSConfig) : CORSConfig := {|
  AllowOrigins := AllowOrigins cfg;
  AllowMethods := match AllowMethods cfg with [] => ["GET"; "POST"; "PUT"; "PATCH"; "DELETE"; "OPTIONS"] | ms => ms end;
  AllowHeaders := match AllowHeaders cfg with [] => ["Content-Type"; "Authorization"] | hs => hs end;
  AllowCredentials := AllowCredentials cfg;
  MaxAge := if MaxAge cfg =? 0 then 600 else MaxAge cfg |}.
Definition wildcard (cfg : CORSConfig) : bool := bool_decide ("*" ∈ AllowOrigins cfg).
Definition allowedOrigins (cfg : CORSConfig) : list string := filter (λ o, o ≠ "*") (AllowOrigins cfg).
Definition origin_allowed (cfg : CORSConfig) (origin : string) : bool :=
  negb (String.eqb origin "") && (wildcard cfg || bool_decide (origin ∈ allowedOrigins cfg)).
Definition CORS (cfg0 : CORSConfig) : Middleware := λ next r,
  let cfg := cors_defaults cfg0 in
  let origin := header_Get (r_header r) "Origin" in
  let rest :=
    if String.eqb (r_method r) "OPTIONS" then
      Header (header_Set "Access-Control-Allow-Methods" (GoString.Join (AllowMethods cfg) ", "))
        (Header (header_Set "Access-Control-Allow-Headers" (GoString.Join (AllowHeaders cfg) ", "))
          (Header (header_Set "Access-Control-Max-Age" (fmt_d (MaxAge cfg))) (call_WriteHeader 204 Done)))
    else next r in
  if origin_allowed cfg origin then
    Header (header_Set "Access-Control-Allow-Origin" origin)
      (if AllowCredentials cfg then Header (header_Set "Access-Control-Allow-Credentials" "true") rest else rest)
  else rest.

(** ** What the middlewares do *)

Lemma chain_loop_foldr (mws : list Middleware) (h : Handler) : chain_loop (length mws) mws h = foldr (λ m h, m h) h mws.
Proof.
  assert (∀ i, (i ≤ length mws)%nat → chain_loop i mws h = foldr (λ (m : Middleware) h, m h) h (take i mws)) as H.
  2: { rewrite H by done. by rewrite take_ge. }
  intros i. revert h. induction i as [|i IH]; intros h Hi; [done|]. cbn [chain_loop].
  case_match eqn:Hm; [|apply lookup_ge_None in Hm; lia].
  rewrite (take_S_r _ _ _ Hm), foldr_app. apply IH. lia.
Qed.
(** The first middleware of the list runs first, and chains compose. *)
Lemma Chain_app ms ns next : Chain (ms ++ ns) next = Chain ms (Chain ns next).
Proof. unfold Chain. by rewrite !chain_loop_foldr, foldr_app. Qed.
Lemma Chain_cons m ms next : Chain (m :: ms) next = m (Chain ms next).
Proof. unfold Chain. by rewrite !chain_loop_foldr. Qed.
Lemma Chain_nil next : Chain [] next = next.
Proof. done. Qed.

(** *** Recover *)

Lemma serve_on_panic p h s :
  serve (on_panic p h) s =
  let '(x, s', es) := serve p s in
  match x with
  | None => (None, s', es)
  | Some v => let '(y, s'', fs) := serve (h v) s' in (y, s'', es ++ fs)
  end.
Proof.
  revert s. induction p as [|v|f p IH|code k IH|b k IH|e p IH]; intros s; cbn [on_panic serve].
  - done.
  - by destruct (serve (h v) s) as [[y s'] fs].
  - apply IH.
  - destruct (write_header code s) as [ok s']. apply IH.
  - destruct (write b s) as [n s']. apply IH.
  - rewrite IH. destruct (serve p s) as [[[v|] s'] es]; [|done]. by destruct (serve (h v) s') as [[y s''] fs].
Qed.

Definition status_of (s : Response) : Z := match sent s with Some (c, _) => c | None => 200 end.
Definition internal_error : string := "internal server error" +:+ of_bytes [10].
Lemma serve_http_Error s :
  (serve (http_Error "internal server error" 500) s).1.1 = None ∧ (serve (http_Error "internal server error" 500) s).2 = [] ∧
  let s' := (serve (http_Error "internal server error" 500) s).1.2 in
  status_of s' = match sent s with None => 500 | Some (c, _) => c end ∧
  body s' = (if body_allowed (status_of s') then body s +:+ internal_error else body s).
Proof.
  destruct s as [h0 [[c h]|] b0]; unfold http_Error, call_WriteHeader, status_of;
    cbn -[header_Set body_allowed of_bytes]; [|done].
  unfold write. cbn -[header_Set body_allowed of_bytes].
  destruct (body_allowed c) eqn:Eb; cbn -[header_Set body_allowed of_bytes]; by rewrite Eb.
Qed.
Lemma serve_Recover logFn next r s :
  serve (Recover logFn next r) s =
  let '(x, s', es) := serve (next r) s in
  match x with
  | None => (None, s', es)
  | Some v => (None, (serve (http_Error "internal server error" 500) s').1.2, es ++ (if logFn then [PanicLogged v] else []))
  end.
Proof.
  unfold Recover. rewrite serve_on_panic. destruct (serve (next r) s) as [[[v|] s'] es]; [|done].
  pose proof (serve_http_Error s') as (H1 & H2 & _).
  destruct logFn; cbn [serve]; unfold id; destruct (serve (http_Error _ _) s') as [[x s''] fs]; cbn in *; by subst.
Qed.

(** *** Logger *)

(** A handler that calls WriteHeader at most once, before it writes, with a final code. *)
Fixpoint tidy (wrote : bool) (p : prog) : Prop :=
  match p with
  | Done | Throw _ => True
  | Header _ p | Emit _ p => tidy wrote p
  | WriteHeader code k => wrote = false ∧ valid_code code = true ∧ informational code = false ∧ tidy true (k true)
  | Write _ k => ∀ n, tidy true (k n)
  end.
Lemma write_bytes b s : (write b s).1 = slen (body (write b s).2) - slen (body s).
Proof.
  unfold write, write_header. destruct (sent s) as [[c h]|] eqn:Es; cbn [snd sent body]; rewrite ?Es; cbn.
  - destruct (body_allowed c); cbn; rewrite ?slen_app; lia.
  - rewrite slen_app. lia.
Qed.
(** The recorder does not change what is sent, and its bytes are those of the body. *)
Lemma serve_recorded p s st by_ fin :
  ∃ st', serve (recorded p st by_ fin) s =
    let '(x, s', es) := serve p s in
    match x with
    | Some v => (Some v, s', es)
    | None => let '(y, s'', fs) := serve (fin st' (by_ + (slen (body s') - slen (body s)))) s' in (y, s'', es ++ fs)
    end.
Proof.
  revert s st by_. induction p as [|v|f p IH|code k IH|b k IH|e p IH]; intros s st by_; cbn [recorded serve].
  - exists st. rewrite Z.sub_diag, Z.add_0_r. by destruct (serve (fin st by_) s) as [[y s'] fs].
  - by exists st.
  - destruct (IH {| header := f (header s); sent := sent s; body := body s |} st by_) as [st' ->]. by exists st'.
  - assert (body (write_header code s).2 = body s) as Hb by (unfold write_header; repeat case_match; done).
    destruct (write_header code s) as [ok s']. cbn [snd] in Hb. destruct (IH ok s' code by_) as [st' ->]. exists st'. by rewrite Hb.
  - pose proof (write_bytes b s) as Hn. destruct (write b s) as [n s']. cbn [fst snd] in Hn.
    destruct (IH n s' st (by_ + n)) as [st' ->]. exists st'. destruct (serve (k n) s') as [[[v|] s''] es]; [done|].
    by replace (by_ + n + (slen (body s'') - slen (body s'))) with (by_ + (slen (body s'') - slen (body s))) by lia.
  - destruct (IH s st by_) as [st' ->]. exists st'. destruct (serve p s) as [[[v|] s'] es]; [done|].
    by destruct (serve (fin _ _) s') as [[y s''] fs].
Qed.
(** For a tidy handler the recorded status is the one sent. *)
Lemma serve_recorded_tidy p s st by_ fin wrote :
  tidy wrote p → st = status_of s → wrote = bool_decide (is_Some (sent s)) →
  serve (recorded p st by_ fin) s =
    let '(x, s', es) := serve p s in
    match x with
    | Some v => (Some v, s', es)
    | None => let '(y, s'', fs) := serve (fin (status_of s') (by_ + (slen (body s') - slen (body s)))) s' in (y, s'', es ++ fs)
    end.
Proof.
  revert s st by_ wrote. induction p as [|v|f p IH|code k IH|b k IH|e p IH]; intros s st by_ wrote Ht Hst Hw; cbn [recorded serve tidy] in *.
  - subst st. rewrite Z.sub_diag, Z.add_0_r. by destruct (serve (fin _ by_) s) as [[y s'] fs].
  - done.
  - by rewrite (IH {| header := f (header s); sent := sent s; body := body s |} st by_ wrote).
  - destruct Ht as (-> & Hv & Hi & Ht). unfold write_header. destruct (sent s) as [x|] eqn:Es.
    { rewrite bool_decide_true in Hw by done. done. }
    rewrite Hv, Hi. cbn [negb]. by rewrite (IH true {| header := header s; sent := Some (code, header s); body := body s |} code by_ true).
  - pose proof (write_bytes b s) as Hn.
    assert (status_of (write b s).2 = status_of s ∧ is_Some (sent (write b s).2)) as [Hs1 Hs2].
    { destruct s as [h0 [[c h]|] b0]; unfold status_of, write; cbn; [|done]. by destruct (body_allowed c). }
    destruct (write b s) as [n s']. cbn [fst snd] in *.
    rewrite (IH n s' st (by_ + n) true); [|apply Ht|congruence|by rewrite bool_decide_true].
    destruct (serve (k n) s') as [[[v|] s''] es]; [done|].
    by replace (by_ + n + (slen (body s'') - slen (body s'))) with (by_ + (slen (body s'') - slen (body s))) by lia.
  - rewrite (IH s st by_ wrote) by done. destruct (serve p s) as [[[v|] s'] es]; [done|].
    by destruct (serve (fin _ _) s') as [[y s''] fs].
Qed.

(** *** RequestID and CORS *)

Definition given_id (headerName : string) (r : Request) : string :=
  let h := if String.eqb headerName "" then HeaderRequestID else headerName in
  let id := header_Get (r_header r) h in if String.eqb id "" then newRequestID (r_random r) (r_start r) else id.
(** The id is the caller's or, of eight random bytes, sixteen hexadecimal digits. *)
Lemma given_id_fresh headerName r b :
  header_Get (r_header r) (if String.eqb headerName "" then HeaderRequestID else headerName) = "" →
  r_random r = Some b → length b = 8%nat → slen (given_id headerName r) = 16.
Proof.
  intros Hh Hr Hb. unfold given_id. rewrite Hh. cbn [String.eqb]. unfold newRequestID. rewrite Hr.
  do 8 (destruct b as [|? b]; [done|]). by destruct b.
Qed.

Lemma serve_Logger next r s :
  ∃ e, serve (Logger true next r) s =
    (let '(x, s', es) := serve (next r) s in
     match x with Some v => (Some v, s', es) | None => (None, s', es ++ [Logged e]) end) ∧
    LogRequestID e = RequestIDFromContext r ∧ BytesOut e = slen (body (serve (next r) s).1.2) - slen (body s) ∧
    (sent s = None → tidy false (next r) → (serve (next r) s).1.1 = None → Status e = status_of (serve (next r) s).1.2).
Proof.
  unfold Logger. set (fin := λ status bytes : Z, _).
  destruct (serve_recorded (next r) s 200 0 fin) as [st' E1].
  pose proof (λ Ht Hs Hw, serve_recorded_tidy (next r) s 200 0 fin false Ht Hs Hw) as E2.
  destruct (serve (next r) s) as [[[v|] s'] es]; cbn [fst snd].
  - exists {| Method := ""; Path := ""; Status := 0; LogDuration := 0; BytesOut := slen (body s') - slen (body s);
              LogRequestID := RequestIDFromContext r; RemoteAddr := "" |}.
    by split_and!.
  - unfold fin at 2 in E1. cbn [serve] in E1. eexists. split; [exact E1|]. split_and!; [done|done|].
    intros Hs Ht _. cbn [Status]. specialize (E2 Ht). unfold status_of in E2 at 1. rewrite Hs in E2.
    specialize (E2 eq_refl eq_refl). rewrite E1 in E2. unfold fin in E2. cbn [serve] in E2.
    injection E2 as E2. apply app_inj_2 in E2 as [_ E2]; [|done]. by injection E2 as ->.
Qed.

(** C36: a service's standard stack.  Through Recover, RequestID and Logger in that
    order, whatever the handler does, the request is answered and never panics.
    The handler sees the request id given by the caller or a fresh one.  When it
    returns, its response is the one it would have produced without Recover and
    Logger; the entry logged has that id, the bytes of the body and, for a handler
    that calls WriteHeader at most once before it writes, the status sent.  When it
    panics before it has sent anything, the answer is a 500 with the error text. *)
Theorem standard_stack logPanics headerName next r s :
  let id := given_id headerName r in
  let h := if String.eqb headerName "" then HeaderRequestID else headerName in
  let s0 := {| header := header_Set h id (header s); sent := sent s; body := body s |} in
  let '(x, s', es) := serve (Chain [Recover logPanics; RequestID headerName; Logger true] next r) s in
  x = None ∧
  match serve (next (with_id id r)) s0 with
  | (None, s1, es1) =>
      s' = s1 ∧ ∃ e, es = es1 ++ [Logged e] ∧ LogRequestID e = id ∧ BytesOut e = slen (body s1) - slen (body s) ∧
        (sent s = None → tidy false (next (with_id id r)) → Status e = status_of s1)
  | (Some v, s1, es1) =>
      es = es1 ++ (if logPanics then [PanicLogged v] else []) ∧
      (sent s1 = None → status_of s' = 500 ∧ body s' = body s1 +:+ internal_error) ∧
      (∀ c, sent s1 = Some c → status_of s' = c.1)
  end.
Proof.
  intros id h s0. rewrite !Chain_cons, Chain_nil, serve_Recover.
  change (serve (RequestID headerName (Logger true next) r) s) with (serve (Logger true next (with_id id r)) s0).
  destruct (serve_Logger next (with_id id r) s0) as (e & -> & He1 & He2 & He3).
  destruct (serve (next (with_id id r)) s0) as [[[v|] s1] es1]; cbn [fst snd] in *.
  - pose proof (serve_http_Error s1) as (_ & _ & Hst & Hb). split_and!; [done|done| |].
    + intros Hs. rewrite Hs in Hst. split; [done|]. rewrite Hb, Hst. done.
    + intros c Hc. rewrite Hc in Hst. by destruct c.
  - split; [done|]. split; [done|]. exists e. split_and!; [done|done|done|]. intros Hs Ht. by apply He3.
Qed.

(** cross-origin requests.  The handler runs exactly for the methods other
    than OPTIONS, with the response untouched unless the origin is allowed; the
    origin is echoed exactly when it is listed or everything is, and a preflight
    is answered with 204 and the configured methods and headers. *)
Theorem cors cfg next r s :
  let origin := header_Get (r_header r) "Origin" in
  let allowed := origin ≠ "" ∧ ("*" ∈ AllowOrigins cfg ∨ origin ∈ AllowOrigins cfg) in
  ∃ s0, (¬ allowed → s0 = s) ∧ sent s0 = sent s ∧ body s0 = body s ∧
    (allowed → header s0 !! "Access-Control-Allow-Origin" = Some origin) ∧
    (allowed → AllowCredentials cfg = true → header s0 !! "Access-Control-Allow-Credentials" = Some "true") ∧
    if String.eqb (r_method r) "OPTIONS"
    then ∃ s', serve (CORS cfg next r) s = (None, s', []) ∧
         (sent s = None → status_of s' = 204 ∧
            header s' !! "Access-Control-Allow-Methods" = Some (GoString.Join (AllowMethods (cors_defaults cfg)) ", ") ∧
            header s' !! "Access-Control-Allow-Headers" = Some (GoString.Join (AllowHeaders (cors_defaults cfg)) ", "))
    else serve (CORS cfg next r) s = serve (next r) s0.
Proof.
  intros origin allowed.
  assert (origin_allowed (cors_defaults cfg) origin = true ↔ allowed) as Ha.
  { unfold origin_allowed, allowed, wildcard, allowedOrigins. cbn [AllowOrigins cors_defaults].
    rewrite andb_true_iff, orb_true_iff, !bool_decide_eq_true, list_elem_of_filter, negb_true_iff, String.eqb_neq.
    destruct (decide (origin = "*")) as [->|]; naive_solver. }
  unfold CORS. fold origin. set (rest := if String.eqb (r_method r) "OPTIONS" then _ else _).
  assert (∃ s0, (¬ allowed → s0 = s) ∧ sent s0 = sent s ∧ body s0 = body s ∧
    (allowed → header s0 !! "Access-Control-Allow-Origin" = Some origin) ∧
    (allowed → AllowCredentials cfg = true → header s0 !! "Access-Control-Allow-Credentials" = Some "true") ∧
    serve (if origin_allowed (cors_defaults cfg) origin
           then Header (header_Set "Access-Control-Allow-Origin" origin)
                  (if AllowCredentials (cors_defaults cfg)
                   then Header (header_Set "Access-Control-Allow-Credentials" "true") rest else rest)
           else rest) s = serve rest s0) as (s0 & H1 & H2 & H3 & H4 & H5 & H6).
  { destruct (origin_allowed _ origin) eqn:Eo.
    - assert allowed as Hal by (by apply Ha). cbn [AllowCredentials cors_defaults]. destruct (AllowCredentials cfg) eqn:Ec; cbn [serve].
      + eexists. split_and!; [intros Hn; destruct (Hn Hal)|..|reflexivity]; cbn [sent body header]; [done|done|..]; intros; unfold header_Set;
          [by rewrite lookup_insert_ne, lookup_insert_eq by done|by rewrite lookup_insert_eq].
      + eexists. split_and!; [intros Hn; destruct (Hn Hal)|..|reflexivity]; cbn [sent body header]; [done|done|..]; intros; [|done]. unfold header_Set. by rewrite lookup_insert_eq.
    - assert (¬ allowed) by (rewrite <-Ha; congruence). exists s. by split_and!. }
  exists s0. split_and!; [done..|]. rewrite H6. unfold rest. destruct (String.eqb (r_method r) "OPTIONS"); [|done].
  cbn [serve]. unfold write_header. cbn [sent]. rewrite H2. destruct (sent s) as [c|]; [by eexists|].
  eexists. split; [done|]. intros _. cbn [status_of header]. unfold header_Set. split_and!; [done|..].
  - by rewrite !lookup_insert_ne, lookup_insert_eq by done.
  - by rewrite lookup_insert_ne, lookup_insert_eq by done.
Qed.

(** ** What the middlewares do not do *)

(** A handler that runs out of time is answered with 503. *)
Lemma Timeout_answers_503 d next r s :
  r_in_time r d = false → sent s = None →
  status_of (serve (Timeout d next r) s).1.2 = 503 ∧ body (serve (Timeout d next r) s).1.2 = body s +:+ "request timeout".
Proof. intros Hd Hs. unfold Timeout. rewrite Hd. destruct s as [h0 ? b0]. cbn in Hs. subst. done. Qed.
(** A panicking request is not logged, also inside Recover. *)
Lemma Logger_skips_panics v r s :
  serve (Chain [Recover false; Logger true] (λ _, Throw v) r) s = serve (Recover false (λ _, Throw v) r) s ∧
  (serve (Chain [Recover false; Logger true] (λ _, Throw v) r) s).2 = [].
Proof. rewrite !Chain_cons, Chain_nil, !serve_Recover. done. Qed.
(** The recorder takes the last code, the response the first. *)
Lemma Logger_records_last_code r :
  let h : Handler := λ _, call_WriteHeader 500 (call_WriteHeader 200 Done) in
  let '(_, s, es) := serve (Logger true h r) fresh_response in
  status_of s = 500 ∧ (λ e, match e with Logged l => Status l | PanicLogged _ => 0 end) <$> es = [200].
Proof. done. Qed.

(** ** observability/health *)

Module Health.
Inductive Status := StatusHealthy | StatusUnhealthy | StatusDegraded.
(** A check is what it returns when it runs; a nil one panics. *)
Inductive Check := NilCheck | Returns (err : option error).
Record Result := {
  RStatus : Status; RTimestamp : Time; RService : string; RVersion : string; Checks : gmap string string
}.
Record Checker := { service : string; version : string; checks : gmap string Check }.

Definition NewChecker (service version : string) : Checker := {| service := service; version := version; checks := ∅ |}.
Definition Add (name : string) (check : Check) (c : Checker) : Checker :=
  {| service := service c; version := version c; checks := <[name := check]> (checks c) |}.
Definition Remove (name : string) (c : Checker) : Checker :=
  {| service := service c; version := version c; checks := delete name (checks c) |}.

(** The loop over the map, in the order in which the range visits it. *)
Fixpoint evaluate_loop (order : list (string * Check)) (r : Result) : outcome Result :=
  match order with
  | [] => Return r
  | (_, NilCheck) :: _ => Panic "runtime error: invalid memory address or nil pointer dereference"
  | (name, Returns (Some err)) :: order =>
      evaluate_loop order {| RStatus := StatusUnhealthy; RTimestamp := RTimestamp r; RService := RService r;
        RVersion := RVersion r; Checks := <[name := error_text err]> (Checks r) |}
  | (name, Returns None) :: order =>
      evaluate_loop order {| RStatus := RStatus r; RTimestamp := RTimestamp r; RService := RService r;
        RVersion := RVersion r; Checks := <[name := "ok"]> (Checks r) |}
  end.
Definition Evaluate (order : list (string * Check)) (now : Time) (c : Checker) : outcome Result :=
  evaluate_loop order {| RStatus := StatusHealthy; RTimestamp := now; RService := service c; RVersion := version c; Checks := ∅ |}.
(** [Encode] is the text encoding/json writes for the result. *)
Definition Handler (Encode : Result → string) (order : list (string * Check)) (now : Time) (c : Checker) : prog :=
  match Evaluate order now c with
  | Panic msg => Throw msg
  | Return result =>
      let code := match RStatus result with StatusHealthy => 200 | _ => 503 end in
      Header (header_Set "Content-Type" "application/json") (call_WriteHeader code (Write (Encode result) (λ _, Done)))
  end.

(** What a check contributes. *)
Definition verdict (ch : Check) : option string :=
  match ch with NilCheck => None | Returns None => Some "ok" | Returns (Some err) => Some (error_text err) end.
Definition passes (ch : Check) : bool := match ch with Returns None => true | _ => false end.

Lemma evaluate_loop_spec order r :
  NoDup order.*1 → Forall (λ kv : string * Check, kv.2 ≠ NilCheck) order →
  ∃ r', evaluate_loop order r = Return r' ∧
    RStatus r' = (if forallb (λ kv, passes kv.2) order then RStatus r else StatusUnhealthy) ∧
    RService r' = RService r ∧ RVersion r' = RVersion r ∧ RTimestamp r' = RTimestamp r ∧
    (∀ n, Checks r' !! n = match (list_to_map order : gmap string Check) !! n with Some ch => verdict ch | None => Checks r !! n end).
Proof.
  revert r. induction order as [|[name [|err]] order IH]; intros r Hd Hn; [by exists r|by apply Forall_cons in Hn as [? _]|].
  apply NoDup_cons in Hd as [Hni Hd]. apply Forall_cons in Hn as [_ Hn].
  assert ((list_to_map order : gmap string Check) !! name = None) as Hnone by (by apply not_elem_of_list_to_map_1).
  destruct err as [err|]; cbn [evaluate_loop forallb fst snd passes list_to_map foldr].
  all: match goal with |- context [evaluate_loop _ ?r0] => pose proof (IH r0) as Hr end.
  all: destruct (Hr Hd Hn) as (r' & E & H1 & H2 & H3 & H4 & H5).
  all: exists r'; cbn [RStatus RService RVersion RTimestamp Checks andb] in *.
  all: split_and!; [done|rewrite H1; by destruct (forallb _ order)|done..|].
  all: intros n; rewrite H5; unfold uncurry; destruct (decide (n = name)) as [->|Hne];
    [by rewrite Hnone, !lookup_insert_eq|by rewrite !lookup_insert_ne by done].
Qed.

(** the health endpoint.  For checks that are not nil and any order in which
    the map is visited, the report has one line per registered check, "ok" or its
    error, and is healthy exactly when all of them pass; the response is 200
    exactly then, and 503 otherwise. *)
Theorem health_report Encode order now c s :
  order ≡ₚ map_to_list (checks c) → (∀ n, checks c !! n ≠ Some NilCheck) → sent s = None →
  ∃ r, Evaluate order now c = Return r ∧
    (∀ n, Checks r !! n = checks c !! n ≫= verdict) ∧
    (RStatus r = StatusHealthy ↔ ∀ n ch, checks c !! n = Some ch → ch = Returns None) ∧
    status_of (serve (Handler Encode order now c) s).1.2
      = (match RStatus r with StatusHealthy => 200 | _ => 503 end) ∧
    body (serve (Handler Encode order now c) s).1.2 = body s +:+ Encode r.
Proof.
  intros Ho Hn Hs.
  assert (NoDup order.*1) as Hd by (rewrite Ho; apply NoDup_fst_map_to_list).
  assert (list_to_map order = checks c) as Hm.
  { rewrite (list_to_map_proper order (map_to_list (checks c)) Hd Ho). apply list_to_map_to_list. }
  assert (∀ n ch, (n, ch) ∈ order ↔ checks c !! n = Some ch) as Hin by (intros; by rewrite Ho, elem_of_map_to_list).
  unfold Handler, Evaluate.
  destruct (evaluate_loop_spec order {| RStatus := StatusHealthy; RTimestamp := now; RService := service c;
    RVersion := version c; Checks := ∅ |} Hd) as (r & -> & H1 & _ & _ & _ & H5).
  { apply Forall_forall. intros [n ch] Hx E. cbn in E. subst ch. by eapply Hn, Hin. }
  exists r. rewrite Hm in H5. split; [done|]. split; [intros n; rewrite H5; by destruct (checks c !! n)|]. split.
  - rewrite H1. cbn [RStatus]. destruct (forallb _ order) eqn:Ef; split; try done.
    + intros _ n ch Hch. apply Hin in Hch. rewrite forallb_forall in Ef. apply list_elem_of_In, Ef in Hch. cbn in Hch. by destruct ch as [|[]].
    + intros Hall. assert (forallb (λ kv, passes kv.2) order = true) as Et; [|congruence].
      apply forallb_forall. intros [n ch] Hx%list_elem_of_In%Hin%Hall. by subst.
  - destruct s as [h0 ? b0]. cbn in Hs. subst. by destruct (RStatus r).
Qed.
Definition two_checks : Checker :=
  Add "db" (Returns None) (Add "redis" (Returns (Some (EText "connection refused"))) (NewChecker "api" "1.0")).
Lemma health_report_witness :
  ∃ r, Evaluate (map_to_list (checks two_checks)) 0 two_checks = Return r ∧
    status_of (serve (Handler (λ _, "{}") (map_to_list (checks two_checks)) 0 two_checks) fresh_response).1.2 = 503.
Proof.
  destruct (health_report (λ _, "{}") (map_to_list (checks two_checks)) 0 two_checks fresh_response) as (r & Hr & _ & Hst & Hs & _);
    [done| |done|].
  - intros n. unfold two_checks, Add, NewChecker. cbn [checks].
    destruct (decide (n = "db")) as [->|]; [by rewrite lookup_insert_eq|]. rewrite lookup_insert_ne by done.
    destruct (decide (n = "redis")) as [->|]; [by rewrite lookup_insert_eq|]. by rewrite lookup_insert_ne.
  - exists r. split; [done|]. rewrite Hs. destruct (RStatus r) eqn:E; [|done..]. exfalso.
    assert (Returns (Some (EText "connection refused")) = Returns None); [|done].
    apply (proj1 Hst eq_refl "redis"). reflexivity.
Defined.
End Health.
