(* ===== verification/JsonData.v ===== *)
(** * Packages i18n and jsonx

    Localized texts (src/i18n/localized.go) and JSON over net/http
    (src/jsonx/jsonx.go).  encoding/json is a parameter: what its scanner finds at
    the head of a stream, and what storing a value into a Go variable answers. *)

From S2P Require Import Prelude GoString GoErrors Generics Middleware.
From stdpp Require Import base list gmap strings.
From Stdlib Require Import ZArith Lia.
Open Scope Z_scope.

Module I18n.
(** type LocalizedString map[string]string; nil is [None]. *)
Definition LocalizedString : Type := option (gmap string string).

(** What json.Unmarshal finds in a text: a syntax error stores nothing; an object
    stores the members that are strings, and returns an error for another. *)
Inductive json_map := Malformed (err : error) | Null | Object (members : list (string * string)) (err : option error).
Class JsonMap := {
  decode : string → json_map;
  encode : gmap string string → result error string;
  (** A map that is written reads as its entries. *)
  decode_encode m s : encode m = Ok s → ∃ order, decode s = Object order None ∧ Mapx.visits order m
}.

(** The value a driver hands to Scan. *)
Inductive source := SNil | SBytes (b : list Z) | SString (s : string) | SOther (T : string).

Section i18n.
Context `{JsonMap}.
(** json.Unmarshal into a map variable: its entries stay, unless the text is null. *)
Definition Unmarshal (text : string) (ls : LocalizedString) : option error * LocalizedString :=
  match decode text with
  | Malformed err => (Some err, ls)
  | Null => (None, None)
  | Object members err => (err, Some (Mapx.copy_into members (default ∅ ls)))
  end.
Definition Scan (src : source) (ls : LocalizedString) : option error * LocalizedString :=
  match src with
  | SNil => (None, Some ∅)
  | SBytes b => Unmarshal (of_bytes b) ls
  | SString s => Unmarshal s ls
  | SOther T => (Some (EText ("unsupported type for LocalizedString: " +:+ T)), ls)
  end.
Definition Value (ls : LocalizedString) : result error string :=
  match ls with None => Ok "{}" | Some m => encode m end.
(** The loop of Get over the map, visited as [order]. *)
Fixpoint first_nonempty (order : list (string * string)) : string :=
  match order with
  | [] => ""
  | (_, v) :: order => if negb (String.eqb v "") then v else first_nonempty order
  end.
Definition Get (order : list (string * string)) (ls : LocalizedString) (lang : string) : string :=
  match ls with
  | None => ""
  | Some m =>
      match m !! lang with
      | Some v => if negb (String.eqb v "") then v
                  else match m !! "en" with
                       | Some v => if negb (String.eqb v "") then v else first_nonempty order
                       | None => first_nonempty order
                       end
      | None => match m !! "en" with
                | Some v => if negb (String.eqb v "") then v else first_nonempty order
                | None => first_nonempty order
                end
      end
  end.
End i18n.
End I18n.

Module Jsonx.
Definition DefaultMaxBodySize : Z := Z.shiftl 1 20.
Record DecodeOptions := { MaxBodySize : Z; DisallowUnknownFields : bool }.
Definition ErrTooLarge : error := ENew "jsonx: request body too large".

(** Where a stream ends: io.EOF, a MaxBytesError, or an error of the body. *)
Inductive ending := AtEOF | AtMaxBytes | AtError (err : error).
(** http.MaxBytesReader *)
Definition MaxBytesReader (body : list Z * ending) (max : Z) : list Z * ending :=
  if Z.of_nat (length body.1) <=? max then body else (take (Z.to_nat max) body.1, AtMaxBytes).

(** The scanner of a json.Decoder at the head of the input; [eof] when the input
    ends there with io.EOF.  [Incomplete] wants more; [blank] when it saw spaces
    only. *)
Inductive scanned {J : Type} := Complete (v : J) (rest : list Z) | Incomplete (blank : bool) | Syntax (err : error).
Arguments scanned : clear implicits.
(** What Decode returns as an error. *)
Inductive decode_error := IsEOF | IsMaxBytes | IsOther (err : error).

Section jsonx.
Context {J D : Type}.
Variable scan : bool → list Z → scanned J.
Variable store : bool → J → D → option error * D.   (* a value into dst, unknown fields refused or not *)
Variable encode : J → result error string.          (* json.Encoder without HTML escaping: text and newline *)

Definition is_eof (e : ending) : bool := match e with AtEOF => true | _ => false end.
(** Decoder.readValue: the error of the stream counts when no value is complete. *)
Definition readValue (input : list Z) (e : ending) : (J * list Z) + decode_error :=
  match scan (is_eof e) input with
  | Complete v rest => inl (v, rest)
  | Syntax err => inr (IsOther err)
  | Incomplete blank =>
      inr (match e with
           | AtEOF => if blank then IsEOF else IsOther (ENew "unexpected EOF")
           | AtMaxBytes => IsMaxBytes
           | AtError err => IsOther err
           end)
  end.
Definition as_error (e : decode_error) : error :=
  match e with IsEOF => ENew "EOF" | IsMaxBytes => EText "http: request body too large" | IsOther err => err end.

Definition Decode (body : list Z * ending) (dst : D) (opts : DecodeOptions) : option error * D :=
  let max := if MaxBodySize opts <=? 0 then DefaultMaxBodySize else MaxBodySize opts in
  let '(input, e) := MaxBytesReader body max in
  match readValue input e with
  | inr IsMaxBytes => (Some ErrTooLarge, dst)
  | inr err => (Some (EWrap "jsonx: decode: " "" (as_error err)), dst)
  | inl (v, rest) =>
      match store (DisallowUnknownFields opts) v dst with
      | (Some err, dst) => (Some (EWrap "jsonx: decode: " "" err), dst)
      | (None, dst) =>
          match readValue rest e with
          | inr IsEOF => (None, dst)
          | _ => (Some (EText "jsonx: trailing content in body"), dst)
          end
      end
  end.

(** The text is complete before it is written. *)
Definition Write (status : Z) (v : J) : prog :=
  Header (header_Set "Content-Type" "application/json; charset=utf-8")
    (call_WriteHeader status
       match encode v with
       | Ok text => Middleware.Write text (λ _, Done)
       | Err _ => Done
       end).
Definition Error (error_object : string → J) (status : Z) (message : string) : prog :=
  Write status (error_object message).
End jsonx.
End Jsonx.

(** ** Localized texts *)

Lemma first_nonempty_spec order :
  (I18n.first_nonempty order = "" → Forall (λ kv, kv.2 = "") order) ∧
  (I18n.first_nonempty order ≠ "" → ∃ k, (k, I18n.first_nonempty order) ∈ order).
Proof.
  induction order as [|[k v] order [IH1 IH2]]; [split; [constructor|done]|]. cbn [I18n.first_nonempty].
  destruct (String.eqb_spec v ""); cbn [negb].
  - split; [intros E; constructor; [done|by apply IH1]|]. intros E. destruct (IH2 E) as [k' ?]. exists k'. by right.
  - split; [done|]. intros _. exists k. by left.
Qed.

Section localized.
Context `{I18n.JsonMap}.

(** a localized text is the one of the language asked for, when
    there is one, else the English one, else one of the others; it is empty only
    when every text of the map is.  The first two do not depend on the order in
    which the map is visited. *)
Theorem localized_fallback order m lang :
  Mapx.visits order m →
  let r := I18n.Get order (Some m) lang in
  (∀ v, m !! lang = Some v → v ≠ "" → r = v) ∧
  (default "" (m !! lang) = "" → ∀ v, m !! "en" = Some v → v ≠ "" → r = v) ∧
  (r = "" ↔ ∀ k v, m !! k = Some v → v = "") ∧
  (r ≠ "" → ∃ k, m !! k = Some r).
Proof.
  intros Hv.
  assert (∀ k v, (k, v) ∈ order ↔ m !! k = Some v) as Hin by (intros; by rewrite Hv, elem_of_map_to_list).
  destruct (first_nonempty_spec order) as [F1 F2].
  assert (I18n.first_nonempty order = "" → ∀ k v, m !! k = Some v → v = "") as G1.
  { intros E k v Hk%Hin. specialize (F1 E). rewrite Forall_forall in F1. by apply (F1 (k, v)). }
  assert (I18n.first_nonempty order ≠ "" → ∃ k, m !! k = Some (I18n.first_nonempty order)) as G2 by naive_solver.
  assert ((∀ k v, m !! k = Some v → v = "") → I18n.first_nonempty order = "") as G3.
  { intros Ha. destruct (decide (I18n.first_nonempty order = "")); naive_solver. }
  cbn zeta. unfold I18n.Get.
  destruct (m !! lang) as [v|] eqn:El; [destruct (String.eqb_spec v "")|];
    (destruct (m !! "en") as [u|] eqn:Ee; [destruct (String.eqb_spec u "")|]); cbn [negb default id];
    split_and!; naive_solver.
Qed.

(** What Value writes, Scan reads back into a fresh variable; a nil
    map reads back as the empty one. *)
Theorem localized_roundtrip m s :
  I18n.Value (Some m) = Ok s →
  I18n.Scan (I18n.SString s) None = (None, Some m) ∧ I18n.Scan (I18n.SBytes (bytes_of s)) None = (None, Some m).
Proof.
  intros (order & Ed & Hv)%I18n.decode_encode. cbn [I18n.Scan]. rewrite of_bytes_bytes_of.
  unfold I18n.Unmarshal. rewrite Ed. cbn [default]. by rewrite (Mapx.copy_into_union order m), map_union_empty.
Qed.

(** Scanning a second row into the same variable keeps the first one's texts. *)
Lemma scan_keeps_old_texts m1 m2 s :
  I18n.Value (Some m2) = Ok s → (I18n.Scan (I18n.SString s) (Some m1)).2 = Some (m2 ∪ m1).
Proof.
  intros (order & Ed & Hv)%I18n.decode_encode. cbn [I18n.Scan]. unfold I18n.Unmarshal. rewrite Ed. cbn [default id snd].
  by rewrite (Mapx.copy_into_union order m2).
Qed.
End localized.

(** Without the language and English, the text depends on the iteration. *)
Lemma localized_ambiguous :
  ∃ o1 o2 (m : gmap string string), Mapx.visits o1 m ∧ Mapx.visits o2 m ∧
  I18n.Get o1 (Some m) "fr" = "a" ∧ I18n.Get o2 (Some m) "fr" = "b".
Proof.
  exists [("ar", "a"); ("ku", "b")], [("ku", "b"); ("ar", "a")], {[ "ar" := "a"; "ku" := "b" ]}.
  assert (Mapx.visits [("ar", "a"); ("ku", "b")] ({[ "ar" := "a"; "ku" := "b" ]} : gmap string string)) as Hv.
  { unfold Mapx.visits. rewrite map_to_list_insert, map_to_list_singleton; [done|].
    by rewrite lookup_singleton_ne. }
  split_and!; [done| |done..]. unfold Mapx.visits in *. rewrite <-Hv. apply Permutation_swap.
Qed.

(** ** JSON bodies *)

Section bodies.
Context {J D : Type}.
Variable scan : bool → list Z → Jsonx.scanned J.
Variable store : bool → J → D → option error * D.
Abbreviation Decode := (Jsonx.Decode scan store).
Definition limit (opts : Jsonx.DecodeOptions) : Z :=
  if Jsonx.MaxBodySize opts <=? 0 then Jsonx.DefaultMaxBodySize else Jsonx.MaxBodySize opts.

Lemma readValue_eof input e :
  Jsonx.readValue scan input e = inr Jsonx.IsEOF → e = Jsonx.AtEOF ∧ scan true input = Jsonx.Incomplete true.
Proof.
  unfold Jsonx.readValue. destruct (scan _ input) as [v rest|blank|err] eqn:E; intros Hr; simplify_eq.
  destruct e; simplify_eq; destruct blank; by simplify_eq.
Qed.
Lemma readValue_max input e :
  Jsonx.readValue scan input e = inr Jsonx.IsMaxBytes → e = Jsonx.AtMaxBytes.
Proof.
  unfold Jsonx.readValue. destruct (scan _ input) as [v rest|blank|err] eqn:E; intros Hr; simplify_eq.
  destruct e; simplify_eq; by destruct blank.
Qed.

(** a request body is accepted only whole and within the limit: it is
    one JSON value, stored into the variable, with spaces after it up to the end
    of the body.  ErrTooLarge is returned for bodies above the limit only. *)
Theorem decode_whole_body body e dst opts err dst' :
  e ≠ Jsonx.AtMaxBytes →
  Decode (body, e) dst opts = (err, dst') →
  (err = None → Z.of_nat (length body) ≤ limit opts ∧ e = Jsonx.AtEOF ∧
     ∃ v rest, scan true body = Jsonx.Complete v rest ∧
       store (Jsonx.DisallowUnknownFields opts) v dst = (None, dst') ∧ scan true rest = Jsonx.Incomplete true) ∧
  (err = Some Jsonx.ErrTooLarge → limit opts < Z.of_nat (length body) ∧ dst' = dst).
Proof.
  intros He. unfold Jsonx.Decode. cbn zeta. fold (limit opts). unfold Jsonx.MaxBytesReader. cbn [fst].
  destruct (Z.leb_spec (Z.of_nat (length body)) (limit opts)) as [Hl|Hl].
  - destruct (Jsonx.readValue scan body e) as [[v rest]|de] eqn:Er.
    + destruct (store _ v dst) as [[serr|] d] eqn:Es; [by intros [= <- <-]|].
      destruct (Jsonx.readValue scan rest e) as [?|[]] eqn:Er2; intros [= <- <-]; try done.
      split; [|done]. intros _. apply readValue_eof in Er2 as [-> Er2].
      unfold Jsonx.readValue in Er. cbn [Jsonx.is_eof] in Er. destruct (scan true body) as [v' rest'|[]|] eqn:Esc; simplify_eq.
      split_and!; [done..|]. by exists v, rest.
    + destruct de; intros [= <- <-]; try done. apply readValue_max in Er. by destruct (He Er).
  - destruct (Jsonx.readValue scan _ Jsonx.AtMaxBytes) as [[v rest]|[]] eqn:Er; try by intros [= <- <-].
    destruct (store _ v dst) as [[serr|] d] eqn:Es; [by intros [= <- <-]|].
    destruct (Jsonx.readValue scan rest Jsonx.AtMaxBytes) as [?|[]] eqn:Er2; intros [= <- <-]; try done.
    apply readValue_eof in Er2 as [Er2 _]. done.
Qed.

(** A body above the limit whose first value lies within it is not reported as
    too large. *)
Lemma oversized_body_called_trailing body e dst opts v rest dst' :
  limit opts < Z.of_nat (length body) →
  scan false (take (Z.to_nat (limit opts)) body) = Jsonx.Complete v rest →
  store (Jsonx.DisallowUnknownFields opts) v dst = (None, dst') →
  Decode (body, e) dst opts = (Some (EText "jsonx: trailing content in body"), dst').
Proof.
  intros Hl Hs Hst. unfold Jsonx.Decode. cbn zeta. fold (limit opts). unfold Jsonx.MaxBytesReader. cbn [fst].
  rewrite (proj2 (Z.leb_gt _ _)) by done. unfold Jsonx.readValue at 1. cbn [Jsonx.is_eof]. rewrite Hs, Hst.
  destruct (Jsonx.readValue scan rest Jsonx.AtMaxBytes) as [|[]] eqn:E; try done. by apply readValue_eof in E as [E _].
Qed.

(** The answer to a request: the status and the type of the content are those
    given, and the body is the text of the value; a value that cannot be encoded
    has sent its status already, with an empty body. *)
Theorem write_response (encode : J → result error string) status v :
  valid_code status = true → informational status = false → body_allowed status = true →
  let '(thrown, s, _) := serve (Jsonx.Write encode status v) fresh_response in
  thrown = None ∧
  sent s = Some (status, {["Content-Type" := "application/json; charset=utf-8"]}) ∧
  body s = match encode v with Ok text => text | Err _ => "" end.
Proof.
  intros Hv Hi Hb. unfold Jsonx.Write, call_WriteHeader. cbn [serve fresh_response header sent body].
  unfold write_header at 1. cbn [sent header body]. rewrite Hv, Hi. cbn [negb].
  destruct (encode v) as [text|]; [|done]. cbn [serve]. unfold write, write_header. cbn [sent header body snd]. rewrite Hb.
  done.
Qed.
End bodies.

Lemma localized_fallback_witness :
  let m := {[ "ar" := "a"; "en" := "e" ]} : gmap string string in
  I18n.Get (map_to_list m) (Some m) "ku" = "e".
Proof.
  cbn zeta. pose proof (localized_fallback _ _ "ku" (reflexivity (map_to_list ({[ "ar" := "a"; "en" := "e" ]} : gmap string string)))) as H.
  apply (proj1 (proj2 H)); [reflexivity|reflexivity|discriminate].
Defined.

(** A scanner of the empty object. *)
Definition scan_empty_object (eof : bool) (s : list Z) : Jsonx.scanned unit :=
  match s with
  | 123 :: 125 :: rest => Jsonx.Complete tt rest
  | [] => Jsonx.Incomplete true
  | _ => Jsonx.Incomplete false
  end.
Lemma decode_whole_body_witness :
  Z.of_nat (length [123; 125]) ≤ limit {| Jsonx.MaxBodySize := 2; Jsonx.DisallowUnknownFields := true |}.
Proof.
  pose proof (decode_whole_body scan_empty_object (λ _ _ (d : nat), (None, S d)) [123; 125] Jsonx.AtEOF 0%nat
    {| Jsonx.MaxBodySize := 2; Jsonx.DisallowUnknownFields := true |} None 1%nat ltac:(discriminate) eq_refl) as H.
  exact (proj1 (proj1 H eq_refl)).
Defined.
