(* ===== verification/VoicePipeline.v ===== *)
(** * Package voice/pipeline

    The voice-session orchestrator of src/voice/pipeline: format bridges
    (codec_bridge.go), the event dispatcher and the session loop (pipeline.go),
    and the observer helpers (observer.go).

    A session is a step relation over its two goroutines and the waiting Run:
    each step is one receive of a select, one call a handler makes, one of the
    three actions of a failure path, or one action of the final cleanup.  Frames,
    events and errors arrive on channels in any order, and the calls of the transport, the
    model and the executor return any result.  Calls of the collaborators
    (observer, transport, model) are recorded in a trace. *)

From S2P Require Import Prelude GoString GoErrors Codec.
From stdpp Require Import base list relations strings.
From Stdlib Require Import ZArith Lia.
Open Scope Z_scope.

(** ** Formats and bridges *)

Inductive Encoding := EncodingMulaw | EncodingPCM16LE | EncodingOther (name : string).
#[export] Instance Encoding_eq_dec : EqDecision Encoding.
Proof. solve_decision. Defined.

Record AudioFormat := { encoding : Encoding; SampleRate : Z; Channels : Z }.
#[export] Instance AudioFormat_eq_dec : EqDecision AudioFormat.
Proof. solve_decision. Defined.

Record Frame := { Data : list Z; Timestamp : Time }.

Definition ErrFormatBridge : error := ENew "pipeline: no codec bridge for format pair".
Definition ErrToolExecutorPanicked : error := ENew "pipeline: tool executor panicked".

(** A bridgeFn; none of them returns an error. *)
Inductive bridge := Passthrough | Mulaw8kToPCM16LE16k | PCM16LE24kToMulaw8k.

Definition run_bridge (b : bridge) (f : Frame) : Frame :=
  match b with
  | Passthrough => f
  | Mulaw8kToPCM16LE16k => {| Data := Codec.Mulaw8kToPCM16LE16k (Data f); Timestamp := Timestamp f |}
  | PCM16LE24kToMulaw8k => {| Data := Codec.PCM16LE24kToMulaw8k (Data f); Timestamp := Timestamp f |}
  end.

Definition encoding_name (e : Encoding) : string :=
  match e with EncodingMulaw => "mulaw" | EncodingPCM16LE => "pcm16le" | EncodingOther n => n end.

Definition resolveBridge (src dst : AudioFormat) : Prelude.result error bridge :=
  if negb (Channels src =? Channels dst) || negb (Channels src =? 1) then
    Err (EWrap "" (": channels " +:+ fmt_d (Channels src) +:+ "→" +:+ fmt_d (Channels dst)
                   +:+ " (only mono=1 supported)") ErrFormatBridge)
  else if bool_decide (src = dst) then Ok Passthrough
  else if bool_decide (encoding src = EncodingMulaw) && (SampleRate src =? 8000)
          && bool_decide (encoding dst = EncodingPCM16LE) && (SampleRate dst =? 16000)
  then Ok Mulaw8kToPCM16LE16k
  else if bool_decide (encoding src = EncodingPCM16LE) && (SampleRate src =? 24000)
          && bool_decide (encoding dst = EncodingMulaw) && (SampleRate dst =? 8000)
  then Ok PCM16LE24kToMulaw8k
  else
    Err (EWrap "" (": " +:+ encoding_name (encoding src) +:+ "@" +:+ fmt_d (SampleRate src) +:+ " → "
                   +:+ encoding_name (encoding dst) +:+ "@" +:+ fmt_d (SampleRate dst)) ErrFormatBridge).

(** The digit loop of itoa, filling the buffer from its end. *)
Fixpoint itoa_loop (fuel : nat) (n : Z) (buf : list Z) : list Z :=
  match fuel with
  | O => buf
  | S fuel => if 0 <? n then itoa_loop fuel (Z.quot n 10) ((48 + Z.rem n 10) :: buf) else buf
  end.
(** The buffer has twenty bytes. *)
Definition itoa (n : Z) : string :=
  if n =? 0 then "0"
  else
    let neg := n <? 0 in
    let m := if neg then int64 (- n) else n in
    let buf := itoa_loop 20 m [] in
    of_bytes (if neg then 45 :: buf else buf).

(** ** Events and calls of the collaborators *)

Inductive EndReason :=
| EndReasonTransportClosed | EndReasonLLMClosed | EndReasonContextDone | EndReasonFatalError.

(** The arguments, a JSON object, are its text. *)
Record ToolCall := { CallID : string; ToolName : string; ToolArgs : string }.
(** What an execution yields: data or an error; or a panic. *)
Inductive exec_result := Executed (data : string) (err : option error) | ExecPanicked (value : string).
Record ToolResult := { ResultID : string; ResultData : string; ResultErr : option error }.

Inductive LLMEvent :=
| EventAudioOut (f : Frame)
| EventAssistantText (text : string) (final : bool)
| EventCallerTranscript (text : string)
| EventTurnComplete
| EventInterrupted
| EventToolCalls (calls : list ToolCall).

Inductive call :=
(* Observer *)
| OnSessionStart | OnHistoryInjected (count : nat)
| OnCallerTranscript (text : string) | OnAssistantText (text : string) (final : bool)
| OnToolCall (c : ToolCall) | OnToolResponse (c : ToolCall) (r : ToolResult)
| OnInterrupted | OnTurnComplete (turn : Z) | OnError (err : error) | OnSessionEnd (r : EndReason)
(* Transport *)
| Send (f : Frame) | Clear | Mark (name : string) | TransportClose
(* LLM *)
| SendAudio (f : Frame) | SendToolResults (rs : list ToolResult) | LLMClose.

(** ** Options *)

(** The two numeric options; the other fields are collaborators, which default
    to implementations that do nothing and to id.UUIDv7. *)
Record Options := { ToolConcurrency : Z; HoldFillerDelay : Duration }.

(** [show_duration] is the rendering of a duration by [%v]. *)
Definition New (show_duration : Duration → string) (opts : Options) : Prelude.result error Options :=
  if ToolConcurrency opts <? 0 then
    Err (EText ("pipeline.New: ToolConcurrency=" +:+ fmt_d (ToolConcurrency opts) +:+ " must be >= 0"))
  else if HoldFillerDelay opts <? 0 then
    Err (EText ("pipeline.New: HoldFillerDelay=" +:+ show_duration (HoldFillerDelay opts) +:+ " must be >= 0"))
  else
    Ok {| ToolConcurrency := if ToolConcurrency opts =? 0 then 1 else ToolConcurrency opts;
          HoldFillerDelay := if HoldFillerDelay opts =? 0 then 2 * Second else HoldFillerDelay opts |}.

Lemma New_concurrency show opts o : New show opts = Ok o → 1 ≤ ToolConcurrency o ∧ 0 < HoldFillerDelay o.
Proof.
  unfold New, Second. destruct (Z.ltb_spec (ToolConcurrency opts) 0); [done|].
  destruct (Z.ltb_spec (HoldFillerDelay opts) 0); [done|]. intros [= <-]. simpl.
  repeat case_match; zbool; lia.
Qed.

(** ** Tool calls: bounded concurrency *)

(** The result slot the deferred recover or the normal return fills. *)
Definition tool_result (c : ToolCall) (r : exec_result) : ToolResult :=
  match r with
  | Executed data err => {| ResultID := CallID c; ResultData := data; ResultErr := err |}
  | ExecPanicked v =>
      {| ResultID := CallID c; ResultData := "";
         ResultErr := Some (EWrap "" (": " +:+ v) ErrToolExecutorPanicked) |}
  end.

Section batch.
Variables (conc : nat) (calls : list ToolCall) (exec : nat → exec_result).

(** The batch: the next call to launch, the goroutines that hold a slot of the
    semaphore, the results array. *)
Record batch := { next : nat; active : list nat; slots : list (option ToolResult) }.

Definition batch_start : batch :=
  {| next := 0; active := []; slots := replicate (length calls) None |}.

Inductive batch_step : batch → batch → Prop :=
| launch b :
    (next b < length calls)%nat → (length (active b) < conc)%nat →
    batch_step b {| next := S (next b); active := next b :: active b; slots := slots b |}
| complete b i c :
    i ∈ active b → calls !! i = Some c →
    batch_step b {| next := next b; active := filter (λ j, j ≠ i) (active b);
                    slots := <[i := Some (tool_result c (exec i))]> (slots b) |}.

(** wg.Wait returns: everything launched, nothing active. *)
Definition batch_done (b : batch) : Prop := next b = length calls ∧ active b = [].

Record BatchInv (b : batch) : Prop := {
  bi_len : length (slots b) = length calls;
  bi_next : (next b ≤ length calls)%nat;
  bi_conc : (length (active b) ≤ conc)%nat;
  bi_active : ∀ i, i ∈ active b → (i < next b)%nat;
  bi_slots : ∀ i c, calls !! i = Some c → (i < next b)%nat → i ∉ active b →
    slots b !! i = Some (Some (tool_result c (exec i)))
}.

Lemma batch_step_inv b b' : batch_step b b' → BatchInv b → BatchInv b'.
Proof.
  intros Hs [Hl Hn Hc Ha Hsl]. destruct Hs as [b Hlt Hroom|b i c Hi Hci]; split; simpl.
  - done.
  - lia.
  - simpl. lia.
  - intros i [->|Hi]%elem_of_cons; [lia|]. specialize (Ha i Hi). lia.
  - intros i c Hic Hlt' Hnot. apply Hsl; [done| |set_solver].
    assert (i ≠ next b) by (intros ->; apply Hnot; by left). lia.
  - by rewrite length_insert.
  - done.
  - etrans; [apply length_filter|done].
  - intros j [_ Hj]%list_elem_of_filter. by apply Ha.
  - intros j cj Hcj Hlt Hnot. destruct (decide (j = i)) as [->|Hne].
    + rewrite list_lookup_insert_eq by (rewrite Hl; by eapply lookup_lt_Some). congruence.
    + rewrite list_lookup_insert_ne by done. apply Hsl; try done.
      intros Hj. apply Hnot. by apply list_elem_of_filter.
Qed.
End batch.

(** What is left to do in a batch. *)
Definition batch_measure (calls : list ToolCall) (b : batch) : nat :=
  (2 * (length calls - next b) + length (active b))%nat.

Definition expected_results (calls : list ToolCall) (exec : nat → exec_result) : list ToolResult :=
  imap (λ i c, tool_result c (exec i)) calls.

Lemma batch_reachable_inv conc calls exec b :
  rtc (batch_step conc calls exec) (batch_start calls) b → BatchInv conc calls exec b.
Proof.
  intros Hr. assert (BatchInv conc calls exec (batch_start calls)) as I.
  { split; simpl; try lia.
    - by rewrite length_replicate.
    - by intros ? ?%not_elem_of_nil. }
  revert I. induction Hr as [|b1 b2 b3 Hs _ IH]; [done|]. intros I. by apply IH, (batch_step_inv _ _ _ _ _ Hs).
Qed.

Lemma filter_out_lt (i : nat) (l : list nat) : i ∈ l → (length (filter (λ j, j ≠ i) l) < length l)%nat.
Proof.
  induction l as [|x l IH]; [by intros ?%not_elem_of_nil|]. rewrite filter_cons. case_decide as D.
  - intros [->|Hi]%elem_of_cons; [done|]. simpl. specialize (IH Hi). lia.
  - intros _. simpl. pose proof (length_filter (λ j, j ≠ i) l). lia.
Qed.

(** C31: a batch of tool calls.  Whatever the scheduling and the executor do
    (panics included, which become results), at most ToolConcurrency calls run
    at once, every step brings the batch nearer its end and it is never stuck
    before it, and at the end the results are one per call, in call order. *)
Theorem tool_batch conc calls exec b :
  (1 ≤ conc)%nat → rtc (batch_step conc calls exec) (batch_start calls) b →
  (length (active b) ≤ conc)%nat ∧
  (∀ b', batch_step conc calls exec b b' → (batch_measure calls b' < batch_measure calls b)%nat) ∧
  (batch_done calls b ∨ ∃ b', batch_step conc calls exec b b') ∧
  (batch_done calls b → slots b = Some <$> expected_results calls exec).
Proof.
  intros Hc Hr. destruct (batch_reachable_inv _ _ _ _ Hr) as [Hl Hn Hconc Ha Hs].
  split_and!; [done|..].
  - intros b' St. unfold batch_measure. destruct St as [b Hlt _|b i c Hi _]; simpl; [lia|].
    pose proof (filter_out_lt i (active b) Hi). lia.
  - unfold batch_done. destruct (active b) as [|i rest] eqn:Ea.
    + destruct (decide (next b = length calls)); [by left|]. right. eexists. apply launch; [lia|].
      rewrite Ea. simpl. lia.
    + right. assert (is_Some (calls !! i)) as [c Hci].
      { apply lookup_lt_is_Some_2. specialize (Ha i ltac:(by left)). lia. }
      eexists. eapply complete; [rewrite Ea; by left|done].
  - intros [Hdn Hact]. apply list_eq. intros i. rewrite list_lookup_fmap. unfold expected_results.
    rewrite list_lookup_imap. destruct (calls !! i) as [c|] eqn:Ec.
    + rewrite (Hs i c Ec); [done|rewrite Hdn; by eapply lookup_lt_Some|rewrite Hact; apply not_elem_of_nil].
    + simpl. apply lookup_ge_None_2. rewrite Hl. by apply lookup_ge_None_1.
Qed.

(** ** Dispatching one event *)

(** What the collaborators answer while one event is handled. *)
Record answers := {
  ans_send : option error;               (* Transport.Send *)
  ans_exec : nat → exec_result;          (* ToolExecutor.Execute of each call *)
  ans_results : option error             (* LLM.SendToolResults *)
}.

Definition dispatchToolCalls (a : answers) (calls : list ToolCall) : list call :=
  let results := expected_results calls (ans_exec a) in
  (OnToolCall <$> calls) ++ [Clear] ++ (zip_with OnToolResponse calls results) ++ [SendToolResults results]
  ++ match ans_results a with Some err => [OnError err] | None => [] end.

(** The calls made, the turn counter, and the fatal error if any. *)
Definition dispatchLLMEvent (a : answers) (outboundBridge : bridge) (ev : LLMEvent) (turn : Z)
  : list call * Z * option error :=
  match ev with
  | EventAudioOut f => ([Send (run_bridge outboundBridge f)], turn, ans_send a)
  | EventAssistantText text final => ([OnAssistantText text final], turn, None)
  | EventCallerTranscript text => ([OnCallerTranscript text], turn, None)
  | EventTurnComplete =>
      let turn := int64 (turn + 1) in
      ([Mark ("turn-" +:+ itoa turn); OnTurnComplete turn], turn, None)
  | EventInterrupted => ([Clear; OnInterrupted], turn, None)
  | EventToolCalls calls => (dispatchToolCalls a calls, turn, None)
  end.

(** ** The session *)

(** A goroutine: in its select loop, making the calls of what it received with
    the error that comes of it, after recordEnd of a failure, after its OnError,
    or returned. *)
Inductive pc := Loop | Making (cs : list call) (err : option error) | Recorded (err : error) | Observed | Exited.

(** Run: waiting for the goroutines, making its last calls, or returned. *)
Inductive main := Waiting | Closing (cs : list call) (reason : EndReason) (err : option error)
  | Returned (reason : EndReason) (err : option error).

(** A channel: what is in flight, and whether the sender closed it. *)
Record chan (A : Type) := { queue : list A; is_closed : bool }.
Arguments queue {A} _.
Arguments is_closed {A} _.

Record session := {
  ctx_err : option error;                 (* ctx.Err() of the caller's context *)
  cancelled : bool;                       (* cancel() was called *)
  in_frames : chan Frame;
  in_errs : chan (option error);
  llm_events : chan LLMEvent;
  llm_errs : chan (option error);
  audio : pc;                             (* the caller-audio goroutine *)
  events : pc;                            (* the LLM-events goroutine *)
  turn : Z;
  ended : option (EndReason * option error);   (* endOnce, endReason and runErr *)
  run : main;
  trace : list call
}.

(** Field updates. *)
Definition set_audio p (s : session) := {| ctx_err := ctx_err s; cancelled := cancelled s;
  in_frames := in_frames s; in_errs := in_errs s; llm_events := llm_events s; llm_errs := llm_errs s;
  audio := p; events := events s; turn := turn s; ended := ended s; run := run s; trace := trace s |}.
Definition set_events p (s : session) := {| ctx_err := ctx_err s; cancelled := cancelled s;
  in_frames := in_frames s; in_errs := in_errs s; llm_events := llm_events s; llm_errs := llm_errs s;
  audio := audio s; events := p; turn := turn s; ended := ended s; run := run s; trace := trace s |}.
Definition emit cs (s : session) := {| ctx_err := ctx_err s; cancelled := cancelled s;
  in_frames := in_frames s; in_errs := in_errs s; llm_events := llm_events s; llm_errs := llm_errs s;
  audio := audio s; events := events s; turn := turn s; ended := ended s; run := run s;
  trace := trace s ++ cs |}.
Definition set_chans f e l le (s : session) := {| ctx_err := ctx_err s; cancelled := cancelled s;
  in_frames := f; in_errs := e; llm_events := l; llm_errs := le;
  audio := audio s; events := events s; turn := turn s; ended := ended s; run := run s; trace := trace s |}.
Definition set_turn t (s : session) := {| ctx_err := ctx_err s; cancelled := cancelled s;
  in_frames := in_frames s; in_errs := in_errs s; llm_events := llm_events s; llm_errs := llm_errs s;
  audio := audio s; events := events s; turn := t; ended := ended s; run := run s; trace := trace s |}.
Definition set_cancel e c (s : session) := {| ctx_err := e; cancelled := c;
  in_frames := in_frames s; in_errs := in_errs s; llm_events := llm_events s; llm_errs := llm_errs s;
  audio := audio s; events := events s; turn := turn s; ended := ended s; run := run s; trace := trace s |}.
Definition set_run m (s : session) := {| ctx_err := ctx_err s; cancelled := cancelled s;
  in_frames := in_frames s; in_errs := in_errs s; llm_events := llm_events s; llm_errs := llm_errs s;
  audio := audio s; events := events s; turn := turn s; ended := ended s; run := m; trace := trace s |}.

(** The first terminal event wins; a done context overrides it. *)
Definition recordEnd (r : EndReason) (e : option error) (s : session) : session :=
  let v := match ended s with
           | Some v => v
           | None =>
               match ctx_err s with
               | Some ce => (EndReasonContextDone, Some ce)
               | None => (r, e)
               end
           end in
  {| ctx_err := ctx_err s; cancelled := cancelled s;
     in_frames := in_frames s; in_errs := in_errs s; llm_events := llm_events s; llm_errs := llm_errs s;
     audio := audio s; events := events s; turn := turn s; ended := Some v; run := run s; trace := trace s |}.

(** runCtx.Err() *)
Definition run_ctx_err (s : session) : option error :=
  match ctx_err s with
  | Some e => Some e
  | None => if cancelled s then Some Canceled else None
  end.

Definition closing (r : EndReason) : list call := [TransportClose; LLMClose; OnSessionEnd r].

(** What Run does once both goroutines returned, up to its last calls. *)
Definition finish (s : session) : session :=
  let '(reason, rErr) := default (EndReasonContextDone, None) (ended s) in
  let rErr :=
    match run_ctx_err s, rErr, reason with
    | Some ce, None, EndReasonContextDone => if errors_Is ce Canceled then Some ce else rErr
    | _, _, _ => rErr
    end in
  set_run (Closing (closing reason) reason rErr) s.

(** Values are added to an open channel, which may then be closed. *)
Definition extends {A} (c c' : chan A) : Prop :=
  ∃ new, queue c' = queue c ++ new ∧ (is_closed c = true → new = [] ∧ is_closed c' = true).

Section steps.
Variables inboundBridge outboundBridge : bridge.

Inductive step : session → session → Prop :=
(* the caller-audio goroutine *)
| audio_frame f q sendErr s :
    audio s = Loop → queue (in_frames s) = f :: q →
    step s (set_audio (Making [SendAudio (run_bridge inboundBridge f)] sendErr)
      (set_chans {| queue := q; is_closed := is_closed (in_frames s) |} (in_errs s) (llm_events s) (llm_errs s) s))
| audio_closed s :
    audio s = Loop → queue (in_frames s) = [] → is_closed (in_frames s) = true →
    step s (set_audio Exited (recordEnd EndReasonTransportClosed None s))
| audio_err e q s :
    audio s = Loop → queue (in_errs s) = e :: q →
    step s (set_audio (Making [] e)
      (set_chans (in_frames s) {| queue := q; is_closed := is_closed (in_errs s) |} (llm_events s) (llm_errs s) s))
| audio_errs_closed s :
    audio s = Loop → queue (in_errs s) = [] → is_closed (in_errs s) = true → step s s
| audio_call c cs err s : audio s = Making (c :: cs) err → step s (set_audio (Making cs err) (emit [c] s))
| audio_next s : audio s = Making [] None → step s (set_audio Loop s)
| audio_record e s :
    audio s = Making [] (Some e) → step s (set_audio (Recorded e) (recordEnd EndReasonFatalError (Some e) s))
| audio_observe e s : audio s = Recorded e → step s (set_audio Observed (emit [OnError e] s))
| audio_cancel s : audio s = Observed → step s (set_audio Exited (set_cancel (ctx_err s) true s))
(* the LLM-events goroutine *)
| event_dispatch ev q a cs t err s :
    events s = Loop → queue (llm_events s) = ev :: q →
    dispatchLLMEvent a outboundBridge ev (turn s) = (cs, t, err) →
    step s (set_events (Making cs err) (set_turn t (set_chans (in_frames s) (in_errs s)
      {| queue := q; is_closed := is_closed (llm_events s) |} (llm_errs s) s)))
| event_closed s :
    events s = Loop → queue (llm_events s) = [] → is_closed (llm_events s) = true →
    step s (set_events Exited (recordEnd EndReasonLLMClosed None s))
| event_err e q s :
    events s = Loop → queue (llm_errs s) = e :: q →
    step s (set_events (Making [] e)
      (set_chans (in_frames s) (in_errs s) (llm_events s) {| queue := q; is_closed := is_closed (llm_errs s) |} s))
| event_errs_closed s :
    events s = Loop → queue (llm_errs s) = [] → is_closed (llm_errs s) = true → step s s
| event_call c cs err s : events s = Making (c :: cs) err → step s (set_events (Making cs err) (emit [c] s))
| event_next s : events s = Making [] None → step s (set_events Loop s)
| event_record e s :
    events s = Making [] (Some e) → step s (set_events (Recorded e) (recordEnd EndReasonFatalError (Some e) s))
| event_observe e s : events s = Recorded e → step s (set_events Observed (emit [OnError e] s))
| event_cancel s : events s = Observed → step s (set_events Exited (set_cancel (ctx_err s) true s))
(* the hold-filler pump, a goroutine nobody waits for; the model lets it send at
   any time *)
| filler_frame f s : step s (emit [Send f] s)
(* Run *)
| run_ctx_done e s : ctx_err s = Some e → run s = Waiting → step s (set_cancel (Some e) true s)
| run_finish s : run s = Waiting → audio s = Exited → events s = Exited → step s (finish s)
| run_call c cs r e s : run s = Closing (c :: cs) r e → step s (set_run (Closing cs r e) (emit [c] s))
| run_return r e s : run s = Closing [] r e → step s (set_run (Returned r e) s)
(* the outside: the caller's context, the transport and the model *)
| ctx_done e s : ctx_err s = None → step s (set_cancel (Some e) (cancelled s) s)
| arrivals f e l le s :
    extends (in_frames s) f → extends (in_errs s) e → extends (llm_events s) l → extends (llm_errs s) le →
    step s (set_chans f e l le s).
End steps.

Definition started (historyLen : nat) : session :=
  {| ctx_err := None; cancelled := false;
     in_frames := {| queue := []; is_closed := false |}; in_errs := {| queue := []; is_closed := false |};
     llm_events := {| queue := []; is_closed := false |}; llm_errs := {| queue := []; is_closed := false |};
     audio := Loop; events := Loop; turn := 0; ended := None; run := Waiting;
     trace := [OnHistoryInjected historyLen; OnSessionStart] |}.

(** Run up to the start of its goroutines: it fails before, or the session runs
    with its two bridges. *)
Definition Run_start (tIn tOut lIn lOut : AudioFormat) (openErr : option error) (historyLen : nat)
  : Prelude.result (error * list call) (bridge * bridge * session) :=
  match resolveBridge tIn lOut with
  | Err err => Err (err, [OnError err; OnSessionEnd EndReasonFatalError])
  | Ok inbound =>
      match resolveBridge lIn tOut with
      | Err err => Err (err, [OnError err; OnSessionEnd EndReasonFatalError])
      | Ok outbound =>
          match openErr with
          | Some err => Err (err, [OnError err; OnSessionEnd EndReasonFatalError])
          | None => Ok (inbound, outbound, started historyLen)
          end
      end
  end.

(** ** Invariant of a session *)

Definition is_observer (c : call) : bool :=
  match c with
  | Send _ | Clear | Mark _ | TransportClose | SendAudio _ | SendToolResults _ | LLMClose => false
  | _ => true
  end.
Definition is_end (c : call) : bool := match c with OnSessionEnd _ => true | _ => false end.
Definition is_start (c : call) : bool := match c with OnSessionStart => true | _ => false end.

(** The observer's view of a trace. *)
Definition observed (t : list call) : list call := filter (λ c, Is_true (is_observer c)) t.

(** The recorded end is one the rules allow. *)
Definition end_ok (s : session) (v : EndReason * option error) : Prop :=
  match v with
  | (EndReasonTransportClosed, e) | (EndReasonLLMClosed, e) => e = None
  | (EndReasonContextDone, e) => e ≠ None ∧ e = ctx_err s
  | (EndReasonFatalError, e) =>
      ∃ err, e = Some err ∧ (OnError err ∈ trace s ∨ audio s = Recorded err ∨ events s = Recorded err)
  end.

Definition plain (c : call) : Prop := is_end c = false ∧ is_start c = false.
Definition opening (n : nat) : list call := [OnHistoryInjected n; OnSessionStart].
Definition is_send (c : call) : bool := match c with Send _ => true | _ => false end.
Definition no_sends (cs : list call) : list call := filter (λ c, is_send c = false) cs.

(** What Run has decided, and the calls it has yet to make. *)
Definition decided (m : main) : option (EndReason * option error * list call) :=
  match m with
  | Waiting => None
  | Closing cs r e => Some (r, e, cs)
  | Returned r e => Some (r, e, [])
  end.
(** A goroutine that has stopped serving. *)
Definition stopping (p : pc) : bool := match p with Loop | Making _ _ => false | _ => true end.
Definition pending (p : pc) : list call := match p with Making cs _ => cs | _ => [] end.

Record SInv (n : nat) (s : session) : Prop := {
  si_trace : ∃ body post, Forall plain body ∧ trace s = opening n ++ body ++ post ∧
    match decided (run s) with
    | None => post = []
    | Some (r, _, cs) => no_sends post ++ cs = closing r
    end;
  si_pending : Forall plain (pending (audio s)) ∧ Forall plain (pending (events s));
  si_pcs : stopping (audio s) || stopping (events s) = true → ended s ≠ None;
  si_end : ∀ v, ended s = Some v → end_ok s v;
  si_run : ∀ r e cs, decided (run s) = Some (r, e, cs) → audio s = Exited ∧ events s = Exited ∧ ended s = Some (r, e)
}.

Lemma dispatch_plain a b ev t cs t' err :
  dispatchLLMEvent a b ev t = (cs, t', err) → Forall plain cs.
Proof.
  assert (∀ c, is_end c = false → is_start c = false → plain c) as Hp by done.
  destruct ev; intros [= <- <- <-]; repeat (apply Forall_cons_2; [done|]); try done.
  unfold dispatchToolCalls. repeat apply Forall_app_2.
  - apply Forall_fmap, Forall_true. by intros.
  - by apply Forall_singleton.
  - generalize (expected_results calls (ans_exec a)). intros rs. revert rs.
    induction calls as [|c cs IH]; intros [|r rs]; simpl; try done. by apply Forall_cons_2.
  - by apply Forall_singleton.
  - destruct (ans_results a); [by apply Forall_singleton|done].
Qed.

(** The end already recorded stays valid as the session moves on. *)
Lemma end_ok_mono s s' v :
  end_ok s v → (ctx_err s = None ∨ ctx_err s' = ctx_err s) →
  (∀ err, OnError err ∈ trace s ∨ audio s = Recorded err ∨ events s = Recorded err →
    OnError err ∈ trace s' ∨ audio s' = Recorded err ∨ events s' = Recorded err) →
  end_ok s' v.
Proof.
  intros Hv Hc Hm. destruct v as [[] e]; simpl in *; try done.
  - destruct Hv as [Hn ->]. destruct Hc as [Hc|Hc]; [by rewrite Hc in Hn|by rewrite Hc].
  - destruct Hv as (err & -> & H). exists err. split; [done|]. by apply Hm.
Qed.

(** recordEnd in a state whose own failure, if it is one, is visible. *)
Lemma recordEnd_ok s s' r e :
  (∀ v, ended s = Some v → end_ok s' v) → ctx_err s' = ctx_err s →
  ended s' = ended (recordEnd r e s) →
  (r = EndReasonTransportClosed ∧ e = None ∨ r = EndReasonLLMClosed ∧ e = None ∨
   ∃ err, r = EndReasonFatalError ∧ e = Some err ∧ (audio s' = Recorded err ∨ events s' = Recorded err)) →
  (∀ v, ended s' = Some v → end_ok s' v) ∧ ended s' ≠ None.
Proof.
  intros Hv Hc E Hr. rewrite E. unfold recordEnd. simpl. split; [|done].
  intros v [= <-]. destruct (ended s) as [w|]; [by apply Hv|].
  destruct (ctx_err s) as [ce|] eqn:Ec; simpl; [by rewrite Hc|].
  destruct Hr as [[-> ->]|[[-> ->]|(err & -> & -> & Hp)]]; simpl; try done.
  exists err. split; [done|]. by right.
Qed.

(** One step of a goroutine: it adds ordinary calls, keeps the context, drops no
    failure silently, and leaves the recorded end alone or calls recordEnd. *)
Lemma goroutine_step n s s' cs :
  SInv n s → run s = Waiting → run s' = Waiting → ctx_err s' = ctx_err s →
  trace s' = trace s ++ cs → Forall plain cs →
  Forall plain (pending (audio s')) → Forall plain (pending (events s')) →
  (∀ err, audio s = Recorded err → audio s' = Recorded err ∨ OnError err ∈ cs) →
  (∀ err, events s = Recorded err → events s' = Recorded err ∨ OnError err ∈ cs) →
  (ended s' = ended s ∧ (stopping (audio s') || stopping (events s') = true → stopping (audio s) || stopping (events s) = true)) ∨
  (∃ r e, ended s' = ended (recordEnd r e s) ∧
    (r = EndReasonTransportClosed ∧ e = None ∨ r = EndReasonLLMClosed ∧ e = None ∨
     ∃ err, r = EndReasonFatalError ∧ e = Some err ∧ (audio s' = Recorded err ∨ events s' = Recorded err))) →
  SInv n s'.
Proof.
  intros I Hr Hr' Hc Et Hcs Hp1 Hp2 Ha He Hend.
  assert (∀ v, ended s = Some v → end_ok s' v) as Hold.
  { intros v Hv. eapply end_ok_mono; [by apply (si_end _ _ I)|by right|].
    intros err. rewrite Et, elem_of_app. intros [?|[H|H]].
    - by left; left.
    - destruct (Ha err H); [by right; left|by left; right].
    - destruct (He err H); [by right; right|by left; right]. }
  pose proof I as [(body & post & Hb & Ht & Hpost) _ Hpc _ _].
  rewrite Hr in Hpost. cbn in Hpost. subst post. rewrite app_nil_r in Ht.
  assert ((stopping (audio s') || stopping (events s') = true → ended s' ≠ None) ∧ (∀ v, ended s' = Some v → end_ok s' v)) as [Hpc' Hv].
  { destruct Hend as [[E Hp]|(r & e & E & Hre)].
    - rewrite E. split; [by intros H%Hp; apply Hpc|done].
    - destruct (recordEnd_ok s s' r e Hold Hc E Hre) as [Hv Hn]. by split. }
  split; try done.
  - exists (body ++ cs), []. rewrite Hr', app_nil_r. split_and!; [by apply Forall_app_2|by rewrite Et, Ht, <-app_assoc|done].
  - rewrite Hr'. done.
Qed.

(** A step of the outside, of the filler or of Run itself. *)
Lemma outer_step n s s' cs :
  SInv n s → audio s' = audio s → events s' = events s → ended s' = ended s →
  trace s' = trace s ++ cs → Forall plain cs → (ctx_err s = None ∨ ctx_err s' = ctx_err s) →
  (run s' = run s ∧ no_sends cs = []) → SInv n s'.
Proof.
  intros I Ea Ee En Et Hp Hc [Er Ho]. pose proof I as [(body & post & Hb & Ht & Hpost) Hpend Hpc Hend Hrun]. split.
  - rewrite Er. destruct (decided (run s)) as [[[r e] cs']|].
    + exists body, (post ++ cs). split_and!; [done|by rewrite Et, Ht, <-!app_assoc|].
      unfold no_sends in *. by rewrite filter_app, Ho, app_nil_r.
    + subst post. exists (body ++ cs), []. rewrite app_nil_r in *. split_and!; [by apply Forall_app_2| |done].
      by rewrite Et, Ht, <-app_assoc.
  - by rewrite Ea, Ee.
  - by rewrite Ea, Ee, En.
  - intros v. rewrite En. intros Hv. eapply end_ok_mono; [by apply Hend|done|].
    intros err. rewrite Et, Ea, Ee, elem_of_app. tauto.
  - intros r e cs'. rewrite Er, Ea, Ee, En. apply Hrun.
Qed.

Lemma finish_inv n s :
  SInv n s → run s = Waiting → audio s = Exited → events s = Exited → SInv n (finish s).
Proof.
  intros I Hr Ha He. pose proof I as [(body & post & Hb & Ht & Hpost) Hpend Hpc Hend _]. rewrite Hr in Hpost. cbn in Hpost.
  destruct (ended s) as [[reason e]|] eqn:Een; [|exfalso; apply Hpc; [by rewrite Ha|done]].
  pose proof (Hend _ eq_refl) as Hok. unfold finish. rewrite Een. cbn [default].
  assert (match run_ctx_err s, e, reason with
    | Some ce, None, EndReasonContextDone => if errors_Is ce Canceled then Some ce else e
    | _, _, _ => e end = e) as Ee.
  { destruct (run_ctx_err s), e, reason; try done. simpl in Hok. by destruct Hok. }
  cbn. rewrite Ee. split; simpl; try done.
  - exists body, []. subst post. by split_and!.
  - rewrite Een. by intros _.
  - intros v. rewrite Een. by intros [= <-].
  - intros r' e' cs [= <- <- <-]. done.
Qed.

(** The last calls of Run. *)
Lemma run_call_inv n s c cs r e :
  SInv n s → run s = Closing (c :: cs) r e → SInv n (set_run (Closing cs r e) (emit [c] s)).
Proof.
  intros [(body & post & Hb & Ht & Hpost) Hpend Hpc Hend Hrun] Er. rewrite Er in Hpost, Hrun. cbn in Hpost.
  assert (is_send c = false) as Hs.
  { assert (c ∈ closing r) as Hin by (rewrite <-Hpost; apply elem_of_app; right; by left).
    repeat (apply elem_of_cons in Hin as [->|Hin]; [done|]). by apply not_elem_of_nil in Hin. }
  split; simpl; try done.
  - exists body, (post ++ [c]). split_and!; [done|by rewrite Ht, <-!app_assoc|].
    unfold no_sends in *. rewrite filter_app, filter_cons_True, <-app_assoc by done. done.
  - intros v Hv. eapply end_ok_mono; [by apply Hend|by right|]. intros err. simpl. rewrite elem_of_app. tauto.
  - intros r' e' cs' [= <- <- <-]. by eapply Hrun.
Qed.

Lemma session_step_inv i o n s s' : step i o s s' → SInv n s → SInv n s'.
Proof.
  intros Hs I.
  assert (audio s ≠ Exited ∨ events s ≠ Exited → run s = Waiting) as Hw.
  { intros Hpc. destruct (run s) as [|cs r e|r e] eqn:Er; [done|..];
      destruct (si_run _ _ I r e _ ltac:(by rewrite Er)) as (? & ? & _); naive_solver. }
  pose proof (si_pending _ _ I) as [Hp1 Hp2].
  destruct Hs as [f q sendErr s Ha Hq|s Ha Hq Hc|e q s Ha Hq|s Ha Hq Hc|c cs err s Ha|s Ha|e s Ha|e s Ha|s Ha
    |ev q a cs t err s Ha Hq Hd|s Ha Hq Hc|e q s Ha Hq|s Ha Hq Hc|c cs err s Ha|s Ha|e s Ha|e s Ha|s Ha
    |f s|e s Hce Hr|s Hr Ha Hb|c cs r e s Hr|r e s Hr|e s Hce|f e l le s Hf1 Hf2 Hf3 Hf4];
    try (assert (run s = Waiting) as Hr by (apply Hw; rewrite Ha; by (left + right))).
  (* the outside and Run *)
  all: try (by apply finish_inv). all: try (by apply run_call_inv).
  all: try (eapply (outer_step _ s _ [Send f]); [exact I|done..|by apply Forall_singleton|by right|done]).
  all: try (eapply (outer_step _ s _ []); [exact I|done..|by rewrite app_nil_r|done
    |first [by right | by left | right; simpl; by rewrite Hce]|done]).
  all: try (destruct I as [It Ip Ipc Ie Ir]; rewrite Hr in It, Ir; split; try done; intros r' e' cs' [= <- <- <-]; by eapply Ir).
  (* the goroutines *)
  all: rewrite ?Ha in Hp1; rewrite ?Ha in Hp2.
  all: eapply goroutine_step; [exact I|exact Hr|exact Hr|done|try (by rewrite app_nil_r); done|..].
  all: try done.
  all: try (cbn in Hp1, Hp2 |- *; repeat match goal with H : Forall plain (_ :: _) |- _ => apply Forall_cons_1 in H as [? H] end;
    repeat (apply Forall_cons_2; [done|]); done).
  all: try (by eapply dispatch_plain).
  all: try (simpl; intros err' H; first [by left | exfalso; congruence
    | right; rewrite Ha in H; injection H as ->; by left]).
  all: try (left; split; [done|]; simpl; rewrite ?Ha; simpl; rewrite ?orb_true_r; done).
  all: right; do 2 eexists; (split; [done|]);
    first [by left | by (right; left)
      | right; right; eexists; split_and!; [done|done|by (left + right)]].
Qed.

Lemma session_reachable_inv i o n s : rtc (step i o) (started n) s → SInv n s.
Proof.
  intros Hr. assert (SInv n (started n)) as I0.
  { split; simpl; try done; exists [], []; by split_and!. }
  revert I0. induction Hr as [|s1 s2 s3 Hs _ IH]; [done|]. intros I. by apply IH, (session_step_inv _ _ _ _ _ Hs).
Qed.

(** ** itoa *)

Lemma itoa_loop_digits fuel fuel' n buf :
  0 < n < 10 ^ Z.of_nat fuel → n < 2 ^ Z.of_nat fuel' →
  itoa_loop fuel n buf = ((λ d, 48 + d) <$> dec_digits fuel' n) ++ buf.
Proof.
  revert fuel' n buf. induction fuel as [|fuel IH]; intros fuel' n buf Hn Hf; [simpl in Hn; lia|].
  destruct fuel' as [|fuel']; [simpl in Hf; lia|]. cbn [itoa_loop dec_digits].
  rewrite (proj2 (Z.ltb_lt 0 n)) by lia. rewrite Z.quot_div_nonneg, Z.rem_mod_nonneg by lia.
  rewrite Nat2Z.inj_succ, Z.pow_succ_r in Hn, Hf by lia.
  destruct (Z.ltb_spec n 10) as [Hlt|Hge].
  - rewrite Z.div_small, Z.mod_small by lia. by destruct fuel.
  - rewrite (IH fuel' (n / 10)).
    + by rewrite fmap_app, <-app_assoc.
    + split; [apply Z.div_str_pos; lia|apply Z.div_lt_upper_bound; lia].
    + apply Z.div_lt_upper_bound; lia.
Qed.

Lemma of_bytes_digits ds : of_bytes ((λ d, 48 + d) <$> ds) = string_of_digits ds.
Proof. unfold of_bytes, string_of_digits. by rewrite <-list_fmap_compose. Qed.

Lemma itoa_pos n : 0 < n ≤ MaxInt64 → of_bytes (itoa_loop 20 n []) = fmt_u n.
Proof.
  intros Hn. unfold MaxInt64 in Hn. rewrite (itoa_loop_digits 20 (S (Z.to_nat (Z.log2 n))) n []).
  - rewrite app_nil_r. apply of_bytes_digits.
  - change (10 ^ Z.of_nat 20) with 100000000000000000000. lia.
  - apply fmt_digits_fuel. lia.
Qed.

(** Refutes membership in an explicit list. *)
Ltac not_in H :=
  exfalso; repeat (apply elem_of_cons in H as [H|H]; [by inversion H|]); by apply not_elem_of_nil in H.

(** ** Properties *)

(** C3: a session ends exactly once and for a reported reason.  When Run has
    returned, the observer saw OnSessionStart once, right after the history, and
    OnSessionEnd once, as its last callback, after the transport and the model
    were closed (only frames of the hold filler may still go out meanwhile); the
    returned error and the reported reason belong together: a close of the
    transport or of the model ends with no error, a done context with its error,
    and a fatal end with an error that was also reported to OnError. *)
Theorem session_ends_once i o n s r e :
  rtc (step i o) (started n) s → run s = Returned r e →
  ∃ body post, trace s = opening n ++ body ++ post ∧
    Forall plain body ∧ no_sends post = closing r ∧
    match r with
    | EndReasonTransportClosed | EndReasonLLMClosed => e = None
    | EndReasonContextDone => e ≠ None ∧ e = ctx_err s
    | EndReasonFatalError => ∃ err, e = Some err ∧ OnError err ∈ body
    end.
Proof.
  intros Hr Hrun.
  destruct (session_reachable_inv _ _ _ _ Hr) as [(body & post & Hb & Ht & Hpost) _ _ Hend Hret].
  rewrite Hrun in Hpost, Hret. cbn in Hpost. rewrite app_nil_r in Hpost. destruct (Hret r e [] eq_refl) as (Ha & He & Een).
  exists body, post. split_and!; try done. specialize (Hend _ Een). destruct r; simpl in Hend; try done.
  destruct Hend as (err & -> & Hin). exists err. split; [done|]. rewrite Ha, He in Hin.
  destruct Hin as [Hin|[|]]; [|done..]. rewrite Ht in Hin.
  apply elem_of_app in Hin as [Hin|Hin]; [not_in Hin|].
  apply elem_of_app in Hin as [Hin|Hin]; [done|]. exfalso.
  assert (OnError err ∈ no_sends post) as Hx by (by apply list_elem_of_filter).
  rewrite Hpost in Hx. not_in Hx.
Qed.

(** Run's last steps, once both goroutines returned. *)
Lemma run_calls i o cs s r e :
  run s = Closing cs r e → rtc (step i o) s (set_run (Returned r e) (emit cs s)).
Proof.
  revert s. induction cs as [|c cs IH]; intros s Hr.
  - eapply rtc_l; [by apply run_return|]. unfold emit, set_run. simpl. rewrite app_nil_r. apply rtc_refl.
  - eapply rtc_l; [by apply run_call|].
    pose proof (IH (set_run (Closing cs r e) (emit [c] s)) eq_refl) as H.
    unfold emit, set_run in *. simpl in *. by rewrite <-app_assoc in H.
Qed.

Lemma run_out i o s r e :
  run s = Waiting → audio s = Exited → events s = Exited → run (finish s) = Closing (closing r) r e →
  rtc (step i o) s (set_run (Returned r e) (emit (closing r) (finish s))).
Proof. intros Hr Ha He Hf. eapply rtc_l; [by apply run_finish|]. by apply run_calls. Qed.

(** a transport error can be lost.  The transport reports a terminal error
    and closes its channels; the select of the audio goroutine may take the
    closed frame channel first, and then Run returns nil with the reason
    transport_closed while the error is still in the error channel. *)
Theorem transport_error_can_be_lost i o n err :
  ∃ s, rtc (step i o) (started n) s ∧
    run s = Returned EndReasonTransportClosed None ∧ queue (in_errs s) = [Some err] ∧
    OnError err ∉ trace s.
Proof.
  eexists. split.
  - eapply rtc_l.
    { apply (arrivals i o {| queue := []; is_closed := true |} {| queue := [Some err]; is_closed := true |}
        {| queue := []; is_closed := true |} {| queue := []; is_closed := true |});
        by eexists. }
    eapply rtc_l; [by apply audio_closed|].
    eapply rtc_l; [by apply event_closed|].
    by apply (run_out i o _ EndReasonTransportClosed None).
  - split_and!; [done|done|]. simpl. intros H.
    not_in H.
Qed.

(** resolveBridge accepts exactly mono-to-mono pairs that are equal or one of
    the two documented conversions, and every other pair is ErrFormatBridge. *)
Theorem resolveBridge_spec src dst :
  match resolveBridge src dst with
  | Ok b =>
      Channels src = 1 ∧ Channels dst = 1 ∧
      match b with
      | Passthrough => src = dst
      | Mulaw8kToPCM16LE16k =>
          encoding src = EncodingMulaw ∧ SampleRate src = 8000 ∧
          encoding dst = EncodingPCM16LE ∧ SampleRate dst = 16000
      | PCM16LE24kToMulaw8k =>
          encoding src = EncodingPCM16LE ∧ SampleRate src = 24000 ∧
          encoding dst = EncodingMulaw ∧ SampleRate dst = 8000
      end
  | Err e => errors_Is e ErrFormatBridge = true ∧ (Channels src = 1 → Channels dst = 1 → src ≠ dst)
  end.
Proof.
  unfold resolveBridge.
  destruct (Z.eqb_spec (Channels src) (Channels dst)) as [Hc|Hc]; simpl; [|split; [done|congruence]].
  destruct (Z.eqb_spec (Channels src) 1) as [H1|H1]; simpl; [|by split].
  case_bool_decide as Hd; [split_and!; congruence|].
  destruct (_ && _ && _ && _) eqn:E1; [|destruct (_ && _ && _ && _) eqn:E2 in |- *; [|by split]].
  - rewrite !andb_true_iff, !bool_decide_eq_true, !Z.eqb_eq in E1. split_and!; naive_solver congruence.
  - rewrite !andb_true_iff, !bool_decide_eq_true, !Z.eqb_eq in E2. split_and!; naive_solver congruence.
Qed.

(** itoa is decimal rendering on every int64 but MinInt64, which it renders
    as a bare minus sign. *)
Theorem itoa_decimal n :
  in_int64 n → itoa n = if n =? MinInt64 then "-" else fmt_d n.
Proof.
  intros Hn. unfold itoa, fmt_d. destruct (Z.eqb_spec n 0) as [->|Hne]; [done|].
  unfold in_int64, MinInt64, MaxInt64 in Hn. destruct (Z.ltb_spec n 0).
  - destruct (Z.eqb_spec n MinInt64) as [->|Hmin]; [done|]. unfold MinInt64 in Hmin.
    rewrite int64_id by (unfold in_int64, MinInt64, MaxInt64; lia).
    rewrite <-(itoa_pos (- n)) by (unfold MaxInt64; lia). done.
  - rewrite (proj2 (Z.eqb_neq n MinInt64)) by (unfold MinInt64; lia).
    apply itoa_pos. unfold MaxInt64. lia.
Qed.

(** ** Witnesses *)

(** The caller hangs up and the model closes. *)
Lemma hangup : ∃ s, rtc (step Passthrough Passthrough) (started 2) s ∧
  run s = Returned EndReasonTransportClosed None.
Proof.
  eexists. split; [|shelve].
  eapply rtc_l.
  { apply (arrivals Passthrough Passthrough {| queue := []; is_closed := true |}
      {| queue := []; is_closed := true |} {| queue := []; is_closed := true |}
      {| queue := []; is_closed := true |}); by eexists. }
  eapply rtc_l; [by apply audio_closed|]. eapply rtc_l; [by apply event_closed|].
  by apply (run_out _ _ _ EndReasonTransportClosed None).
  Unshelve. done.
Qed.

Lemma session_ends_once_witness :
  ∃ s body post, run s = Returned EndReasonTransportClosed None ∧
    trace s = opening 2 ++ body ++ post ∧ no_sends post = closing EndReasonTransportClosed.
Proof.
  destruct hangup as (s & Hs & Hr).
  destruct (session_ends_once Passthrough Passthrough 2 s _ _ Hs Hr) as (body & post & Ht & _ & Ho & _).
  exists s, body, post. done.
Defined.

(** Two calls, one at a time, the second panicking. *)
Definition two_calls : list ToolCall :=
  [{| CallID := "a"; ToolName := "f"; ToolArgs := "{}" |}; {| CallID := "b"; ToolName := "g"; ToolArgs := "{}" |}].
Definition two_execs (i : nat) : exec_result :=
  match i with O => Executed "ok" None | _ => ExecPanicked "boom" end.

Lemma two_done : ∃ b, rtc (batch_step 1 two_calls two_execs) (batch_start two_calls) b ∧ batch_done two_calls b.
Proof.
  eexists. split; [|shelve].
  eapply rtc_l; [apply launch; simpl; lia|].
  eapply rtc_l; [by eapply (complete _ _ _ _ 0); [left|]|].
  eapply rtc_l; [apply launch; simpl; lia|].
  eapply rtc_l; [by eapply (complete _ _ _ _ 1); [left|]|]. apply rtc_refl.
  Unshelve. done.
Qed.

Lemma tool_batch_witness :
  ∃ b, rtc (batch_step 1 two_calls two_execs) (batch_start two_calls) b ∧
    slots b = Some <$> [{| ResultID := "a"; ResultData := "ok"; ResultErr := None |};
      {| ResultID := "b"; ResultData := "";
         ResultErr := Some (EWrap "" ": boom" ErrToolExecutorPanicked) |}].
Proof.
  destruct two_done as (b & Hb & Hd). exists b. split; [done|].
  destruct (tool_batch 1 two_calls two_execs b (le_n 1) Hb) as (_ & _ & _ & H). exact (H Hd).
Defined.

Lemma itoa_decimal_witness : itoa 1234 = "1234".
Proof. rewrite (itoa_decimal 1234); [reflexivity|by vm_compute]. Defined.
