(* ===== verification/VoiceSession.v ===== *)
(** * What a voice session forwards

    The session loop of src/voice/pipeline/pipeline.go against a sequential
    specification.  The step relation of VoicePipeline interleaves the audio
    goroutine, the event goroutine, the hold filler and Run one call at a time;
    [served] is the dispatcher run alone over a list of events.  A run of the
    session is recorded with everything that arrived on its two channels, and
    the first theorem says that what reaches the model, the transport and the observer
    is what the sequential dispatcher makes of the arrivals, in their order.  The
    second theorem gives a measure by which a session whose channels were closed
    comes to its end. *)

From S2P Require Import Prelude GoString GoErrors VoicePipeline.
From stdpp Require Import base list relations strings.
From Stdlib Require Import ZArith Lia.
Open Scope Z_scope.

(** ** The sequential specification *)

(** Events with the answers given while each is handled: the calls made, the turn
    counter, the fatal error and the events left when it struck. *)
Fixpoint served (o : bridge) (evs : list (LLMEvent * answers)) (turn : Z)
  : list call * Z * option error * list (LLMEvent * answers) :=
  match evs with
  | [] => ([], turn, None, [])
  | (ev, a) :: rest =>
      let '(cs, turn, err) := dispatchLLMEvent a o ev turn in
      match err with
      | Some e => (cs, turn, Some e, rest)
      | None => let '(cs', turn, err, unserved) := served o rest turn in (cs ++ cs', turn, err, unserved)
      end
  end.

(** Calls only the audio goroutine makes, and calls only the dispatcher makes. *)
Definition by_audio (c : call) : bool := match c with SendAudio _ => true | _ => false end.
Definition by_events (c : call) : bool :=
  match c with
  | OnCallerTranscript _ | OnAssistantText _ _ | OnToolCall _ | OnToolResponse _ _ | OnInterrupted
  | OnTurnComplete _ | Clear | Mark _ | SendToolResults _ => true
  | _ => false
  end.
Definition audio_calls (cs : list call) : list call := filter (λ c, by_audio c = true) cs.
Definition event_calls (cs : list call) : list call := filter (λ c, by_events c = true) cs.

(** What a step adds to a channel. *)
Definition gained {A} (c c' : chan A) : list A := drop (length (queue c)) (queue c').

(** A run of the session, with the frames and the events that arrived. *)
Inductive session_run (i o : bridge) (n : nat) : session → list Frame → list LLMEvent → Prop :=
| run_started : session_run i o n (started n) [] []
| run_stepped s s' fs es :
    session_run i o n s fs es → step i o s s' →
    session_run i o n s' (fs ++ gained (in_frames s) (in_frames s')) (es ++ gained (llm_events s) (llm_events s')).

(** Every reachable session has such a run. *)
Lemma session_run_exists i o n s : rtc (step i o) (started n) s → ∃ fs es, session_run i o n s fs es.
Proof.
  intros H.
  assert (∀ s0, rtc (step i o) s0 s → ∀ fs es, session_run i o n s0 fs es → ∃ fs es, session_run i o n s fs es) as Hg.
  { clear H. intros s0 Hr. induction Hr as [x|x y z Hs _ IH]; intros fs es H0; [by eauto|].
    eapply IH. by eapply run_stepped. }
  eapply Hg; [done|apply run_started].
Qed.

(** ** The invariant *)

Lemma gained_extends {A} (c c' : chan A) : extends c c' → queue c' = queue c ++ gained c c'.
Proof. intros (new & E & _). unfold gained. rewrite E. by rewrite drop_app_length. Qed.
Lemma gained_same {A} (c c' : chan A) : queue c' = queue c → gained c c' = [].
Proof. intros E. unfold gained. rewrite E. by rewrite drop_all. Qed.
Lemma gained_tail {A} x (c c' : chan A) : queue c = x :: queue c' → gained c c' = [].
Proof. intros E. unfold gained. rewrite E. apply drop_ge. simpl. lia. Qed.

Lemma served_snoc o evs ev a turn cs t cs' t' err :
  served o evs turn = (cs, t, None, []) → dispatchLLMEvent a o ev t = (cs', t', err) →
  served o (evs ++ [(ev, a)]) turn = (cs ++ cs', t', err, []).
Proof.
  revert turn cs. induction evs as [|[ev0 a0] evs IH]; intros turn cs; cbn [served app].
  - intros [= <- <-] ->. by destruct err; rewrite ?app_nil_r.
  - destruct (dispatchLLMEvent a0 o ev0 turn) as [[cs1 t1] [e|]]; [done|].
    destruct (served o evs t1) as [[[cs2 t2] e2] l2] eqn:E2. intros [= <- -> -> ->] Hd.
    rewrite (IH _ _ E2 Hd). by rewrite app_assoc.
Qed.

Lemma calls_none (b : call → bool) cs :
  Forall (λ c, b c = false) cs → filter (λ c, b c = true) cs = [].
Proof.
  induction 1 as [|c cs Hc _ IH]; [done|]. rewrite filter_cons_False by (by rewrite Hc). done.
Qed.

Lemma dispatch_no_audio a o ev t cs t' err :
  dispatchLLMEvent a o ev t = (cs, t', err) → audio_calls cs = [].
Proof.
  destruct ev; intros [= <- <- <-]; try done. unfold audio_calls, dispatchToolCalls. rewrite !filter_app.
  rewrite (calls_none by_audio (OnToolCall <$> calls)) by (apply Forall_fmap, Forall_true; by intros).
  assert (∀ rs, filter (λ c, by_audio c = true) (zip_with OnToolResponse calls rs) = []) as ->.
  { induction calls as [|c cs IH]; intros [|r rs]; simpl; try done. rewrite filter_cons_False by done. apply IH. }
  by destruct (ans_results a).
Qed.

(** A goroutine that still serves. *)
Definition serving (p : pc) : bool := match p with Loop | Making _ None => true | _ => false end.

Record VInv (i o : bridge) (s : session) (fs : list Frame) (es : list LLMEvent) : Prop := {
  vi_audio : ∃ sent, fs = sent ++ queue (in_frames s) ∧
    audio_calls (trace s) ++ pending (audio s) = (λ f, SendAudio (run_bridge i f)) <$> sent;
  vi_events : ∃ evs made err, es = evs.*1 ++ queue (llm_events s) ∧
    served o evs 0 = (made ++ pending (events s), turn s, err, []) ∧
    (serving (events s) = true → err = None) ∧
    audio_calls (pending (events s)) = [] ∧
    made `sublist_of` trace s ∧ event_calls (trace s) = event_calls made;
  vi_run : Forall (λ c, by_audio c = false ∧ by_events c = false)
    (default [] (snd <$> decided (run s)));
  vi_closed : ∀ e, (ended s = Some (EndReasonTransportClosed, e) →
      queue (in_frames s) = [] ∧ is_closed (in_frames s) = true ∧ audio s = Exited) ∧
    (ended s = Some (EndReasonLLMClosed, e) →
      queue (llm_events s) = [] ∧ is_closed (llm_events s) = true ∧ events s = Exited)
}.

Lemma VInv_started i o n : VInv i o (started n) [] [].
Proof.
  split.
  - exists []. done.
  - exists [], [], None. split_and!; try done. apply sublist_nil_l.
  - done.
  - done.
Qed.

(** A step that forwards nothing: it makes calls of neither kind, keeps what is
    queued and due, and stops serving at most. *)
Lemma VInv_idle i o s s' fs es cs :
  VInv i o s fs es →
  queue (in_frames s') = queue (in_frames s) → queue (llm_events s') = queue (llm_events s) →
  pending (audio s') = pending (audio s) → pending (events s') = pending (events s) →
  (serving (events s') = true → serving (events s) = true) → turn s' = turn s →
  trace s' = trace s ++ cs → Forall (λ c, by_audio c = false ∧ by_events c = false) cs →
  Forall (λ c, by_audio c = false ∧ by_events c = false) (default [] (snd <$> decided (run s'))) →
  (∀ e, (ended s' = Some (EndReasonTransportClosed, e) →
      queue (in_frames s') = [] ∧ is_closed (in_frames s') = true ∧ audio s' = Exited) ∧
    (ended s' = Some (EndReasonLLMClosed, e) →
      queue (llm_events s') = [] ∧ is_closed (llm_events s') = true ∧ events s' = Exited)) →
  VInv i o s' (fs ++ gained (in_frames s) (in_frames s')) (es ++ gained (llm_events s) (llm_events s')).
Proof.
  intros [(sent & Hf & Ha) (evs & made & err & He & Hs & Hv & Hn & Hsub & Hev) _ _] Ef El Pa Pe Hser Ht Etr Hcs Hrun Hcl.
  apply Forall_and in Hcs as [Hc1 Hc2].
  rewrite (gained_same _ _ Ef), (gained_same _ _ El), !app_nil_r. split; [| |done|done].
  - exists sent. rewrite Ef, Pa, Etr. unfold audio_calls in *. rewrite filter_app, (calls_none by_audio cs) by done.
    by rewrite app_nil_r.
  - exists evs, made, err. rewrite El, Pe, Ht, Etr. split_and!; try done; [auto|by apply sublist_inserts_r|].
    unfold event_calls in *. rewrite filter_app, (calls_none by_events cs) by done. by rewrite app_nil_r.
Qed.

(** A channel found closed and drained stays so, by case on the recorded end. *)
Ltac closed_ok Hcl :=
  let e := fresh in let H1 := fresh in let H2 := fresh in let E := fresh in
  intros e; destruct (Hcl e) as [H1 H2]; cbn [ended recordEnd set_audio set_events set_chans set_turn set_cancel set_run emit finish];
  split; intros E; simpl in *;
  repeat match type of E with
  | context [match ended ?s with _ => _ end] => destruct (ended s) eqn:?
  | context [match ctx_err ?s with _ => _ end] => destruct (ctx_err s) eqn:?
  end; try discriminate E;
  first [ destruct (H1 E) as (? & ? & ?); by split_and!; congruence
        | destruct (H2 E) as (? & ? & ?); by split_and!; congruence
        | by split_and! ].

(** A step of the audio goroutine: it receives a frame, or forwards one. *)
Lemma VInv_audio i o s s' fs es cs sent' :
  VInv i o s fs es →
  queue (in_frames s) = sent' ++ queue (in_frames s') → gained (in_frames s) (in_frames s') = [] →
  llm_events s' = llm_events s → events s' = events s → turn s' = turn s → run s' = run s →
  trace s' = trace s ++ cs → event_calls cs = [] →
  pending (audio s) ++ ((λ f, SendAudio (run_bridge i f)) <$> sent') = audio_calls cs ++ pending (audio s') →
  ended s' = ended s → audio s ≠ Exited →
  VInv i o s' (fs ++ gained (in_frames s) (in_frames s')) (es ++ gained (llm_events s) (llm_events s')).
Proof.
  intros [(sent & Hf & Ha) (evs & made & err & He & Hs & Hv & Hn & Hsub & Hev) Hrun Hcl] Eq Eg El Ee Et Er Etr Hec Hp En Hx.
  rewrite Eg, (gained_same (llm_events s)), !app_nil_r by (by rewrite El). split.
  - exists (sent ++ sent'). split; [by rewrite Hf, Eq, app_assoc|].
    rewrite fmap_app, <-Ha, Etr. unfold audio_calls in *. by rewrite filter_app, <-!app_assoc, Hp.
  - exists evs, made, err. rewrite El, Ee, Et, Etr. split_and!; try done; [by apply sublist_inserts_r|].
    unfold event_calls in *. by rewrite filter_app, Hec, app_nil_r.
  - by rewrite Er.
  - intros e. rewrite En, El, Ee. destruct (Hcl e) as [H1 H2]. split; [|done].
    intros E. by destruct (H1 E) as (_ & _ & ?).
Qed.

(** A call of the event goroutine. *)
Lemma VInv_event_call i o s fs es c cs err :
  VInv i o s fs es → events s = Making (c :: cs) err → VInv i o (set_events (Making cs err) (emit [c] s)) fs es.
Proof.
  intros [(sent & Hf & Ha) (evs & made & err' & He & Hs & Hv & Hn & Hsub & Hev) Hrun Hcl] Ep.
  rewrite Ep in Hs, Hv, Hn. cbn [pending] in Hs, Hn. unfold audio_calls in Hn. rewrite filter_cons in Hn.
  destruct (decide (by_audio c = true)) as [|Hb]; [done|]. split; simpl.
  - exists sent. split; [done|]. unfold audio_calls in *. rewrite filter_app, filter_cons_False by done.
    by rewrite app_nil_r.
  - exists evs, (made ++ [c]), err'. split_and!; try done; [by rewrite <-app_assoc|by apply sublist_app|].
    unfold event_calls in *. by rewrite !filter_app, Hev.
  - done.
  - intros e. destruct (Hcl e) as [H1 H2]. split; [done|]. intros E. destruct (H2 E) as (_ & _ & ?). congruence.
Qed.

(** The event goroutine receives an event. *)
Lemma VInv_dispatch i o s fs es ev q a cs t err :
  VInv i o s fs es → events s = Loop → queue (llm_events s) = ev :: q →
  dispatchLLMEvent a o ev (turn s) = (cs, t, err) →
  VInv i o (set_events (Making cs err) (set_turn t (set_chans (in_frames s) (in_errs s)
      {| queue := q; is_closed := is_closed (llm_events s) |} (llm_errs s) s))) fs es.
Proof.
  intros [Hau (evs & made & err' & He & Hs & Hv & _ & Hsub & Hev) Hrun Hcl] Ep Hq Hd.
  rewrite Ep in Hs, Hv. rewrite (Hv eq_refl) in Hs. cbn in Hs. rewrite app_nil_r in Hs. split; simpl; [done| |done|].
  - exists (evs ++ [(ev, a)]), made, err. split_and!; try done.
    + by rewrite fmap_app, He, Hq, <-app_assoc.
    + by apply (served_snoc _ _ _ _ _ _ _ _ _ _ Hs).
    + by destruct err.
    + by eapply dispatch_no_audio.
  - intros e. destruct (Hcl e) as [H1 H2]. split; [done|]. intros E. destruct (H2 E) as (_ & _ & ?). congruence.
Qed.

(** Arrivals. *)
Lemma VInv_arrivals i o s fs es f e l le :
  VInv i o s fs es → extends (in_frames s) f → extends (llm_events s) l →
  VInv i o (set_chans f e l le s) (fs ++ gained (in_frames s) f) (es ++ gained (llm_events s) l).
Proof.
  intros [(sent & Hf & Ha) (evs & made & err & He & Hs) Hrun Hcl] Ef El. split; simpl; [..|done|].
  - exists sent. split; [|done]. by rewrite (gained_extends _ _ Ef), Hf, app_assoc.
  - exists evs, made, err. split; [|done]. by rewrite (gained_extends _ _ El), He, app_assoc.
  - destruct Ef as (nf & Enf & Hcf), El as (nl & Enl & Hcl').
    intros e'. destruct (Hcl e') as [H1 H2]. split; intros E.
    + destruct (H1 E) as (Hq & Hc & Hx). destruct (Hcf Hc) as [-> ?]. by rewrite Enf, Hq.
    + destruct (H2 E) as (Hq & Hc & Hx). destruct (Hcl' Hc) as [-> ?]. by rewrite Enl, Hq.
Qed.

Lemma finish_shape s : ∃ r e, finish s = set_run (Closing (closing r) r e) s.
Proof. unfold finish. destruct (default _ _) as [r e]. by do 2 eexists. Qed.

Lemma VInv_step i o s s' fs es :
  step i o s s' → VInv i o s fs es →
  VInv i o s' (fs ++ gained (in_frames s) (in_frames s')) (es ++ gained (llm_events s) (llm_events s')).
Proof.
  intros Hs I. pose proof I as [_ _ Hrun Hcl].
  destruct Hs as [f q sendErr s Ha Hq|s Ha Hq Hc|e q s Ha Hq|s Ha Hq Hc|c cs err' s Ha|s Ha|e s Ha|e s Ha|s Ha
    |ev q a cs t err' s Ha Hq Hd|s Ha Hq Hc|e q s Ha Hq|s Ha Hq Hc|c cs err' s Ha|s Ha|e s Ha|e s Ha|s Ha
    |f s|e s Hce Hr|s Hr Ha Hb|c cs r e s Hr|r e s Hr|e s Hce|f e l le s Hf1 Hf2 Hf3 Hf4].
  all: try (eapply (VInv_idle _ _ s _ _ _ []); first [exact I|done|by rewrite app_nil_r|by simpl; rewrite Ha|closed_ok Hcl]; fail).
  all: try (eapply (VInv_idle _ _ s _ _ _ [OnError e]); first [exact I|done|by simpl; rewrite Ha|closed_ok Hcl|by apply Forall_singleton]; fail).
  - eapply (VInv_audio _ _ s _ _ _ [] [f]); simpl; rewrite ?Ha, ?Hq; first [exact I|done|by rewrite app_nil_r|by eapply gained_tail].
  - destruct (vi_audio _ _ _ _ _ I) as (sent & _ & Hp). rewrite Ha in Hp. cbn in Hp.
    assert (c ∈ (λ f, SendAudio (run_bridge i f)) <$> sent) as (f & -> & _)%list_elem_of_fmap.
    { rewrite <-Hp. apply elem_of_app. right. by left. }
    eapply (VInv_audio _ _ s _ _ _ [_] []); simpl; rewrite ?Ha; first [exact I|done|by apply gained_same|by rewrite app_nil_r].
  - simpl. rewrite (gained_same (in_frames s)), (gained_tail ev (llm_events s)), !app_nil_r by done.
    by eapply VInv_dispatch.
  - simpl. rewrite !gained_same, !app_nil_r by done. by apply VInv_event_call.
  - eapply (VInv_idle _ _ s _ _ _ [Send f]); first [exact I|done|closed_ok Hcl|by apply Forall_singleton].
  - destruct (finish_shape s) as (r & e & ->).
    eapply (VInv_idle _ _ s _ _ _ []); first [exact I|done|by rewrite app_nil_r|closed_ok Hcl|idtac].
    simpl. repeat (apply Forall_cons_2; [done|]). done.
  - rewrite Hr in Hrun. apply Forall_cons_1 in Hrun as [Hc Hcs].
    eapply (VInv_idle _ _ s _ _ _ [c]); first [exact I|done|closed_ok Hcl|by apply Forall_singleton].
  - by apply VInv_arrivals.
Qed.

Lemma session_run_inv i o n s fs es : session_run i o n s fs es → SInv n s ∧ VInv i o s fs es.
Proof.
  induction 1 as [|s s' fs es _ [I V] Hs].
  - split; [by apply (session_reachable_inv i o), rtc_refl|apply VInv_started].
  - split; [by eapply session_step_inv|by apply VInv_step].
Qed.

(** ** Draining a session *)

(** The calls an event can lead to. *)
Definition event_length (ev : LLMEvent) : nat :=
  match ev with EventToolCalls calls => (2 * length calls + 3)%nat | _ => 2%nat end.

Lemma dispatch_length a o ev t cs t' err :
  dispatchLLMEvent a o ev t = (cs, t', err) → (length cs ≤ event_length ev)%nat.
Proof.
  destruct ev; intros [= <- <- <-]; simpl; try lia. unfold dispatchToolCalls.
  rewrite !length_app, length_fmap, length_zip_with. simpl. destruct (ans_results a); simpl; lia.
Qed.

Definition pc_rank (p : pc) : nat :=
  (match p with Exited => 0 | Observed => 1 | Recorded _ => 2 | Loop => 3 | Making cs _ => 4 + length cs end)%nat.
Definition main_rank (m : main) : nat :=
  (match m with Waiting => 5 | Closing cs _ _ => 1 + length cs | Returned _ _ => 0 end)%nat.
(** What is left to do: the queued values with the calls each leads to, and the
    positions of the goroutines and of Run. *)
Definition session_measure (s : session) : nat :=
  (3 * length (queue (in_frames s)) + 2 * length (queue (in_errs s))
  + sum_list_with (λ ev, 2 + event_length ev) (queue (llm_events s)) + 2 * length (queue (llm_errs s))
  + pc_rank (audio s) + pc_rank (events s) + main_rank (run s))%nat.

Definition all_closed (s : session) : Prop :=
  is_closed (in_frames s) = true ∧ is_closed (in_errs s) = true ∧
  is_closed (llm_events s) = true ∧ is_closed (llm_errs s) = true.

(** A step that does no work of the session: the filler sends, a context is done
    or cancelled, the outside adds nothing, or a goroutine receives from a closed
    error channel and goes round its loop. *)
Definition outside (s s' : session) : Prop :=
  session_measure s' = session_measure s ∧ audio s' = audio s ∧ events s' = events s ∧ run s' = run s ∧
  ended s' = ended s ∧ (trace s' = trace s ∨ ∃ f, trace s' = trace s ++ [Send f]).

Lemma extends_closed {A} (c c' : chan A) :
  extends c c' → is_closed c = true → queue c' = queue c ∧ is_closed c' = true.
Proof. intros (new & -> & H) Hc. destruct (H Hc) as [-> ?]. by rewrite app_nil_r. Qed.

Lemma closed_step i o s s' : step i o s s' → all_closed s → all_closed s'.
Proof.
  intros Hs Hc. destruct Hs; try exact Hc; try (destruct Hc as (? & ? & ? & ?); by split_and!).
  - by destruct (finish_shape s) as (? & ? & ->).
  - destruct Hc as (? & ? & ? & ?). by split_and!; eapply extends_closed.
Qed.

Lemma step_works i o s s' : step i o s s' → all_closed s → outside s s' ∨ (session_measure s' < session_measure s)%nat.
Proof.
  intros Hs Hc. destruct Hs as [f q sendErr s Ha Hq|s Ha Hq _|e q s Ha Hq|s Ha Hq Hc'|c cs err s Ha|s Ha|e s Ha|e s Ha|s Ha
    |ev q a cs t err s Ha Hq Hd|s Ha Hq _|e q s Ha Hq|s Ha Hq Hc'|c cs err s Ha|s Ha|e s Ha|e s Ha|s Ha
    |f s|e s Hce Hr|s Hr Ha Hb|c cs r e s Hr|r e s Hr|e s Hce|f e l le s Hf1 Hf2 Hf3 Hf4].
  all: try (right; unfold session_measure; simpl; rewrite ?Ha, ?Hq, ?Hr; simpl; lia).
  all: try (left; split_and!; try done; by left).
  - right. apply dispatch_length in Hd. unfold session_measure. simpl. rewrite Ha, Hq. simpl. lia.
  - left. split_and!; try done. right. by exists f.
  - right. destruct (finish_shape s) as (r & e & ->). unfold session_measure. simpl. rewrite Hr. simpl. lia.
  - left. destruct Hc as (H1 & H2 & H3 & H4). split_and!; try done; [|by left]. unfold session_measure. simpl.
    destruct (extends_closed _ _ Hf1 H1) as [-> _], (extends_closed _ _ Hf2 H2) as [-> _],
      (extends_closed _ _ Hf3 H3) as [-> _], (extends_closed _ _ Hf4 H4) as [-> _]. done.
Qed.

(** Collaborators that answer with nothing. *)
Definition silent : answers :=
  {| ans_send := None; ans_exec := λ _, Executed "" None; ans_results := None |}.

(** The goroutines, when one can go on, and that it went on. *)
Inductive goroutine := Audio | Events | Main.
Definition ready (g : goroutine) (s : session) : Prop :=
  match g with
  | Audio => audio s ≠ Exited
  | Events => events s ≠ Exited
  | Main => match run s with
            | Waiting => audio s = Exited ∧ events s = Exited
            | Closing _ _ _ => True
            | Returned _ _ => False
            end
  end.
Definition moved (g : goroutine) (s s' : session) : Prop :=
  match g with
  | Audio => audio s' ≠ audio s
  | Events => events s' ≠ events s
  | Main => run s' ≠ run s
  end.

(** Fair scheduling and fair selects: a goroutine that can go on does so sooner or
    later. *)
Definition fair (e : nat → session) : Prop :=
  ∀ g k, ready g (e k) → ∃ k', (k ≤ k')%nat ∧ moved g (e k) (e k').
Definition execution (i o : bridge) (e : nat → session) : Prop := ∀ k, step i o (e k) (e (S k)).

Lemma outside_still s s' g : outside s s' → ¬ moved g s s'.
Proof. intros (_ & Ha & He & Hr & _) Hm. by destruct g. Qed.

(** A step of a goroutine by its rule. *)
Ltac goes rule :=
  eexists; split; [by eapply rule|]; simpl;
  repeat match goal with H : audio _ = _ |- _ => rewrite H; clear H | H : events _ = _ |- _ => rewrite H; clear H
    | H : run _ = _ |- _ => rewrite H; clear H end;
  first [done | intros E; apply (f_equal (length ∘ pending)) in E; simpl in E; lia
        | intros E; apply (f_equal main_rank) in E; simpl in E; lia].

Lemma ready_moves i o g s : all_closed s → ready g s → ∃ s', step i o s s' ∧ moved g s s'.
Proof.
  intros (Hf & _ & Hl & _). destruct g; simpl.
  - destruct (audio s) as [|[|c cs] [e|]|e| |] eqn:Ea; intros Hg; [|goes audio_record|goes audio_next
      |goes audio_call|goes audio_call|goes audio_observe|goes audio_cancel|done].
    destruct (queue (in_frames s)) as [|f q] eqn:Eq; [goes audio_closed|goes (audio_frame i o f q None)].
  - destruct (events s) as [|[|c cs] [e|]|e| |] eqn:Ea; intros Hg; [|goes event_record|goes event_next
      |goes event_call|goes event_call|goes event_observe|goes event_cancel|done].
    destruct (queue (llm_events s)) as [|ev q] eqn:Eq; [goes event_closed|].
    destruct (dispatchLLMEvent silent o ev (turn s)) as [[cs t] err] eqn:Ed. goes (event_dispatch i o ev q silent).
  - destruct (run s) as [|[|c cs] r e|r e] eqn:Er; [intros [Ha He]|intros _..|done].
    + exists (finish s). split; [by apply run_finish|]. by destruct (finish_shape s) as (r & e & ->).
    + goes run_return.
    + goes run_call.
Qed.

(** While Run has not returned, some goroutine can go on. *)
Lemma some_ready s : (∃ r e, run s = Returned r e) ∨ ∃ g, ready g s.
Proof.
  destruct (audio s) eqn:Ea; try (right; exists Audio; simpl; by rewrite Ea).
  destruct (events s) eqn:Ee; try (right; exists Events; simpl; by rewrite Ee).
  destruct (run s) as [|cs r e|r e] eqn:Er; [| |left; by do 2 eexists];
    right; exists Main; simpl; by rewrite Er.
Qed.

(** Along an execution with closed channels nothing moves without the measure
    going down. *)
Lemma execution_measure i o e k d :
  execution i o e → all_closed (e k) →
  all_closed (e (d + k)%nat) ∧
  ((session_measure (e (d + k)%nat) < session_measure (e k))%nat ∨
   session_measure (e (d + k)%nat) = session_measure (e k) ∧
   ∀ g, ¬ moved g (e k) (e (d + k)%nat)).
Proof.
  intros He Hc. induction d as [|d [Hd IH]]; simpl.
  { split; [done|]. right. split; [done|]. intros [] Hm; by apply Hm. }
  pose proof (He (d + k)%nat) as Hs. split; [by eapply closed_step|].
  destruct (step_works _ _ _ _ Hs Hd) as [Ho|Hlt]; destruct IH as [IH|[IH Hm]]; try (left; lia).
  - left. destruct Ho as [Eo _]. lia.
  - right. pose proof (λ g, outside_still _ _ g Ho) as Hg. split; [destruct Ho; lia|].
    intros g Hx. apply (Hm g). specialize (Hg g).
    destruct Ho as (_ & Ha & Hv & Hr & _). destruct g; simpl in *; congruence.
Qed.

(** ** Properties *)


(** C28: a session whose channels were closed comes to its end.  Each of its
    goroutines that has not returned can go on, and Run can once they have.  In
    every execution, whatever the transport, the model and the tools answer and
    however many filler frames, cancellations and receives from closed error
    channels come in between, Run returns, provided the execution is fair: a
    goroutine that can go on is scheduled, and its select picks another case than
    the closed error channel, sooner or later. *)
Theorem session_drains i o e :
  execution i o e → all_closed (e 0%nat) →
  (∀ g k, ready g (e k) → ∃ s', step i o (e k) s' ∧ moved g (e k) s') ∧
  (fair e → ∃ k r err, run (e k) = Returned r err).
Proof.
  intros He Hc. split.
  - intros g k Hg. pose proof (execution_measure i o e 0 k He Hc) as [Hk _]. rewrite Nat.add_0_r in Hk.
    by apply ready_moves.
  - intros Hf. cut (∀ m k, all_closed (e k) → session_measure (e k) = m → ∃ k r err, run (e k) = Returned r err).
    { intros H. by eapply (H _ 0%nat). }
    intros m. induction (lt_wf m) as [m _ IH]. intros k Hk Em.
    destruct (some_ready (e k)) as [(r & err & Hr)|[g Hg]]; [by exists k, r, err|].
    destruct (Hf g k Hg) as (k' & Hle & Hm).
    destruct (execution_measure i o e k (k' - k) He Hk) as [Hk' Hx].
    replace (k' - k + k)%nat with k' in * by lia.
    destruct Hx as [Hlt|[_ Hn]]; [|by destruct (Hn g)]. rewrite Em in Hlt. by apply (IH _ Hlt k').
Qed.

(** ** Witnesses *)

(** A session at its start, with every channel closed, and what follows. *)
Definition hung_up : session :=
  let closed {A} : chan A := {| queue := []; is_closed := true |} in set_chans closed closed closed closed (started 1).
Definition exited : session :=
  set_events Exited (recordEnd EndReasonLLMClosed None (set_audio Exited (recordEnd EndReasonTransportClosed None hung_up))).
Definition one_left : session :=
  set_run (Closing [LLMClose; OnSessionEnd EndReasonTransportClosed] EndReasonTransportClosed None)
    (emit [TransportClose] (finish exited)).
Definition two_left : session :=
  set_run (Closing [OnSessionEnd EndReasonTransportClosed] EndReasonTransportClosed None) (emit [LLMClose] one_left).
Definition all_left : session :=
  set_run (Closing [] EndReasonTransportClosed None) (emit [OnSessionEnd EndReasonTransportClosed] two_left).
Definition over : session := set_run (Returned EndReasonTransportClosed None) all_left.
Definition hanging_up (k : nat) : session :=
  match k with
  | 0 | 1 => hung_up
  | 2 => set_audio Exited (recordEnd EndReasonTransportClosed None hung_up)
  | 3 => exited
  | 4 => finish exited
  | 5 => one_left
  | 6 => two_left
  | 7 => all_left
  | _ => over
  end%nat.

Lemma hanging_up_execution : execution Passthrough Passthrough hanging_up.
Proof.
  intros k. do 8 (destruct k as [|k]; [shelve|]).
  apply (arrivals _ _ (in_frames over) (in_errs over) (llm_events over) (llm_errs over) over); by exists [].
  Unshelve.
  - by apply audio_errs_closed.
  - by apply audio_closed.
  - by apply event_closed.
  - by apply run_finish.
  - by apply (run_call _ _ TransportClose _ _ _ (finish exited)).
  - by apply (run_call _ _ LLMClose _ _ _ one_left).
  - by apply (run_call _ _ (OnSessionEnd EndReasonTransportClosed) _ _ _ two_left).
  - by apply (run_return _ _ _ _ all_left).
Qed.
Lemma hanging_up_fair : fair hanging_up.
Proof.
  intros g k Hg. exists (8 + k)%nat. split; [lia|].
  change (hanging_up (8 + k)) with over.
  assert (audio over = Exited ∧ events over = Exited ∧ run over = Returned EndReasonTransportClosed None) as (Ea & Ee & Er)
    by by vm_compute.
  destruct g; simpl in *; rewrite ?Ea, ?Ee, ?Er; [congruence..|]. intros E. by rewrite <-E in Hg.
Qed.
Lemma session_drains_witness : ∃ k r err, run (hanging_up k) = Returned r err.
Proof.
  destruct (session_drains Passthrough Passthrough hanging_up) as [_ H];
    [apply hanging_up_execution|by vm_compute|exact (H hanging_up_fair)].
Defined.

(** A caller speaks one frame and hangs up; the model answers with a turn. *)
Definition hello : Frame := {| Data := [255; 127]; Timestamp := 0 |}.

(** Extends the run [H] by the step [c]. *)
Ltac then_step H c := eapply run_stepped in H; [|by eapply c]; cbn in H.

Lemma one_turn : ∃ s, session_run Passthrough Passthrough 1 s [hello] [EventTurnComplete] ∧
  run s = Returned EndReasonTransportClosed None ∧ turn s = 1.
Proof.
  pose proof (run_started Passthrough Passthrough 1) as H.
  eapply run_stepped in H; [|apply (arrivals _ _ {| queue := [hello]; is_closed := true |}
    {| queue := []; is_closed := true |} {| queue := [EventTurnComplete]; is_closed := true |}
    {| queue := []; is_closed := true |}); by eexists]. cbn in H.
  eapply run_stepped in H; [|by eapply (audio_frame _ _ hello [] None)]; cbn in H.
  eapply run_stepped in H; [|eapply (event_dispatch _ _ EventTurnComplete [] silent); [done|done|vm_compute; reflexivity]]; cbn in H.
  then_step H event_call. then_step H audio_call. then_step H event_call.
  then_step H audio_next. then_step H audio_closed. then_step H event_next. then_step H event_closed.
  eapply run_stepped in H; [|by eapply run_finish]; vm_compute in H. then_step H run_call. then_step H run_call. then_step H run_call. then_step H run_return.
  eexists. split; [exact H|done].
Qed.

