(* ===== verification/Ai.v ===== *)
(** * Packages ai/conversation, ai/llm and ai/orchestrator

    The conversation cache of src/ai/conversation/cache.go over a key-value
    store and a serialisation given as an interface ([KV], what it uses of the
    Redis client and of encoding/json), the provider registry of
    src/ai/llm/registry.go, and the tool-calling loop of
    src/ai/orchestrator/orchestrator.go against any model and dispatcher. *)

From S2P Require Import Prelude GoString GoErrors.
From stdpp Require Import base list gmap strings.
From Stdlib Require Import ZArith Lia.
Open Scope Z_scope.

(** ** ai/conversation *)

Module Conversation.
(** The values of [map[string]any] stay abstract: the code stores and forwards
    them. *)
Record FunctionCall {any : Type} := { FnName : string; FnArgs : gmap string any; FnID : string }.
Arguments FunctionCall : clear implicits.
Record Message {any : Type} := {
  Role : string;
  Channel : string;
  Content : string;
  Fn : option (FunctionCall any);
  DetectedIntent : string;
  Timestamp : Time
}.
Arguments Message : clear implicits.

Definition ConversationTTL : Duration := Hour.
Definition ConversationMaxItems : nat := 20.

Definition KeyForUser (partnerID userID : string) : string :=
  "ai:conversation:" +:+ partnerID +:+ ":" +:+ userID.

(** What the cache uses of the Redis client and of encoding/json: GET (None is
    redis.Nil), SET with an expiry, DEL, Marshal and Unmarshal; each may fail.
    The laws are the documented ones: a value set is read back until it
    expires, a set or a delete leaves the other keys alone, a deleted key is
    gone, and a conversation of JSON-representable messages (valid UTF-8 in the
    strings, JSON values as arguments) survives encoding. *)
Class KV (any : Type) := {
  store : Type;
  representable : Message any → Prop;
  kv_get : string → Time → store → result error (option string);
  kv_set : string → string → Duration → Time → store → result error store;
  kv_del : string → store → result error store;
  marshal : list (Message any) → result error string;
  unmarshal : string → result error (list (Message any));
  kv_get_set k v ttl t t' s s' :
    kv_set k v ttl t s = Ok s' → t ≤ t' < t + ttl → kv_get k t' s' = Ok (Some v);
  kv_get_set_ne k k' v ttl t t' s s' :
    kv_set k v ttl t s = Ok s' → k' ≠ k → kv_get k' t' s' = kv_get k' t' s;
  kv_get_del k t s s' : kv_del k s = Ok s' → kv_get k t s' = Ok None;
  unmarshal_marshal ms d :
    Forall representable ms → marshal ms = Ok d → unmarshal d = Ok ms
}.

Section cache.
Context {any : Type} `{KV any}.

Definition Get (key : string) (now : Time) (s : store) : result error (list (Message any)) :=
  match kv_get key now s with
  | Err err => Err (EWrap "get conversation: " "" err)
  | Ok None => Ok []
  | Ok (Some data) =>
      match unmarshal data with
      | Err err => Err (EWrap "unmarshal conversation: " "" err)
      | Ok msgs => Ok msgs
      end
  end.

Definition stamp (now : Time) (m : Message any) : Message any :=
  if IsZeroTime (Timestamp m)
  then {| Role := Role m; Channel := Channel m; Content := Content m; Fn := Fn m;
          DetectedIntent := DetectedIntent m; Timestamp := now |}
  else m.

Definition trim (msgs : list (Message any)) : list (Message any) :=
  if (ConversationMaxItems <? length msgs)%nat
  then drop (length msgs - ConversationMaxItems) msgs else msgs.

Definition Append (key : string) (msg : Message any) (now : Time) (s : store) : result error store :=
  match Get key now s with
  | Err err => Err err
  | Ok msgs =>
      let msgs := trim (msgs ++ [stamp now msg]) in
      match marshal msgs with
      | Err err => Err (EWrap "marshal conversation: " "" err)
      | Ok data =>
          match kv_set key data ConversationTTL now s with
          | Err err => Err (EWrap "save conversation: " "" err)
          | Ok s => Ok s
          end
      end
  end.

Definition Recent (key : string) (n : Z) (now : Time) (s : store) : result error (list (Message any)) :=
  match Get key now s with
  | Err err => Err err
  | Ok msgs =>
      if (n <=? 0) || (Z.of_nat (length msgs) <=? n) then Ok msgs
      else Ok (drop (length msgs - Z.to_nat n) msgs)
  end.

Definition Clear (key : string) (s : store) : result error store :=
  match kv_del key s with
  | Err err => Err (EWrap "clear conversation: " "" err)
  | Ok s => Ok s
  end.

(** A chat: messages with the instants they are appended at. *)
Fixpoint append_all (key : string) (ms : list (Message any * Time)) (s : store) : result error store :=
  match ms with
  | [] => Ok s
  | (m, t) :: ms =>
      match Append key m t s with
      | Err e => Err e
      | Ok s => append_all key ms s
      end
  end.

(** The last [n] elements. *)
Definition last_n {A} (n : nat) (l : list A) : list A := drop (length l - n) l.

Lemma trim_last msgs : trim msgs = last_n ConversationMaxItems msgs.
Proof.
  unfold trim, last_n. destruct (Nat.ltb_spec ConversationMaxItems (length msgs)); [done|].
  by replace (length msgs - ConversationMaxItems)%nat with 0%nat by lia.
Qed.

Lemma last_n_app_r {A} n (x y : list A) : (n ≤ length y)%nat → last_n n (x ++ y) = last_n n y.
Proof.
  intros Hn. unfold last_n. rewrite length_app, drop_app_ge by lia. f_equal. lia.
Qed.

Lemma last_n_absorb {A} n (l k : list A) : last_n n (last_n n l ++ k) = last_n n (l ++ k).
Proof.
  destruct (decide (length l ≤ n)%nat) as [Hl|Hl].
  - unfold last_n at 2. by replace (length l - n)%nat with 0%nat by lia.
  - rewrite <-(take_drop (length l - n) l) at 2. rewrite <-app_assoc.
    rewrite (last_n_app_r n (take _ l)); [done|]. rewrite length_app, length_drop. lia.
Qed.

Lemma Append_Get key m t t' s s' msgs :
  Forall representable (msgs ++ [stamp t m]) →
  Get key t s = Ok msgs → Append key m t s = Ok s' → t ≤ t' < t + ConversationTTL →
  Get key t' s' = Ok (last_n ConversationMaxItems (msgs ++ [stamp t m])).
Proof.
  unfold Append. intros Hr ->. rewrite trim_last.
  destruct (marshal _) as [d|] eqn:Em; [|done]. destruct (kv_set _ _ _ _ _) as [s1|] eqn:Es; [|done].
  intros [= <-] Ht. unfold Get. rewrite (kv_get_set _ _ _ _ _ _ _ Es Ht).
  by rewrite (unmarshal_marshal _ _ (Forall_drop _ _ _ Hr) Em).
Qed.

Lemma Append_other key key' m t t' s s' :
  Append key m t s = Ok s' → key' ≠ key → Get key' t' s' = Get key' t' s.
Proof.
  unfold Append. destruct (Get key t s); [|done]. destruct (marshal _); [|done].
  destruct (kv_set _ _ _ _ _) as [s1|] eqn:Es; [|done]. intros [= <-] Hk.
  unfold Get. by rewrite (kv_get_set_ne _ _ _ _ _ _ _ _ Es Hk).
Qed.

Lemma append_all_other key key' ms t' s s' :
  append_all key ms s = Ok s' → key' ≠ key → Get key' t' s' = Get key' t' s.
Proof.
  revert s. induction ms as [|[m t] ms IH]; intros s Ha Hk; cbn [append_all] in Ha; [congruence|].
  destruct (Append key m t s) as [s1|] eqn:Ea; [|done].
  by rewrite (IH s1 Ha Hk), (Append_other _ _ _ _ _ _ _ Ea Hk).
Qed.

(** Each message comes within the lifetime of the conversation. *)
Fixpoint spaced (t : Time) (ms : list (Message any * Time)) : Prop :=
  match ms with
  | [] => True
  | (_, t') :: ms => t ≤ t' < t + ConversationTTL ∧ spaced t' ms
  end.
Fixpoint last_time (t : Time) (ms : list (Message any * Time)) : Time :=
  match ms with [] => t | (_, t') :: ms => last_time t' ms end.

Definition stamped (ms : list (Message any * Time)) : list (Message any) :=
  (λ '(m, t), stamp t m) <$> ms.

Lemma append_all_Get key ms m t s s' msgs t' :
  Forall representable (msgs ++ stamped ((m, t) :: ms)) →
  Get key t s = Ok msgs → append_all key ((m, t) :: ms) s = Ok s' → spaced t ms →
  last_time t ms ≤ t' < last_time t ms + ConversationTTL →
  Get key t' s' = Ok (last_n ConversationMaxItems (msgs ++ stamped ((m, t) :: ms))).
Proof.
  revert m t s msgs. induction ms as [|[m2 t2] ms IH]; intros m t s msgs Hr Hg Ha Hsp Ht;
    cbn [append_all] in Ha; destruct (Append key m t s) as [s1|] eqn:Ea; try done.
  - injection Ha as <-. by eapply Append_Get.
  - destruct Hsp as [Hgap Hsp].
    assert (Forall representable (msgs ++ [stamp t m])) as Hr1.
    { apply Forall_app in Hr as [? Hr]. apply Forall_app; split; [done|].
      by apply Forall_cons_1 in Hr as [? _]; apply Forall_singleton. }
    pose proof (Append_Get _ _ _ t2 _ _ _ Hr1 Hg Ea Hgap) as Hg2.
    assert (Forall representable
      (last_n ConversationMaxItems (msgs ++ [stamp t m]) ++ stamped ((m2, t2) :: ms))) as Hr2.
    { apply Forall_app; split; [by apply Forall_drop|].
      apply Forall_app in Hr as [_ Hr]. by apply Forall_cons_1 in Hr as [_ ?]. }
    rewrite (IH m2 t2 s1 _ Hr2 Hg2 Ha Hsp Ht). f_equal.
    rewrite last_n_absorb, <-app_assoc. done.
Qed.

Lemma Recent_last key n t s msgs :
  Get key t s = Ok msgs → 0 < n → Recent key n t s = Ok (last_n (Z.to_nat n) msgs).
Proof.
  unfold Recent, last_n. intros -> Hn. rewrite (proj2 (Z.leb_gt n 0)) by lia. simpl.
  case_match; [|done]. by replace (length msgs - Z.to_nat n)%nat with 0%nat by lia.
Qed.

Lemma last_n_last_n {A} a b (l : list A) : last_n a (last_n b l) = last_n (a `min` b) l.
Proof.
  unfold last_n. rewrite drop_drop, length_drop. f_equal. lia.
Qed.
End cache.

(** the conversation is a sliding window: appending messages to a
    conversation that read as [msgs], each within an hour of the previous one,
    leaves exactly the last twenty of all messages in order, each with the
    instant of its append where it carried no timestamp; Recent returns the
    last [n] of those (never more than twenty), and the conversations under
    other keys are untouched. *)
Theorem conversation_window {any : Type} `{KV any} key ms m t s s' msgs t' n :
  Forall representable (msgs ++ stamped ((m, t) :: ms)) →
  Get key t s = Ok msgs → append_all key ((m, t) :: ms) s = Ok s' → spaced t ms →
  last_time t ms ≤ t' < last_time t ms + ConversationTTL → 0 < n →
  Get key t' s' = Ok (last_n ConversationMaxItems (msgs ++ stamped ((m, t) :: ms))) ∧
  Recent key n t' s' =
    Ok (last_n (Z.to_nat n `min` ConversationMaxItems) (msgs ++ stamped ((m, t) :: ms))) ∧
  (∀ key', key' ≠ key → Get key' t' s' = Get key' t' s).
Proof.
  intros Hr Hg Ha Hsp Ht Hn. pose proof (append_all_Get _ _ _ _ _ _ _ _ Hr Hg Ha Hsp Ht) as HG.
  split_and!; [done| |intros; by eapply append_all_other].
  by rewrite (Recent_last _ _ _ _ _ HG Hn), last_n_last_n.
Qed.

(** ** An implementation of the interface *)

#[global] Instance FunctionCall_eq_dec : EqDecision (FunctionCall string).
Proof. solve_decision. Defined.
#[global] Instance Message_eq_dec : EqDecision (Message string).
Proof. solve_decision. Defined.
#[global] Instance FunctionCall_countable : Countable (FunctionCall string).
Proof.
  apply (inj_countable' (λ f : FunctionCall string, (FnName f, map_to_list (FnArgs f), FnID f))
    (λ '(n, a, i), {| FnName := n; FnArgs := list_to_map a; FnID := i |})).
  intros [n a i]. simpl. by rewrite list_to_map_to_list.
Defined.
#[global] Instance Message_countable : Countable (Message string).
Proof.
  apply (inj_countable'
    (λ m : Message string, (Role m, Channel m, Content m, Fn m, DetectedIntent m, Timestamp m))
    (λ '(r, c, t, f, d, s), {| Role := r; Channel := c; Content := t; Fn := f; DetectedIntent := d;
                              Timestamp := s |})).
  by intros [].
Defined.

(** An in-memory store of values with their expiry, and numbers as encodings. *)
Abbreviation mem := (gmap string (string * Time)).
Definition mem_get (k : string) (t : Time) (s : mem) : result error (option string) :=
  Ok (match s !! k with Some (v, e) => if t <? e then Some v else None | None => None end).
Definition mem_set (k v : string) (ttl : Duration) (t : Time) (s : mem) : result error mem :=
  Ok (<[k := (v, t + ttl)]> s).
Definition mem_del (k : string) (s : mem) : result error mem := Ok (delete k s).
Definition mem_marshal (ms : list (Message string)) : result error string :=
  Ok (fmt_u (Z.pos (encode ms))).
Definition mem_unmarshal (d : string) : result error (list (Message string)) :=
  match decode (Z.to_pos (read_u d)) with Some ms => Ok ms | None => Err (EText "invalid") end.

Lemma mem_get_set k v ttl t t' (s s' : mem) :
  mem_set k v ttl t s = Ok s' → t ≤ t' < t + ttl → mem_get k t' s' = Ok (Some v).
Proof.
  intros [= <-] Ht. unfold mem_get. rewrite lookup_insert_eq.
  by rewrite (proj2 (Z.ltb_lt t' (t + ttl))) by lia.
Qed.
Lemma mem_get_set_ne k k' v ttl t t' (s s' : mem) :
  mem_set k v ttl t s = Ok s' → k' ≠ k → mem_get k' t' s' = mem_get k' t' s.
Proof. intros [= <-] Hk. unfold mem_get. by rewrite lookup_insert_ne. Qed.
Lemma mem_get_del k t (s s' : mem) : mem_del k s = Ok s' → mem_get k t s' = Ok None.
Proof. intros [= <-]. unfold mem_get. by rewrite lookup_delete_eq. Qed.
Lemma mem_unmarshal_marshal ms d :
  Forall (λ _, True) ms → mem_marshal ms = Ok d → mem_unmarshal d = Ok ms.
Proof.
  intros _ [= <-]. unfold mem_unmarshal. rewrite read_u_fmt_u by lia. simpl. by rewrite decode_encode.
Qed.
#[global] Instance memory_kv : KV string := {|
  kv_get_set := mem_get_set; kv_get_set_ne := mem_get_set_ne; kv_get_del := mem_get_del;
  unmarshal_marshal := mem_unmarshal_marshal
|}.

Definition hello : Message string :=
  {| Role := "user"; Channel := "chat"; Content := "hello"; Fn := None; DetectedIntent := ""; Timestamp := 1 |}.

(** The in-memory store never fails. *)
Lemma mem_Append_ok key m t (s : mem) : (∃ msgs, Get key t s = Ok msgs) → ∃ s', Append key m t s = Ok s'.
Proof. intros [msgs Hm]. unfold Append. rewrite Hm. eauto. Qed.

Lemma mem_Get_empty key t : Get key t (∅ : mem) = Ok [].
Proof. unfold Get. cbn [kv_get memory_kv]. unfold mem_get. by rewrite lookup_empty. Qed.

Lemma conversation_window_witness :
  ∃ s', append_all (KeyForUser "p" "u") [(hello, 0); (hello, Second)] (∅ : mem) = Ok s' ∧
    Get (KeyForUser "p" "u") (2 * Second) s' = Ok [hello; hello] ∧
    Recent (KeyForUser "p" "u") 1 (2 * Second) s' = Ok [hello].
Proof.
  assert (Forall representable ([] ++ stamped [(hello, 0); (hello, Second)])) as Hr by (by repeat constructor).
  assert (Get (KeyForUser "p" "u") 0 (∅ : mem) = Ok []) as H0 by apply mem_Get_empty.
  assert (spaced 0 [(hello, Second)]) as Hsp by (split; [by vm_compute|exact I]).
  assert (last_time 0 [(hello, Second)] ≤ 2 * Second < last_time 0 [(hello, Second)] + ConversationTTL) as Ht
    by (by vm_compute).
  assert (0 < 1) as H1 by reflexivity.
  destruct (mem_Append_ok (KeyForUser "p" "u") hello 0 ∅) as [s1 E1]; [eexists; apply mem_Get_empty|].
  assert (Get (KeyForUser "p" "u") Second s1 = Ok [hello]) as G1
    by (apply (Append_Get (KeyForUser "p" "u") hello 0 Second ∅ s1 []); 
        [by repeat constructor|apply mem_Get_empty|exact E1|exact (proj1 Hsp)]).
  destruct (mem_Append_ok (KeyForUser "p" "u") hello Second s1) as [s' E2]; [eexists; exact G1|].
  assert (append_all (KeyForUser "p" "u") [(hello, 0); (hello, Second)] (∅ : mem) = Ok s') as E
    by (cbn [append_all]; by rewrite E1, E2).
  destruct (conversation_window (KeyForUser "p" "u") [(hello, Second)] hello 0 ∅ s' [] (2 * Second) 1
    Hr H0 E Hsp Ht H1) as (G & R & _).
  exists s'. split; [exact E|]. split; [exact G|exact R].
Defined.

(** Identifiers that contain a colon share a key. *)
Example KeyForUser_collides : KeyForUser "a:b" "c" = KeyForUser "a" "b:c".
Proof. reflexivity. Qed.
End Conversation.

(** ** ai/llm *)

Module Llm.
Section llm.
(** [any] and the tool declarations are forwarded untouched; [W] is the state
    of everything outside the program. *)
Context {any ToolDecl W : Type}.

Record ToolCall := {
  ID : string;
  Name : string;
  Args : gmap string any;
  ThoughtSignature : string
}.
Record ChatTurn := {
  Role : string;
  Text : string;
  ToolName : string;
  ToolArgs : gmap string any;
  ToolResult : option any;
  ToolSig : string
}.
Record TokenUsage := { PromptTokens : Z; CompletionTokens : Z; TotalTokens : Z }.
Record ChatResponse := {
  RespText : string;
  ToolCalls : list ToolCall;
  FinishReason : string;
  Usage : TokenUsage
}.
Record ChatRequest := {
  SystemPrompt : string;
  History : list ChatTurn;
  UserText : string;
  Tools : list ToolDecl;
  LocaleHint : string
}.

Definition ErrNoProviders : error := ENew "llm: no providers registered".

(** A provider's Chat, a call into the world. *)
Record Provider := {
  ProviderName : string;
  ProviderChat : ChatRequest → W → result error ChatResponse * W
}.

Definition Registry : Type := list Provider.
Definition NewRegistry : Registry := [].
Definition Register (r : Registry) (p : Provider) : Registry := r ++ [p].
Definition Primary (r : Registry) : result error Provider :=
  match r with [] => Err ErrNoProviders | p :: _ => Ok p end.
Definition Chat (r : Registry) (req : ChatRequest) (w : W) : result error ChatResponse * W :=
  match Primary r with
  | Err err => (Err err, w)
  | Ok p => ProviderChat p req w
  end.
End llm.
Arguments ToolCall : clear implicits.
Arguments ChatTurn : clear implicits.
Arguments ChatResponse : clear implicits.
Arguments ChatRequest : clear implicits.
Arguments Provider : clear implicits.
Arguments Registry : clear implicits.
End Llm.

(** ** ai/orchestrator *)

Module Orchestrator.
Import Llm.
Section orchestrator.
Context {any ToolDecl W : Type}.

(** A dispatched call returns [(any, error)]; None is nil. *)
Definition ToolDispatcher : Type := ToolCall any → W → (option any * option error) * W.

Record Config := {
  CfgSystemPrompt : string;
  CfgTools : list ToolDecl;
  CfgLocaleHint : string;
  CfgHistory : list (Conversation.Message any);
  MaxToolHops : Z;
  Dispatcher : option ToolDispatcher
}.
Record ToolExecution := { Call : ToolCall any; Result_ : option any; Error : option error }.
Record Result := {
  AssistantText : string;
  ToolHistory : list ToolExecution;
  ResFinishReason : string
}.

Definition turn_of_message (m : Conversation.Message any) : ChatTurn any :=
  let role := if String.eqb (Conversation.Role m) "assistant" || String.eqb (Conversation.Role m) "model"
              then "assistant" else "user" in
  {| Role := role; Text := Conversation.Content m; ToolName := ""; ToolArgs := ∅; ToolResult := None;
     ToolSig := "" |}.
Definition messagesToTurns (msgs : list (Conversation.Message any)) : list (ChatTurn any) :=
  turn_of_message <$> msgs.

Definition user_turn (userText : string) : ChatTurn any :=
  {| Role := "user"; Text := userText; ToolName := ""; ToolArgs := ∅; ToolResult := None; ToolSig := "" |}.
Definition tool_turn (call : ToolCall any) (result : option any) : ChatTurn any :=
  {| Role := "tool"; Text := ""; ToolName := Name call; ToolArgs := Args call; ToolResult := result;
     ToolSig := ThoughtSignature call |}.

(** The loop over the calls of one response. *)
Fixpoint run_calls (d : option ToolDispatcher) (calls : list (ToolCall any))
    (turns : list (ChatTurn any)) (th : list ToolExecution) (w : W)
    : result error (list (ChatTurn any) * list ToolExecution) * W :=
  match calls with
  | [] => (Ok (turns, th), w)
  | call :: calls =>
      match d with
      | None =>
          (Err (EText ("orchestrator: model called " +:+ quote (Name call)
                       +:+ " but no dispatcher provided")), w)
      | Some f =>
          let '((result, toolErr), w) := f call w in
          run_calls d calls (turns ++ [tool_turn call result])
            (th ++ [{| Call := call; Result_ := result; Error := toolErr |}]) w
      end
  end.

Definition request (cfg : Config) (turns : list (ChatTurn any)) : ChatRequest any ToolDecl :=
  {| SystemPrompt := CfgSystemPrompt cfg; History := turns; UserText := ""; Tools := CfgTools cfg;
     LocaleHint := CfgLocaleHint cfg |}.

(** [hops] iterations of the loop are left. *)
Fixpoint hop_loop (hops : nat) (registry : Registry any ToolDecl W) (cfg : Config) (limit : Z)
    (turns : list (ChatTurn any)) (th : list ToolExecution) (w : W) : result error Result * W :=
  match hops with
  | O => (Err (EText ("orchestrator: tool hop limit (" +:+ fmt_d limit
                      +:+ ") reached without a final text reply")), w)
  | S hops =>
      match Llm.Chat registry (request cfg turns) w with
      | (Err err, w) => (Err (EWrap "orchestrator: llm chat: " "" err), w)
      | (Ok resp, w) =>
          match ToolCalls resp with
          | [] => (Ok {| AssistantText := RespText resp; ToolHistory := th;
                         ResFinishReason := FinishReason resp |}, w)
          | calls =>
              match run_calls (Dispatcher cfg) calls turns th w with
              | (Err err, w) => (Err err, w)
              | (Ok (turns, th), w) => hop_loop hops registry cfg limit turns th w
              end
          end
      end
  end.

Definition hop_limit (cfg : Config) : Z := if MaxToolHops cfg <=? 0 then 5 else MaxToolHops cfg.

Definition Process (registry : Registry any ToolDecl W) (cfg : Config) (userText : string) (w : W)
    : result error Result * W :=
  hop_loop (Z.to_nat (hop_limit cfg)) registry cfg (hop_limit cfg)
    (messagesToTurns (CfgHistory cfg) ++ [user_turn userText]) [] w.
End orchestrator.
Arguments ToolDispatcher : clear implicits.
Arguments Config : clear implicits.
Arguments ToolExecution : clear implicits.
Arguments Result : clear implicits.

(** *** What the loop did: a provider and a dispatcher that keep a log *)

Section log.
Context {any ToolDecl W : Type}.

Inductive event :=
| Asked (req : ChatRequest any ToolDecl) (resp : result error (ChatResponse any))
| Ran (x : ToolExecution any).
Abbreviation logged := (W * list event)%type.

Definition log_chat (p : Provider any ToolDecl W) : Provider any ToolDecl logged := {|
  ProviderName := ProviderName p;
  ProviderChat req '(w, l) := let '(r, w) := ProviderChat p req w in (r, (w, l ++ [Asked req r]))
|}.
Definition log_dispatch (f : ToolDispatcher any W) : ToolDispatcher any logged :=
  λ call '(w, l), let '((r, e), w) := f call w in
    ((r, e), (w, l ++ [Ran {| Call := call; Result_ := r; Error := e |}])).
Definition log_config (cfg : Config any ToolDecl W) : Config any ToolDecl logged := {|
  CfgSystemPrompt := CfgSystemPrompt cfg; CfgTools := CfgTools cfg; CfgLocaleHint := CfgLocaleHint cfg;
  CfgHistory := CfgHistory cfg; MaxToolHops := MaxToolHops cfg;
  Dispatcher := log_dispatch <$> Dispatcher cfg
|}.
(** A run with the log, from an empty one. *)
Definition logged_Process (r : Registry any ToolDecl W) (cfg : Config any ToolDecl W) (userText : string)
    (w : W) : result error (Result any) * logged :=
  Process (log_chat <$> r) (log_config cfg) userText (w, []).

Definition executions (l : list event) : list (ToolExecution any) :=
  omap (λ e, match e with Ran x => Some x | _ => None end) l.
Definition asks (l : list event) : list (ChatRequest any ToolDecl * result error (ChatResponse any)) :=
  omap (λ e, match e with Asked q r => Some (q, r) | _ => None end) l.
Definition calls_of (r : result error (ChatResponse any)) : list (ToolCall any) :=
  match r with Ok r => ToolCalls r | Err _ => [] end.
(** The calls the model asked for. *)
Definition requested (l : list event) : list (ToolCall any) := asks l ≫= λ a, calls_of (a.2).

(** The turn a tool execution adds to the history; its error is not part of it. *)
Definition turn_of (x : ToolExecution any) : ChatTurn any := tool_turn (Call x) (Result_ x).

Section run.
Variables (p : Provider any ToolDecl W) (r : Registry any ToolDecl W) (cfg : Config any ToolDecl W).
Variable base : list (ChatTurn any).

(** Every request carries the base turns and the turns of all executions
    before it, in order. *)
Definition explained (l : list event) : Prop :=
  ∀ l1 q a l2, l = l1 ++ Asked q a :: l2 → q = request cfg (base ++ (turn_of <$> executions l1)).

Lemma executions_app l k : executions (l ++ k) = executions l ++ executions k.
Proof. apply omap_app. Qed.
Lemma asks_app l k : asks (l ++ k) = asks l ++ asks k.
Proof. apply omap_app. Qed.
Lemma requested_app l k : requested (l ++ k) = requested l ++ requested k.
Proof. unfold requested. by rewrite asks_app, bind_app. Qed.
Lemma executions_Ran xs : executions (Ran <$> xs) = xs.
Proof. induction xs as [|x xs IH]; [done|]. exact (f_equal (cons x) IH). Qed.
Lemma asks_Ran xs : asks (Ran <$> xs) = [].
Proof. by induction xs as [|x xs IH]. Qed.

Lemma explained_Asked l a :
  explained l → explained (l ++ [Asked (request cfg (base ++ (turn_of <$> executions l))) a]).
Proof.
  intros Hl l1 q b l2 E. destruct l2 as [|y l2 _] using rev_ind.
  - apply app_inj_tail in E as [<- [= <- _]]. done.
  - rewrite app_comm_cons, app_assoc in E. apply app_inj_tail in E as [-> _]. by eapply Hl.
Qed.
Lemma explained_Ran l xs : explained l → explained (l ++ (Ran <$> xs)).
Proof.
  intros Hl. induction xs as [|x xs IH] using rev_ind; [by rewrite app_nil_r|].
  rewrite fmap_app, app_assoc. intros l1 q a l2 E. destruct l2 as [|y l2 _] using rev_ind.
  - apply app_inj_tail in E as [_ [=]].
  - rewrite app_comm_cons, app_assoc in E. apply app_inj_tail in E as [E _]. by eapply IH.
Qed.

(** The calls of one response: run in order, each logged, each with its turn. *)
Lemma run_calls_logged f calls turns th w l :
  ∃ xs w', run_calls (Some (log_dispatch f)) calls turns th (w, l) =
    (Ok (turns ++ (turn_of <$> xs), th ++ xs), (w', l ++ (Ran <$> xs))) ∧ Call <$> xs = calls.
Proof.
  revert turns th w l. induction calls as [|c calls IH]; intros turns th w l.
  - exists [], w. simpl. by rewrite !app_nil_r.
  - cbn [run_calls]. unfold log_dispatch at 1. destruct (f c w) as [[res e] w1].
    destruct (IH (turns ++ [tool_turn c res])
      (th ++ [{| Call := c; Result_ := res; Error := e |}]) w1
      (l ++ [Ran {| Call := c; Result_ := res; Error := e |}])) as (xs & w' & E & Hc).
    rewrite E. exists ({| Call := c; Result_ := res; Error := e |} :: xs), w'.
    rewrite <-!app_assoc. split; [done|]. by rewrite fmap_cons, Hc.
Qed.

(** What holds of the log between two hops. *)
Record between (l : list event) (turns : list (ChatTurn any)) (th : list (ToolExecution any)) : Prop := {
  bt_explained : explained l;
  bt_turns : turns = base ++ (turn_of <$> executions l);
  bt_history : th = executions l;
  bt_requested : Call <$> executions l = requested l;
  bt_calls : Forall (λ a, calls_of (a.2) ≠ []) (asks l)
}.

(** A hop that asked, and ran the calls of the reply, keeps it. *)
Lemma between_hop l xs resp :
  between l (base ++ (turn_of <$> executions l)) (executions l) → ToolCalls resp ≠ [] →
  Call <$> xs = ToolCalls resp →
  between ((l ++ [Asked (request cfg (base ++ (turn_of <$> executions l))) (Ok resp)]) ++ (Ran <$> xs))
    ((base ++ (turn_of <$> executions l)) ++ (turn_of <$> xs)) (executions l ++ xs).
Proof.
  intros [Hex _ _ Hreq Hcalls] Hne Hc. set (q := request _ _).
  assert (executions ((l ++ [Asked q (Ok resp)]) ++ (Ran <$> xs)) = executions l ++ xs) as Hxs
    by (rewrite !executions_app, executions_Ran; cbn; by rewrite app_nil_r).
  assert (asks ((l ++ [Asked q (Ok resp)]) ++ (Ran <$> xs)) = asks l ++ [(q, Ok resp)]) as Has
    by (rewrite !asks_app, asks_Ran, app_nil_r; done).
  split; rewrite ?Hxs; [|by rewrite fmap_app, app_assoc|done| |].
  - by apply explained_Ran, explained_Asked.
  - unfold requested in *. rewrite Has, bind_app, fmap_app, Hreq, Hc. cbn. by rewrite app_nil_r.
  - rewrite Has. apply Forall_app; split; [done|]. by apply Forall_singleton.
Qed.

(** What a finished run looks like. *)
Definition finished (limit : Z) (res : result error (Result any)) (l : list event) : Prop :=
  explained l ∧ Z.of_nat (length (asks l)) ≤ limit ∧
  (Dispatcher cfg ≠ None → Call <$> executions l = requested l) ∧
  match res with
  | Ok r =>
      ∃ q resp, last l = Some (Asked q (Ok resp)) ∧ ToolCalls resp = [] ∧
        AssistantText r = RespText resp ∧ ResFinishReason r = FinishReason resp ∧
        ToolHistory r = executions l
  | Err e =>
      (∃ q e0, last l = Some (Asked q (Err e0)) ∧ e = EWrap "orchestrator: llm chat: " "" e0) ∨
      (Z.of_nat (length (asks l)) = limit ∧ Forall (λ a, calls_of (a.2) ≠ []) (asks l)) ∨
      (Dispatcher cfg = None ∧ requested l ≠ [])
  end.

Lemma hop_loop_finished hops limit turns th w l :
  between l turns th → Z.of_nat (length (asks l)) + Z.of_nat hops = limit →
  let '(res, (_, l')) := hop_loop hops (log_chat <$> p :: r) (log_config cfg) limit turns th (w, l) in
  finished limit res l'.
Proof.
  revert turns th w l. induction hops as [|hops IH]; intros turns th w l Hb Hlim.
  { cbn [hop_loop]. destruct Hb. split_and!; [done|lia|done|]. right; left. split; [lia|done]. }
  pose proof Hb as [Hex -> -> Hreq Hcalls]. cbn [hop_loop fmap list_fmap Llm.Chat Primary log_chat ProviderChat].
  set (q := request (log_config cfg) _). pose proof (explained_Asked l) as Hask.
  destruct (ProviderChat p q w) as [[resp|e] w1].
  2:{ split_and!; [by apply Hask| | |left; exists q, e; by rewrite last_snoc].
      - rewrite asks_app, length_app. cbn. lia.
      - intros _. rewrite executions_app, requested_app. cbn. by rewrite !app_nil_r. }
  assert (requested (l ++ [Asked q (Ok resp)]) = requested l ++ ToolCalls resp) as Hrq
    by (rewrite requested_app; cbn; by rewrite app_nil_r).
  assert (executions (l ++ [Asked q (Ok resp)]) = executions l) as Hxs
    by (rewrite executions_app; cbn; by rewrite app_nil_r).
  assert (length (asks (l ++ [Asked q (Ok resp)])) = S (length (asks l))) as Hlen
    by (rewrite asks_app, length_app; cbn; lia).
  destruct (ToolCalls resp) as [|c calls] eqn:Ec.
  { split_and!; [by apply Hask|lia|by rewrite Hxs, Hrq, app_nil_r|].
    exists q, resp. rewrite last_snoc, Hxs. done. }
  destruct (Dispatcher cfg) as [f|] eqn:Ed; cbn [Dispatcher log_config]; rewrite Ed; cbn [fmap option_fmap option_map].
  2:{ cbn [run_calls]. split_and!; [by apply Hask|lia|congruence|].
      right; right. split; [done|]. rewrite Hrq. by destruct (requested l). }
  destruct (run_calls_logged f (c :: calls) (base ++ (turn_of <$> executions l)) (executions l) w1
    (l ++ [Asked q (Ok resp)])) as (xs & w2 & E & Hc). rewrite E. rewrite <-Ec in Hc.
  apply IH; [|rewrite asks_app, asks_Ran, app_nil_r; lia].
  by apply between_hop; [|rewrite Ec|].
Qed.

(** Keeping the log changes neither the result nor the world. *)
Lemma run_calls_erase d calls turns th w l :
  let '(a, (w', _)) := run_calls (log_dispatch <$> d) calls turns th (w, l) in
  run_calls d calls turns th w = (a, w').
Proof.
  destruct d as [f|]; [|by destruct calls].
  revert turns th w l. induction calls as [|c calls IH]; intros turns th w l; [done|].
  cbn [run_calls fmap option_fmap option_map]. unfold log_dispatch at 1.
  destruct (f c w) as [[res e] w1]. apply IH.
Qed.

Lemma hop_loop_erase hops limit turns th w l :
  let '(a, (w', _)) := hop_loop hops (log_chat <$> r) (log_config cfg) limit turns th (w, l) in
  hop_loop hops r cfg limit turns th w = (a, w').
Proof.
  revert turns th w l. induction hops as [|hops IH]; intros turns th w l; [done|].
  cbn [hop_loop]. unfold Llm.Chat. destruct r as [|p0 r0]; cbn [fmap list_fmap Primary]; [done|].
  cbn [log_chat ProviderChat]. change (request (log_config cfg) turns) with (request cfg turns).
  destruct (ProviderChat p0 (request cfg turns) w) as [[resp|e] w1]; [|done].
  destruct (ToolCalls resp) as [|c calls]; [done|]. cbn [Dispatcher log_config].
  pose proof (run_calls_erase (Dispatcher cfg) (c :: calls) turns th w1
    (l ++ [Asked (request cfg turns) (Ok resp)])) as He.
  destruct (run_calls (log_dispatch <$> _) _ _ _ _) as [[[turns' th']|e] [w2 l2]]; rewrite He; [|done].
  apply IH.
Qed.
End run.
End log.

(** *** Prompts *)

Record ChannelPrompt := { PromptChannel : string; Hint : string }.
Definition newline : string := of_bytes [10].
Definition BuildSystemPrompt (persona : string) (hint : ChannelPrompt) : string :=
  if String.eqb (Hint hint) "" then persona
  else "[Channel: " +:+ PromptChannel hint +:+ " - " +:+ Hint hint +:+ "]" +:+ newline +:+ newline +:+ persona.

Definition DefaultChannelHints : gmap string ChannelPrompt := list_to_map ((λ p, (PromptChannel p, p)) <$>
  [{| PromptChannel := "twilio:voice";
      Hint := "Speak naturally for a phone call. Short sentences, numbers spelled out, no bullet lists." |};
   {| PromptChannel := "twilio:whatsapp"; Hint := "Reply in short paragraphs. WhatsApp bold uses *asterisks*." |};
   {| PromptChannel := "meta:whatsapp"; Hint := "Reply in short paragraphs. WhatsApp bold uses *asterisks*." |};
   {| PromptChannel := "twilio:sms"; Hint := "Keep replies under 160 characters when possible." |};
   {| PromptChannel := "telegram"; Hint := "Markdown is supported. Use formatting when it improves clarity." |};
   {| PromptChannel := "web"; Hint := "In-website chat can use concise Markdown and slightly longer replies." |};
   {| PromptChannel := "email:sendgrid"; Hint := "Email reply. Use one to three short paragraphs." |};
   {| PromptChannel := "email:ses"; Hint := "Email reply. Use one to three short paragraphs." |}]).
Example DefaultChannelHints_all :
  map_size DefaultChannelHints = 8%nat ∧
  Forall (λ kp : string * ChannelPrompt, PromptChannel kp.2 = kp.1 ∧ Hint kp.2 ≠ "") (map_to_list DefaultChannelHints).
Proof. split; [by vm_compute|]. vm_compute. repeat constructor; discriminate. Qed.

(** A model that asks for one tool and then answers. *)
Definition lookup_call : ToolCall string := {| ID := "1"; Name := "search"; Args := ∅; ThoughtSignature := "s" |}.
Definition stub : Provider string unit nat := {|
  ProviderName := "stub";
  ProviderChat _ n :=
    let usage := {| PromptTokens := 0; CompletionTokens := 0; TotalTokens := 0 |} in
    (Ok (match n with
         | O => {| RespText := ""; ToolCalls := [lookup_call]; FinishReason := "tool_call"; Usage := usage |}
         | _ => {| RespText := "found"; ToolCalls := []; FinishReason := "stop"; Usage := usage |}
         end), S n)
|}.
Definition stub_config (d : option (ToolDispatcher string nat)) : Config string unit nat := {|
  CfgSystemPrompt := ""; CfgTools := []; CfgLocaleHint := ""; CfgHistory := []; MaxToolHops := 0; Dispatcher := d
|}.
Example Process_tool_then_text :
  (Process [stub] (stub_config (Some (λ _ n, ((Some "3 hits", None), n)))) "find" 0%nat).1 =
  Ok {| AssistantText := "found";
        ToolHistory := [{| Call := lookup_call; Result_ := Some "3 hits"; Error := None |}];
        ResFinishReason := "stop" |}.
Proof. reflexivity. Qed.
Example Process_without_dispatcher :
  (Process [stub] (stub_config None) "find" 0%nat).1 =
  Err (EText ("orchestrator: model called " +:+ quote "search" +:+ " but no dispatcher provided")).
Proof. reflexivity. Qed.

(** C9: one pass of the orchestrator, observed through a log of its calls to the
    model and to the tools (which changes nothing): it asks the primary
    provider at most MaxToolHops times (five if not positive) and always ends;
    every request carries the whole history, the user's text and the turns of
    all tools run so far, in order; with a dispatcher exactly the tools the
    model asked for are run, in the order asked; a reply is the text of the
    last answer, one without tool calls, with all executions; and an error is
    the provider's, an exhausted limit with every answer asking for tools, or
    a tool call without a dispatcher. *)
Theorem orchestrator_loop {any ToolDecl W : Type} (p : Provider any ToolDecl W) r
    (cfg : Config any ToolDecl W) userText (w : W) :
  let '(res, (w', log)) := logged_Process (Register NewRegistry p ++ r) cfg userText w in
  Process (Register NewRegistry p ++ r) cfg userText w = (res, w') ∧
  finished cfg (messagesToTurns (CfgHistory cfg) ++ [user_turn userText]) (hop_limit cfg) res log.
Proof.
  unfold logged_Process, Process. change (Register NewRegistry p ++ r) with (p :: r).
  change (CfgHistory (log_config cfg)) with (CfgHistory cfg).
  change (hop_limit (log_config cfg)) with (hop_limit cfg).
  set (base := messagesToTurns _ ++ _).
  pose proof (hop_loop_erase (p :: r) cfg (Z.to_nat (hop_limit cfg)) (hop_limit cfg) base [] w []) as He.
  pose proof (hop_loop_finished p r cfg base (Z.to_nat (hop_limit cfg)) (hop_limit cfg) base [] w []) as Hf.
  destruct (hop_loop _ (log_chat <$> (p :: r)) _ _ _ _ _) as [res [w' l']].
  split; [done|]. apply Hf.
  - split; cbn; [|by rewrite app_nil_r|done..|by constructor]. by intros [|??] q a l2 [=].
  - unfold hop_limit. cbn. case_match; lia.
Qed.
End Orchestrator.
