(* ===== verification/GeminiText.v ===== *)
(** * Package ai/llm/geminitext

    The Gemini text adapter of src/ai/llm/geminitext/client.go: the rendering of
    chat turns into Gemini contents, of tool declarations into its schema, and
    of a reply into a chat response.  The HTTP exchange and encoding/json are
    the argument [api] of ChatWithConfig, with every failure they can report.
    As a provider it plugs into the registry and the orchestrator of [Ai]. *)

From S2P Require Import Prelude GoString GoFloat GoErrors Ai.
From stdpp Require Import base list gmap strings.
From Stdlib Require Import ZArith Lia.
Import Llm.
Open Scope Z_scope.
Set Warnings "-register-all".

(** ** Tool schemas (src/ai/llm/llm.go and types.go) *)

Inductive ToolProperty := {
  PType : string;
  PDescription : string;
  PEnum : list string;
  PFormat : string;
  PItems : option ToolProperty
}.
Record ToolSchema := {
  SType : string;
  Properties : gmap string ToolProperty;
  Required : list string
}.
Record ToolDecl := { DName : string; DDescription : string; Parameters : ToolSchema }.

Inductive geminiFunctionProperty := {
  gType : string;
  gDescription : string;
  gEnum : list string;
  gFormat : string;
  gItems : option geminiFunctionProperty
}.
Record geminiFunctionParams := {
  gpType : string;
  gpProperties : gmap string geminiFunctionProperty;
  gpRequired : list string
}.
Record geminiFunction := {
  gfName : string;
  gfDescription : string;
  gfParameters : geminiFunctionParams
}.

Section gemini.
Context {any : Type}.

Record geminiFunctionCall := { callName : string; callArgs : gmap string any }.
Record geminiFunctionResponse := { respName : string; Response : gmap string (option any) }.
Record geminiPart := {
  partText : string;
  FunctionCall : option geminiFunctionCall;
  FunctionResponse : option geminiFunctionResponse;
  partSignature : string
}.
Record geminiContent := { cRole : string; Parts : list geminiPart }.

(** ** Rendering turns *)

Definition textPart (s : string) : geminiPart :=
  {| partText := s; FunctionCall := None; FunctionResponse := None; partSignature := "" |}.
Definition callPart (t : ChatTurn any) : geminiPart :=
  {| partText := ""; FunctionCall := Some {| callName := ToolName t; callArgs := ToolArgs t |};
     FunctionResponse := None; partSignature := ToolSig t |}.
Definition respPart (t : ChatTurn any) : geminiPart :=
  {| partText := ""; FunctionCall := None;
     FunctionResponse := Some {| respName := ToolName t; Response := {[ "result" := ToolResult t ]} |};
     partSignature := "" |}.

Definition is_tool (t : ChatTurn any) : bool := String.eqb (Role t) "tool".

Definition turnContents (turn : ChatTurn any) : list geminiContent :=
  if is_tool turn
  then [{| cRole := "model"; Parts := [callPart turn] |}; {| cRole := "user"; Parts := [respPart turn] |}]
  else
    let role := if String.eqb (Role turn) "assistant" then "model" else "user" in
    [{| cRole := role; Parts := [textPart (Text turn)] |}].

(** The inner scan: the maximal run of tool turns at the front, and the rest. *)
Fixpoint tool_run (h : list (ChatTurn any)) : list (ChatTurn any) * list (ChatTurn any) :=
  match h with
  | [] => ([], [])
  | t :: h' => if is_tool t then let '(run, rest) := tool_run h' in (t :: run, rest) else ([], h)
  end.

(** The outer loop; each iteration consumes a turn or a run of them, so the
    number of turns is enough fuel. *)
Fixpoint contents_loop (fuel : nat) (h : list (ChatTurn any)) : list geminiContent :=
  match fuel, h with
  | S fuel, t :: h' =>
      if is_tool t then
        let '(run, rest) := tool_run h in
        let callParts := foldl (λ ps t, ps ++ [callPart t]) [] run in
        let respParts := foldl (λ ps t, ps ++ [respPart t]) [] run in
        {| cRole := "model"; Parts := callParts |} :: {| cRole := "user"; Parts := respParts |}
          :: contents_loop fuel rest
      else turnContents t ++ contents_loop fuel h'
  | _, _ => []
  end.

Definition chatContents (req : ChatRequest any ToolDecl) : list geminiContent :=
  let out := contents_loop (length (History req)) (History req) in
  if String.eqb (UserText req) "" then out
  else out ++ [{| cRole := "user"; Parts := [textPart (UserText req)] |}].

(** ** Rendering tool declarations *)

Fixpoint toGeminiProp (p : ToolProperty) : geminiFunctionProperty := {|
  gType := PType p; gDescription := PDescription p; gEnum := PEnum p; gFormat := PFormat p;
  gItems := match PItems p with Some items => Some (toGeminiProp items) | None => None end
|}.

Definition toolDecl (t : ToolDecl) : geminiFunction := {|
  gfName := DName t; gfDescription := DDescription t;
  gfParameters := {|
    gpType := SType (Parameters t);
    gpProperties := toGeminiProp <$> Properties (Parameters t);
    gpRequired := Required (Parameters t) |}
|}.
Definition toolDecls (tools : list ToolDecl) : list geminiFunction := toolDecl <$> tools.

(** ** Reading a reply *)

Record geminiCandidate := { Content : geminiContent; candFinish : string; Index : Z }.
Record usageMetadata := { PromptTokenCount : Z; CandidatesTokenCount : Z; TotalTokenCount : Z }.
Record geminiResponse := { Candidates : list geminiCandidate; UsageMetadata : usageMetadata }.

Definition no_usage : TokenUsage := {| PromptTokens := 0; CompletionTokens := 0; TotalTokens := 0 |}.

(** The loop over the parts of the candidate, on the text and the calls so far. *)
Fixpoint parts_loop (ps : list geminiPart) (text : string) (calls : list (ToolCall any))
    : string * list (ToolCall any) :=
  match ps with
  | [] => (text, calls)
  | part :: ps =>
      let text := if String.eqb (partText part) "" then text else text +:+ partText part in
      let calls :=
        match FunctionCall part with
        | Some f => calls ++ [{| ID := callName f; Name := callName f; Args := callArgs f;
                                 ThoughtSignature := partSignature part |}]
        | None => calls
        end in
      parts_loop ps text calls
  end.

Definition chatResponse (resp : geminiResponse) : ChatResponse any :=
  match Candidates resp with
  | [] => {| RespText := ""; ToolCalls := []; FinishReason := "empty"; Usage := no_usage |}
  | cand :: _ =>
      let '(text, calls) := parts_loop (Parts (Content cand)) "" [] in
      {| RespText := text; ToolCalls := calls; FinishReason := candFinish cand;
         Usage := {| PromptTokens := PromptTokenCount (UsageMetadata resp);
                     CompletionTokens := CandidatesTokenCount (UsageMetadata resp);
                     TotalTokens := TotalTokenCount (UsageMetadata resp) |} |}
  end.

(** ** The client *)

Record generationConfig := { Temperature : float64; TopK : Z; TopP : float64; MaxOutputTokens : Z }.
Record geminiRequest := {
  Contents : list geminiContent;
  gTools : list (list geminiFunction);      (* one geminiTool each *)
  ToolConfigMode : option string;
  GenerationConfig : option generationConfig;
  SystemInstruction : option geminiContent
}.

Record Client := { cname : string; apiKey : string; apiURL : string; model : string }.

Definition defaultAPIURL : string := "https://generativelanguage.googleapis.com/v1beta/models".

(** [New] with the options that set the URL; an empty one is ignored.  The HTTP
    client an option may set is part of [api]. *)
Definition New (name key model : string) (urls : list string) : Client :=
  let name := if String.eqb name "" then "gemini" else name in
  let model := if String.eqb model "" then "gemini-2.5-flash-lite" else model in
  {| cname := name; apiKey := key; model := model;
     apiURL := foldl (λ u o, if String.eqb o "" then u else o) defaultAPIURL urls |}.

Definition Name_ (c : option Client) : string :=
  match c with None => "gemini:<nil>" | Some c => cname c +:+ ":" +:+ model c end.
Definition IsAvailable (c : option Client) : bool :=
  match c with None => false | Some c => negb (String.eqb (apiKey c) "") end.

(** What one POST can come to. *)
Inductive exchange :=
| MarshalFailed (err : error)
| RequestFailed (err : error)
| CallFailed (err : error)
| ReadFailed (err : error)
| Replied (status : Z) (raw : string) (body : result error geminiResponse).

Context {W : Type}.
(** The key, the URL and the request, sent into the world. *)
Variable api : string → string → geminiRequest → W → exchange * W.

Definition build_request (req : ChatRequest any ToolDecl) (temperature : float64) (maxOutputTokens : Z)
    : geminiRequest := {|
  Contents := chatContents req;
  gTools := match Tools req with [] => [] | ts => [toolDecls ts] end;
  ToolConfigMode := match Tools req with [] => None | _ => Some "AUTO" end;
  GenerationConfig := Some {| Temperature := temperature; TopK := 40; TopP := float_dec 95 2;
                              MaxOutputTokens := maxOutputTokens |};
  SystemInstruction :=
    if String.eqb (SystemPrompt req) "" then None
    else Some {| cRole := ""; Parts := [textPart (SystemPrompt req)] |}
|}.

Definition ChatWithConfig (c : option Client) (req : ChatRequest any ToolDecl) (temperature : float64)
    (maxOutputTokens : Z) (mdl : string) (w : W) : result error (ChatResponse any) * W :=
  match c with
  | None => (Err (EText "geminitext: api key required"), w)
  | Some c =>
      if String.eqb (apiKey c) "" then (Err (EText "geminitext: api key required"), w)
      else
        let temperature := if feq temperature (float_of_Z 0) then float_dec 7 1 else temperature in
        let maxOutputTokens := if maxOutputTokens =? 0 then 2048 else maxOutputTokens in
        let useModel := if String.eqb mdl "" then model c else mdl in
        let greq := build_request req temperature maxOutputTokens in
        let '(x, w) := api (apiKey c) (apiURL c +:+ "/" +:+ useModel +:+ ":generateContent") greq w in
        (match x with
         | MarshalFailed err => Err (EWrap "geminitext: marshal request: " "" err)
         | RequestFailed err => Err (EWrap "geminitext: create request: " "" err)
         | CallFailed err => Err (EWrap "geminitext: call api: " "" err)
         | ReadFailed err => Err (EWrap "geminitext: read response: " "" err)
         | Replied status raw body =>
             if (status <? 200) || (300 <=? status)
             then Err (EText ("geminitext: api status " +:+ fmt_d status +:+ ": " +:+ raw))
             else match body with
                  | Err err => Err (EWrap "geminitext: unmarshal response: " "" err)
                  | Ok gres => Ok (chatResponse gres)
                  end
         end, w)
  end.

Definition Chat (c : option Client) (req : ChatRequest any ToolDecl) : W → result error (ChatResponse any) * W :=
  ChatWithConfig c req (float_dec 7 1) 2048 "".

(** The client as a provider of the registry. *)
Definition provider (c : option Client) : Provider any ToolDecl W :=
  {| ProviderName := Name_ c; ProviderChat := Chat c |}.

Definition prompt_request (prompt : string) : ChatRequest any ToolDecl :=
  {| SystemPrompt := ""; History := []; UserText := prompt; Tools := []; LocaleHint := "" |}.
Definition GenerateTextWithConfig (c : option Client) (prompt : string) (temperature : float64)
    (maxOutputTokens : Z) (mdl : string) (w : W) : result error string * W :=
  match ChatWithConfig c (prompt_request prompt) temperature maxOutputTokens mdl w with
  | (Err err, w) => (Err err, w)
  | (Ok resp, w) => (Ok (RespText resp), w)
  end.
Definition GenerateText (c : option Client) (prompt : string) (w : W) : result error string * W :=
  match ChatWithConfig c (prompt_request prompt) (float_dec 7 1) 500 "" w with
  | (Err err, w) => (Err err, w)
  | (Ok resp, w) => (Ok (RespText resp), w)
  end.
End gemini.
Arguments geminiPart : clear implicits.
Arguments geminiContent : clear implicits.
Arguments geminiFunctionCall : clear implicits.
Arguments geminiFunctionResponse : clear implicits.
Arguments geminiCandidate : clear implicits.
Arguments geminiResponse : clear implicits.
Arguments geminiRequest : clear implicits.
Arguments exchange : clear implicits.

(** ** What the rendering carries *)

Section spec.
Context {any : Type}.
Implicit Types (t : ChatTurn any) (c : geminiContent any).

(** What of a turn the model can see: of a tool turn everything but the text,
    of another turn its text and whether it is the assistant's. *)
Definition visible t : ChatTurn any :=
  if is_tool t
  then {| Role := "tool"; Text := ""; ToolName := ToolName t; ToolArgs := ToolArgs t;
          ToolResult := ToolResult t; ToolSig := ToolSig t |}
  else {| Role := if String.eqb (Role t) "assistant" then "assistant" else "user"; Text := Text t;
          ToolName := ""; ToolArgs := ∅; ToolResult := None; ToolSig := "" |}.

(** Reading contents back into turns: a content with calls is read together
    with the content of their responses. *)
Definition has_call c : bool :=
  match Parts c with p :: _ => match FunctionCall p with Some _ => true | None => false end | [] => false end.
Definition read_tool (p r : geminiPart any) : ChatTurn any := {|
  Role := "tool"; Text := "";
  ToolName := match FunctionCall p with Some f => callName f | None => "" end;
  ToolArgs := match FunctionCall p with Some f => callArgs f | None => ∅ end;
  ToolResult := match FunctionResponse r with
                | Some f => default None (Response f !! "result") | None => None end;
  ToolSig := partSignature p
|}.
Definition read_text c : ChatTurn any := {|
  Role := if String.eqb (cRole c) "model" then "assistant" else "user";
  Text := foldr (λ p s, partText p +:+ s) "" (Parts c);
  ToolName := ""; ToolArgs := ∅; ToolResult := None; ToolSig := ""
|}.
Fixpoint read_contents (cs : list (geminiContent any)) : list (ChatTurn any) :=
  match cs with
  | [] => []
  | c :: cs =>
      if has_call c then
        match cs with
        | r :: cs => zip_with read_tool (Parts c) (Parts r) ++ read_contents cs
        | [] => []
        end
      else read_text c :: read_contents cs
  end.

(** The contract of parallel function calling: a content with calls is the
    model's, the next one is the user's and answers the same functions in the
    same order, and two such groups are never adjacent. *)
Definition answers (p r : geminiPart any) : Prop :=
  match FunctionCall p, FunctionResponse r with
  | Some f, Some g => callName f = respName g
  | _, _ => False
  end.
Definition no_group_next (cs : list (geminiContent any)) : Prop :=
  match cs with c :: _ => has_call c = false | [] => True end.
Fixpoint paired (cs : list (geminiContent any)) : Prop :=
  match cs with
  | [] => True
  | c :: cs =>
      if has_call c then
        match cs with
        | r :: cs =>
            cRole c = "model" ∧ cRole r = "user" ∧ Forall2 answers (Parts c) (Parts r) ∧
            no_group_next cs ∧ paired cs
        | [] => False
        end
      else Forall (λ p, FunctionCall p = None ∧ FunctionResponse p = None) (Parts c) ∧ paired cs
  end.

(** ** Lemmas *)

Lemma tool_run_spec (h : list (ChatTurn any)) :
  let '(run, rest) := tool_run h in
  h = run ++ rest ∧ Forall (λ t, is_tool t = true) run ∧
  match rest with t :: _ => is_tool t = false | [] => True end.
Proof.
  induction h as [|t h IH]; simpl; [done|]. destruct (is_tool t) eqn:Et; [|done].
  destruct (tool_run h) as [run rest]. destruct IH as (-> & Hrun & Hrest).
  split_and!; [done|by constructor|done].
Qed.

Lemma foldl_parts {B} (f : ChatTurn any → B) run acc : foldl (λ ps t, ps ++ [f t]) acc run = acc ++ (f <$> run).
Proof.
  revert acc. induction run as [|t run IH]; intros acc; simpl; [by rewrite app_nil_r|].
  by rewrite IH, <-app_assoc.
Qed.

(** One iteration that meets a run of tool turns. *)
Lemma contents_loop_tool fuel t (h : list (ChatTurn any)) :
  is_tool t = true → (length (t :: h) ≤ fuel)%nat →
  ∃ run rest fuel',
    t :: h = (t :: run) ++ rest ∧ Forall (λ t, is_tool t = true) (t :: run) ∧
    match rest with t :: _ => is_tool t = false | [] => True end ∧ (length rest ≤ fuel')%nat ∧
    (length rest < length (t :: h))%nat ∧
    contents_loop fuel (t :: h) =
      {| cRole := "model"; Parts := callPart <$> t :: run |} ::
      {| cRole := "user"; Parts := respPart <$> t :: run |} :: contents_loop fuel' rest.
Proof.
  intros Ht Hf. destruct fuel as [|fuel]; simpl in Hf; [lia|]. cbn [contents_loop]. rewrite Ht.
  pose proof (tool_run_spec h) as Hr. cbn [tool_run]. rewrite Ht.
  destruct (tool_run h) as [run rest]. destruct Hr as (-> & Hrun & Hrest).
  rewrite length_app in Hf. exists run, rest, fuel. rewrite !foldl_parts.
  split_and!; [done|by constructor|done|lia| |done]. simpl. rewrite length_app. lia.
Qed.

Lemma read_group (ts : list (ChatTurn any)) :
  Forall (λ t, is_tool t = true) ts → zip_with read_tool (callPart <$> ts) (respPart <$> ts) = visible <$> ts.
Proof.
  induction 1 as [|t ts Ht _ IH]; [done|]. simpl. f_equal; [|exact IH].
  unfold read_tool, visible. rewrite Ht. simpl. by rewrite lookup_singleton_eq.
Qed.

Lemma answers_group (ts : list (ChatTurn any)) : Forall2 answers (callPart <$> ts) (respPart <$> ts).
Proof. by induction ts; constructor. Qed.

Lemma turnContents_text t :
  is_tool t = false → ∃ c, turnContents t = [c] ∧ has_call c = false ∧ read_text c = visible t ∧
    Forall (λ p, FunctionCall p = None ∧ FunctionResponse p = None) (Parts c).
Proof.
  intros Ht. unfold turnContents, visible. rewrite Ht. eexists. split; [done|]. split; [done|].
  split; [|by apply Forall_singleton]. unfold read_text. simpl. rewrite string_app_nil_r.
  by destruct (String.eqb (Role t) "assistant").
Qed.

Lemma loop_head fuel (h : list (ChatTurn any)) :
  match h with t :: _ => is_tool t = false | [] => True end → no_group_next (contents_loop fuel h).
Proof.
  destruct fuel as [|fuel], h as [|t h]; try done. simpl. intros Ht. rewrite Ht.
  destruct (turnContents_text t Ht) as (c & -> & Hc & _). done.
Qed.

Lemma contents_loop_spec fuel (h : list (ChatTurn any)) :
  (length h ≤ fuel)%nat →
  read_contents (contents_loop fuel h) = visible <$> h ∧ paired (contents_loop fuel h).
Proof.
  revert fuel. induction h as [h IH] using (induction_ltof1 _ (@length _)); unfold ltof in IH.
  intros fuel Hf. destruct h as [|t h]; [by destruct fuel|]. destruct (is_tool t) eqn:Et.
  - destruct (contents_loop_tool fuel t h Et Hf) as (run & rest & fuel' & E & Hrun & Hrest & Hf' & Hlt & ->).
    destruct (IH rest Hlt fuel' Hf') as [Hread Hpair]. rewrite E, fmap_app. cbn [read_contents paired].
    cbn [has_call Parts cRole fmap list_fmap callPart FunctionCall]. split.
    + exact (f_equal2 app (read_group _ Hrun) Hread).
    + split_and!; [done|done|apply (answers_group (t :: run))|by apply loop_head|done].
  - destruct fuel as [|fuel]; simpl in Hf; [lia|]. cbn [contents_loop]. rewrite Et.
    destruct (turnContents_text t Et) as (c & -> & Hc & Hr & Hp).
    destruct (IH h ltac:(simpl; lia) fuel ltac:(lia)) as [Hread Hpair].
    cbn [app read_contents paired]. rewrite Hc. split; [by rewrite Hread, Hr|done].
Qed.

Lemma read_contents_text cs c :
  paired cs → has_call c = false → read_contents (cs ++ [c]) = read_contents cs ++ [read_text c].
Proof.
  intros Hp Hc. revert Hp. induction cs as [cs IH] using (induction_ltof1 _ (@length _)); unfold ltof in IH.
  destruct cs as [|d cs]; simpl; [by rewrite Hc|]. destruct (has_call d).
  - destruct cs as [|r cs]; [done|]. intros (_ & _ & _ & _ & Hp). simpl.
    rewrite IH; [by rewrite app_assoc|simpl; lia|done].
  - intros [_ Hp]. rewrite IH; [done|simpl; lia|done].
Qed.

Lemma paired_text cs c :
  paired cs → has_call c = false →
  Forall (λ p, FunctionCall p = None ∧ FunctionResponse p = None) (Parts c) → paired (cs ++ [c]).
Proof.
  intros Hp Hc Ht. revert Hp. induction cs as [cs IH] using (induction_ltof1 _ (@length _)); unfold ltof in IH.
  destruct cs as [|d cs]; simpl; [by rewrite Hc|]. destruct (has_call d).
  - destruct cs as [|r cs]; [done|]. intros (? & ? & ? & Hn & Hp). simpl.
    split_and!; [done|done|done|by destruct cs|]. apply IH; [simpl; lia|done].
  - intros [? Hp]. split; [done|]. apply IH; [simpl; lia|done].
Qed.

(** The parts of a reply that carry a call, as they are sent back. *)
Definition replayed (ps : list (geminiPart any)) : list (geminiPart any) :=
  omap (λ p, match FunctionCall p with
             | Some f => Some {| partText := ""; FunctionCall := Some f; FunctionResponse := None;
                                 partSignature := partSignature p |}
             | None => None end) ps.

Lemma parts_loop_length (ps : list (geminiPart any)) text calls :
  (length calls ≤ length (parts_loop ps text calls).2)%nat.
Proof.
  revert text calls. induction ps as [|p ps IH]; intros text calls; simpl; [done|].
  etransitivity; [|apply IH]. destruct (FunctionCall p); rewrite ?length_app; lia.
Qed.

Lemma parts_loop_spec (ps : list (geminiPart any)) text calls rs rs' :
  length rs = length calls →
  (length rs + length rs' = length (parts_loop ps text calls).2)%nat →
  (parts_loop ps text calls).1 = text +:+ foldr (λ p s, partText p +:+ s) "" ps ∧
  callPart <$> zip_with Orchestrator.tool_turn (parts_loop ps text calls).2 (rs ++ rs') =
    (callPart <$> zip_with Orchestrator.tool_turn calls rs) ++ replayed ps.
Proof.
  revert text calls rs rs'. induction ps as [|p ps IH]; intros text calls rs rs' Hl Hl'; simpl in *.
  - assert (rs' = []) as -> by (apply nil_length_inv; lia). by rewrite string_app_nil_r, !app_nil_r.
  - assert ((if String.eqb (partText p) "" then text else text +:+ partText p) = text +:+ partText p) as Htx
      by (destruct (String.eqb_spec (partText p) "") as [->|]; by rewrite ?string_app_nil_r).
    rewrite Htx in *. clear Htx. rewrite <-string_app_assoc.
    destruct (FunctionCall p) as [f|] eqn:Ef; [|by apply IH]. set (calls' := calls ++ _) in *.
    destruct rs' as [|r rs'].
    { exfalso. pose proof (parts_loop_length ps (text +:+ partText p) calls') as Hlen.
      unfold calls' in Hlen at 1. rewrite length_app in Hlen. simpl in *. lia. }
    destruct (IH (text +:+ partText p) calls' (rs ++ [r]) rs') as [Ht Hc].
    + unfold calls'. rewrite !length_app. simpl. lia.
    + rewrite length_app. simpl in *. lia.
    + split; [done|]. rewrite <-app_assoc in Hc. simpl in Hc. rewrite Hc. unfold calls'.
      rewrite zip_with_app by done. rewrite fmap_app, <-app_assoc. f_equal. simpl. by destruct f.
Qed.
End spec.

(** ** Properties *)

(** C20: the rendering for Gemini loses nothing of the history: reading the
    contents back gives the visible part of every turn, in order (for a tool
    turn its name, arguments, result and signature; for another turn its text
    and speaker), followed by the new user text if there is one; and the
    contents obey the contract of parallel function calling: every group of
    calls is the model's, is followed at once by the user's answers to the same
    functions in the same order, and is maximal. *)
Theorem gemini_history {any : Type} (req : ChatRequest any ToolDecl) :
  read_contents (chatContents req) =
    (visible <$> History req) ++
    (if String.eqb (UserText req) "" then [] else [Orchestrator.user_turn (UserText req)]) ∧
  paired (chatContents req).
Proof.
  unfold chatContents. destruct (contents_loop_spec (length (History req)) (History req)) as [Hr Hp]; [done|].
  destruct (String.eqb (UserText req) ""); [by rewrite app_nil_r|].
  split; [|by apply paired_text; [|done|apply Forall_singleton]].
  rewrite read_contents_text, Hr by done. unfold read_text, Orchestrator.user_turn. simpl.
  by rewrite string_app_nil_r.
Qed.

(** the tool calls of a reply come back verbatim: the text of the chat
    response is the concatenation of the text parts, and when the orchestrator
    has run its calls (with any results) the parts sent for them in the next
    request are exactly the call parts of the reply, each with its thought
    signature. *)
Theorem gemini_calls_replayed {any : Type} (resp : geminiResponse any) cand cands rs :
  Candidates resp = cand :: cands → length rs = length (ToolCalls (chatResponse resp)) →
  RespText (chatResponse resp) = foldr (λ p s, partText p +:+ s) "" (Parts (Content cand)) ∧
  callPart <$> zip_with Orchestrator.tool_turn (ToolCalls (chatResponse resp)) rs =
    replayed (Parts (Content cand)).
Proof.
  unfold chatResponse. intros ->. intros Hl.
  destruct (parts_loop (Parts (Content cand)) "" []) as [text calls] eqn:E. cbn [ToolCalls RespText] in *.
  destruct (parts_loop_spec (Parts (Content cand)) "" [] [] rs) as [Ht Hc]; [done|by rewrite E|].
  rewrite E in Ht, Hc. split; [exact Ht|exact Hc].
Qed.

(** ** Witnesses *)

Definition a_call : geminiPart string := {|
  partText := "let me look"; FunctionCall := Some {| callName := "search"; callArgs := ∅ |};
  FunctionResponse := None; partSignature := "sig" |}.
Definition a_reply : geminiResponse string := {|
  Candidates := [{| Content := {| cRole := "model"; Parts := [textPart "hm "; a_call] |};
                    candFinish := "STOP"; Index := 0 |}];
  UsageMetadata := {| PromptTokenCount := 1; CandidatesTokenCount := 2; TotalTokenCount := 3 |} |}.

Lemma gemini_calls_replayed_witness :
  RespText (chatResponse a_reply) = "hm let me look" ∧
  callPart <$> zip_with Orchestrator.tool_turn (ToolCalls (chatResponse a_reply)) [Some "3 hits"] =
    [{| partText := ""; FunctionCall := FunctionCall a_call; FunctionResponse := None;
        partSignature := "sig" |}].
Proof.
  exact (gemini_calls_replayed a_reply
    {| Content := {| cRole := "model"; Parts := [textPart "hm "; a_call] |}; candFinish := "STOP"; Index := 0 |}
    [] [Some "3 hits"] eq_refl eq_refl).
Defined.
