(* ===== verification/GeminiLive.v ===== *)
(** * Package voice/llm/gemini

    The Gemini Live session of src/voice/llm/gemini: the messages written to the
    WebSocket (types.go, setup.go, llm.go) and the translation of the server's
    messages into the pipeline's events.  The connection is an argument: a write
    succeeds or fails, a read yields a text or an error, and encoding/json turns
    a text into a server message or fails. *)

From S2P Require Import Prelude GoString GoErrors Base64 VoicePipeline.
From stdpp Require Import base list gmap strings.
From Stdlib Require Import ZArith Lia.
Open Scope Z_scope.

(** ** types.go *)

Definition LiveModel : string := "models/gemini-3.1-flash-live-preview".
Definition VoiceName : string := "Zephyr".

Record GeminiInlineData := { InlineMime : string; InlineBase64 : string }.
Record GeminiPart := { PartText : string; InlineData : option GeminiInlineData }.
Definition GeminiContent : Type := list GeminiPart.
Record GeminiTurn := { TurnRole : string; TurnParts : list GeminiPart }.

Record ToolProperty := { PropType : string; PropDescription : string; Enum : list string; Format : string }.
Record ToolSchema := { SchemaType : string; Properties : gmap string ToolProperty; Required : list string }.
Record ToolDecl := { DeclName : string; DeclDescription : string; DeclParameters : ToolSchema }.

(** The values of the wire's map[string]any. *)
#[warnings="-register-all"]
Inductive wire :=
| WStr (s : string)
| WList (l : list string)
| WMap (m : gmap string wire).

Record GeminiFunctionDecl := { FnName : string; FnDescription : string; FnParameters : gmap string wire }.
Definition GeminiTool : Type := list GeminiFunctionDecl.
Record GeminiAutomaticActivityDetection := {
  StartOfSpeechSensitivity : string; EndOfSpeechSensitivity : string; PrefixPaddingMs : Z; SilenceDurationMs : Z
}.
Record GeminiSetupConfig := {
  Model : string;
  ResponseModalities : list string;
  Voice : string;
  SystemInstruction : GeminiContent;
  Tools : list GeminiTool;
  InputAudioTranscription : bool;
  OutputAudioTranscription : bool;
  RealtimeInputConfig : GeminiAutomaticActivityDetection
}.
(** GeminiFunctionResponse: the data, or the text of the error. *)
Inductive fn_response := ResponseData (d : string) | ResponseError (text : string).
Inductive client_message :=
| Setup (c : GeminiSetupConfig)
| ClientContent (turnComplete : bool) (turns : list GeminiTurn)
| RealtimeInput (audioBase64 mimeType : string)
| ToolResponse (rs : list (string * fn_response)).

Record GeminiServerContent := {
  ModelTurn : option GeminiContent; TurnComplete : bool; Interrupted : bool;
  InputTranscription : option string; OutputTranscription : option string
}.
Record GeminiServerMessage := {
  SetupComplete : bool; ServerContent : option GeminiServerContent; ToolCalls : option (list ToolCall)
}.

(** ** setup.go *)

Definition propToWire (p : ToolProperty) : gmap string wire :=
  let prop := {[ "type" := WStr (PropType p); "description" := WStr (PropDescription p) ]} : gmap string wire in
  let prop := match Enum p with [] => prop | _ => <["enum" := WList (Enum p)]> prop end in
  if negb (String.eqb (Format p) "") then <["format" := WStr (Format p)]> prop else prop.
Definition schemaToWire (s : ToolSchema) : gmap string wire :=
  let props := (λ p, WMap (propToWire p)) <$> Properties s in
  let out := {[ "type" := WStr (SchemaType s); "properties" := WMap props ]} : gmap string wire in
  match Required s with [] => out | _ => <["required" := WList (Required s)]> out end.
Definition toolsToWire (tools : list ToolDecl) : list GeminiTool :=
  [(λ t, {| FnName := DeclName t; FnDescription := DeclDescription t; FnParameters := schemaToWire (DeclParameters t) |})
     <$> tools].
Definition BuildSetup (systemPrompt : string) (tools : list ToolDecl) : GeminiSetupConfig := {|
  Model := LiveModel; ResponseModalities := ["AUDIO"]; Voice := VoiceName;
  SystemInstruction := [{| PartText := systemPrompt; InlineData := None |}];
  Tools := match tools with [] => [] | _ => toolsToWire tools end;
  InputAudioTranscription := true; OutputAudioTranscription := false;
  RealtimeInputConfig := {| StartOfSpeechSensitivity := "START_SENSITIVITY_LOW";
    EndOfSpeechSensitivity := "END_SENSITIVITY_LOW"; PrefixPaddingMs := 300; SilenceDurationMs := 600 |} |}.

(** ** llm.go *)

Definition InboundFormat : AudioFormat := {| encoding := EncodingPCM16LE; SampleRate := 24000; Channels := 1 |}.
Definition OutboundFormat : AudioFormat := {| encoding := EncodingPCM16LE; SampleRate := 16000; Channels := 1 |}.

Inductive Role := RoleUser | RoleAssistant | OtherRole (r : string).
Record HistoryTurn := { HRole : Role; HContent : string }.
Record SetupRequest := {
  SystemPrompt : string; ReqTools : list ToolDecl; History : list HistoryTurn;
  WakeSignal : string               (* Extra["wake_signal"] as a string, else empty *)
}.

(** The connection: the messages written so far, and whether it was closed. *)
Record conn := { written : list client_message; closed : bool }.
Section llm.
(** Whether the next write fails. *)
Variable WriteJSON : list client_message → client_message → option error.

Definition writeJSON (v : client_message) (l : conn) : option error * conn :=
  match WriteJSON (written l) v with
  | Some err => (Some err, l)
  | None => (None, {| written := written l ++ [v]; closed := closed l |})
  end.
Definition user_turn (role text : string) : client_message :=
  ClientContent true [{| TurnRole := role; TurnParts := [{| PartText := text; InlineData := None |}] |}].

Definition replayed (t : HistoryTurn) : bool :=
  negb (String.eqb (HContent t) "") && match HRole t with RoleUser => true | _ => false end.
Fixpoint replay (turns : list HistoryTurn) (l : conn) : option error * conn :=
  match turns with
  | [] => (None, l)
  | turn :: turns =>
      if negb (replayed turn) then replay turns l
      else match writeJSON (user_turn "user" (HContent turn)) l with
           | (Some err, l) => (Some (EWrap "send history turn: " "" err), l)
           | (None, l) => replay turns l
           end
  end.
(** [reply] is what the first read of the connection yields.  The error for an
    answer that is not setupComplete keeps its text up to the dump of the answer. *)
Definition Open (setup : SetupRequest) (reply : Prelude.result error GeminiServerMessage) (l : conn)
    : option error * conn :=
  match writeJSON (Setup (BuildSetup (SystemPrompt setup) (ReqTools setup))) l with
  | (Some err, l) => (Some (EWrap "send setup: " "" err), l)
  | (None, l) =>
      match reply with
      | Err err => (Some (EWrap "read setupComplete: " "" err), l)
      | Ok resp =>
          if negb (SetupComplete resp) then (Some (EText "expected setupComplete"), l)
          else match replay (History setup) l with
               | (Some err, l) => (Some err, l)
               | (None, l) =>
                   if negb (String.eqb (WakeSignal setup) "") then
                     match writeJSON (user_turn "user" (WakeSignal setup)) l with
                     | (Some err, l) => (Some (EWrap "send wake signal: " "" err), l)
                     | (None, l) => (None, l)
                     end
                   else (None, l)
               end
      end
  end.

Definition SendAudio (f : Frame) (l : conn) : option error * conn :=
  writeJSON (RealtimeInput (EncodeToString (Data f)) "audio/pcm;rate=16000") l.
Definition SendToolResults (results : list ToolResult) (l : conn) : option error * conn :=
  writeJSON (ToolResponse ((λ r, (ResultID r, match ResultErr r with
                                              | Some err => ResponseError (error_text err)
                                              | None => ResponseData (ResultData r)
                                              end)) <$> results)) l.
Definition InjectTurn (turn : HistoryTurn) (l : conn) : option error * conn :=
  writeJSON (user_turn (match HRole turn with RoleAssistant => "model" | _ => "user" end) (HContent turn)) l.
Definition Close (closeErr : option error) (l : conn) : option error * conn :=
  if closed l then (None, l) else (closeErr, {| written := written l; closed := true |}).
End llm.

(** *** Events *)

Definition nonempty (t : option string) : option string :=
  match t with Some s => if String.eqb s "" then None else Some s | None => None end.
Definition delta (s : string) : LLMEvent := EventAssistantText s false.

(** One part of a model turn: its audio, then its text; audio that cannot be
    decoded drops the part. *)
Definition part_events (p : GeminiPart) (acc : string) : list LLMEvent * string :=
  let text :=
    if String.eqb (PartText p) "" then ([], acc) else ([delta (PartText p)], acc +:+ PartText p) in
  match InlineData p with
  | Some d =>
      if String.eqb (InlineBase64 d) "" then text
      else match DecodeString (InlineBase64 d) with
           | None => ([], acc)
           | Some bytes => (EventAudioOut {| Data := bytes; Timestamp := time_zero |} :: text.1, text.2)
           end
  | None => text
  end.
Fixpoint parts_events (ps : list GeminiPart) (acc : string) : list LLMEvent * string :=
  match ps with
  | [] => ([], acc)
  | p :: ps => let '(e1, acc) := part_events p acc in let '(e2, acc) := parts_events ps acc in (e1 ++ e2, acc)
  end.
Definition content_events (c : GeminiServerContent) (acc : string) : list LLMEvent * string :=
  let e1 := match nonempty (InputTranscription c) with Some s => [EventCallerTranscript s] | None => [] end in
  let '(e2, acc) := match nonempty (OutputTranscription c) with
                    | Some s => ([delta s], acc +:+ s) | None => ([], acc) end in
  let '(e3, acc) := parts_events (default [] (ModelTurn c)) acc in
  let e4 := if Interrupted c then [EventInterrupted] else [] in
  let '(e5, acc) :=
    if TurnComplete c then
      ((if String.eqb acc "" then [] else [EventAssistantText acc true]) ++ [EventTurnComplete], "")
    else ([], acc) in
  (e1 ++ e2 ++ e3 ++ e4 ++ e5, acc).
Definition message_events (m : GeminiServerMessage) (acc : string) : list LLMEvent * string :=
  let '(e1, acc) := match ServerContent m with Some c => content_events c acc | None => ([], acc) end in
  let e2 := match ToolCalls m with Some (c :: cs) => [EventToolCalls (c :: cs)] | _ => [] end in
  (e1 ++ e2, acc).

(** The read loop, on what the reads yield: a text, decoded or not, or an error.
    The events are those of an uncancelled context; the result is the error sent. *)
Inductive read := ReadText (m : option GeminiServerMessage) | ReadErr (err : error) (normalClose : bool).
Fixpoint Events (reads : list read) (acc : string) : list LLMEvent * option error :=
  match reads with
  | [] => ([], None)
  | ReadErr err normal :: _ => ([], if normal then None else Some err)
  | ReadText None :: reads => Events reads acc
  | ReadText (Some m) :: reads =>
      let '(evs, acc) := message_events m acc in
      let '(rest, err) := Events reads acc in (evs ++ rest, err)
  end.

(** ** The stream of events *)

(** *** What the wire says *)

(** The events of a message one by one, as the comment of Events lists them, with
    no memory of the turn and no final texts. *)
Definition part_wire (p : GeminiPart) : list LLMEvent :=
  let text := option_list (delta <$> nonempty (Some (PartText p))) in
  match d ← InlineData p; nonempty (Some (InlineBase64 d)) with
  | None => text
  | Some b64 =>
      match DecodeString b64 with
      | Some bytes => EventAudioOut {| Data := bytes; Timestamp := time_zero |} :: text
      | None => []
      end
  end.
Definition content_wire (c : GeminiServerContent) : list LLMEvent :=
  option_list (EventCallerTranscript <$> nonempty (InputTranscription c)) ++
  option_list (delta <$> nonempty (OutputTranscription c)) ++
  (default [] (ModelTurn c) ≫= part_wire) ++
  (if Interrupted c then [EventInterrupted] else []) ++ (if TurnComplete c then [EventTurnComplete] else []).
Definition message_wire (m : GeminiServerMessage) : list LLMEvent :=
  match ServerContent m with Some c => content_wire c | None => [] end ++
  match ToolCalls m with Some (c :: cs) => [EventToolCalls (c :: cs)] | _ => [] end.
(** The messages read before the first read error, and the error to report. *)
Fixpoint received (reads : list read) : list GeminiServerMessage :=
  match reads with
  | ReadText (Some m) :: reads => m :: received reads
  | ReadText None :: reads => received reads
  | _ => []
  end.
Fixpoint failure (reads : list read) : option error :=
  match reads with
  | [] => None
  | ReadText _ :: reads => failure reads
  | ReadErr err normal :: _ => if normal then None else Some err
  end.

(** Final texts: before the completion of a turn, the turn's texts together, when
    there are any. *)
Fixpoint with_finals (acc : string) (evs : list LLMEvent) : list LLMEvent :=
  match evs with
  | [] => []
  | EventAssistantText s final :: evs => EventAssistantText s final :: with_finals (acc +:+ s) evs
  | EventTurnComplete :: evs =>
      option_list ((λ s, EventAssistantText s true) <$> nonempty (Some acc)) ++ EventTurnComplete :: with_finals "" evs
  | e :: evs => e :: with_finals acc evs
  end.
(** The text of the turn after the events. *)
Fixpoint turn_text (acc : string) (evs : list LLMEvent) : string :=
  match evs with
  | [] => acc
  | EventAssistantText s _ :: evs => turn_text (acc +:+ s) evs
  | EventTurnComplete :: evs => turn_text "" evs
  | _ :: evs => turn_text acc evs
  end.

Lemma with_finals_app acc e1 e2 : with_finals acc (e1 ++ e2) = with_finals acc e1 ++ with_finals (turn_text acc e1) e2.
Proof.
  revert acc. induction e1 as [|e e1 IH]; intros acc; [done|].
  destruct e; cbn [app with_finals turn_text]; rewrite IH; by rewrite <-?app_assoc.
Qed.
Lemma turn_text_app acc e1 e2 : turn_text acc (e1 ++ e2) = turn_text (turn_text acc e1) e2.
Proof. revert acc. induction e1 as [|e e1 IH]; intros acc; [done|]. destruct e; cbn [app turn_text]; apply IH. Qed.

(** *** The translation *)

(** The result [r] of translating what the wire says, from the turn's text [acc]. *)
Definition translates (acc : string) (wire : list LLMEvent) (r : list LLMEvent * string) : Prop :=
  r.1 = with_finals acc wire ∧ r.2 = turn_text acc wire.

Lemma translates_app acc w1 e1 acc1 w2 r :
  translates acc w1 (e1, acc1) → translates acc1 w2 r → translates acc (w1 ++ w2) (e1 ++ r.1, r.2).
Proof. unfold translates. cbn [fst snd]. intros [-> ->] [-> ->]. by rewrite with_finals_app, turn_text_app. Qed.

Lemma part_translates p acc : translates acc (part_wire p) (part_events p acc).
Proof.
  unfold translates, part_events, part_wire, nonempty. destruct (String.eqb (PartText p) "");
    destruct (InlineData p) as [d|]; simpl; try destruct (String.eqb (InlineBase64 d) ""); simpl;
    try destruct (DecodeString _); done.
Qed.
Lemma parts_translate ps acc : translates acc (ps ≫= part_wire) (parts_events ps acc).
Proof.
  revert acc. induction ps as [|p ps IH]; intros acc; [done|]. cbn [parts_events mbind list_bind].
  pose proof (part_translates p acc) as Hp. destruct (part_events p acc) as [e1 acc1].
  specialize (IH acc1). destruct (parts_events ps acc1) as [e2 acc2]. by apply (translates_app acc _ e1 acc1 _ (e2, acc2)).
Qed.
Lemma content_translates c acc : translates acc (content_wire c) (content_events c acc).
Proof.
  unfold content_events, content_wire.
  assert (translates acc (option_list (delta <$> nonempty (OutputTranscription c)))
    (match nonempty (OutputTranscription c) with Some s => ([delta s], acc +:+ s) | None => ([], acc) end)) as H2
    by (by destruct (nonempty _)).
  destruct (match nonempty (OutputTranscription c) with Some s => _ | None => _ end) as [e2 acc2].
  pose proof (parts_translate (default [] (ModelTurn c)) acc2) as H3. destruct (parts_events _ acc2) as [e3 acc3].
  assert (translates acc3 (if TurnComplete c then [EventTurnComplete] else []) (if TurnComplete c
    then ((if String.eqb acc3 "" then [] else [EventAssistantText acc3 true]) ++ [EventTurnComplete], "") else ([], acc3))) as H5.
  { destruct (TurnComplete c); [|done]. unfold translates, with_finals, nonempty. by destruct (String.eqb acc3 ""). }
  destruct (if TurnComplete c then (_, _) else _) as [e5 acc5].
  set (e1 := match nonempty (InputTranscription c) with Some s => [EventCallerTranscript s] | None => [] end).
  set (e4 := if Interrupted c then [EventInterrupted] else []).
  apply (translates_app acc _ e1 acc _ (e2 ++ e3 ++ e4 ++ e5, acc5)); [by subst e1; destruct (nonempty (InputTranscription c))|].
  apply (translates_app acc _ e2 acc2 _ (e3 ++ e4 ++ e5, acc5)); [done|].
  apply (translates_app acc2 _ e3 acc3 _ (e4 ++ e5, acc5)); [done|].
  apply (translates_app acc3 _ e4 acc3 _ (e5, acc5)); [by subst e4; destruct (Interrupted c)|done].
Qed.
Lemma message_translates m acc : translates acc (message_wire m) (message_events m acc).
Proof.
  unfold message_events, message_wire.
  assert (translates acc (match ServerContent m with Some c => content_wire c | None => [] end)
    (match ServerContent m with Some c => content_events c acc | None => ([], acc) end)) as H1
    by (destruct (ServerContent m); [apply content_translates|done]).
  destruct (match ServerContent m with Some c => content_events c acc | None => _ end) as [e1 acc1].
  apply (translates_app acc _ e1 acc1 _ (match ToolCalls m with Some (c :: cs) => [EventToolCalls (c :: cs)] | _ => [] end, acc1)); [done|].
  by destruct (ToolCalls m) as [[|]|].
Qed.
Lemma Events_translate reads acc :
  (Events reads acc).1 = with_finals acc (received reads ≫= message_wire) ∧ (Events reads acc).2 = failure reads.
Proof.
  revert acc. induction reads as [|[[m|]|err normal] reads IH]; intros acc; [done| |apply IH|done].
  cbn [Events received failure mbind list_bind]. pose proof (message_translates m acc) as [Hw Ht].
  destruct (message_events m acc) as [evs acc']. destruct (IH acc') as [I1 I2].
  destruct (Events reads acc') as [rest err]. cbn [fst snd] in *. subst. by rewrite with_finals_app.
Qed.

(** *** What a consumer may rely on *)

(** With the text of the turn so far: deltas are not empty, a final text is the
    concatenation of the turn's deltas and is followed by the completion of the
    turn, and a turn that had texts completes after its final text only. *)
Fixpoint well_formed (acc : string) (evs : list LLMEvent) : Prop :=
  match evs with
  | [] => True
  | EventAssistantText s false :: evs => s ≠ "" ∧ well_formed (acc +:+ s) evs
  | EventAssistantText s true :: evs =>
      s = acc ∧ s ≠ "" ∧ match evs with [] | EventTurnComplete :: _ => True | _ => False end ∧ well_formed "" evs
  | EventTurnComplete :: evs => acc = "" ∧ well_formed "" evs
  | _ :: evs => well_formed acc evs
  end.

Lemma well_formed_prefix acc e1 e2 : well_formed acc (e1 ++ e2) → well_formed acc e1.
Proof.
  revert acc. induction e1 as [|e e1 IH]; intros acc; [done|].
  destruct e as [f|s []| | | |]; cbn [app well_formed]; try apply IH.
  - intros (? & ? & Hn & Hw). split_and!; try done; [|by eapply IH]. by destruct e1.
  - intros (? & Hw). split; [done|by eapply IH].
  - intros (? & Hw). split; [done|by eapply IH].
Qed.
Lemma nonempty_Some t s : nonempty t = Some s → s ≠ "".
Proof. unfold nonempty. destruct t as [x|]; [|done]. destruct (String.eqb_spec x ""); naive_solver. Qed.

(** Events of the wire hold deltas only, and no empty one. *)
Definition wire_ok (e : LLMEvent) : Prop :=
  match e with EventAssistantText s final => s ≠ "" ∧ final = false | _ => True end.
Lemma message_wire_ok m : Forall wire_ok (message_wire m).
Proof.
  assert (∀ t, Forall wire_ok (option_list (delta <$> nonempty t))) as Hd.
  { intros t. destruct (nonempty t) as [s|] eqn:E; [|done]. apply nonempty_Some in E. by apply Forall_singleton. }
  unfold message_wire. apply Forall_app_2; [destruct (ServerContent m) as [c|]; [|done]|by destruct (ToolCalls m) as [[|]|]; repeat constructor].
  unfold content_wire. repeat apply Forall_app_2.
  - by destruct (nonempty (InputTranscription c)); repeat constructor.
  - apply Hd.
  - apply Forall_bind, Forall_true. intros p. unfold part_wire. specialize (Hd (Some (PartText p))).
    cbv zeta beta delta [compose]. case_match; [case_match; [by apply Forall_cons_2|done]|done].
  - by destruct (Interrupted c); repeat constructor.
  - by destruct (TurnComplete c); repeat constructor.
Qed.
Lemma with_finals_well_formed acc evs : Forall wire_ok evs → well_formed acc (with_finals acc evs).
Proof.
  intros Hf. revert acc. induction Hf as [|e evs He Hf IH]; intros acc; [done|].
  destruct e as [f|s final|s| | |]; cbn [with_finals]; try (cbn [well_formed]; apply IH).
  - destruct He as [He ->]. cbn [well_formed]. split; [done|apply IH].
  - destruct (nonempty (Some acc)) as [s|] eqn:E; simpl.
    + pose proof (nonempty_Some _ _ E). unfold nonempty in E. destruct (String.eqb acc ""); simplify_eq. split_and!; done.
    + unfold nonempty in E. destruct (String.eqb_spec acc ""); [|done]. done.
Qed.


(** ** Open *)

Definition opening (setup : SetupRequest) : list client_message :=
  Setup (BuildSetup (SystemPrompt setup) (ReqTools setup))
  :: ((λ t, user_turn "user" (HContent t)) <$> filter (λ t, replayed t = true) (History setup))
  ++ (if String.eqb (WakeSignal setup) "" then [] else [user_turn "user" (WakeSignal setup)]).

(** From [l] to [l'] a prefix of [all] was written, all of it unless there is an error. *)
Definition writes (all : list client_message) (l : conn) (r : option error * conn) : Prop :=
  ∃ out, written r.2 = written l ++ out ∧ out `prefix_of` all ∧ (r.1 = None → out = all).

Lemma writes_nothing l : writes [] l (None, l).
Proof. exists []. by rewrite app_nil_r. Qed.
Lemma writes_failed all l e : writes all l (Some e, l).
Proof. exists []. rewrite app_nil_r. split_and!; [done|apply prefix_nil|done]. Qed.
Lemma writes_stopped a b l e l' : writes a l (Some e, l') → writes (a ++ b) l (Some e, l').
Proof. intros (out & H1 & H2 & _). exists out. split_and!; [done|by apply prefix_app_r|done]. Qed.
Lemma writes_err a l e e' l' : writes a l (Some e, l') → writes a l (Some e', l').
Proof. intros (out & H1 & H2 & _). by exists out. Qed.
Lemma writes_app a b l l1 r : writes a l (None, l1) → writes b l1 r → writes (a ++ b) l r.
Proof.
  intros (o1 & H1 & _ & E1) (o2 & H2 & Hp & E2). cbn [fst snd] in *. rewrite E1 in H1 by done.
  exists (a ++ o2). rewrite H2, H1, <-app_assoc. split_and!; [done|by apply prefix_app|]. intros. by rewrite E2.
Qed.
Lemma writeJSON_writes w v l : writes [v] l (writeJSON w v l).
Proof.
  unfold writeJSON. destruct (w _ _); [apply writes_failed|]. by exists [v].
Qed.
Lemma replay_writes w turns l :
  writes ((λ t, user_turn "user" (HContent t)) <$> filter (λ t, replayed t = true) turns) l (replay w turns l).
Proof.
  revert l. induction turns as [|t turns IH]; intros l; cbn [replay]; [apply writes_nothing|].
  destruct (replayed t) eqn:Er; cbn [negb]; [|by rewrite filter_cons_False by congruence].
  rewrite filter_cons_True by done. pose proof (writeJSON_writes w (user_turn "user" (HContent t)) l) as H.
  destruct (writeJSON w _ l) as [[e|] l1].
  - by eapply (writes_stopped [_]), writes_err.
  - by eapply (writes_app [_]).
Qed.
Lemma wake_writes w wake l :
  writes (if String.eqb wake "" then [] else [user_turn "user" wake]) l
    (if negb (String.eqb wake "") then
       match writeJSON w (user_turn "user" wake) l with
       | (Some err, l) => (Some (EWrap "send wake signal: " "" err), l)
       | (None, l) => (None, l)
       end
     else (None, l)).
Proof.
  destruct (String.eqb wake ""); cbn [negb]; [apply writes_nothing|].
  pose proof (writeJSON_writes w (user_turn "user" wake) l) as H.
  destruct (writeJSON w _ l) as [[e|] l1]; [by eapply writes_err|done].
Qed.

(** opening a session.  What Open writes is always a prefix of: the setup,
    one user turn per nonempty user turn of the history in order, and the wake
    signal when there is one; when it returns no error all of it was written and
    the server confirmed the setup; and on a connection whose writes succeed it
    returns no error exactly when the server confirms the setup. *)
Theorem Open_writes w setup reply l :
  writes (opening setup) l (Open w setup reply l) ∧
  ((Open w setup reply l).1 = None → ∃ m, reply = Ok m ∧ SetupComplete m = true) ∧
  ((∀ ms m, w ms m = None) → (∃ m, reply = Ok m ∧ SetupComplete m = true) → (Open w setup reply l).1 = None).
Proof.
  split; [|split].
  - unfold Open, opening. pose proof (writeJSON_writes w (Setup (BuildSetup (SystemPrompt setup) (ReqTools setup))) l) as H1.
    destruct (writeJSON w (Setup _) l) as [[e|] l1].
    { by eapply (writes_stopped [_]), writes_err. }
    destruct reply as [m|e]; [|by eapply (writes_app [_]), writes_failed].
    destruct (SetupComplete m); cbn [negb]; [|by eapply (writes_app [_]), writes_failed].
    pose proof (replay_writes w (History setup) l1) as H2. eapply (writes_app [_]); [done|].
    destruct (replay w (History setup) l1) as [[e|] l2]; [by apply writes_stopped|].
    eapply writes_app; [done|]. apply wake_writes.
  - unfold Open. destruct (writeJSON w (Setup _) l) as [[e|] l1]; [done|]. destruct reply as [m|e]; [|done].
    destruct (SetupComplete m) eqn:E; [by exists m|done].
  - intros Hw (m & -> & Hm). assert (∀ m l, (writeJSON w m l).1 = None) as Hj by (intros; unfold writeJSON; by rewrite Hw).
    assert (∀ ts l, (replay w ts l).1 = None) as Hr.
    { induction ts as [|t ts IH]; intros l'; [done|]. cbn [replay]. destruct (replayed t); [|apply IH].
      cbn [negb]. pose proof (Hj (user_turn "user" (HContent t)) l'). destruct (writeJSON w _ l') as [[]]; [done|apply IH]. }
    unfold Open. pose proof (Hj (Setup (BuildSetup (SystemPrompt setup) (ReqTools setup))) l) as H1.
    destruct (writeJSON w (Setup _) l) as [[] l1]; [done|]. rewrite Hm. cbn [negb].
    pose proof (Hr (History setup) l1). destruct (replay _ _ _) as [[] l2]; [done|].
    destruct (String.eqb _ _); [done|]. cbn [negb]. pose proof (Hj (user_turn "user" (WakeSignal setup)) l2).
    by destruct (writeJSON w _ l2) as [[]].
Qed.

(** ** Audio, tool results, Close *)

(** The audio written by SendAudio decodes to the frame's bytes. *)
Lemma SendAudio_decodes w f l err l' :
  Forall (λ b, 0 ≤ b < 256) (Data f) → SendAudio w f l = (err, l') → err = None →
  ∃ s, written l' = written l ++ [RealtimeInput s "audio/pcm;rate=16000"] ∧ DecodeString s = Some (Data f).
Proof.
  unfold SendAudio, writeJSON. intros Hb E ->. destruct (w _ _); simplify_eq/=.
  exists (EncodeToString (Data f)). split; [done|]. by apply DecodeString_EncodeToString.
Qed.
(** A batch of results is one message with one response per result, in order. *)
Lemma SendToolResults_one_message w rs l :
  (∀ ms m, w ms m = None) →
  ∃ out, written (SendToolResults w rs l).2 = written l ++ [ToolResponse out] ∧ out.*1 = ResultID <$> rs.
Proof.
  intros Hw. unfold SendToolResults, writeJSON. rewrite Hw. eexists. split; [done|]. by rewrite <-list_fmap_compose.
Qed.
Lemma Close_idempotent e1 e2 l : Close e2 (Close e1 l).2 = (None, (Close e1 l).2).
Proof. unfold Close. by destruct (closed l) eqn:E; cbn; rewrite ?E. Qed.

(** *** Witnesses *)

Definition text_part (s : string) : GeminiPart := {| PartText := s; InlineData := None |}.
Definition audio_part (b64 s : string) : GeminiPart :=
  {| PartText := s; InlineData := Some {| InlineMime := "audio/pcm"; InlineBase64 := b64 |} |}.
Definition content_message (ps : list GeminiPart) (complete interrupted : bool) : read :=
  ReadText (Some {| SetupComplete := false; ToolCalls := None;
    ServerContent := Some {| ModelTurn := Some ps; TurnComplete := complete; Interrupted := interrupted;
                             InputTranscription := None; OutputTranscription := None |} |}).
Definition two_parts : list read :=
  [content_message [text_part "Hel"] false false; ReadText None;
   content_message [audio_part "AAE=" "lo"] true false; ReadErr (EText "1006") false].
Definition greeting : SetupRequest :=
  {| SystemPrompt := "Be brief."; ReqTools := []; WakeSignal := "[CALL_CONNECTED]";
     History := [{| HRole := RoleUser; HContent := "hi" |}; {| HRole := RoleAssistant; HContent := "hello" |}] |}.
Lemma Open_writes_witness :
  writes (opening greeting) {| written := []; closed := false |}
    (Open (λ _ _, None) greeting (Ok {| SetupComplete := true; ServerContent := None; ToolCalls := None |})
       {| written := []; closed := false |}).
Proof. apply Open_writes. Defined.

(** ** What the translation does not do *)

(** An audio part that cannot be decoded loses its text as well. *)
Lemma undecodable_audio_drops_text : Events [content_message [audio_part "!" "hello"] true false] "" = ([EventTurnComplete], None).
Proof. by vm_compute. Qed.
(** The text of an interrupted turn that never completes is part of the next final text. *)
Lemma interrupted_text_leaks :
  (Events [content_message [text_part "Your balance is"] false true; content_message [text_part "Sure."] true false] "").1
  = [delta "Your balance is"; EventInterrupted; delta "Sure."; EventAssistantText "Your balance isSure." true; EventTurnComplete].
Proof. by vm_compute. Qed.
(** InjectTurn writes a turn of role model, which Open skips as rejected by the server. *)
Lemma InjectTurn_writes_model l :
  (InjectTurn (λ _ _, None) {| HRole := RoleAssistant; HContent := "hello" |} l).2
  = {| written := written l ++ [user_turn "model" "hello"]; closed := closed l |} ∧
  replay (λ _ _, None) [{| HRole := RoleAssistant; HContent := "hello" |}] l = (None, l).
Proof. done. Qed.
