(* ===== verification/WhatsAppTransport.v ===== *)
(** * Package voice/transport/whatsapp

    The WhatsApp call transport of src/voice/transport/whatsapp: negotiation of
    the peer connection (peer.go), and the transport itself (transport.go), whose
    Send, Clear, Close and pacing goroutine run concurrently and are the steps of
    a transition system.  libopus and pion are arguments: a stateful encoder, a
    stateful decoder, and calls that succeed or fail. *)

From S2P Require Import Prelude GoString GoErrors Codec VoicePipeline.
From stdpp Require Import base list sets strings.
From Stdlib Require Import ZArith Lia.
Open Scope Z_scope.

Definition inSampleRate : Z := 16000.
Definition outSampleRate : Z := 24000.
Definition outFrameMs : Z := 20.
Definition outFrameSamples : nat := Z.to_nat (outSampleRate * outFrameMs / 1000).
(** The capacity of the channel outQueue. *)
Definition outQueueCap : nat := 1000.
Definition InboundFormat : AudioFormat := {| encoding := EncodingPCM16LE; SampleRate := inSampleRate; Channels := 1 |}.
Definition OutboundFormat : AudioFormat := {| encoding := EncodingPCM16LE; SampleRate := outSampleRate; Channels := 1 |}.

Definition bytesToInt16LE (b : list Z) : list Z := samplesLE b.
Definition int16LEToBytes (s : list Z) : list Z := s ≫= λ v, PutUint16 (uint16 v).
Definition isCloseErr (err : error) : bool :=
  let msg := error_text err in Contains msg "closed" || Contains msg "EOF" || Contains msg "use of closed".

Lemma sublist_full {A} (l k : list A) : l `sublist_of` k → length l = length k → l = k.
Proof.
  induction 1 as [|x l k _ IH|x l k Hs _]; intros E; [done| |].
  - by rewrite IH by (simpl in E; lia).
  - apply sublist_length in Hs. simpl in E. lia.
Qed.

(** An encoded Opus frame. *)
Abbreviation packet := (list Z).

(** ** Send, Clear, Close *)

Section transport.
Context {E : Type}.
(** [enc.Encode]: the encoder keeps a state, also when it fails. *)
Variable Encode : E → list Z → Prelude.result error packet * E.

Record Transport := { enc : E; sendBuf : list Z; outQueue : list packet; silenceFrame : packet; closed : bool }.

(** New encodes one silent frame and starts with the encoder's next state; the
    two libopus constructors are the arguments. *)
Definition New (newDecoder : option error) (newEncoder : Prelude.result error E) : Prelude.result error Transport :=
  match newDecoder with
  | Some err => Err err
  | None =>
      match newEncoder with
      | Err err => Err err
      | Ok e =>
          match Encode e (replicate outFrameSamples 0) with
          | (Err err, _) => Err err
          | (Ok sn, e) => Ok {| enc := e; sendBuf := []; outQueue := []; silenceFrame := sn; closed := false |}
          end
      end
  end.

(** The channel send with a default case. *)
Definition enqueue (q : list packet) (p : packet) : list packet :=
  if decide (length q < outQueueCap)%nat then q ++ [p] else q.
(** One iteration of the loop of Send. *)
Definition send_chunk (t : Transport) : option error * Transport :=
  let frame := take outFrameSamples (sendBuf t) in
  let rest := drop outFrameSamples (sendBuf t) in
  match Encode (enc t) frame with
  | (Err encErr, e) => (Some encErr, {| enc := e; sendBuf := rest; outQueue := outQueue t; silenceFrame := silenceFrame t; closed := closed t |})
  | (Ok p, e) => (None, {| enc := e; sendBuf := rest; outQueue := enqueue (outQueue t) p; silenceFrame := silenceFrame t; closed := closed t |})
  end.
Definition buffer (f : Frame) (t : Transport) : Transport :=
  {| enc := enc t; sendBuf := sendBuf t ++ bytesToInt16LE (Data f); outQueue := outQueue t;
     silenceFrame := silenceFrame t; closed := closed t |}.
(** The loop; every iteration shortens sendBuf. *)
Fixpoint send_loop (fuel : nat) (t : Transport) : option error * Transport :=
  match fuel with
  | O => (None, t)
  | S fuel =>
      if decide (outFrameSamples ≤ length (sendBuf t))%nat then
        match send_chunk t with (Some err, t) => (Some err, t) | (None, t) => send_loop fuel t end
      else (None, t)
  end.
Definition Send (f : Frame) (t : Transport) : option error * Transport :=
  if closed t then (None, t) else let t := buffer f t in send_loop (length (sendBuf t)) t.

Definition with_queue (q : list packet) (t : Transport) : Transport :=
  {| enc := enc t; sendBuf := sendBuf t; outQueue := q; silenceFrame := silenceFrame t; closed := closed t |}.
(** Clear pops until the queue is empty. *)
Definition Clear (t : Transport) : option error * Transport := (None, with_queue [] t).
Definition Mark (name : string) (t : Transport) : option error * Transport := (None, t).
Definition Close (pcClose : option error) (t : Transport) : option error * Transport :=
  if closed t then (None, t)
  else (pcClose, {| enc := enc t; sendBuf := sendBuf t; outQueue := outQueue t; silenceFrame := silenceFrame t; closed := true |}).
(** The frame of one tick of paceSender: a queued frame, or silence. *)
Definition pace_frame (t : Transport) : packet * Transport :=
  match outQueue t with q :: qs => (q, with_queue qs t) | [] => (silenceFrame t, t) end.

(** ** The goroutines interleaved *)

(** Where paceSender is: at the check of done, past it, or returned. *)
Inductive pacer := AtCheck | Armed | Exited.
(** What was given, cut, encoded, lost and put on the wire so far. *)
Record World := {
  tr : Transport;
  sending : bool;                  (* a Send holds writeMu and is in its loop *)
  pace : pacer;
  accepted : list Z;               (* the samples of the accepted frames *)
  chunks : list (list Z);          (* handed to the encoder *)
  packets : list packet;           (* returned by the encoder *)
  overflowed : nat; cleared : nat; (* packets lost to the full queue, to Clear *)
  wire : list (bool * packet)      (* per tick: whether a packet was queued, and the frame written *)
}.
Inductive label :=
| LSend (f : Frame)   (* Send takes the mutex and buffers the samples *)
| LChunk              (* one iteration of its loop *)
| LDone               (* the loop ends *)
| LClear              (* one receive of Clear *)
| LClose              (* Close takes the mutex *)
| LCheck              (* paceSender looks at done *)
| LTick               (* paceSender has waited and writes one frame *)
| LQuit.              (* paceSender sees done while it waits *)

Definition start (t : Transport) : World :=
  {| tr := t; sending := false; pace := AtCheck; accepted := []; chunks := []; packets := [];
     overflowed := 0; cleared := 0; wire := [] |}.
(** The encoder's output added to the history. *)
Definition chunk_world (w : World) : World :=
  let '(err, t) := send_chunk (tr w) in
  let out := (Encode (enc (tr w)) (take outFrameSamples (sendBuf (tr w)))).1 in
  {| tr := t; sending := match err with None => true | Some _ => false end; pace := pace w; accepted := accepted w;
     chunks := chunks w ++ [take outFrameSamples (sendBuf (tr w))];
     packets := packets w ++ match out with Ok p => [p] | Err _ => [] end;
     overflowed := (overflowed w + match out with Ok _ => if decide (length (outQueue (tr w)) < outQueueCap)%nat then 0 else 1
                                            | Err _ => 0 end)%nat;
     cleared := cleared w; wire := wire w |}.
Definition exec (l : label) (w : World) : option World :=
  let 'Build_World t s p a c k o d r := w in
  match l with
  | LSend f =>
      if s then None
      else if closed t then Some w
      else Some {| tr := buffer f t; sending := true; pace := p; accepted := a ++ bytesToInt16LE (Data f);
                   chunks := c; packets := k; overflowed := o; cleared := d; wire := r |}
  | LChunk => if s && bool_decide (outFrameSamples ≤ length (sendBuf t))%nat then Some (chunk_world w) else None
  | LDone =>
      if s && bool_decide (length (sendBuf t) < outFrameSamples)%nat then
        Some {| tr := t; sending := false; pace := p; accepted := a; chunks := c; packets := k;
                overflowed := o; cleared := d; wire := r |}
      else None
  | LClear =>
      match outQueue t with
      | [] => None
      | _ :: qs => Some {| tr := with_queue qs t; sending := s; pace := p; accepted := a; chunks := c; packets := k;
                           overflowed := o; cleared := S d; wire := r |}
      end
  | LClose =>
      if s then None
      else Some {| tr := (Close None t).2; sending := s; pace := p; accepted := a; chunks := c; packets := k;
                   overflowed := o; cleared := d; wire := r |}
  | LCheck =>
      match p with
      | AtCheck => Some {| tr := t; sending := s; pace := if closed t then Exited else Armed; accepted := a; chunks := c;
                           packets := k; overflowed := o; cleared := d; wire := r |}
      | _ => None
      end
  | LTick =>
      match p with
      | Armed => Some {| tr := (pace_frame t).2; sending := s; pace := AtCheck; accepted := a; chunks := c; packets := k;
                         overflowed := o; cleared := d; wire := r ++ [(bool_decide (outQueue t ≠ []), (pace_frame t).1)] |}
      | _ => None
      end
  | LQuit =>
      match p with
      | Armed => if closed t then Some {| tr := t; sending := s; pace := Exited; accepted := a; chunks := c; packets := k;
                                          overflowed := o; cleared := d; wire := r |} else None
      | _ => None
      end
  end.
Fixpoint run (ls : list label) (w : World) : option World :=
  match ls with [] => Some w | l :: ls => exec l w ≫= run ls end.

(** ** What holds in every interleaving *)

(** The packets of a list of chunks, and the encoder after them. *)
Fixpoint encode_all (e : E) (cs : list (list Z)) : list packet * E :=
  match cs with
  | [] => ([], e)
  | c :: cs =>
      let '(r, e) := Encode e c in
      let '(ps, e) := encode_all e cs in (match r with Ok p => p :: ps | Err _ => ps end, e)
  end.
(** The frames written at the ticks that found the queue not empty. *)
Definition audio (w : World) : list packet := omap (λ x : bool * packet, if x.1 then Some x.2 else None) (wire w).

Record Inv (e0 : E) (sn : packet) (w : World) : Prop := {
  inv_framing : concat (chunks w) ++ sendBuf (tr w) = accepted w;
  inv_sizes : Forall (λ c, length c = outFrameSamples) (chunks w);
  inv_encoded : encode_all e0 (chunks w) = (packets w, enc (tr w));
  inv_cap : (length (outQueue (tr w)) ≤ outQueueCap)%nat;
  inv_order : audio w ++ outQueue (tr w) `sublist_of` packets w;
  inv_count : length (packets w) = (length (audio w) + length (outQueue (tr w)) + overflowed w + cleared w)%nat;
  inv_silence : silenceFrame (tr w) = sn ∧ Forall (λ x : bool * packet, x.1 = false → x.2 = sn) (wire w)
}.

Lemma encode_all_snoc e cs c :
  encode_all e (cs ++ [c]) =
  let '(ps, e1) := encode_all e cs in
  let '(r, e2) := Encode e1 c in (ps ++ match r with Ok p => [p] | Err _ => [] end, e2).
Proof.
  revert e. induction cs as [|d cs IH]; intros e; cbn [app encode_all].
  - destruct (Encode e c) as [[]]; done.
  - destruct (Encode e d) as [r e1]. rewrite IH. destruct (encode_all e1 cs) as [ps e2].
    destruct (Encode e2 c) as [r2 e3]. by destruct r.
Qed.
Lemma enqueue_length q p : (length q ≤ outQueueCap → length (enqueue q p) ≤ outQueueCap)%nat.
Proof. unfold enqueue. destruct (decide _); [rewrite length_app; simpl; lia|done]. Qed.

Lemma wa_Inv_chunk e0 sn w : Inv e0 sn w → (outFrameSamples ≤ length (sendBuf (tr w)))%nat → Inv e0 sn (chunk_world w).
Proof.
  intros [H1 H2 H3 H4 H5 H6 H7] Hlen. unfold chunk_world, send_chunk.
  destruct (Encode (enc (tr w)) (take outFrameSamples (sendBuf (tr w)))) as [[p|err] e'] eqn:Ee;
    constructor; cbn [tr chunks sendBuf accepted packets enc outQueue overflowed cleared fst] in *; unfold audio in *; cbn [wire].
  1,8: rewrite concat_app; cbn [concat]; by rewrite app_nil_r, <-app_assoc, take_drop.
  1,7: apply Forall_app; split; [done|]; constructor; [rewrite length_take; lia|done].
  1,6: rewrite encode_all_snoc, H3, Ee; done.
  - by apply enqueue_length.
  - unfold enqueue. destruct (decide _); [|by apply sublist_inserts_r]. rewrite app_assoc. by apply sublist_app.
  - unfold enqueue. destruct (decide _); rewrite !length_app; simpl; lia.
  - done.
  - done.
  - by rewrite app_nil_r.
  - rewrite app_nil_r. lia.
  - done.
Qed.
Lemma wa_Inv_tick e0 sn t s a c k o d r :
  Inv e0 sn (Build_World t s Armed a c k o d r) →
  Inv e0 sn (Build_World (pace_frame t).2 s AtCheck a c k o d (r ++ [(bool_decide (outQueue t ≠ []), (pace_frame t).1)])).
Proof.
  intros [H1 H2 H3 H4 H5 H6 [H7 H8]]. unfold pace_frame.
  constructor; unfold audio in *; cbn in *; destruct (outQueue t) as [|q qs] eqn:Eq; cbn in *;
    rewrite ?omap_app, ?Eq; cbn; rewrite ?app_nil_r in *; rewrite <-?app_assoc; try done; rewrite ?length_app; cbn; try lia.
  - split; [done|]. apply Forall_app_2; [done|]. by apply Forall_singleton.
  - split; [done|]. apply Forall_app_2; [done|]. by apply Forall_singleton.
Qed.
Lemma wa_Inv_exec e0 sn l w w' : Inv e0 sn w → exec l w = Some w' → Inv e0 sn w'.
Proof.
  intros HI E1. destruct l as [f| | | | | | |]; destruct w as [t s p a c k o d r]; cbn [exec] in E1.
  - destruct HI as [H1 H2 H3 H4 H5 H6 H7]. destruct s; [done|]. destruct (closed t); simplify_eq; [done|].
    constructor; cbn [tr chunks accepted packets buffer sendBuf] in *; try done. by rewrite app_assoc, H1.
  - destruct (s && _) eqn:Es; simplify_eq. apply andb_true_iff in Es as [_ Es]. apply bool_decide_eq_true in Es.
    by apply wa_Inv_chunk.
  - destruct (s && _); simplify_eq. destruct HI. by constructor.
  - destruct HI as [H1 H2 H3 H4 H5 H6 H7]. destruct (outQueue t) as [|q qs] eqn:Eq; simplify_eq.
    constructor; unfold audio in *; cbn in *; rewrite ?Eq in *; try done; [cbn in H4; lia| |cbn in H6; lia].
    etrans; [|exact H5]. apply sublist_app; [done|]. by apply sublist_cons.
  - destruct HI as [H1 H2 H3 H4 H5 H6 H7]. destruct s; simplify_eq. unfold Close.
    by constructor; cbn in *; destruct (closed t).
  - destruct p; simplify_eq. destruct HI. by constructor.
  - destruct p; simplify_eq. by apply wa_Inv_tick.
  - destruct p, (closed t); simplify_eq. destruct HI. by constructor.
Qed.
Lemma wa_Inv_run e0 sn ls w w' : Inv e0 sn w → run ls w = Some w' → Inv e0 sn w'.
Proof.
  revert w. induction ls as [|l ls IH]; intros w HI Er; cbn [run] in Er; [by simplify_eq|].
  destruct (exec l w) as [w1|] eqn:E1; [|done]. eapply IH; [by eapply wa_Inv_exec|done].
Qed.

(** *** Send is a run of the steps *)

Lemma chunk_shortens t :
  (outFrameSamples ≤ length (sendBuf t) → length (sendBuf (send_chunk t).2) < length (sendBuf t))%nat.
Proof.
  intros H. unfold send_chunk. assert (outFrameSamples = 480%nat) as E1 by done.
  destruct (Encode _ _) as [[] ?]; cbn [sendBuf snd]; rewrite length_drop; lia.
Qed.
Lemma send_loop_steps fuel t err t' w :
  (length (sendBuf t) ≤ fuel)%nat → send_loop fuel t = (err, t') → tr w = t → sending w = true →
  ∃ n w', run (replicate n LChunk ++ match err with None => [LDone] | Some _ => [] end) w = Some w' ∧
    tr w' = t' ∧ sending w' = false ∧ (err = None → length (sendBuf t') < outFrameSamples)%nat.
Proof.
  assert (∀ w, tr w = t → sending w = true → (length (sendBuf t) < outFrameSamples)%nat →
    ∃ w', run [LDone] w = Some w' ∧ tr w' = t ∧ sending w' = false ∧ (@None error = None → length (sendBuf t) < outFrameSamples)%nat) as Hdone.
  { intros [? s ? ? ? ? ? ? ?] H1 H2 H3. cbn in H1, H2. subst. cbn [run exec]. rewrite bool_decide_true by done.
    eexists. split; [done|]. done. }
  revert t w Hdone. induction fuel as [|fuel IH]; intros t w Hdone Hf E1 Ht Hs; cbn [send_loop] in E1.
  { simplify_eq. exists 0%nat. apply Hdone; [done..|]. assert (outFrameSamples = 480%nat) by done. lia. }
  destruct (decide _) as [Hc|Hc]; [|simplify_eq; exists 0%nat; apply Hdone; [done..|lia]].
  pose proof (chunk_shortens t Hc) as Hlt.
  assert (exec LChunk w = Some (chunk_world w)) as Hx.
  { destruct w as [? s ? ? ? ? ? ? ?]. cbn in Ht, Hs. subst. cbn [exec]. by rewrite bool_decide_true. }
  destruct (send_chunk t) as [[e|] t1] eqn:Ec.
  - simplify_eq. exists 1%nat, (chunk_world w). cbn [replicate app run]. rewrite Hx. split; [done|].
    unfold chunk_world. by rewrite Ec.
  - destruct (IH t1 (chunk_world w)) as (n & w' & Hr & H2 & H3 & H4); [|cbn [snd] in Hlt; lia|done|unfold chunk_world; by rewrite Ht, Ec..|].
    + intros [? s ? ? ? ? ? ? ?] ? ? ?. cbn in *. subst. cbn [run exec]. rewrite bool_decide_true by done. eexists. by split.
    + exists (S n), w'. cbn [replicate app run]. by rewrite Hx.
Qed.
(** Send returns; unless the encoder fails it leaves less than a frame buffered,
    and what it does is a run of its steps with nothing in between. *)
Lemma Send_steps f w err t' :
  sending w = false → closed (tr w) = false → Send f (tr w) = (err, t') →
  ∃ n w', run (LSend f :: replicate n LChunk ++ match err with None => [LDone] | Some _ => [] end) w = Some w' ∧
    tr w' = t' ∧ sending w' = false ∧ (err = None → length (sendBuf t') < outFrameSamples)%nat.
Proof.
  intros Hs Hc E1. unfold Send in E1. rewrite Hc in E1.
  destruct w as [t s p a c k o d r]. cbn in Hs, Hc, E1. subst s.
  edestruct (send_loop_steps _ _ _ _ {| tr := buffer f t; sending := true; pace := p; accepted := a ++ bytesToInt16LE (Data f);
    chunks := c; packets := k; overflowed := o; cleared := d; wire := r |} (le_n _) E1 eq_refl eq_refl) as (n & w' & Hr & ?).
  exists n, w'. cbn [run exec]. by rewrite Hc.
Qed.

(** Once closed, nothing more is accepted and at most one more frame, which
    paceSender was about to write, is put on the wire. *)
Lemma closed_exec l w w' :
  closed (tr w) = true → exec l w = Some w' →
  closed (tr w') = true ∧ accepted w' = accepted w ∧
  (length (wire w') + match pace w' with Armed => 1 | _ => 0 end ≤ length (wire w) + match pace w with Armed => 1 | _ => 0 end)%nat.
Proof.
  intros Hc E1. destruct w as [t s p a c k o d r]. cbn in Hc. destruct l; cbn [exec] in E1.
  - destruct s; [done|]. rewrite Hc in E1. by simplify_eq.
  - destruct (s && _); simplify_eq. unfold chunk_world, send_chunk. cbn. by destruct (Encode _ _) as [[] ?].
  - destruct (s && _); by simplify_eq.
  - destruct (outQueue t); by simplify_eq.
  - destruct s; simplify_eq. unfold Close. by rewrite Hc.
  - destruct p; simplify_eq. rewrite Hc. cbn. split_and!; [done|done|lia].
  - destruct p; simplify_eq. unfold pace_frame. cbn. rewrite length_app. cbn. destruct (outQueue t); cbn; split_and!; try done; lia.
  - destruct p; [done| |done]. rewrite Hc in E1. simplify_eq. cbn. split_and!; [done|done|lia].
Qed.
Lemma closed_run ls w w' :
  closed (tr w) = true → run ls w = Some w' →
  accepted w' = accepted w ∧ (length (wire w') ≤ S (length (wire w)))%nat.
Proof.
  intros Hc Er. cut (accepted w' = accepted w ∧ (length (wire w') ≤ length (wire w) + match pace w with Armed => 1 | _ => 0 end)%nat).
  { intros [? ?]. split; [done|]. destruct (pace w); lia. }
  revert w Hc Er. induction ls as [|l ls IH]; intros w Hc Er; cbn [run] in Er.
  - simplify_eq. split; [done|lia].
  - destruct (exec l w) as [w1|] eqn:E1; [|done]. destruct (closed_exec _ _ _ Hc E1) as (Hc1 & Ha & Hw).
    cbn in Er. destruct (IH w1 Hc1 Er) as [Ha' Hw']. split; [congruence|lia].
Qed.
Lemma wa_Inv_start newDecoder newEncoder t : New newDecoder newEncoder = Ok t → Inv (enc t) (silenceFrame t) (start t).
Proof.
  unfold New. destruct newDecoder; [done|]. destruct newEncoder as [e|]; [|done].
  destruct (Encode e _) as [[] ?]; [|done]. intros [= <-]. constructor; cbn; try done; lia.
Qed.

(** C16: outbound audio of a WhatsApp call.  In every interleaving of Send, Clear,
    Close and the pacing goroutine: the chunks handed to the encoder are exactly
    20 ms each and, with the samples still buffered, are the accepted samples in
    order.  A tick that finds the queue empty writes the encoding of 20 ms of
    silence; the frames written at the other ticks, with those still queued, are
    the encoder's in its order, at most a thousand are queued, and every encoded
    frame was written, is queued, was lost to a full queue or cleared, so that
    without overflow and interruption nothing is lost.  After Close no sample is
    accepted and at most one more frame is written. *)
Theorem whatsapp_audio newDecoder newEncoder t ls w :
  New newDecoder newEncoder = Ok t → run ls (start t) = Some w →
  concat (chunks w) ++ sendBuf (tr w) = accepted w ∧
  Forall (λ c, length c = 480%nat) (chunks w) ∧
  packets w = (encode_all (enc t) (chunks w)).1 ∧
  (∃ e, newEncoder = Ok e ∧ Encode e (replicate 480 0) = (Ok (silenceFrame t), enc t)) ∧
  Forall (λ x : bool * packet, x.1 = false → x.2 = silenceFrame t) (wire w) ∧
  (length (outQueue (tr w)) ≤ 1000)%nat ∧
  audio w ++ outQueue (tr w) `sublist_of` packets w ∧
  length (packets w) = (length (audio w) + length (outQueue (tr w)) + overflowed w + cleared w)%nat ∧
  (overflowed w = 0%nat → cleared w = 0%nat → audio w ++ outQueue (tr w) = packets w) ∧
  (closed (tr w) = true → ∀ ls' w', run ls' w = Some w' →
     accepted w' = accepted w ∧ (length (wire w') ≤ S (length (wire w)))%nat).
Proof.
  intros HN Hr. pose proof (wa_Inv_run _ _ _ _ _ (wa_Inv_start _ _ _ HN) Hr) as [H1 H2 H3 H4 H5 H6 [_ H7]].
  split_and!; [done|done|by rewrite H3| |done|done|done|done| |intros Hc ls' w' Hr'; by eapply closed_run].
  - unfold New in HN. destruct newDecoder; [done|]. destruct newEncoder as [e|]; [|done]. exists e. split; [done|].
    change 480%nat with outFrameSamples. destruct (Encode e _) as [[sn|] e']; by simplify_eq.
  - intros Ho Hd. apply sublist_full; [done|]. rewrite length_app. lia.
Qed.
End transport.

(** ** The pacing clock *)

(** One iteration of paceSender before the write: from the deadline of the
    previous frame, the reading of time.Until, the time the timer fired and the
    reading of the resynchronisation, the new deadline and when the write starts. *)
Definition frameDur : Duration := outFrameMs * Millisecond.
Definition pace_deadline (next now woke resync : Time) : Time * Time :=
  let next := time_Add next frameDur in
  let wait := time_Sub next now in
  if 0 <? wait then (next, woke)
  else if wait <? - Second then (resync, resync)
  else (next, now).
(** The readings of the clock in one iteration, and the deadline and start of the write. *)
Record reading := { r_now : Time; r_woke : Time; r_resync : Time }.
Fixpoint paced (next : Time) (rs : list reading) : list (reading * Time * Time) :=
  match rs with
  | [] => []
  | r :: rs => let '(next, at_) := pace_deadline next (r_now r) (r_woke r) (r_resync r) in (r, next, at_) :: paced next rs
  end.
(** A clock that does not go back and timers that do not fire early. *)
Definition clock_ok (next : Time) (r : reading) : Prop :=
  r_now r ≤ r_resync r ∧ r_now r + time_Sub (time_Add next frameDur) (r_now r) ≤ r_woke r.
Fixpoint clocks_ok (next : Time) (rs : list reading) : Prop :=
  match rs with
  | [] => True
  | r :: rs => clock_ok next r ∧ time_Add next frameDur - r_now r ≤ MaxInt64 ∧
               clocks_ok (pace_deadline next (r_now r) (r_woke r) (r_resync r)).1 rs
  end.

Lemma pace_deadline_spec next now woke resync :
  clock_ok next {| r_now := now; r_woke := woke; r_resync := resync |} → time_Add next frameDur - now ≤ MaxInt64 →
  let '(next', at_) := pace_deadline next now woke resync in
  next + frameDur ≤ next' ≤ at_ ∧ now - Second ≤ next'.
Proof.
  unfold clock_ok, pace_deadline, time_Add, frameDur, outFrameMs. cbn [r_now r_woke r_resync]. intros [H1 H2] H3.
  assert (∀ x, x ≤ MaxInt64 → x ≤ time_Sub x 0 ∧ (time_Sub x 0 = x ∨ time_Sub x 0 = MinInt64)) as Hs.
  { unfold time_Sub, MinInt64, MaxInt64. lia. }
  specialize (Hs (next + 20 * Millisecond - now) H3).
  replace (time_Sub (next + 20 * Millisecond - now) 0) with (time_Sub (next + 20 * Millisecond) now) in Hs
    by (unfold time_Sub; by rewrite Z.sub_0_r).
  set (wait := time_Sub (next + 20 * Millisecond) now) in *. unfold Millisecond, Second, MinInt64 in *.
  destruct (Z.ltb_spec 0 wait); [lia|]. destruct (Z.ltb_spec wait (Z.opp 1000000000)); lia.
Qed.

(** Deadlines grow by at least 20 ms per frame; each write starts after its own. *)
Lemma paced_deadlines next rs i r n a :
  clocks_ok next rs → paced next rs !! i = Some (r, n, a) →
  next + (Z.of_nat i + 1) * frameDur ≤ n ≤ a ∧ r_now r - Second ≤ n.
Proof.
  revert next i. induction rs as [|r0 rs IH]; intros next i Hok Hi; [done|]. cbn [paced clocks_ok] in *.
  destruct Hok as (Hc & Hm & Hok). pose proof (pace_deadline_spec next (r_now r0) (r_woke r0) (r_resync r0) Hc Hm) as Hp.
  destruct (pace_deadline _ _ _ _) as [n0 a0]. destruct i as [|i]; cbn in Hi; [simplify_eq; lia|].
  destruct (IH n0 i Hok Hi) as [H1 H2]. lia.
Qed.
Lemma paced_suffix next rs i r n a :
  clocks_ok next rs → paced next rs !! i = Some (r, n, a) →
  clocks_ok n (drop (S i) rs) ∧ drop (S i) (paced next rs) = paced n (drop (S i) rs).
Proof.
  revert next i. induction rs as [|r0 rs IH]; intros next i Hok Hi; [done|]. cbn [paced clocks_ok] in *.
  destruct Hok as (_ & _ & Hok). destruct (pace_deadline _ _ _ _) as [n0 a0] eqn:E0. cbn [fst] in Hok.
  destruct i as [|i]; cbn in Hi; [simplify_eq; cbn; by rewrite drop_0|]. by apply IH.
Qed.

(** C34: the pacing of outbound audio.  Frame [i] is never written before its
    slot, 20 ms after that of frame [i - 1], so the caller gets at most one frame
    per 20 ms since the call began; and after a stall the sender catches up by at
    most a second: from the moment frame [i] looked at the clock, frame [j] takes
    at least 20 ms per frame less one second.  For a clock that does not go back
    and timers that do not fire early. *)
Theorem pacing begin_ rs i j ri ni ai rj nj aj :
  clocks_ok begin_ rs → (i < j)%nat →
  paced begin_ rs !! i = Some (ri, ni, ai) → paced begin_ rs !! j = Some (rj, nj, aj) →
  begin_ + (Z.of_nat i + 1) * frameDur ≤ ai ∧
  r_now ri + (Z.of_nat j - Z.of_nat i) * frameDur - Second ≤ aj.
Proof.
  intros Hok Hij Hi Hj. pose proof (paced_deadlines _ _ _ _ _ _ Hok Hi) as [H1 H2].
  destruct (paced_suffix _ _ _ _ _ _ Hok Hi) as [Hok' Hd].
  assert (paced ni (drop (S i) rs) !! (j - S i)%nat = Some (rj, nj, aj)) as Hj'.
  { rewrite <-Hd, lookup_drop. by replace (S i + (j - S i))%nat with j by lia. }
  pose proof (paced_deadlines _ _ _ _ _ _ Hok' Hj') as [H3 _]. split; [lia|].
  replace (Z.of_nat (j - S i)) with (Z.of_nat j - Z.of_nat i - 1) in H3 by lia. lia.
Qed.

(** ** Receive *)

Definition io_EOF : error := ENew "EOF".
Section receive.
Context {D : Type}.
(** [dec.Decode] into a buffer of 960 samples: the samples, or an error. *)
Variable Decode : D → packet → Prelude.result error (list Z) * D.

(** What ReadRTP yields; a packet comes with the reading of the clock. *)
Inductive rtp_read := RTP (payload : packet) (now : Time) | RTPErr (err : error).
Definition rtpToFrame (d : D) (payload : packet) (now : Time) : Prelude.result error Frame * D :=
  match Decode d payload with
  | (Err err, d) => (Err err, d)
  | (Ok pcm, d) => (Ok {| Data := int16LEToBytes pcm; Timestamp := now |}, d)
  end.
(** The frames sent until a read fails, and what is sent on errs: nothing, nil
    or an error.  When the context ends or the transport is closed, a prefix of
    the frames is sent and nothing on errs. *)
Fixpoint Receive (d : D) (reads : list rtp_read) : list Frame * option (option error) :=
  match reads with
  | [] => ([], None)
  | RTPErr err :: _ => ([], Some (if bool_decide (error_text err = error_text io_EOF) || isCloseErr err then None else Some err))
  | RTP payload now :: reads =>
      match rtpToFrame d payload now with
      | (Err _, d) => Receive d reads
      | (Ok f, d) => let '(fs, e) := Receive d reads in (f :: fs, e)
      end
  end.

(** The samples decoded before the first failed read. *)
Fixpoint decoded (d : D) (reads : list rtp_read) : list (list Z) :=
  match reads with
  | RTP payload _ :: reads => match Decode d payload with
                              | (Ok pcm, d) => pcm :: decoded d reads
                              | (Err _, d) => decoded d reads
                              end
  | _ => []
  end.
(** One frame per packet that decodes, in order, from whose bytes the decoder's
    samples are read back. *)
Lemma Receive_frames d reads :
  (∀ d p pcm d', Decode d p = (Ok pcm, d') → Forall in_int16 pcm) →
  bytesToInt16LE ∘ Data <$> (Receive d reads).1 = decoded d reads.
Proof.
  intros HD. revert d. induction reads as [|[p now|err] reads IH]; intros d; [done| |done].
  cbn [Receive decoded]. unfold rtpToFrame. destruct (Decode d p) as [[pcm|e] d'] eqn:Ed; [|apply IH].
  specialize (IH d'). destruct (Receive d' reads) as [fs e]. cbn [fst fmap list_fmap compose Data] in *. f_equal; [|done].
  apply samplesLE_PutUint16. by eapply HD.
Qed.
Lemma wa_Receive_error d reads err : (Receive d reads).2 = Some (Some err) → RTPErr err ∈ reads ∧ isCloseErr err = false.
Proof.
  revert d. induction reads as [|[p now|e] reads IH]; intros d; cbn [Receive]; [done| |].
  - destruct (rtpToFrame d p now) as [[f|] d']; [specialize (IH d'); destruct (Receive d' reads)|]; cbn in *;
      intros H; (split; [right; by eapply IH|by eapply IH]).
  - intros H. cbn in H. destruct (_ || _) eqn:Eo; simplify_eq. apply orb_false_iff in Eo as [_ Eo]. by split; [left|].
Qed.
End receive.

(** ** peer.go *)

Definition defaultSTUN : string := "stun:stun.l.google.com:19302".
Record SettingEngine := { NAT1To1IPs : list string; PortRange : option (Z * Z) }.
Record Config := {
  ICEServers : list string; PublicIP : string; UDPPortMin : Z; UDPPortMax : Z;
  settingEngine : option SettingEngine
}.
(** The calls of pion, each of which may fail. *)
Inductive pion_call :=
| RegisterCodec | SetEphemeralUDPPortRange (lo hi : Z) | NewPeerConnection (iceServers : list string) (se : option SettingEngine)
| NewTrack | AddTrack | SetRemoteDescription (sdp : string) | CreateAnswer | SetLocalDescription | AwaitGathering | ClosePC.

Definition iceServers (cfg : Config) : list string :=
  if bool_decide (ICEServers cfg = []) && String.eqb (PublicIP cfg) "" then [defaultSTUN] else ICEServers cfg.

Section peer.
(** Whether a call fails; AwaitGathering fails with ctx.Err when the context ends first. *)
Variable fails : pion_call → option error.

(** The calls made, in order, and the error returned. *)
Definition call_or (c : pion_call) (ok : list pion_call * option error) : list pion_call * option error :=
  match fails c with Some err => ([c], Some err) | None => (c :: ok.1, ok.2) end.
(** A call after which the connection exists: a failure closes it. *)
Definition call_or_close (c : pion_call) (ok : list pion_call * option error) : list pion_call * option error :=
  match fails c with Some err => ([c; ClosePC], Some err) | None => (c :: ok.1, ok.2) end.
Definition port_range (cfg : Config) : bool := (0 <? UDPPortMin cfg) && (UDPPortMin cfg <=? UDPPortMax cfg).
Definition negotiate (cfg : Config) (offerSDP : string) (se : option SettingEngine) : list pion_call * option error :=
  call_or (NewPeerConnection (iceServers cfg) se)
    (call_or_close NewTrack (call_or_close AddTrack (call_or_close (SetRemoteDescription offerSDP)
      (call_or_close CreateAnswer (call_or_close SetLocalDescription (call_or_close AwaitGathering ([], None))))))).
Definition NewPeer (offerSDP : string) (cfg : Config) : list pion_call * option error :=
  call_or RegisterCodec
    match settingEngine cfg with
    | Some se => negotiate cfg offerSDP (Some se)
    | None =>
        if negb (String.eqb (PublicIP cfg) "") then
          if port_range cfg then
            call_or (SetEphemeralUDPPortRange (UDPPortMin cfg) (UDPPortMax cfg))
              (negotiate cfg offerSDP (Some {| NAT1To1IPs := [PublicIP cfg]; PortRange := Some (UDPPortMin cfg, UDPPortMax cfg) |}))
          else negotiate cfg offerSDP (Some {| NAT1To1IPs := [PublicIP cfg]; PortRange := None |})
        else negotiate cfg offerSDP None
    end.

Definition created (cs : list pion_call) : Prop :=
  ∃ servers se, NewPeerConnection servers se ∈ cs ∧ fails (NewPeerConnection servers se) = None.
(** A run of calls that closes the connection exactly when it fails. *)
Definition closes_on_failure (r : list pion_call * option error) : Prop :=
  (is_Some r.2 ↔ ClosePC ∈ r.1) ∧ ∀ servers se, NewPeerConnection servers se ∉ r.1.
Lemma closes_nil : closes_on_failure ([], None).
Proof. split; [split; [intros [? ?]; done|intros H; by apply elem_of_nil in H]|intros ? ? H; by apply elem_of_nil in H]. Qed.
Lemma closes_call c r :
  c ≠ ClosePC → (∀ s e, c ≠ NewPeerConnection s e) → closes_on_failure r → closes_on_failure (call_or_close c r).
Proof.
  intros Hc Hn [H1 H2]. unfold call_or_close, closes_on_failure. destruct (fails c) as [err|]; cbn [fst snd].
  - split; [split; [intros _; set_solver|done]|]. intros s e. specialize (Hn s e). set_solver.
  - split; [rewrite H1, elem_of_cons; naive_solver|]. intros s e. specialize (Hn s e). specialize (H2 s e). set_solver.
Qed.
(** The connection, once created, is closed exactly when the negotiation fails;
    before that no call closes it. *)
Definition released (r : list pion_call * option error) : Prop :=
  (created r.1 → (is_Some r.2 ↔ ClosePC ∈ r.1)) ∧ (¬ created r.1 → is_Some r.2 ∧ ClosePC ∉ r.1).
Lemma released_call c r :
  c ≠ ClosePC → (∀ s e, c ≠ NewPeerConnection s e) → released r → released (call_or c r).
Proof.
  intros Hc Hn [H1 H2]. unfold call_or, released, created in *. destruct (fails c) as [err|] eqn:Ef; cbn [fst snd].
  - split; [intros (s & e & Hin & _); specialize (Hn s e); set_solver|intros _; split; [done|set_solver]].
  - split.
    + intros (s & e & Hin & Hf). rewrite H1; [set_solver|]. exists s, e. specialize (Hn s e). set_solver.
    + intros Hno. destruct H2 as [? ?]; [intros (s & e & Hin & Hf); apply Hno; exists s, e; set_solver|]. set_solver.
Qed.
Lemma negotiate_released cfg offerSDP se : released (negotiate cfg offerSDP se).
Proof.
  unfold negotiate. set (r := call_or_close NewTrack _).
  assert (closes_on_failure r) as [H1 H2] by (unfold r; repeat (apply closes_call; [done|done|]); apply closes_nil).
  unfold call_or, released, created. destruct (fails (NewPeerConnection _ _)) as [err|] eqn:Ef; cbn [fst snd].
  - split; [intros (s & e & Hin & Hf); apply list_elem_of_singleton in Hin; congruence|].
    intros _. split; [done|]. by rewrite list_elem_of_singleton.
  - split; [rewrite H1; set_solver|]. intros Hno. exfalso. apply Hno. eexists _, _. split; [by left|done].
Qed.

(** call setup.  NewPeer closes the peer connection exactly when it returns
    an error after having created it, so that no failure leaks a connection and
    no success returns a closed one; and STUN is used exactly when neither
    servers nor a public address are configured. *)
Theorem NewPeer_releases offerSDP cfg :
  released (NewPeer offerSDP cfg) ∧
  (∀ servers se, NewPeerConnection servers se ∈ (NewPeer offerSDP cfg).1 →
     (defaultSTUN ∈ servers ↔ defaultSTUN ∈ ICEServers cfg ∨ ICEServers cfg = [] ∧ PublicIP cfg = "")).
Proof.
  split.
  - unfold NewPeer. apply released_call; [done|done|]. destruct (settingEngine cfg) as [se|]; [apply negotiate_released|].
    destruct (negb _); [|apply negotiate_released]. destruct (port_range cfg); [|apply negotiate_released].
    apply released_call; [done|done|apply negotiate_released].
  - intros servers se Hin.
    assert (servers = iceServers cfg) as ->.
    { unfold NewPeer, negotiate, call_or, call_or_close in Hin.
      repeat (case_match; cbn [fst snd] in Hin); set_solver. }
    unfold iceServers. destruct (String.eqb_spec (PublicIP cfg) "") as [->|Hp];
      destruct (decide (ICEServers cfg = [])) as [->|Hi]; rewrite ?bool_decide_true, ?bool_decide_false by done; cbn; set_solver.
Qed.
End peer.

(** ** Witnesses *)

(** An encoder that numbers its frames and keeps their first sample, and one that fails. *)
Definition numbering (n : Z) (c : list Z) : Prelude.result error packet * Z := (Ok [n; default 0 (head c)], n + 1).
Definition pcm_frame (v : Z) (n : nat) : Frame :=
  {| Data := int16LEToBytes (replicate n v); Timestamp := time_zero |}.
Definition fresh : Transport :=
  {| enc := 1; sendBuf := []; outQueue := []; silenceFrame := [0; 0]; closed := false |}.
Definition barge_in : list label :=
  [LSend (pcm_frame 7 1000); LChunk; LCheck; LTick; LChunk; LDone; LClear; LCheck; LSend (pcm_frame 9 440); LChunk; LDone; LTick; LClose].
Lemma fresh_new : New numbering None (Ok 0) = Ok fresh.
Proof. reflexivity. Qed.
Lemma whatsapp_audio_witness :
  ∃ w, run numbering barge_in (start fresh) = Some w ∧ audio w = [[1; 7]; [3; 7]] ∧ cleared w = 1%nat ∧
       (length (outQueue (tr w)) ≤ 1000)%nat ∧ concat (chunks w) ++ sendBuf (tr w) = accepted w.
Proof.
  destruct (run numbering barge_in (start fresh)) as [w|] eqn:E.
  - exists w. destruct (whatsapp_audio numbering None (Ok 0) fresh barge_in w fresh_new E) as (H1 & _ & _ & _ & _ & H4 & _).
    assert ((λ w, (audio w, cleared w)) <$> run numbering barge_in (start fresh) = Some ([[1; 7]; [3; 7]], 1%nat)) as Hc by (vm_compute; reflexivity).
    rewrite E in Hc. cbn in Hc. injection Hc as Ha Hc. by split_and!.
  - assert (is_Some (run numbering barge_in (start fresh))) as Hs by (vm_compute; by eexists). rewrite E in Hs. by destruct Hs.
Defined.
Definition steady : list reading :=
  [{| r_now := 5000000; r_woke := 20000000; r_resync := 20000000 |};
   {| r_now := 2000000000; r_woke := 2000000000; r_resync := 2000000001 |};
   {| r_now := 2000000002; r_woke := 2020000001; r_resync := 2020000001 |}].
Lemma pacing_witness :
  paced 0 steady !! 2%nat = Some ({| r_now := 2000000002; r_woke := 2020000001; r_resync := 2020000001 |}, 2020000001, 2020000001) ∧
  0 + (Z.of_nat 0 + 1) * frameDur ≤ 20000000.
Proof.
  split; [reflexivity|].
  refine (proj1 (pacing 0 steady 0 2 _ _ _ _ _ _ _ _ eq_refl eq_refl)); [|lia].
  vm_compute. split_and!; first [exact I|congruence].
Defined.

(** ** What Clear leaves behind *)

(** Clear empties the queue and not sendBuf: the first frame encoded after an
    interruption starts with the samples left over from the interrupted reply. *)
Lemma Clear_keeps_buffered_samples :
  let t1 := (Send numbering (pcm_frame 7 500) fresh).2 in
  let t2 := (Clear t1).2 in
  let t3 := (Send numbering (pcm_frame 9 460) t2).2 in
  outQueue t2 = [] ∧ sendBuf t2 = replicate 20 7 ∧ outQueue t3 = [[2; 7]].
Proof. vm_compute. done. Qed.
