(* ===== verification/TwilioTransport.v ===== *)
(** * Package voice/transport/twilio

    The Twilio Media Streams transport of src/voice/transport/twilio
    (transport.go, types.go): what it reads and writes on its WebSocket, with its
    pacing of inbound frames. *)

From S2P Require Import Prelude GoString GoErrors Base64 Codec VoicePipeline.
From stdpp Require Import base list gmap strings.
From Stdlib Require Import ZArith Lia.
Open Scope Z_scope.

Module Twilio.

(** ** types.go *)

Record TwilioMediaFormat := { Encoding : string; MSampleRate : Z; MChannels : Z }.
Record TwilioStart := {
  SStreamSid : string; AccountSid : string; CallSid : string; Tracks : list string;
  MediaFormat : TwilioMediaFormat; CustomParameters : gmap string string
}.
Record TwilioMedia := { Track : string; Chunk : string; MediaTimestamp : string; Payload : string }.
Record TwilioStop := { StopAccountSid : string; StopCallSid : string }.
Record TwilioMessage := {
  Event : string; SequenceNumber : string; Protocol : string; Version : string;
  Start : option TwilioStart; Media : option TwilioMedia; MarkName : option string; Stop : option TwilioStop;
  StreamSid : string
}.
Record TwilioOutMessage := { OutEvent : string; OutStreamSid : string; OutPayload : option string; OutMark : option string }.

(** ** transport.go *)

Definition InboundFormat : AudioFormat := {| encoding := EncodingMulaw; SampleRate := 8000; Channels := 1 |}.
Definition OutboundFormat : AudioFormat := {| encoding := EncodingMulaw; SampleRate := 8000; Channels := 1 |}.

(** What ReadMessage yields: a text, which decodes or not, with the reading of the
    clock and the reading after a timer of a duration, or an error. *)
Inductive read := Text (m : option TwilioMessage) (now : Time) (woke : Duration → Time) | ReadErr (err : error) (normalClose : bool).

(** The audio of a media event. *)
Definition media_data (m : TwilioMessage) : option (list Z) :=
  md ← Media m; if String.eqb (Payload md) "" then None else DecodeString (Payload md).
(** The time a frame is emitted: at once, or when the timer of the rest of the 20 ms fires. *)
Definition time_Before (t u : Time) : bool := t <? u.
Definition emit_at (nextFrameAt now : Time) (woke : Duration → Time) : Time :=
  if negb (IsZeroTime nextFrameAt) && time_Before now nextFrameAt then woke (time_Sub nextFrameAt now) else now.
(** The frames sent and the error put on errs; a cancelled context cuts the frames short. *)
Fixpoint Receive (reads : list read) (nextFrameAt : Time) : list Frame * option error :=
  match reads with
  | [] => ([], None)
  | ReadErr err normal :: _ => ([], if normal then None else Some err)
  | Text None _ _ :: reads => Receive reads nextFrameAt
  | Text (Some m) now woke :: reads =>
      if String.eqb (Event m) "media" then
        match media_data m with
        | None => Receive reads nextFrameAt
        | Some data =>
            let emitAt := emit_at nextFrameAt now woke in
            let '(fs, err) := Receive reads (time_Add emitAt (20 * Millisecond)) in
            ({| Data := data; Timestamp := emitAt |} :: fs, err)
        end
      else if String.eqb (Event m) "stop" then ([], None)
      else Receive reads nextFrameAt
  end.

Record Transport := { streamSid : string; written : list TwilioOutMessage; closed : bool }.
Section write.
Variable WriteJSON : list TwilioOutMessage → TwilioOutMessage → option error.
Definition write (m : TwilioOutMessage) (t : Transport) : option error * Transport :=
  match WriteJSON (written t) m with
  | Some err => (Some err, t)
  | None => (None, {| streamSid := streamSid t; written := written t ++ [m]; closed := closed t |})
  end.
Definition Send (f : Frame) (t : Transport) : option error * Transport :=
  write {| OutEvent := "media"; OutStreamSid := streamSid t; OutPayload := Some (EncodeToString (Data f)); OutMark := None |} t.
Definition Clear (t : Transport) : option error * Transport :=
  write {| OutEvent := "clear"; OutStreamSid := streamSid t; OutPayload := None; OutMark := None |} t.
Definition Mark (name : string) (t : Transport) : option error * Transport :=
  write {| OutEvent := "mark"; OutStreamSid := streamSid t; OutPayload := None; OutMark := Some name |} t.
End write.
Definition Close (connClose : option error) (t : Transport) : option error * Transport :=
  if closed t then (None, t)
  else (connClose, {| streamSid := streamSid t; written := written t; closed := true |}).

(** ** Inbound frames *)

(** The media payloads that decode, up to the stop event or the first read error. *)
Fixpoint inbound (reads : list read) : list (list Z) :=
  match reads with
  | Text (Some m) _ _ :: reads =>
      if String.eqb (Event m) "media" then option_list (media_data m) ++ inbound reads
      else if String.eqb (Event m) "stop" then [] else inbound reads
  | Text None _ _ :: reads => inbound reads
  | _ => []
  end.
(** nextFrameAt after a read. *)
Definition next_after (next : Time) (r : read) : Time :=
  match r with
  | Text (Some m) now woke =>
      if String.eqb (Event m) "media" then
        match media_data m with Some _ => time_Add (emit_at next now woke) (20 * Millisecond) | None => next end
      else next
  | _ => next
  end.
(** The clock reads a time after 1970 and not before the last frame, and timers
    do not fire early. *)
Fixpoint timers_ok (next : Time) (reads : list read) : Prop :=
  match reads with
  | Text m now woke :: reads =>
      0 ≤ now ∧ next - 20 * Millisecond ≤ now ∧ (∀ d, 0 ≤ d ≤ 20 * Millisecond → now + d ≤ woke d) ∧
      timers_ok (next_after next (Text m now woke)) reads
  | _ => True
  end.
Lemma timers_ok_cons next m now woke reads v :
  0 ≤ now → next - 20 * Millisecond ≤ now → (∀ d, 0 ≤ d ≤ 20 * Millisecond → now + d ≤ woke d) →
  next_after next (Text m now woke) = v → timers_ok v reads → timers_ok next (Text m now woke :: reads).
Proof. intros ? ? ? <- ?. by split_and!. Qed.
(** Each timestamp is at least 20 ms after the one before. *)
Fixpoint spaced (after : Time) (fs : list Frame) : Prop :=
  match fs with [] => True | f :: fs => after ≤ Timestamp f ∧ spaced (Timestamp f + 20 * Millisecond) fs end.

Lemma Receive_data reads next : Data <$> (Receive reads next).1 = inbound reads.
Proof.
  revert next. induction reads as [|[[m|] now woke|err normal] reads IH]; intros next; [done| |apply IH|done].
  cbn [Receive inbound]. destruct (String.eqb (Event m) "media"); [|destruct (String.eqb (Event m) "stop"); [done|apply IH]].
  destruct (media_data m) as [data|]; [|apply IH]. cbn [option_list].
  specialize (IH (time_Add (emit_at next now woke) (20 * Millisecond))). destruct (Receive reads _). cbn in *. by rewrite IH.
Qed.
Lemma twilio_Receive_error reads next err :
  (Receive reads next).2 = Some err → ReadErr err false ∈ reads.
Proof.
  revert next. induction reads as [|[[m|] now woke|e []] reads IH]; intros next; cbn [Receive]; try done.
  - destruct (String.eqb (Event m) "media"); [|destruct (String.eqb (Event m) "stop"); [done|intros ?; right; by eapply IH]].
    destruct (media_data m); [|intros ?; right; by eapply IH].
    specialize (IH (time_Add (emit_at next now woke) (20 * Millisecond))).
    destruct (Receive reads _). intros ?. right. by apply IH.
  - intros ?. right. by eapply IH.
  - intros [= ->]. by left.
Qed.
Lemma emit_at_spaced next now woke :
  0 ≤ now → next - 20 * Millisecond ≤ now → (∀ d, 0 ≤ d ≤ 20 * Millisecond → now + d ≤ woke d) →
  next ≤ emit_at next now woke.
Proof.
  unfold emit_at, IsZeroTime, time_Before. intros Hn Hx Hw.
  destruct (Z.eqb_spec next time_zero) as [->|Hz]; cbn [negb andb]; [unfold time_zero, Second; lia|].
  destruct (Z.ltb_spec now next) as [Hl|Hl]; [|lia].
  assert (time_Sub next now = next - now) as -> by (unfold time_Sub, MinInt64, MaxInt64, Millisecond in *; lia).
  specialize (Hw (next - now)). lia.
Qed.
Lemma Receive_spaced reads next : timers_ok next reads → spaced next (Receive reads next).1.
Proof.
  revert next. induction reads as [|[[m|] now woke|e b] reads IH]; intros next; cbn [Receive timers_ok next_after]; try done.
  - intros (Hn & Hx & Hw & Hok). destruct (String.eqb (Event m) "media"); [|destruct (String.eqb (Event m) "stop"); [done|by apply IH]].
    destruct (media_data m) as [data|]; [|by apply IH]. pose proof (emit_at_spaced next now woke Hn Hx Hw).
    specialize (IH (time_Add (emit_at next now woke) (20 * Millisecond)) Hok).
    by destruct (Receive reads _) as [fs err].
  - intros (_ & _ & _ & Hok). by apply IH.
Qed.

(** inbound audio of a Twilio call.  Wherever the context is cancelled, the
    frames delivered are the decodable media payloads before the stop event or
    the end of the connection, in order and each with its bytes, spaced by at
    least 20 ms whatever the arrival times; malformed messages are skipped, and
    only an abnormal close of the connection is an error. *)
Theorem twilio_receive reads fs :
  timers_ok time_zero reads → fs `prefix_of` (Receive reads time_zero).1 →
  spaced time_zero fs ∧ Data <$> fs = take (length fs) (inbound reads) ∧ Data <$> (Receive reads time_zero).1 = inbound reads ∧
  (∀ err, (Receive reads time_zero).2 = Some err → ReadErr err false ∈ reads).
Proof.
  intros Hok [rest E]. pose proof (Receive_spaced reads time_zero Hok) as Hs.
  pose proof (Receive_data reads time_zero) as Hd. split_and!; [| |done|intros err; apply twilio_Receive_error].
  - rewrite E in Hs. clear -Hs. revert Hs. generalize time_zero. induction fs as [|f fs IH]; intros t; cbn; [done|].
    intros [? ?]. split; [done|]. by apply IH.
  - rewrite <-Hd, E, fmap_app, take_app_length'; [done|]. by rewrite length_fmap.
Qed.
End Twilio.

(** ** Witnesses *)

Definition media_message (payload : string) : Twilio.TwilioMessage :=
  {| Twilio.Event := "media"; Twilio.SequenceNumber := "1"; Twilio.Protocol := ""; Twilio.Version := ""; Twilio.Start := None;
     Twilio.Media := Some {| Twilio.Track := "inbound"; Twilio.Chunk := "1"; Twilio.MediaTimestamp := "0"; Twilio.Payload := payload |};
     Twilio.MarkName := None; Twilio.Stop := None; Twilio.StreamSid := "MZ1" |}.
Definition burst : list Twilio.read :=
  [Twilio.Text (Some (media_message "AAE=")) 1000 (λ d, 1000 + d); Twilio.Text None 1001 (λ d, 1001 + d);
   Twilio.Text (Some (media_message "/w==")) 2000 (λ d, 2001 + d); Twilio.ReadErr (EText "1006") false].
Lemma twilio_receive_witness :
  Timestamp <$> (Twilio.Receive burst time_zero).1 = [1000; 20001001] ∧
  Data <$> (Twilio.Receive burst time_zero).1 = [[0; 1]; [255]].
Proof.
  split; [by vm_compute|].
  assert (Twilio.timers_ok time_zero burst) as Hok.
  { unfold burst. unfold Millisecond, time_zero, Second.
    eapply (Twilio.timers_ok_cons _ _ _ _ _ 20001000); unfold Millisecond, Second; [lia|lia|intros; lia|by vm_compute|].
    eapply (Twilio.timers_ok_cons _ _ _ _ _ 20001000); unfold Millisecond; [lia|lia|intros; lia|by vm_compute|].
    eapply (Twilio.timers_ok_cons _ _ _ _ _ 40001001); unfold Millisecond; [lia|lia|intros; lia|by vm_compute|done]. }
  rewrite (proj1 (proj2 (proj2 (Twilio.twilio_receive burst [] Hok (prefix_nil _))))); by vm_compute.
Defined.
