(* ===== verification/VoiceCall.v ===== *)
(** * Calls: a transport, the pipeline's bridges and the Gemini session

    The audio of a whole call across src/voice/transport/{twilio,whatsapp},
    src/voice/pipeline and src/voice/llm/gemini: what the transport receives is
    forwarded to the model, and the audio of the model's events to the transport.
    [forward] is what the session makes of the frames of one direction (that it
    does so whatever the interleaving is the subject of VoiceSession). *)

From S2P Require Import Prelude GoString GoErrors Base64 Codec VoicePipeline GeminiLive WhatsAppTransport TwilioTransport.
From stdpp Require Import base list gmap strings.
From Stdlib Require Import ZArith Lia.
Open Scope Z_scope.

(** What the pipeline asks of a transport before it starts: its two formats. *)
Class CallTransport := { transport_in : AudioFormat; transport_out : AudioFormat }.
Definition twilio_call : CallTransport := {| transport_in := Twilio.InboundFormat; transport_out := Twilio.OutboundFormat |}.
Definition whatsapp_call : CallTransport :=
  {| transport_in := WhatsAppTransport.InboundFormat; transport_out := WhatsAppTransport.OutboundFormat |}.

(** Frames converted and sent one by one, until a send fails. *)
Fixpoint forward {C} (send : Frame → C → option error * C) (b : bridge) (fs : list Frame) (c : C) : option error * C :=
  match fs with
  | [] => (None, c)
  | f :: fs =>
      match send (run_bridge b f) c with
      | (Some err, c) => (Some err, c)
      | (None, c) => forward send b fs c
      end
  end.

(** The messages written hold, in base64 and in order, the data up to a failed
    write: all of it when none failed. *)
Definition relayed {M} (mk : string → M) (before after : list M) (data : list (list Z)) (err : option error) : Prop :=
  ∃ ss, after = before ++ (mk <$> ss) ∧
    Forall2 (λ s bs, DecodeString s = Some bs) ss (take (length ss) data) ∧
    (err = None → length ss = length data).

Section forward.
Context {C M : Type} (send : Frame → C → option error * C) (out : C → list M) (mk : string → M) (P : C → Prop).
Hypothesis send_writes : ∀ f c, P c →
  match send f c with
  | (Some _, c') => c' = c
  | (None, c') => out c' = out c ++ [mk (EncodeToString (Data f))] ∧ P c'
  end.

Lemma forward_relayed b fs c err c' :
  P c → Forall (λ f, Forall in_byte (Data (run_bridge b f))) fs → forward send b fs c = (err, c') →
  relayed mk (out c) (out c') ((Data ∘ run_bridge b) <$> fs) err.
Proof.
  intros HP Hb. revert c HP. induction Hb as [|f fs Hf Hb IH]; intros c HP; cbn [forward].
  - intros [= <- <-]. exists []. rewrite app_nil_r. done.
  - pose proof (send_writes (run_bridge b f) c HP) as Hs. destruct (send (run_bridge b f) c) as [[e|] c1].
    + intros [= <- <-]. exists []. subst. rewrite app_nil_r. split_and!; [done|constructor|done].
    + destruct Hs as [Ho HP1]. intros (ss & Es & Hd & Hn)%(IH c1 HP1).
      exists (EncodeToString (Data (run_bridge b f)) :: ss). split_and!.
      * by rewrite Es, Ho, <-app_assoc.
      * simpl. constructor; [|done]. by apply DecodeString_EncodeToString.
      * intros E. simpl. by rewrite Hn.
Qed.
End forward.

(** ** The parts' sends *)

Lemma gemini_writes W f l :
  match GeminiLive.SendAudio W f l with
  | (Some _, l') => l' = l
  | (None, l') => written l' = written l ++ [RealtimeInput (EncodeToString (Data f)) "audio/pcm;rate=16000"] ∧ True
  end.
Proof. unfold GeminiLive.SendAudio, writeJSON. by destruct (W _ _). Qed.

Definition media_out (sid s : string) : Twilio.TwilioOutMessage :=
  {| Twilio.OutEvent := "media"; Twilio.OutStreamSid := sid; Twilio.OutPayload := Some s; Twilio.OutMark := None |}.
Lemma twilio_writes W sid f t :
  Twilio.streamSid t = sid →
  match Twilio.Send W f t with
  | (Some _, t') => t' = t
  | (None, t') => Twilio.written t' = Twilio.written t ++ [media_out sid (EncodeToString (Data f))] ∧ Twilio.streamSid t' = sid
  end.
Proof. intros <-. unfold Twilio.Send, Twilio.write. by destruct (W _ _). Qed.

Lemma PutUint16_bytes v : Forall in_byte (PutUint16 v).
Proof. unfold PutUint16. repeat constructor; apply uint8_range. Qed.
Lemma Mulaw8kToPCM16LE16k_bytes bs : Forall in_byte (Codec.Mulaw8kToPCM16LE16k bs).
Proof. unfold Codec.Mulaw8kToPCM16LE16k. apply Forall_bind, Forall_true. intros s. apply PutUint16_bytes. Qed.
Lemma PCM16LE24kToMulaw8k_bytes bs : Forall in_byte (Codec.PCM16LE24kToMulaw8k bs).
Proof. unfold Codec.PCM16LE24kToMulaw8k, PCM16ToMulaw. apply Forall_fmap, Forall_true. intros s. apply uint8_range. Qed.
Lemma int16LE_bytes pcm : Forall in_byte (int16LEToBytes pcm).
Proof. unfold int16LEToBytes. apply Forall_bind, Forall_true. intros v. apply PutUint16_bytes. Qed.

(** ** The audio of each side *)

Lemma prefix_data {A B} (g : A → B) (fs all : list A) (data : list B) :
  fs `prefix_of` all → g <$> all = data → g <$> fs = take (length fs) data.
Proof. intros [rest ->] <-. by rewrite fmap_app, take_app_length' by (by rewrite length_fmap). Qed.

(** The decodable audio of the model's parts, in the messages received. *)
Definition part_audio (p : GeminiPart) : option (list Z) :=
  d ← InlineData p; if String.eqb (InlineBase64 d) "" then None else DecodeString (InlineBase64 d).
Definition message_parts (m : GeminiServerMessage) : list GeminiPart :=
  match ServerContent m with Some c => default [] (ModelTurn c) | None => [] end.
Definition model_audio (reads : list GeminiLive.read) : list (list Z) :=
  received reads ≫= λ m, omap part_audio (message_parts m).
(** The frames the dispatcher sends for the model's events. *)
Definition audio_frames (evs : list LLMEvent) : list Frame :=
  omap (λ e, match e with EventAudioOut f => Some f | _ => None end) evs.
Definition audio_of (evs : list LLMEvent) : list (list Z) := Data <$> audio_frames evs.

Lemma audio_of_app e1 e2 : audio_of (e1 ++ e2) = audio_of e1 ++ audio_of e2.
Proof. unfold audio_of, audio_frames. by rewrite omap_app, fmap_app. Qed.
Lemma audio_of_finals acc evs : audio_of (with_finals acc evs) = audio_of evs.
Proof.
  revert acc. induction evs as [|e evs IH]; intros acc; [done|].
  destruct e; cbn [with_finals]; try apply IH; [by apply (f_equal (cons _)), IH|].
  rewrite audio_of_app. destruct (nonempty (Some acc)); apply IH.
Qed.
Lemma audio_of_message m : audio_of (message_wire m) = omap part_audio (message_parts m).
Proof.
  assert (∀ ps, audio_of (ps ≫= part_wire) = omap part_audio ps) as Hp.
  { induction ps as [|p ps IH]; [done|]. cbn [mbind list_bind]. rewrite audio_of_app, IH. cbn [omap list_omap].
    unfold part_wire, part_audio, nonempty. destruct (InlineData p) as [d|]; cbn.
    - destruct (String.eqb (InlineBase64 d) ""); [by destruct (String.eqb (PartText p) "")|].
      destruct (DecodeString _); [by destruct (String.eqb (PartText p) "")|done].
    - by destruct (String.eqb (PartText p) ""). }
  unfold message_wire, message_parts. rewrite audio_of_app.
  assert (audio_of match ToolCalls m with Some (c :: cs) => [EventToolCalls (c :: cs)] | _ => [] end = []) as ->
    by (by destruct (ToolCalls m) as [[|]|]).
  rewrite app_nil_r. destruct (ServerContent m) as [c|]; [|done]. unfold content_wire. rewrite !audio_of_app, Hp.
  destruct (nonempty (InputTranscription c)), (nonempty (OutputTranscription c)), (Interrupted c), (TurnComplete c); cbn;
    by rewrite ?app_nil_r.
Qed.
Lemma audio_of_events reads : audio_of (Events reads "").1 = model_audio reads.
Proof.
  rewrite (proj1 (Events_translate reads "")), audio_of_finals. unfold model_audio.
  induction (received reads) as [|m ms IH]; [done|]. cbn [mbind list_bind]. by rewrite audio_of_app, audio_of_message, IH.
Qed.
(** What was delivered of the model's audio. *)
Lemma audio_prefix reads evs :
  evs `prefix_of` (Events reads "").1 → Data <$> audio_frames evs = take (length (audio_frames evs)) (model_audio reads).
Proof.
  intros [rest E]. eapply prefix_data; [|apply audio_of_events]. rewrite E. unfold audio_frames. rewrite omap_app.
  by exists (audio_frames rest).
Qed.

(** A WhatsApp packet's samples as bytes. *)
Lemma whatsapp_data {D} (Decode : D → packet → Prelude.result error (list Z) * D) d reads :
  Data <$> (WhatsAppTransport.Receive Decode d reads).1 = int16LEToBytes <$> decoded Decode d reads.
Proof.
  revert d. induction reads as [|[p now|err] reads IH]; intros d; [done| |done].
  cbn [WhatsAppTransport.Receive decoded]. unfold rtpToFrame. destruct (Decode d p) as [[pcm|e] d']; [|apply IH].
  specialize (IH d'). destruct (WhatsAppTransport.Receive Decode d' reads) as [fs e]. cbn in *. by rewrite IH.
Qed.

(** The frames given to a WhatsApp transport along a run. *)
Definition frames_sent (ls : list label) : list Frame :=
  omap (λ l, match l with LSend f => Some f | _ => None end) ls.
Lemma exec_accepts {E} (Encode : E → list Z → Prelude.result error packet * E) l w w' :
  exec Encode l w = Some w' →
  (closed (tr w) = true → closed (tr w') = true) ∧
  (closed (tr w) = false →
   accepted w' = accepted w ++ match l with LSend f => bytesToInt16LE (Data f) | _ => [] end).
Proof.
  destruct w as [t s p a c k o d r]. destruct l; cbn [exec]; intros E1.
  - destruct s; [done|]. destruct (closed t) eqn:Ec; simplify_eq/=; (split; [congruence|by intros; try congruence]).
  - destruct (s && _); simplify_eq. unfold chunk_world, send_chunk. cbn. rewrite app_nil_r. by destruct (Encode _ _) as [[] ?].
  - destruct (s && _); simplify_eq/=. by rewrite app_nil_r.
  - destruct (outQueue t); simplify_eq/=. by rewrite app_nil_r.
  - destruct s; simplify_eq/=. rewrite app_nil_r. unfold Close. by destruct (closed t) eqn:Ec; rewrite ?Ec.
  - destruct p; simplify_eq/=. by rewrite app_nil_r.
  - destruct p; simplify_eq/=. rewrite app_nil_r. unfold pace_frame. by destruct (outQueue t).
  - destruct p, (closed t) eqn:Ec; simplify_eq/=. by rewrite app_nil_r.
Qed.
Lemma run_accepts {E} (Encode : E → list Z → Prelude.result error packet * E) ls w w' :
  run Encode ls w = Some w' → closed (tr w') = false →
  closed (tr w) = false ∧ accepted w' = accepted w ++ (frames_sent ls ≫= (bytesToInt16LE ∘ Data)).
Proof.
  revert w. induction ls as [|l ls IH]; intros w Hr Hc; cbn [run] in Hr.
  - simplify_eq. by rewrite app_nil_r.
  - destruct (exec Encode l w) as [w1|] eqn:E1; [|done]. destruct (exec_accepts Encode l w w1 E1) as [H1 H2].
    destruct (IH w1 Hr Hc) as [Hc1 Ha]. destruct (closed (tr w)); [by rewrite H1 in Hc1|]. split; [done|].
    rewrite Ha, H2, <-app_assoc by done. f_equal. by destruct l.
Qed.

(** ** Properties *)

Definition realtime (s : string) : client_message := RealtimeInput s "audio/pcm;rate=16000".

Lemma forward_gemini W b fs l err l' :
  Forall (λ f, Forall in_byte (Data (run_bridge b f))) fs → forward (GeminiLive.SendAudio W) b fs l = (err, l') →
  relayed realtime (written l) (written l') ((Data ∘ run_bridge b) <$> fs) err.
Proof. apply (forward_relayed _ written realtime (λ _, True)); [intros f c _; apply gemini_writes|done]. Qed.


(** ** Witnesses *)

Lemma burst_inbound : Twilio.inbound burst = [[0; 1]; [255]].
Proof. by vm_compute. Qed.
