(* ===== verification/HoldFillers.v ===== *)
(** * Packages voice/holdfiller/tone, voice/holdfiller/twilio and voice/toolexec

    The two generators of the hold tone (tone.go, filler.go) over binary64
    arithmetic with the sine as an argument, the wrapper of a tool function
    (executor.go), and of voice/pipeline the observer list, the silent filler and the
    pump of filler frames against its tool batch. *)

From S2P Require Import Prelude GoFloat GoString GoErrors Codec VoicePipeline.
From stdpp Require Import base list gmap strings.
From Stdlib Require Import ZArith Lia SpecFloat.
Open Scope Z_scope.

(** ** Shared *)

(** [Duration.Seconds]. *)
Definition Seconds (d : Duration) : float64 :=
  fadd (float_of_Z (Z.quot d Second)) (fdiv (float_of_Z (Z.rem d Second)) (float_of_Z 1000000000)).
(** float64(2 * math.Pi) and float64(2 * math.Pi * 600). *)
Definition two_pi : float64 := S754_finite false 7074237752028440 (-50).
Definition two_pi_600 : float64 := S754_finite false 8290122365658328 (-41).

(** The loop that cuts a byte stream into frames of [n] bytes; it ends because
    [n] is positive. *)
Fixpoint cut (fuel : nat) (n : nat) (l : list Z) : list (list Z) :=
  match fuel, l with
  | S fuel, _ :: _ => take n l :: cut fuel n (drop n l)
  | _, _ => []
  end.
Definition frames_of (n : nat) (l : list Z) : list (list Z) := cut (length l) n l.

(** Frames: the chunks over and over, until the context ends. *)
Definition frame_at (chunks : list (list Z)) (k : nat) : option (list Z) := chunks !! (k mod length chunks)%nat.

(** int16(f): for a value that does not fit the result is the target's. *)
Definition int16_of_float `{FloatConv} (f : float64) : Z := int16 (int64_of_float f).

(** ** tone.go *)

Module Tone.
Record Options := {
  SampleRate : Z; FrameDuration : Duration; PatternDuration : Duration; ToneDuration : Duration;
  FrequencyHz : float64; Amplitude : float64
}.
Definition is_zero (f : float64) : bool := feq f (float_of_Z 0).
Definition defaults (opts : Options) : Options :=
  let pattern := if PatternDuration opts =? 0 then 2 * Second else PatternDuration opts in
  let tone := if ToneDuration opts =? 0 then 400 * Millisecond else ToneDuration opts in
  {| SampleRate := if SampleRate opts =? 0 then 8000 else SampleRate opts;
     FrameDuration := if FrameDuration opts =? 0 then 20 * Millisecond else FrameDuration opts;
     PatternDuration := pattern;
     FrequencyHz := if is_zero (FrequencyHz opts) then float_of_Z 600 else FrequencyHz opts;
     Amplitude := if is_zero (Amplitude opts) then float_of_Z 2000 else Amplitude opts;
     ToneDuration := if pattern <? tone then pattern else tone |}.

Section generate.
(** math.Sin. *)
Variable Sin : float64 → float64.
Context `{FloatConv}.

Definition samples_of (opts : Options) (d : Duration) : Z := int64_of_float (fmul (float_of_Z (SampleRate opts)) (Seconds d)).
Definition envelope (toneSamples fadeSamples i : Z) : float64 :=
  if (0 <? fadeSamples) && (i <? fadeSamples) then fdiv (float_of_Z i) (float_of_Z fadeSamples)
  else if (0 <? fadeSamples) && (toneSamples - fadeSamples <? i) then
    let e := fdiv (float_of_Z (toneSamples - i)) (float_of_Z fadeSamples) in
    if flt e (float_of_Z 0) then float_of_Z 0 else e
  else float_of_Z 1.
Definition sample (opts : Options) (toneSamples fadeSamples i : Z) : Z :=
  let t := fdiv (float_of_Z i) (float_of_Z (SampleRate opts)) in
  int16_of_float (fmul (fmul (Amplitude opts) (envelope toneSamples fadeSamples i))
                       (Sin (fmul (fmul two_pi (FrequencyHz opts)) t))).
(** The samples; the rest of the pattern stays zero. *)
Definition pcm (opts : Options) (totalSamples toneSamples fadeSamples : Z) : list Z :=
  (λ i, if i <? toneSamples then sample opts toneSamples fadeSamples i else 0) <$> seqZ 0 totalSamples.
(** A negative length panics in make, and a zero frame size in the division. *)
Definition generate (opts : Options) : outcome (list (list Z)) :=
  let totalSamples := samples_of opts (PatternDuration opts) in
  let toneSamples := samples_of opts (ToneDuration opts) in
  let frameSamples := samples_of opts (FrameDuration opts) in
  let totalSamples := if totalSamples <=? 0 then SampleRate opts else totalSamples in
  let frameSamples := if frameSamples <=? 0 then Z.quot (SampleRate opts) 50 else frameSamples in
  if totalSamples <? 0 then Panic "runtime error: makeslice: len out of range"
  else
    let fadeSamples := int64_of_float (fmul (float_dec 5 2) (float_of_Z (SampleRate opts))) in
    let mulaw := PCM16ToMulaw (pcm opts totalSamples toneSamples fadeSamples) in
    if frameSamples =? 0 then Panic "runtime error: integer divide by zero"
    else Return (frames_of (Z.to_nat frameSamples) mulaw).
Definition NewWithOptions (opts : Options) : outcome (list (list Z)) := generate (defaults opts).
Definition zero_options : Options :=
  {| SampleRate := 0; FrameDuration := 0; PatternDuration := 0; ToneDuration := 0;
     FrequencyHz := float_of_Z 0; Amplitude := float_of_Z 0 |}.
Definition New : outcome (list (list Z)) := NewWithOptions zero_options.
End generate.
End Tone.

(** ** filler.go *)

Module TwilioFiller.
Definition find_exponent := fix find_exponent (fuel : nat) (sample expMask exponent : Z) : Z :=
  match fuel with
  | O => exponent
  | S fuel =>
      if (Z.land sample expMask =? 0) && (0 <? exponent) then find_exponent fuel sample (Z.shiftr expMask 1) (exponent - 1)
      else exponent
  end.
(** The loop ends when the exponent is zero, after seven iterations at most. *)
Definition linearToMulaw (sample : Z) : Z :=
  let sign := if sample <? 0 then 128 else 0 in
  let sample := if sample <? 0 then int32 (- sample) else sample in
  let sample := if 8191 <? sample then 8191 else sample in
  let sample := sample + 132 in
  let exponent := find_exponent 8 sample 16384 7 in
  let mantissa := uint8 (Z.land (Z.shiftr sample (exponent + 3)) 15) in
  uint8 (Z.lnot (Z.lor (Z.lor sign (uint8 (Z.shiftl exponent 4))) mantissa)).
Definition pcm16ToMulaw (pcm : list Z) : list Z := linearToMulaw <$> pcm.

Section generate.
Variable Sin : float64 → float64.
Context `{FloatConv}.

(** The constants: 3200 samples of tone, fades of 400. *)
Definition envelope (i : Z) : float64 :=
  if i <? 400 then fdiv (float_of_Z i) (float_of_Z 400)
  else if 3200 - 400 <? i then fdiv (float_of_Z (3200 - i)) (float_of_Z 400)
  else float_of_Z 1.
Definition sample (i : Z) : Z :=
  let t := fdiv (float_of_Z i) (float_of_Z 8000) in
  int16_of_float (fmul (fmul (float_of_Z 2000) (envelope i)) (Sin (fmul two_pi_600 t))).
Definition pcm : list Z := (λ i, if i <? 3200 then sample i else 0) <$> seqZ 0 16000.
Definition generateHoldToneChunks : list (list Z) := frames_of 160 (pcm16ToMulaw pcm).
Definition New : list (list Z) := generateHoldToneChunks.
(** The [k]-th frame the goroutine offers before its context is done. *)
Definition Frames (k : nat) : option (list Z) := frame_at New k.
End generate.
End TwilioFiller.

(** ** toolexec *)

Module ToolExec.
Definition errNilFunc : error := ENew "toolexec: Executor has no dispatch func".
Section execute.
Context {Ctx Session Value : Type}.
(** An Executor is its function, which may be nil. *)
Definition Executor : Type := option (Ctx → ToolCall → Session → Prelude.result error Value).
Definition New (fn : Executor) : Executor := fn.
Definition Execute (e : Executor) (ctx : Ctx) (call : ToolCall) (sess : Session) : Prelude.result error Value :=
  match e with None => Err errNilFunc | Some fn => fn ctx call sess end.
End execute.
End ToolExec.

(** ** Observers and the silent filler *)

(** An observer is what its callbacks do to the state of its owner; a nil one is [None]. *)
Section observers.
Context {W : Type}.
Definition Observer : Type := call → W → W.
Definition NoopObserver : Observer := λ _ w, w.
Fixpoint nil_index (i : nat) (obs : list (option Observer)) : option nat :=
  match obs with [] => None | None :: _ => Some i | Some _ :: obs => nil_index (S i) obs end.
Definition multiObserver (m : list Observer) : Observer := λ c w, foldl (λ w o, o c w) w m.
Definition Multi (obs : list (option Observer)) : outcome Observer :=
  match nil_index 0 obs with
  | Some i => Panic ("pipeline.Multi: nil observer at index " +:+ itoa (Z.of_nat i))
  | None => Return (multiObserver (omap id obs))
  end.
End observers.
(** The channel is closed before it is returned. *)
Definition SilentFiller_Frames : list (list Z) := [].

(** ** The hold filler of a tool batch (pipeline.go) *)

(** safeObserve: the callback may panic on the way; the session goes on, with a
    line in the log. *)
Definition safeObserve {W} (fn : W → W * option string) (wl : W * list string) : W * list string :=
  let '(w, logs) := wl in
  let '(w', panicked) := fn w in
  (w', match panicked with Some v => logs ++ ["pipeline: observer panic: " +:+ v] | None => logs end).

(** copyAttrs: [order] visits the map; nil stays nil. *)
Definition copyAttrs (order : option (list (string * string))) : option (gmap string string) :=
  (λ o, foldl (λ cp kv, <[kv.1 := kv.2]> cp) ∅ o) <$> order.

Module Pump.
(** The watchdog goroutine: at its select, in the loop of pumpHoldFiller, with a
    frame in Transport.Send, or returned. *)
Inductive pc := AtSelect | AtPump | Sending (f : Frame) | Exited.
(** dispatchToolCalls after the tools: close(done), holdCancel, Clear. *)
Inductive phase := Executing | DoneClosed | HoldCancelled | Cleared.
Record World := {
  at_ : pc; main : phase; elapsed : bool;        (* HoldFillerDelay has passed *)
  frames : list Frame;                           (* what the filler has yet to yield *)
  out : list call
}.
Definition start (frames : list Frame) : World :=
  {| at_ := AtSelect; main := Executing; elapsed := false; frames := frames; out := [] |}.
Definition done_closed (p : phase) : bool := match p with Executing => false | _ => true end.
Definition hold_cancelled (p : phase) : bool := match p with Executing | DoneClosed => false | _ => true end.

Inductive event :=
| Elapse                              (* time.After *)
| ToolsDone | HoldCancel | ClearOut   (* the dispatching goroutine *)
| SeeDone | SeeTimer                  (* the watchdog's select *)
| SeeCancel | NextFrame | FramesEnd   (* the pump's select *)
| Sent (err : option error).          (* Transport.Send returns *)
Definition with_pc (p : pc) (w : World) : World :=
  {| at_ := p; main := main w; elapsed := elapsed w; frames := frames w; out := out w |}.
Definition with_main (m : phase) (cs : list call) (w : World) : World :=
  {| at_ := at_ w; main := m; elapsed := elapsed w; frames := frames w; out := out w ++ cs |}.
Definition exec (e : event) (w : World) : option World :=
  match e, at_ w, main w with
  | Elapse, _, _ => Some {| at_ := at_ w; main := main w; elapsed := true; frames := frames w; out := out w |}
  | ToolsDone, _, Executing => Some (with_main DoneClosed [] w)
  | HoldCancel, _, DoneClosed => Some (with_main HoldCancelled [] w)
  | ClearOut, _, HoldCancelled => Some (with_main Cleared [Clear] w)
  | SeeDone, AtSelect, m => if done_closed m then Some (with_pc Exited w) else None
  | SeeTimer, AtSelect, _ => if elapsed w then Some (with_pc AtPump w) else None
  | SeeCancel, AtPump, m => if hold_cancelled m then Some (with_pc Exited w) else None
  | NextFrame, AtPump, _ =>
      match frames w with
      | f :: fs => Some {| at_ := Sending f; main := main w; elapsed := elapsed w; frames := fs; out := out w ++ [Send f] |}
      | [] => None
      end
  | FramesEnd, AtPump, _ => match frames w with [] => Some (with_pc Exited w) | _ => None end
  | Sent err, Sending _, _ => Some (with_pc (match err with None => AtPump | Some _ => Exited end) w)
  | _, _, _ => None
  end.
Fixpoint run (es : list event) (w : World) : option World :=
  match es with [] => Some w | e :: es => exec e w ≫= run es end.
End Pump.


(** ** Frames *)

Lemma cut_spec n l fuel :
  (0 < n)%nat → (length l ≤ fuel)%nat →
  concat (cut fuel n l) = l ∧
  ∀ i c, cut fuel n l !! i = Some c → c ≠ [] ∧ (length c ≤ n)%nat ∧ (is_Some (cut fuel n l !! S i) → length c = n).
Proof.
  intros Hn. revert l. induction fuel as [|fuel IH]; intros l Hf; [destruct l; [done|simpl in Hf; lia]|].
  destruct l as [|x l]; [done|]. cbn [cut]. set (k := x :: l) in *.
  destruct (IH (drop n k)) as [H1 H2]; [rewrite length_drop; subst k; simpl in *; lia|].
  cbn [concat]. rewrite H1, take_drop. split; [done|]. intros [|i] c Hi; [|by apply H2].
  cbn in Hi. injection Hi as <-. split_and!; [subst k; destruct n; [lia|done]|rewrite length_take; lia|].
  intros [c' Hc']. cbn [lookup list_lookup] in Hc'. rewrite length_take.
  destruct (decide (n ≤ length k)%nat) as [|Hlt]; [lia|]. rewrite drop_ge in Hc' by lia. by destruct fuel.
Qed.
Lemma cut_exact n q l fuel :
  (0 < n)%nat → length l = (q * n)%nat → (length l ≤ fuel)%nat →
  length (cut fuel n l) = q ∧ Forall (λ c, length c = n) (cut fuel n l).
Proof.
  intros Hn. revert q l. induction fuel as [|fuel IH]; intros q l Hl Hf.
  - destruct l; [|simpl in Hf; lia]. destruct q; [done|simpl in Hl; lia].
  - destruct l as [|x l]; [destruct q; [done|simpl in Hl; lia]|]. destruct q as [|q]; [done|]. cbn [cut].
    destruct (IH q (drop n (x :: l))) as [H1 H2]; [rewrite length_drop, Hl; lia|rewrite length_drop; simpl in *; lia|].
    simpl length at 1. rewrite H1. split; [done|]. constructor; [rewrite length_take, Hl; lia|done].
Qed.

(** ** The two encoders *)

Lemma forallb_seqZ f a n i : forallb f (seqZ a n) = true → a ≤ i < a + n → f i = true.
Proof. rewrite forallb_forall. intros HF Hi. apply HF. rewrite <-list_elem_of_In. by apply elem_of_seqZ. Qed.
Lemma find_exponent_agree mag e k fuel :
  0 ≤ e → in_segment e mag → e ≤ k →
  TwilioFiller.find_exponent fuel mag (2 ^ (k + 7)) k = find_exponent fuel mag k (2 ^ (k + 7)).
Proof.
  intros He [H1 H2]. revert k. induction fuel as [|fuel IH]; intros k Hk; [done|].
  cbn [TwilioFiller.find_exponent find_exponent]. rewrite land_pow2 by lia. destruct (Z.testbit mag (k + 7)) eqn:Eb; [done|].
  assert (0 < 2 ^ (e + 7)) by (apply Z.pow_pos_nonneg; lia).
  assert (k ≠ e) as Hne.
  { intros ->. assert (Z.log2 mag = e + 7) as El.
    { apply Z.log2_unique; [lia|]. by replace (Z.succ (e + 7)) with (e + 8) by lia. }
    rewrite <-El, Z.bit_log2 in Eb by lia. done. }
  cbn [negb andb]. destruct (Z.ltb_spec 0 k); [|lia]. rewrite Z.shiftr_div_pow2 by lia.
  replace (2 ^ (k + 7)) with (2 ^ (k - 1 + 7) * 2 ^ 1) by (rewrite <-Z.pow_add_r by lia; f_equal; lia).
  rewrite Z.div_mul by done. apply IH. lia.
Qed.
Lemma linearToMulaw_small s : -8191 ≤ s ≤ 8191 → TwilioFiller.linearToMulaw s = encodeMulaw s.
Proof.
  intros Hs. unfold TwilioFiller.linearToMulaw, encodeMulaw. cbv zeta.
  replace ((if mulawClip <? (if s <? 0 then - s else s) then mulawClip else if s <? 0 then - s else s) + mulawBias)
    with (magnitude s) by (unfold magnitude, mulawClip, mulawBias; repeat case_match; zbool; lia).
  replace ((if 8191 <? (if s <? 0 then int32 (- s) else s) then 8191 else if s <? 0 then int32 (- s) else s) + 132)
    with (magnitude s).
  2: { assert (int32 (- s) = - s) as -> by (apply swrap_id; lia). unfold magnitude. repeat case_match; zbool; lia. }
  destruct (segment_of s) as (e & He & Hseg). change 16384 with (2 ^ (7 + 7)).
  rewrite (find_exponent_agree _ e) by (done || lia). rewrite (find_exponent_at _ e) by (done || lia).
  assert (∀ x, uint8 (Z.land x 15) = Z.land x 15) as Hland.
  { intros x. change 15 with (Z.ones 4). rewrite Z.land_ones by lia. unfold uint8, uwrap.
    pose proof (Z.mod_pos_bound x (2 ^ 4)). apply Z.mod_small. lia. }
  rewrite Hland. by segment_cases e.
Qed.
Lemma pcm16ToMulaw_small l : Forall (λ s, -8191 ≤ s ≤ 8191) l → TwilioFiller.pcm16ToMulaw l = PCM16ToMulaw l.
Proof. induction 1 as [|s l Hs _ IH]; [done|]. unfold TwilioFiller.pcm16ToMulaw, PCM16ToMulaw in *. rewrite !fmap_cons, IH. by rewrite linearToMulaw_small. Qed.
(** Louder samples are clipped a quarter of the way up the range of G.711. *)
Lemma linearToMulaw_clips :
  Codec.decode (encodeMulaw 30000) = 30076 ∧ Codec.decode (TwilioFiller.linearToMulaw 30000) = 8316.
Proof. vm_compute. done. Qed.

(** ** The hold tone *)

Lemma pcm_agree Sin `{FloatConv} :
  Tone.pcm Sin (Tone.defaults Tone.zero_options) 16000 3200 400 = TwilioFiller.pcm Sin.
Proof.
  unfold Tone.pcm, TwilioFiller.pcm. apply list_fmap_ext. intros k i Hi.
  apply lookup_seqZ in Hi as [-> Hk]. rewrite Z.add_0_l. destruct (Z.ltb_spec (Z.of_nat k) 3200) as [Hl|]; [|done].
  unfold Tone.sample, TwilioFiller.sample. f_equal.
  assert (fmul two_pi (Tone.FrequencyHz (Tone.defaults Tone.zero_options)) = two_pi_600) as -> by (vm_compute; done).
  assert (Tone.Amplitude (Tone.defaults Tone.zero_options) = float_of_Z 2000) as -> by done.
  assert (Tone.envelope 3200 400 (Z.of_nat k) = TwilioFiller.envelope (Z.of_nat k)) as ->; [|done].
  unfold Tone.envelope, TwilioFiller.envelope. cbn [Z.ltb Z.compare andb]. change (0 <? 400) with true. cbn [andb].
  destruct (Z.of_nat k <? 400); [done|]. destruct (Z.ltb_spec (3200 - 400) (Z.of_nat k)); [|done].
  assert (flt (fdiv (float_of_Z (3200 - Z.of_nat k)) (float_of_Z 400)) (float_of_Z 0) = false) as ->; [|done].
  apply negb_true_iff.
  refine (forallb_seqZ (λ i, negb (flt (fdiv (float_of_Z (3200 - i)) (float_of_Z 400)) (float_of_Z 0))) 2800 400 (Z.of_nat k) _ _); [by vm_compute|lia].
Qed.
Lemma Tone_New Sin `{FloatConv} :
  Tone.New Sin = Return (frames_of 160 (PCM16ToMulaw (TwilioFiller.pcm Sin))).
Proof.
  unfold Tone.New, Tone.NewWithOptions, Tone.generate.
  assert (Tone.samples_of (Tone.defaults Tone.zero_options) (Tone.PatternDuration (Tone.defaults Tone.zero_options)) = 16000) as -> by (vm_compute; done).
  assert (Tone.samples_of (Tone.defaults Tone.zero_options) (Tone.ToneDuration (Tone.defaults Tone.zero_options)) = 3200) as -> by (vm_compute; done).
  assert (Tone.samples_of (Tone.defaults Tone.zero_options) (Tone.FrameDuration (Tone.defaults Tone.zero_options)) = 160) as -> by (vm_compute; done).
  assert (int64_of_float (fmul (float_dec 5 2) (float_of_Z (Tone.SampleRate (Tone.defaults Tone.zero_options)))) = 400) as -> by (vm_compute; done).
  cbv zeta. change (16000 <=? 0) with false. change (160 <=? 0) with false. cbv iota.
  change (16000 <? 0) with false. change (160 =? 0) with false. cbv iota. rewrite pcm_agree. done.
Qed.
Lemma frame_at_periodic chunks k : frame_at chunks (k + length chunks) = frame_at chunks k.
Proof.
  unfold frame_at. f_equal. destruct (decide (length chunks = 0%nat)) as [->|Hn]; [by rewrite Nat.add_0_r|].
  rewrite <-(Nat.mul_1_l (length chunks)) at 1. by rewrite Nat.Div0.mod_add.
Qed.
Lemma pcm_length Sin `{FloatConv} : length (TwilioFiller.pcm Sin) = (100 * 160)%nat.
Proof. unfold TwilioFiller.pcm. rewrite length_fmap, length_seqZ. apply Nat2Z.inj. rewrite Z2Nat.id by lia. by rewrite Nat2Z.inj_mul. Qed.

(** the hold tone.  Whatever the sine, both fillers loop a pattern of one
    hundred frames of 160 bytes (two seconds of mulaw at 8 kHz) whose
    concatenation is the encoded pattern; and when no sample is louder than 8191
    (the amplitude is 2000) the domain-neutral tone package and the Twilio filler
    produce the same frames, although one encodes with audio/codec and the other
    with its own routine. *)
Theorem hold_tones (Sin : float64 → float64) `{FloatConv} :
  (length (TwilioFiller.New Sin) = 100%nat ∧ Forall (λ c, length c = 160%nat) (TwilioFiller.New Sin)) ∧
  concat (TwilioFiller.New Sin) = TwilioFiller.pcm16ToMulaw (TwilioFiller.pcm Sin) ∧
  (∃ cs, Tone.New Sin = Return cs ∧ length cs = 100%nat ∧ Forall (λ c, length c = 160%nat) cs ∧
         concat cs = PCM16ToMulaw (TwilioFiller.pcm Sin) ∧
         (∀ k, frame_at cs (k + 100) = frame_at cs k) ∧
         (Forall (λ s, -8191 ≤ s ≤ 8191) (TwilioFiller.pcm Sin) → cs = TwilioFiller.New Sin)).
Proof.
  assert (∀ l, length l = (100 * 160)%nat →
    (length (frames_of 160 l) = 100%nat ∧ Forall (λ c, length c = 160%nat) (frames_of 160 l)) ∧ concat (frames_of 160 l) = l) as Hf.
  { intros l Hl. split; [apply cut_exact; [lia|exact Hl|apply le_n]|]. apply cut_spec; [lia|apply le_n]. }
  destruct (Hf (TwilioFiller.pcm16ToMulaw (TwilioFiller.pcm Sin))) as [H1 H2].
  { unfold TwilioFiller.pcm16ToMulaw. rewrite length_fmap. apply pcm_length. }
  destruct (Hf (PCM16ToMulaw (TwilioFiller.pcm Sin))) as [[H3 H4] H5].
  { unfold PCM16ToMulaw. rewrite length_fmap. apply pcm_length. }
  split; [exact H1|split; [exact H2|]]. exists (frames_of 160 (PCM16ToMulaw (TwilioFiller.pcm Sin))).
  split; [apply Tone_New|]. split; [exact H3|split; [exact H4|split; [exact H5|split]]].
  - intros k. rewrite <-H3. apply frame_at_periodic.
  - intros Hs. unfold TwilioFiller.New, TwilioFiller.generateHoldToneChunks. by rewrite pcm16ToMulaw_small.
Qed.

(** With a sine that is always zero the pattern is silent, and the two agree. *)
Lemma hold_tones_witness :
  Tone.New (λ _, S754_zero false) = Return (TwilioFiller.New (λ _, S754_zero false)).
Proof.
  destruct (hold_tones (λ _, S754_zero false)) as (_ & _ & cs & -> & _ & _ & _ & _ & Heq). f_equal. apply Heq.
  unfold TwilioFiller.pcm. apply Forall_fmap, Forall_true. intros i. cbn [compose]. case_match; [|lia].
  unfold TwilioFiller.sample. cbv zeta. by destruct (fmul (float_of_Z 2000) (TwilioFiller.envelope i)).
Defined.

(** Below fifty samples per second the frame size is zero and New panics. *)
Lemma low_rate_panics Sin :
  Tone.NewWithOptions Sin {| Tone.SampleRate := 40; Tone.FrameDuration := 0; Tone.PatternDuration := 0; Tone.ToneDuration := 0;
    Tone.FrequencyHz := float_of_Z 0; Tone.Amplitude := float_of_Z 0 |} = Panic "runtime error: integer divide by zero".
Proof. reflexivity. Qed.

(** ** Observers and tools *)

(** Multi forwards each callback to every observer in the order of the list. *)
Lemma Multi_forwards {W} (obs : list (option (@Observer W))) m :
  Multi obs = Return m → obs = Some <$> omap id obs ∧ ∀ c w, m c w = foldl (λ w o, o c w) w (omap id obs).
Proof.
  unfold Multi. destruct (nil_index 0 obs) eqn:En; [done|]. intros [= <-]. split; [|done].
  revert En. generalize 0%nat. induction obs as [|[o|] obs IH]; intros i En; [done| |done].
  cbn in *. by rewrite <-(IH (S i)).
Qed.
Lemma Multi_nil_panics {W} (obs : list (option (@Observer W))) i :
  obs !! i = Some None → ∃ msg, Multi obs = Panic msg.
Proof.
  intros Hi. unfold Multi. assert (is_Some (nil_index 0 obs)) as [j ->]; [|by eexists].
  revert i Hi. generalize 0%nat. induction obs as [|[o|] obs IH]; intros k [|i] Hi; try done; cbn in *; by eapply IH.
Qed.

(** ** The pump *)

Module PumpProofs.
Import Pump.
Definition sends (cs : list call) : list Frame := omap (λ c, match c with Send f => Some f | _ => None end) cs.
Definition is_clear (c : call) : bool := match c with Clear => true | _ => false end.

Record Inv (all : list Frame) (w : World) : Prop := {
  pump_order : sends (out w) ++ frames w = all;
  pump_delay : elapsed w = false → at_ w = AtSelect ∨ at_ w = Exited;
  pump_silent : elapsed w = false → sends (out w) = [];
  pump_clear : length (filter (λ c, is_clear c = true) (out w)) = match main w with Cleared => 1%nat | _ => 0%nat end
}.
Lemma pump_inv_exec all e w w' : Inv all w → exec e w = Some w' → Inv all w'.
Proof.
  intros [H1 H2 H3 H4] E. destruct w as [p m el fs o]. cbn in *.
  destruct e; cbn in E.
  - injection E as <-. by constructor.
  - destruct m; try done. injection E as <-. constructor; cbn; rewrite ?app_nil_r; auto.
  - destruct m; try done. injection E as <-. constructor; cbn; rewrite ?app_nil_r; auto.
  - destruct m; try done. injection E as <-. unfold sends in *.
    constructor; cbn; rewrite ?omap_app, ?filter_app, ?length_app; cbn; rewrite ?app_nil_r; auto. by rewrite H4.
  - destruct p; try done. destruct (done_closed m); [|done]. injection E as <-. constructor; cbn; auto.
  - destruct p; try done. destruct el; [|done]. injection E as <-. by constructor.
  - destruct p; try done. destruct (hold_cancelled m); [|done]. injection E as <-. constructor; cbn; auto.
  - destruct p; try done. destruct fs as [|f fs]; [done|]. injection E as <-. unfold sends in *.
    assert (el = true) as -> by (destruct el; [done|by destruct (H2 eq_refl)]).
    constructor; cbn; rewrite ?omap_app, ?filter_app, ?length_app; cbn; try done; [by rewrite <-app_assoc|by rewrite Nat.add_0_r].
  - destruct p; try done. destruct fs; [|done]. injection E as <-. constructor; cbn; auto.
  - destruct p; try done. injection E as <-.
    assert (el = true) as -> by (destruct el; [done|by destruct (H2 eq_refl)]). by constructor.
Qed.
Lemma pump_inv_run all es w w' : Inv all w → run es w = Some w' → Inv all w'.
Proof.
  revert w. induction es as [|e es IH]; intros w Hi; cbn [run]; [by intros [= <-]|].
  intros (w1 & E1 & Er)%bind_Some. eapply IH; [by eapply pump_inv_exec|done].
Qed.
Lemma run_elapsed es w w' : run es w = Some w' → elapsed w' = true → elapsed w = true ∨ Elapse ∈ es.
Proof.
  revert w. induction es as [|e es IH]; intros w; cbn [run]; [intros [= <-]; by left|].
  intros (w1 & E1 & Er)%bind_Some He. destruct (IH w1 Er He) as [H|H]; [|right; by right].
  destruct w as [p m el fs o]. destruct e; try (right; by left); destruct p, m; cbn in E1; try done;
    repeat case_match; simplify_eq/=; auto.
Qed.

(** The hold filler while tools run, in every interleaving of the watchdog, the
    pump and the batch: the frames sent are those of the filler, in order, from
    the first; none is sent when the tools end within HoldFillerDelay; the batch
    clears the transport once. *)
Theorem hold_pump frames es w :
  run es (start frames) = Some w →
  (∃ rest, sends (out w) ++ rest = frames) ∧
  (Elapse ∉ es → sends (out w) = []) ∧
  length (filter (λ c, is_clear c = true) (out w)) = (match main w with Cleared => 1 | _ => 0 end)%nat.
Proof.
  intros Hr. assert (Inv frames (start frames)) as Hi by (constructor; auto).
  pose proof (pump_inv_run _ _ _ _ Hi Hr) as [H1 H2 H3 H4]. split_and!; [by eexists|intros Hn|done].
  assert (elapsed w = false) as He.
  { destruct (elapsed w) eqn:E; [|done]. by destruct (run_elapsed _ _ _ Hr E). }
  by apply H3.
Qed.

(** The batch does not wait for the pump: a frame the pump holds when the
    tools end goes out after the Clear that is to flush the filler. *)
Lemma filler_after_clear f :
  ∃ w, run [Elapse; SeeTimer; ToolsDone; HoldCancel; ClearOut; NextFrame] (start [f]) = Some w ∧ out w = [Clear; Send f].
Proof. eexists. by split. Qed.
End PumpProofs.
