(* ===== verification/VoiceFake.v ===== *)
(** * Package voice/pipeline/fake

    The scriptable collaborators of src/voice/pipeline/fake: a transport and a
    model that deliver a script and record what they are given, a table of tools,
    a hold filler and a recording observer.  The goroutine that delivers a script
    (Receive of the transport, Events of the model) is the same loop over frames
    and over events: [Feed]. *)

From S2P Require Import Prelude GoString GoErrors VoicePipeline GeminiLive HoldFillers.
From stdpp Require Import base list gmap strings relations.
From Stdlib Require Import ZArith Lia.
Open Scope Z_scope.

(** ** The delivery of a script *)

Module Feed.
Section feed.
Context {A : Type}.
(** The goroutine: before the lock, offering an item, or returned with both
    channels closed.  [lost]: the item it held when the context ended. *)
Inductive pc := AtLock | Offering (a : A) | Exited.
Record feed := {
  script : list A; closing : bool;     (* the queue and inboundClosed / eventsClosed *)
  at_ : pc; ctx_done : bool; delivered : list A; lost : list A
}.
Inductive event :=
| Script (items : list A) | CloseInput | CtxDone      (* the test *)
| Lock                                                (* the goroutine looks at the queue *)
| Taken                                               (* the receiver takes the item *)
| GiveUp.                                             (* case <-ctx.Done() *)
Definition exec (e : event) (f : feed) : option feed :=
  match e with
  | Script items => Some {| script := script f ++ items; closing := closing f; at_ := at_ f; ctx_done := ctx_done f;
                            delivered := delivered f; lost := lost f |}
  | CloseInput => Some {| script := script f; closing := true; at_ := at_ f; ctx_done := ctx_done f;
                          delivered := delivered f; lost := lost f |}
  | CtxDone => Some {| script := script f; closing := closing f; at_ := at_ f; ctx_done := true;
                       delivered := delivered f; lost := lost f |}
  | Lock =>
      match at_ f, script f with
      | AtLock, a :: rest =>
          Some {| script := rest; closing := closing f; at_ := Offering a; ctx_done := ctx_done f;
                  delivered := delivered f; lost := lost f |}
      | AtLock, [] =>
          Some {| script := []; closing := closing f; at_ := if closing f || ctx_done f then Exited else AtLock;
                  ctx_done := ctx_done f; delivered := delivered f; lost := lost f |}
      | _, _ => None
      end
  | Taken =>
      match at_ f with
      | Offering a => Some {| script := script f; closing := closing f; at_ := AtLock; ctx_done := ctx_done f;
                              delivered := delivered f ++ [a]; lost := lost f |}
      | _ => None
      end
  | GiveUp =>
      match at_ f with
      | Offering a =>
          if ctx_done f then Some {| script := script f; closing := closing f; at_ := Exited; ctx_done := true;
                                     delivered := delivered f; lost := lost f ++ [a] |} else None
      | _ => None
      end
  end.
Fixpoint run (es : list event) (f : feed) : option feed :=
  match es with [] => Some f | e :: es => exec e f ≫= run es end.
Definition start (items : list A) (closing : bool) : feed :=
  {| script := items; closing := closing; at_ := AtLock; ctx_done := false; delivered := []; lost := [] |}.
Definition scripted (es : list event) : list A := es ≫= λ e, match e with Script items => items | _ => [] end.
End feed.
Arguments pc : clear implicits.
Arguments feed : clear implicits.
Arguments event : clear implicits.
End Feed.

(** ** The transport *)

Module Transport.
Record Transport := {
  inFormat : AudioFormat; outFormat : AudioFormat; script : list Frame; outbound : list Frame;
  marks : list string; clears : Z; closed : bool; inboundClosed : bool; sendErr : option error
}.
Definition NewTransport (inbound outbound : AudioFormat) : Transport :=
  {| inFormat := inbound; outFormat := outbound; script := []; outbound := []; marks := []; clears := 0;
     closed := false; inboundClosed := false; sendErr := None |}.
Definition Script (frames : list Frame) (t : Transport) : Transport :=
  {| inFormat := inFormat t; outFormat := outFormat t; script := script t ++ frames; outbound := outbound t;
     marks := marks t; clears := clears t; closed := closed t; inboundClosed := inboundClosed t; sendErr := sendErr t |}.
Definition CloseInbound (t : Transport) : Transport :=
  {| inFormat := inFormat t; outFormat := outFormat t; script := script t; outbound := outbound t; marks := marks t;
     clears := clears t; closed := closed t; inboundClosed := true; sendErr := sendErr t |}.
Definition SetSendErr (err : option error) (t : Transport) : Transport :=
  {| inFormat := inFormat t; outFormat := outFormat t; script := script t; outbound := outbound t; marks := marks t;
     clears := clears t; closed := closed t; inboundClosed := inboundClosed t; sendErr := err |}.
(** Receive starts the feed on the script. *)
Definition Receive (t : Transport) : Feed.feed Frame := Feed.start (script t) (inboundClosed t).
Definition Send (f : Frame) (t : Transport) : option error * Transport :=
  match sendErr t with
  | Some err => (Some err, SetSendErr None t)
  | None =>
      (None, {| inFormat := inFormat t; outFormat := outFormat t; script := script t; outbound := outbound t ++ [f];
                marks := marks t; clears := clears t; closed := closed t; inboundClosed := inboundClosed t;
                sendErr := None |})
  end.
Definition Clear (t : Transport) : option error * Transport :=
  (None, {| inFormat := inFormat t; outFormat := outFormat t; script := script t; outbound := outbound t;
            marks := marks t; clears := int64 (clears t + 1); closed := closed t; inboundClosed := inboundClosed t;
            sendErr := sendErr t |}).
Definition Mark (name : string) (t : Transport) : option error * Transport :=
  (None, {| inFormat := inFormat t; outFormat := outFormat t; script := script t; outbound := outbound t;
            marks := marks t ++ [name]; clears := clears t; closed := closed t; inboundClosed := inboundClosed t;
            sendErr := sendErr t |}).
Definition Close (t : Transport) : option error * Transport :=
  (None, {| inFormat := inFormat t; outFormat := outFormat t; script := script t; outbound := outbound t;
            marks := marks t; clears := clears t; closed := true; inboundClosed := inboundClosed t;
            sendErr := sendErr t |}).
End Transport.

(** ** The model *)

Module LLM.
Record LLM := {
  inFormat : AudioFormat; outFormat : AudioFormat;
  eventScript : list LLMEvent; eventsClosed : bool; audioIn : list Frame; toolResultsIn : list (list ToolResult);
  injectedTurns : list HistoryTurn; opened : Z; setupCalled : option SetupRequest;
  openErr : option error; sendAudioErr : option error; sendResultsErr : option error
}.
Definition NewLLM (inbound outbound : AudioFormat) : LLM :=
  {| inFormat := inbound; outFormat := outbound; eventScript := []; eventsClosed := false; audioIn := []; toolResultsIn := []; injectedTurns := []; opened := 0;
     setupCalled := None; openErr := None; sendAudioErr := None; sendResultsErr := None |}.
Definition Script (events : list LLMEvent) (l : LLM) : LLM :=
  {| inFormat := inFormat l; outFormat := outFormat l; eventScript := eventScript l ++ events; eventsClosed := eventsClosed l; audioIn := audioIn l;
     toolResultsIn := toolResultsIn l; injectedTurns := injectedTurns l; opened := opened l; setupCalled := setupCalled l;
     openErr := openErr l; sendAudioErr := sendAudioErr l; sendResultsErr := sendResultsErr l |}.
Definition CloseEvents (l : LLM) : LLM :=
  {| inFormat := inFormat l; outFormat := outFormat l; eventScript := eventScript l; eventsClosed := true; audioIn := audioIn l; toolResultsIn := toolResultsIn l;
     injectedTurns := injectedTurns l; opened := opened l; setupCalled := setupCalled l; openErr := openErr l;
     sendAudioErr := sendAudioErr l; sendResultsErr := sendResultsErr l |}.
(** SetOpenErr, SetSendAudioErr, SetSendResultsErr. *)
Definition set_errs (o a r : option error) (l : LLM) : LLM :=
  {| inFormat := inFormat l; outFormat := outFormat l; eventScript := eventScript l; eventsClosed := eventsClosed l; audioIn := audioIn l; toolResultsIn := toolResultsIn l;
     injectedTurns := injectedTurns l; opened := opened l; setupCalled := setupCalled l; openErr := o;
     sendAudioErr := a; sendResultsErr := r |}.
Definition SetOpenErr (err : option error) (l : LLM) : LLM := set_errs err (sendAudioErr l) (sendResultsErr l) l.
Definition SetSendAudioErr (err : option error) (l : LLM) : LLM := set_errs (openErr l) err (sendResultsErr l) l.
Definition SetSendResultsErr (err : option error) (l : LLM) : LLM := set_errs (openErr l) (sendAudioErr l) err l.
(** The recordings, with [turns] injected. *)
Definition record (frames : list Frame) (batches : list (list ToolResult)) (turns : list HistoryTurn) (l : LLM) : LLM :=
  {| inFormat := inFormat l; outFormat := outFormat l; eventScript := eventScript l; eventsClosed := eventsClosed l; audioIn := audioIn l ++ frames;
     toolResultsIn := toolResultsIn l ++ batches; injectedTurns := injectedTurns l ++ turns; opened := opened l;
     setupCalled := setupCalled l; openErr := openErr l; sendAudioErr := sendAudioErr l;
     sendResultsErr := sendResultsErr l |}.
Definition Open (setup : SetupRequest) (l : LLM) : option error * LLM :=
  let l := {| inFormat := inFormat l; outFormat := outFormat l; eventScript := eventScript l; eventsClosed := eventsClosed l; audioIn := audioIn l;
              toolResultsIn := toolResultsIn l; injectedTurns := injectedTurns l; opened := int64 (opened l + 1);
              setupCalled := Some setup; openErr := openErr l; sendAudioErr := sendAudioErr l;
              sendResultsErr := sendResultsErr l |} in
  match openErr l with
  | Some err => (Some err, SetOpenErr None l)
  | None => (None, record [] [] (History setup) l)
  end.
Definition SendAudio (f : Frame) (l : LLM) : option error * LLM :=
  match sendAudioErr l with
  | Some err => (Some err, SetSendAudioErr None l)
  | None => (None, record [f] [] [] l)
  end.
Definition SendToolResults (rs : list ToolResult) (l : LLM) : option error * LLM :=
  match sendResultsErr l with
  | Some err => (Some err, SetSendResultsErr None l)
  | None => (None, record [] [rs] [] l)
  end.
Definition InjectTurn (turn : HistoryTurn) (l : LLM) : option error * LLM := (None, record [] [] [turn] l).
Definition Events (l : LLM) : Feed.feed LLMEvent := Feed.start (eventScript l) (eventsClosed l).
Definition Close (l : LLM) : option error * LLM := (None, l).
End LLM.

(** ** Tools, the filler, the recorder *)

Module Executor.
Record Executor := { handlers : gmap string (ToolCall → exec_result); calls : list ToolCall }.
Definition NewExecutor : Executor := {| handlers := ∅; calls := [] |}.
Definition Register (name : string) (fn : ToolCall → exec_result) (e : Executor) : Executor :=
  {| handlers := <[name := fn]> (handlers e); calls := calls e |}.
Definition Execute (call : ToolCall) (e : Executor) : exec_result * Executor :=
  let e' := {| handlers := handlers e; calls := calls e ++ [call] |} in
  (match handlers e !! ToolName call with
   | None => Executed "" (Some (ENew ("fake executor: no handler for " +:+ ToolName call)))
   | Some fn => fn call
   end, e').
End Executor.

(** Filler.Frames before the context ends: [loop_at] is the flag each pass
    reads; the passes are bounded by [fuel]. *)
Fixpoint Filler_Frames (fuel : nat) (frames : list Frame) (loop_at : nat → bool) (pass : nat) : list Frame :=
  match fuel with
  | O => []
  | S fuel => frames ++ if loop_at pass then Filler_Frames fuel frames loop_at (S pass) else []
  end.

(** RecorderObserver: its callbacks append a record of their name and
    arguments. *)
Definition Recorder : Observer (W := list call) := λ c w, w ++ [c].

(** ** Scripts are delivered in order *)

Module FeedProofs.
Import Feed.
Section feed.
Context {A : Type}.
Implicit Types (f : feed A) (es : list (event A)).
Definition held (p : pc A) : list A := match p with Offering a => [a] | _ => [] end.
Record Inv (all : list A) f : Prop := {
  feed_order : all = delivered f ++ lost f ++ held (at_ f) ++ script f;
  feed_lost : lost f = [] ∨ (at_ f = Exited ∧ ctx_done f = true ∧ length (lost f) = 1%nat);
  feed_end : at_ f = Exited → ctx_done f = true ∨ closing f = true
}.
Lemma feed_inv_exec all e f f' :
  Inv all f → exec e f = Some f' → Inv (all ++ match e with Script items => items | _ => [] end) f'.
Proof.
  intros [Ho Hl He] E. destruct f as [sc cl p cd dl lo]. cbn [script closing at_ ctx_done delivered lost] in *.
  destruct e; cbn [exec script closing at_ ctx_done delivered lost] in E.
  1: { injection E as <-. constructor; cbn; [|done..]. by rewrite Ho, <-!app_assoc. }
  all: rewrite app_nil_r.
  1,2: injection E as <-; constructor; cbn; [done|naive_solver..].
  - destruct p; try done. destruct Hl as [->|(? & _)]; [|done].
    destruct sc as [|x sc]; injection E as <-; constructor; cbn; auto; try done.
    + by destruct (cl || cd).
    + destruct cl, cd; naive_solver.
  - destruct p as [|x|]; try done. destruct Hl as [->|(? & _)]; [|done]. injection E as <-.
    constructor; cbn; [|by left|done]. by rewrite Ho, <-app_assoc.
  - destruct p as [|x|]; try done. destruct Hl as [->|(? & _)]; [|done]. destruct cd; [|done]. injection E as <-.
    constructor; cbn; [done|by right|by left].
Qed.
Lemma feed_inv_run es all f f' : Inv all f → run es f = Some f' → Inv (all ++ scripted es) f'.
Proof.
  revert all f. induction es as [|e es IH]; intros all f Hi; cbn [run]; [intros [= <-]; by rewrite app_nil_r|].
  intros (f1 & E1 & Er)%bind_Some. apply (feed_inv_exec _ _ _ _ Hi) in E1. specialize (IH _ _ E1 Er).
  unfold scripted in *. cbn. by rewrite <-app_assoc in IH.
Qed.

(** A closed script is delivered to a receiver that takes everything. *)
Lemma feed_drains f :
  closing f = true → at_ f = AtLock →
  ∃ es f', scripted es = [] ∧ (length es = 2 * length (script f) + 1)%nat ∧ run es f = Some f' ∧
    at_ f' = Exited ∧ delivered f' = delivered f ++ script f ∧ script f' = [] ∧ lost f' = lost f.
Proof.
  destruct f as [sc cl p cd dl lo]. cbn [script closing at_ delivered lost]. intros -> ->. revert dl.
  induction sc as [|x sc IH]; intros dl.
  - exists [Lock]. eexists. split_and!; [done..|by rewrite app_nil_r|done|done].
  - destruct (IH (dl ++ [x])) as (es & f' & Hs & Hl & Hr & Hx & Hd & Hsc & Hlo). exists (Lock :: Taken :: es), f'.
    split_and!; [done|cbn; cbn in Hl; lia|exact Hr|done| |done|done]. by rewrite Hd, <-app_assoc.
Qed.

(** the scripts of the fakes.  Whatever the interleaving of the test,
    the goroutine and the receiver, the items reach the receiver in the order of
    the script, each at most once; one is lost only to a context that ends while
    it is offered, and the channels close only then or after CloseInbound /
    CloseEvents.  From any state with a closed input, a receiver that keeps
    taking gets everything left and sees the channels closed. *)
Theorem feed_delivers items c es f :
  run es (start items c) = Some f →
  items ++ scripted es = delivered f ++ lost f ++ held (at_ f) ++ script f ∧
  (length (lost f) ≤ 1)%nat ∧ (lost f ≠ [] → ctx_done f = true) ∧
  (at_ f = Exited → ctx_done f = true ∨ closing f = true) ∧
  (closing f = true → at_ f ≠ Exited →
     ∃ gs f', scripted gs = [] ∧ run gs f = Some f' ∧ at_ f' = Exited ∧ delivered f' = items ++ scripted es).
Proof.
  intros Hr.
  assert (Inv items (start items c)) as Hi by (constructor; [done|by left|done]).
  pose proof (feed_inv_run _ _ _ _ Hi Hr) as [Ho Hl He].
  split_and!; [done|destruct Hl as [->|(_ & _ & ->)]; simpl; lia|naive_solver|done|]. intros Hc Hx.
  destruct Hl as [Hl|(? & _)]; [|done]. rewrite Hl in Ho. destruct (at_ f) as [|x|] eqn:Ea; [..|done].
  - destruct (feed_drains f Hc Ea) as (gs & f' & H1 & _ & H2 & H3 & H4 & _). exists gs, f'. split_and!; try done.
    by rewrite H4, Ho.
  - set (f1 := {| script := script f; closing := closing f; at_ := AtLock; ctx_done := ctx_done f;
                  delivered := delivered f ++ [x]; lost := lost f |}).
    destruct (feed_drains f1 Hc eq_refl) as (gs & f' & H1 & _ & H2 & H3 & H4 & _). exists (Taken :: gs), f'.
    split_and!; try done; [by cbn [run exec]; rewrite Ea|]. rewrite H4, Ho. cbn. by rewrite <-app_assoc.
Qed.
End feed.

Lemma feed_delivers_witness :
  ∃ f, run [Lock; Taken; Feed.Script [3]; Lock; CtxDone; GiveUp] (start [1; 2] false) = Some f ∧
  [1; 2; 3] = delivered f ++ lost f ++ held (at_ f) ++ script f.
Proof.
  eexists. split; [reflexivity|].
  exact (proj1 (feed_delivers [1; 2] false [Lock; Taken; Feed.Script [3]; Lock; CtxDone; GiveUp] _ eq_refl)).
Defined.
End FeedProofs.

(** ** A session on the fakes *)

Section record.
(** A call of the pipeline, on the transport, the model and the recorder. *)
Definition apply_call (w : Transport.Transport * LLM.LLM * list call) (c : call)
    : Transport.Transport * LLM.LLM * list call :=
  let '(t, l, r) := w in
  match c with
  | Send f => ((Transport.Send f t).2, l, r)
  | Clear => ((Transport.Clear t).2, l, r)
  | Mark n => ((Transport.Mark n t).2, l, r)
  | TransportClose => ((Transport.Close t).2, l, r)
  | VoicePipeline.SendAudio f => (t, (LLM.SendAudio f l).2, r)
  | VoicePipeline.SendToolResults rs => (t, (LLM.SendToolResults rs l).2, r)
  | LLMClose => (t, (LLM.Close l).2, r)
  | _ => (t, l, Recorder c r)
  end.

(** the fakes record a session.  When no failure is programmed, after the
    calls of a trace the transport holds the frames and marks sent, in order, the
    model the audio and the tool results, and the observer exactly the
    callbacks. *)
Theorem fakes_record_trace tin tout lin lout tr :
  let '(t, l, r) := foldl apply_call (Transport.NewTransport tin tout, LLM.NewLLM lin lout, []) tr in
  Transport.outbound t = omap (λ c, match c with Send f => Some f | _ => None end) tr ∧
  Transport.marks t = omap (λ c, match c with Mark n => Some n | _ => None end) tr ∧
  (Transport.closed t = true ↔ TransportClose ∈ tr) ∧
  LLM.audioIn l = omap (λ c, match c with VoicePipeline.SendAudio f => Some f | _ => None end) tr ∧
  LLM.toolResultsIn l = omap (λ c, match c with VoicePipeline.SendToolResults rs => Some rs | _ => None end) tr ∧
  r = observed tr.
Proof.
  enough (let '(t, l, r) := foldl apply_call (Transport.NewTransport tin tout, LLM.NewLLM lin lout, []) tr in
    (Transport.sendErr t = None ∧ LLM.sendAudioErr l = None ∧ LLM.sendResultsErr l = None) ∧
    Transport.outbound t = omap (λ c, match c with Send f => Some f | _ => None end) tr ∧
    Transport.marks t = omap (λ c, match c with Mark n => Some n | _ => None end) tr ∧
    (Transport.closed t = true ↔ TransportClose ∈ tr) ∧
    LLM.audioIn l = omap (λ c, match c with VoicePipeline.SendAudio f => Some f | _ => None end) tr ∧
    LLM.toolResultsIn l = omap (λ c, match c with VoicePipeline.SendToolResults rs => Some rs | _ => None end) tr ∧
    r = observed tr) as H by (destruct (foldl _ _ _) as [[??]?]; tauto).
  induction tr as [|c tr IH] using rev_ind; [cbn; split_and!; try done; split; [done|by intros ?%elem_of_nil]|].
  rewrite foldl_app. destruct (foldl _ _ tr) as [[t l] r]. destruct IH as ((E1 & E2 & E3) & H1 & H2 & H3 & H4 & H5 & H6).
  cbn [foldl]. destruct (apply_call (t, l, r) c) as [[t' l'] r'] eqn:E.
  unfold observed in *. rewrite !omap_app, filter_app, elem_of_app, <-H1, <-H2, <-H4, <-H5, <-H6, <-H3.
  assert (∀ x : call, TransportClose ∈ [x] ↔ x = TransportClose) as Hel by (intros; rewrite list_elem_of_singleton; naive_solver).
  rewrite Hel. destruct t, l. cbn [Transport.sendErr LLM.sendAudioErr LLM.sendResultsErr] in *. subst.
  destruct c; cbn in E; simplify_eq; cbn; rewrite ?app_nil_r; split_and!; try done; try tauto; naive_solver.
Qed.
End record.
