(* ===== verification/TelegramBot.v ===== *)
(** * Package communication/telegram/bot: what it keeps in Redis

    The per-user rate limiter (ratelimit/limiter.go), the sessions
    (auth/session.go) with the token exchange (client/identity.go) and the
    conversation states (state/manager.go).  Redis is the class [Redis]: commands that may
    fail, with what each does to the values and sorted sets a reader sees;
    [memory_redis] is an instance.  One caller acts for a user at a time: the
    commands of one method are not interleaved with another's on the same key. *)

From S2P Require Import Prelude GoString GoErrors.
From stdpp Require Import base list gmap strings.
From Stdlib Require Import ZArith Lia Sorted.
Open Scope Z_scope.

Definition Minute : Duration := 60 * Second.
(** time.Time.Unix and UnixMilli. *)
Definition Unix (t : Time) : Z := t / 1000000000.
Definition UnixMilli (t : Time) : Z := t / 1000000.

(** ** Redis *)

(** A sorted set: members with their scores.  The scores in use are whole
    milliseconds, which a float64 holds exactly. *)
Abbreviation zset := (gmap string Z).

(** ZREMRANGEBYSCORE key lo hi; ZADD key score member. *)
Definition zremrange (lo hi : Z) (z : zset) : zset := filter (λ kv, ¬ (lo ≤ kv.2 ≤ hi)) z.

(** The value at a key until its expiry; a duration of zero is no expiry. *)
Definition alive (ttl : Duration) (t t' : Time) : bool := (ttl =? 0) || (t' <? t + ttl).

Class Redis := {
  rstore : Type;
  (* what a reader sees at an instant *)
  value : rstore → string → Time → option string;
  members : rstore → string → Time → zset;
  r_get : string → Time → rstore → result error (option string);
  r_set : string → string → Duration → Time → rstore → result error rstore;
  r_del : string → rstore → result error rstore;
  (* the pipeline ZREMRANGEBYSCORE, ZADD, ZCARD, EXPIRE *)
  r_window : string → Z * Z → Z * string → Duration → Time → rstore → result error (Z * rstore);
  r_get_value k t s v : r_get k t s = Ok v → v = value s k t;
  r_set_value k v ttl t s s' : r_set k v ttl t s = Ok s' →
    ∀ k' t', t ≤ t' → value s' k' t' = if decide (k' = k)
                                       then (if alive ttl t t' then Some v else None)
                                       else value s k' t';
  r_del_value k s s' : r_del k s = Ok s' →
    ∀ k' t', value s' k' t' = if decide (k' = k) then None else value s k' t';
  r_window_members k range sm ttl t s n s' : 0 < ttl → r_window k range sm ttl t s = Ok (n, s') →
    let z := <[sm.2 := sm.1]> (zremrange range.1 range.2 (members s k t)) in
    n = Z.of_nat (size z) ∧
    ∀ k' t', t ≤ t' → members s' k' t' = if decide (k' = k)
                                         then (if t' <? t + ttl then z else ∅)
                                         else members s k' t'
}.

(** ** ratelimit *)

Module Limiter.
Section limiter.
Context `{Redis}.

Record RateLimiter := { maxPerMin : Z }.
Definition NewRateLimiter (max : Z) : RateLimiter :=
  {| maxPerMin := if max <=? 0 then 20 else max |}.

Definition rl_key (partnerID : string) (telegramID : Z) : string :=
  "tgbot:rl:" +:+ partnerID +:+ ":" +:+ fmt_d telegramID.

Definition Allow (rl : RateLimiter) (partnerID : string) (telegramID : Z) (now : Time) (s : rstore)
    : (bool * option error) * rstore :=
  let windowStart := now - Minute in
  match r_window (rl_key partnerID telegramID) (0, UnixMilli windowStart)
          (UnixMilli now, fmt_d (UnixMilli now)) (2 * Minute) now s with
  | Err err => ((true, Some err), s)
  | Ok (count, s) => ((count <=? maxPerMin rl, None), s)
  end.

(** The requests of one user, at the instants [ts]; None when Redis failed. *)
Fixpoint requests (rl : RateLimiter) (p : string) (u : Z) (ts : list Time) (s : rstore)
    : option (list bool) * rstore :=
  match ts with
  | [] => (Some [], s)
  | t :: ts =>
      match Allow rl p u t s with
      | ((ok, None), s) => let '(oks, s) := requests rl p u ts s in (cons ok <$> oks, s)
      | ((_, Some _), s) => (None, s)
      end
  end.

(** *** The reference: the distinct milliseconds of the last minute *)

Definition in_window (t : Time) (hist : list Time) : gset Z :=
  list_to_set (filter (λ m, UnixMilli t - 60000 < m) (UnixMilli <$> hist)).
Definition within (rl : RateLimiter) (hist : list Time) (t : Time) : bool :=
  Z.of_nat (size (in_window t (hist ++ [t]))) <=? maxPerMin rl.
Fixpoint reference (rl : RateLimiter) (hist ts : list Time) : list bool :=
  match ts with
  | [] => []
  | t :: ts => within rl hist t :: reference rl (hist ++ [t]) ts
  end.

Implicit Types ms : gset Z.

(** The sorted set of a set of milliseconds. *)
Definition zset_of (ms : gset Z) : zset := list_to_map ((λ m, (fmt_d m, m)) <$> elements ms).

Lemma zset_of_fst ms : ((λ m, (fmt_d m, m)) <$> elements ms).*1 = fmt_d <$> elements ms.
Proof. by rewrite <-list_fmap_compose. Qed.
Lemma zset_of_NoDup ms : NoDup (((λ m, (fmt_d m, m)) <$> elements ms).*1).
Proof.
  rewrite zset_of_fst. apply NoDup_fmap_2_strong; [|apply NoDup_elements].
  intros x y _ _. apply fmt_d_inj.
Qed.
Lemma zset_of_lookup ms k m : zset_of ms !! k = Some m ↔ k = fmt_d m ∧ m ∈ ms.
Proof.
  unfold zset_of. rewrite <-elem_of_list_to_map by apply zset_of_NoDup.
  rewrite list_elem_of_fmap. setoid_rewrite elem_of_elements. naive_solver.
Qed.
Lemma zset_of_size ms : size (zset_of ms) = size ms.
Proof.
  unfold zset_of. rewrite <-length_map_to_list, map_to_list_to_map by apply zset_of_NoDup.
  by rewrite length_fmap.
Qed.

Lemma UnixMilli_mono t t' : t ≤ t' → UnixMilli t ≤ UnixMilli t'.
Proof. intros. apply Z.div_le_mono; lia. Qed.
Lemma UnixMilli_window t : UnixMilli (t - Minute) = UnixMilli t - 60000.
Proof. unfold UnixMilli, Minute, Second. dlia. Qed.

Lemma elem_of_in_window m t hist :
  m ∈ in_window t hist ↔ UnixMilli t - 60000 < m ∧ m ∈ UnixMilli <$> hist.
Proof. unfold in_window. by rewrite elem_of_list_to_set, list_elem_of_filter. Qed.

Section user.
Variables (rl : RateLimiter) (p : string) (u : Z).
Let key := rl_key p u.

(** From [t] on the sorted set holds requests of [hist] only, and all of the
    last minute. *)
Definition tracks (hist : list Time) (t : Time) (s : rstore) : Prop :=
  ∀ t', t ≤ t' → ∃ ms, members s key t' = zset_of ms ∧ ms ⊆ list_to_set (UnixMilli <$> hist) ∧
    in_window t' hist ⊆ ms.

(** The set after a request. *)
Lemma window_update ms t hist :
  Forall (λ t, 0 ≤ t) hist → ms ⊆ list_to_set (UnixMilli <$> hist) → in_window t hist ⊆ ms →
  <[fmt_d (UnixMilli t) := UnixMilli t]> (zremrange 0 (UnixMilli (t - Minute)) (zset_of ms)) =
  zset_of (in_window t (hist ++ [t])).
Proof.
  intros Hpos Hsub Hin. apply map_eq. intros k. apply option_eq. intros m.
  rewrite zset_of_lookup, elem_of_in_window, fmap_app, elem_of_app.
  change (UnixMilli <$> [t]) with [UnixMilli t]. rewrite list_elem_of_singleton, UnixMilli_window. unfold zremrange.
  rewrite lookup_insert_Some, map_lookup_filter_Some, zset_of_lookup. simpl. split.
  - intros [[<- <-]|(Hk & (-> & Hm) & Hr)]; [split; [done|]; split; [lia|by right]|].
    apply Hsub, elem_of_list_to_set in Hm. split; [done|]. split; [|by left].
    apply list_elem_of_fmap in Hm as (t0 & -> & Ht0). rewrite Forall_forall in Hpos.
    specialize (Hpos _ Ht0). assert (0 ≤ UnixMilli t0) by (apply Z.div_pos; lia). lia.
  - intros (-> & Hw & Hm). destruct (decide (m = UnixMilli t)) as [->|Hne]; [by left|].
    destruct Hm as [Hm|]; [|done]. right. split; [by intros E%fmt_d_inj|].
    split; [|lia]. split; [done|]. apply Hin, elem_of_in_window. done.
Qed.

Lemma Allow_tracks hist t s :
  Forall (λ t0, 0 ≤ t0 ≤ t) hist → tracks hist t s →
  match Allow rl p u t s with
  | ((ok, None), s') => ok = within rl hist t ∧ tracks (hist ++ [t]) t s'
  | ((ok, Some _), s') => ok = true ∧ s' = s
  end.
Proof.
  intros Hh Htr. unfold Allow. fold key. destruct (r_window _ _ _ _ _ _) as [[n s']|err] eqn:E; [|done].
  destruct (Htr t (Z.le_refl t)) as (ms & Em & Hsub & Hin).
  assert (0 < 2 * Minute) as Httl by done.
  destruct (r_window_members _ _ _ _ _ _ _ _ Httl E) as [-> Hs']. cbn [fst snd] in *.
  assert (Forall (λ t, 0 ≤ t) hist) as Hpos by (eapply Forall_impl; [exact Hh|naive_solver]).
  rewrite Em, (window_update ms t hist) in Hs' |- * by done. split; [by rewrite zset_of_size|].
  intros t' Ht'. rewrite Hs', decide_True by done.
  destruct (t' <? t + 2 * Minute) eqn:Ea.
  - eexists. split; [done|]. pose proof (UnixMilli_mono t t' Ht').
    split; intros m [Hw Hm]%elem_of_in_window; [by apply elem_of_list_to_set|].
    apply elem_of_in_window. split; [lia|done].
  - exists ∅. split; [done|]. split; [set_solver|]. intros m [Hw Hm]%elem_of_in_window. exfalso.
    apply list_elem_of_fmap in Hm as (t0 & -> & Ht0).
    assert (t0 ≤ t) as Hle.
    { rewrite elem_of_app, list_elem_of_singleton in Ht0. rewrite Forall_forall in Hh. naive_solver lia. }
    unfold Minute, Second in Ea. apply UnixMilli_mono in Hle.
    assert (UnixMilli t + 120000 ≤ UnixMilli t') by (unfold UnixMilli in *; zbool; dlia). lia.
Qed.

Lemma tracks_later hist t t' s : t ≤ t' → tracks hist t s → tracks hist t' s.
Proof. intros Hle Htr t2 Ht2. apply Htr. lia. Qed.

Lemma requests_reference hist t0 ts s oks s' :
  Forall (λ t, 0 ≤ t ≤ t0) hist → StronglySorted Z.le (t0 :: ts) → 0 ≤ t0 → tracks hist t0 s →
  requests rl p u ts s = (Some oks, s') → oks = reference rl hist ts.
Proof.
  revert hist t0 s oks. induction ts as [|t ts IH]; intros hist t0 s oks Hh Hs Ht0 Htr; simpl.
  { by intros [= <-]. }
  apply StronglySorted_inv in Hs as [Hs Hle]. apply Forall_cons_1 in Hle as [Hle _].
  assert (Forall (λ t1, 0 ≤ t1 ≤ t) hist) as Hh' by (eapply Forall_impl; [exact Hh|simpl; lia]).
  pose proof (Allow_tracks hist t s Hh' (tracks_later _ _ _ _ Hle Htr)) as Ha.
  destruct (Allow rl p u t s) as [[ok [e|]] s1]; [done|]. destruct Ha as [-> Htr1].
  destruct (requests rl p u ts s1) as [[oks1|] s2] eqn:E; [|done]. intros [= <- <-]. f_equal.
  refine (IH (hist ++ [t]) t s1 oks1 _ Hs _ Htr1 E); [|lia].
  apply Forall_app; split; [done|]. apply Forall_singleton. lia.
Qed.
End user.

(** With requests at distinct milliseconds the set counts requests. *)
Lemma within_distinct rl hist t :
  NoDup (UnixMilli <$> hist ++ [t]) →
  within rl hist t =
  (Z.of_nat (length (filter (λ t0, UnixMilli t - 60000 < UnixMilli t0) (hist ++ [t]))) <=? maxPerMin rl).
Proof.
  intros Hnd. unfold within, in_window. rewrite size_list_to_set by (by apply NoDup_filter).
  assert (∀ l, length (filter (λ m, UnixMilli t - 60000 < m) (UnixMilli <$> l)) =
    length (filter (λ t0, UnixMilli t - 60000 < UnixMilli t0) l)) as ->; [|done].
  induction l as [|a l IH]; [done|]. rewrite fmap_cons, !filter_cons.
  destruct (decide _); simpl; by rewrite IH.
Qed.
End limiter.

(** C33: the bot's rate limiter is a sliding window of one minute over the
    milliseconds in which a user made requests, refused ones included: for a
    user without earlier requests and requests in time order, each is allowed
    exactly when the last minute, itself included, has at most maxPerMin
    distinct milliseconds with a request.  For requests at distinct
    milliseconds that is the number of requests. *)
Theorem bot_limiter_window `{Redis} max p u ts s oks s' :
  (∀ t, members s (rl_key p u) t = ∅) → StronglySorted Z.le (0 :: ts) →
  requests (NewRateLimiter max) p u ts s = (Some oks, s') →
  oks = reference (NewRateLimiter max) [] ts ∧
  (∀ hist t, NoDup (UnixMilli <$> hist ++ [t]) →
     within (NewRateLimiter max) hist t =
     (Z.of_nat (length (filter (λ t0, UnixMilli t - 60000 < UnixMilli t0) (hist ++ [t])))
        <=? maxPerMin (NewRateLimiter max))).
Proof.
  intros Hs Hts Hr. split; [|by intros; apply within_distinct].
  eapply (requests_reference _ p u [] 0 ts s oks s'); [by constructor|done|done| |done].
  intros t _. exists ∅. split; [by rewrite Hs|]. set_solver.
Qed.

(** A burst within one millisecond counts as one request, whatever its size. *)
Lemma burst_allowed max n t : 1 ≤ max → reference (NewRateLimiter max) [] (replicate n t) = replicate n true.
Proof.
  intros Hmax. assert (∀ k, reference (NewRateLimiter max) (replicate k t) (replicate n t) = replicate n true)
    as Hk; [|by apply (Hk 0%nat)].
  induction n as [|n IH]; intros k; [done|]. simpl. rewrite <-replicate_S_end, IH. f_equal.
  unfold within. rewrite <-replicate_S_end. apply Z.leb_le.
  assert (in_window t (replicate (S k) t) ⊆ {[ UnixMilli t ]}) as Hsub.
  { intros m [_ Hm]%elem_of_in_window. apply list_elem_of_fmap in Hm as (t0 & -> & Ht0).
    apply elem_of_replicate in Ht0 as [-> _]. set_solver. }
  apply subseteq_size in Hsub. rewrite size_singleton in Hsub.
  cbn [maxPerMin NewRateLimiter]. case_match; lia.
Qed.
End Limiter.

(** ** Keys *)

(** A prefix, a partner and a number identify their parts: the number has no
    colon, so the last colon of the key ends the partner. *)
Lemma user_key_inj pre p p' u u' :
  pre +:+ p +:+ ":" +:+ fmt_d u = pre +:+ p' +:+ ":" +:+ fmt_d u' → p = p' ∧ u = u'.
Proof.
  intros E%string_app_inv_head. apply (f_equal (λ s, reverse (bytes_of s))) in E.
  rewrite !bytes_of_app, !reverse_app, <-!app_assoc in E.
  change (reverse (bytes_of ":")) with [58] in E. cbn [app] in E.
  assert (∀ n, 58 ∉ reverse (bytes_of (fmt_d n))) as Hc.
  { intros n Hin. rewrite elem_of_reverse in Hin. pose proof (bytes_of_fmt_d n) as Hb.
    rewrite Forall_forall in Hb. specialize (Hb _ Hin). lia. }
  apply split_at_inj in E as [Eu Ep]; [|done..].
  apply (inj reverse), bytes_of_inj in Ep. apply (inj reverse), bytes_of_inj, fmt_d_inj in Eu. done.
Qed.

(** encoding/json on one type: what it represents survives. *)
Class Codec (A : Type) := {
  representable : A → Prop;
  marshal : A → result error string;
  unmarshal : string → result error A;
  unmarshal_marshal a d : representable a → marshal a = Ok d → unmarshal d = Ok a
}.

(** ** auth and client *)

Module Auth.
Record UserInfo := { UIID : string; UIName : string; UIUserType : string }.
Record APIError := { ErrCode : string; ErrMessage : string }.
Record AuthResponse := {
  Success : bool;
  AccessToken : string;
  RespRefreshToken : string;
  ExpiresIn : Z;                 (* int32, seconds *)
  RespRoles : list string;
  User : UserInfo;
  Error : option APIError
}.

Record Session := {
  Token : string;
  RefreshToken : string;
  ExpiresAt : Z;
  Roles : list string;
  UserID : string;
  UserType : string;
  Lang : string
}.

(** What doInternal returns, with the decoding of the body. *)
Definition Identity : Type := string → string → result error (result error AuthResponse).

Definition ExchangeTelegramToken (identity : Identity) (telegramID partnerID : string)
    : result error AuthResponse :=
  match identity telegramID partnerID with
  | Err err => Err err
  | Ok (Err err) => Err (EWrap "decode ExchangeTelegramToken response: " "" err)
  | Ok (Ok result) =>
      match Error result with
      | Some e => if negb (Success result) then Err (EText (ErrCode e +:+ ": " +:+ ErrMessage e)) else Ok result
      | None => Ok result
      end
  end.

Definition IsExpired (now : Time) (s : Session) : bool := int64 (ExpiresAt s - 300) <=? Unix now.
Definition IsAdmin (s : Session) : bool :=
  String.eqb (UserType s) "admin" || String.eqb (UserType s) "superadmin".

Definition sessionKey (partnerID : string) (telegramID : Z) : string :=
  "tgbot:session:" +:+ partnerID +:+ ":" +:+ fmt_d telegramID.

Section sessions.
Context `{Redis} `{Codec Session}.

Definition GetSession (p : string) (u : Z) (now : Time) (s : rstore) : result error (option Session) :=
  match r_get (sessionKey p u) now s with
  | Err err => Err (EWrap "get session: " "" err)
  | Ok None => Ok None
  | Ok (Some data) =>
      match unmarshal data with
      | Err err => Err (EWrap "decode session: " "" err)
      | Ok sess => Ok (Some sess)
      end
  end.

(** [now] is the reading of time.Until and the instant of the SET. *)
Definition saveSession (p : string) (u : Z) (sess : Session) (now : Time) (s : rstore) : result error rstore :=
  match marshal sess with
  | Err err => Err (EWrap "marshal session: " "" err)
  | Ok data =>
      let ttl := time_Sub (ExpiresAt sess * Second) now in
      let ttl := if ttl <? Minute then Minute else ttl in
      r_set (sessionKey p u) data ttl now s
  end.

Definition new_session (resp : AuthResponse) (now : Time) : Session := {|
  Token := AccessToken resp; RefreshToken := RespRefreshToken resp;
  ExpiresAt := Unix (time_Add now (int64 (ExpiresIn resp * Second)));
  Roles := RespRoles resp; UserID := UIID (User resp); UserType := UIUserType (User resp); Lang := "ar" |}.

(** [now] and [now'] are the clock readings for the expiry and for the SET. *)
Definition Authenticate (identity : Identity) (p : string) (u : Z) (now now' : Time) (s : rstore)
    : result error Session * rstore :=
  match ExchangeTelegramToken identity (fmt_d u) p with
  | Err err => (Err (EWrap "exchange token: " "" err), s)
  | Ok resp =>
      let sess := new_session resp now in
      match saveSession p u sess now' s with
      | Err err => (Err err, s)
      | Ok s => (Ok sess, s)
      end
  end.

Definition GetValidToken (identity : Identity) (p : string) (u : Z) (now now' : Time) (s : rstore)
    : result error (string * option Session) * rstore :=
  match GetSession p u now s with
  | Err err => (Err err, s)
  | Ok None => (Ok ("", None), s)
  | Ok (Some sess) =>
      if negb (IsExpired now sess) then (Ok (Token sess, Some sess), s)
      else
        match Authenticate identity p u now now' s with
        | (Err err, s) => (Err (EWrap "re-authenticate: " "" err), s)
        | (Ok newSess, s) => (Ok (Token newSess, Some newSess), s)
        end
  end.

(** [fn] retries with the new token and acts on a state of its own. *)
Definition HandleUnauthorized {W} (identity : Identity) (p : string) (u : Z) (now now' : Time)
    (fn : string → W → option error * W) (s : rstore) (w : W) : option error * (rstore * W) :=
  match Authenticate identity p u now now' s with
  | (Err err, s) => (Some err, (s, w))
  | (Ok sess, s) => let '(err, w) := fn (Token sess) w in (err, (s, w))
  end.

Definition with_lang (lang : string) (s : Session) : Session := {|
  Token := Token s; RefreshToken := RefreshToken s; ExpiresAt := ExpiresAt s; Roles := Roles s;
  UserID := UserID s; UserType := UserType s; Lang := lang |}.
Definition SetLang (p : string) (u : Z) (lang : string) (now : Time) (s : rstore) : option error * rstore :=
  match GetSession p u now s with
  | Ok (Some sess) =>
      match saveSession p u (with_lang lang sess) now s with
      | Err err => (Some err, s)
      | Ok s => (None, s)
      end
  | _ => (Some (EText "session not found"), s)
  end.

(** *** Lemmas *)

(** A saved session is read back until it expires, and at least for a minute. *)
Lemma saveSession_read p u sess t s s' :
  representable sess → saveSession p u sess t s = Ok s' →
  ∀ t' v, t ≤ t' → t' < ExpiresAt sess * Second → ExpiresAt sess * Second - t ≤ MaxInt64 →
    r_get (sessionKey p u) t' s' = Ok v → GetSession p u t' s' = Ok (Some sess).
Proof.
  unfold saveSession. intros Hr. destruct (marshal sess) as [d|] eqn:Em; [|done].
  intros Hset t' v Hle Hexp Hmax Hget. unfold GetSession. rewrite Hget.
  apply r_get_value in Hget as ->. rewrite (r_set_value _ _ _ _ _ _ Hset _ _ Hle), decide_True by done.
  assert (alive (if time_Sub (ExpiresAt sess * Second) t <? Minute then Minute
                 else time_Sub (ExpiresAt sess * Second) t) t t' = true) as ->.
  { unfold alive, time_Sub. unfold Minute, Second, MaxInt64, MinInt64 in *. apply orb_true_iff. right. apply Z.ltb_lt.
    destruct (Z.ltb_spec (Z.max (- 2 ^ 63) (Z.min (2 ^ 63 - 1) (ExpiresAt sess * 1000000000 - t)))
      (60 * 1000000000)); lia. }
  by rewrite (unmarshal_marshal _ _ Hr Em).
Qed.

(** Saving a session leaves every other user alone. *)
Lemma saveSession_other p u sess t s s' p' u' t' :
  saveSession p u sess t s = Ok s' → t ≤ t' → (p', u') ≠ (p, u) →
  value s' (sessionKey p' u') t' = value s (sessionKey p' u') t'.
Proof.
  unfold saveSession. destruct (marshal sess); [|done]. intros Hset Hle Hne.
  rewrite (r_set_value _ _ _ _ _ _ Hset _ _ Hle), decide_False; [done|].
  intros [-> ->]%user_key_inj. done.
Qed.

Lemma IsExpired_false sess t :
  in_int64 (ExpiresAt sess - 300) → Unix t < ExpiresAt sess - 300 →
  IsExpired t sess = false ∧ t < ExpiresAt sess * Second.
Proof.
  intros Hi Ht. unfold IsExpired. rewrite int64_id by done. split; [by apply Z.leb_gt|].
  unfold Unix, Second in *. dlia.
Qed.

Lemma new_session_expiry resp now :
  0 ≤ now < 2 ^ 62 → in_int32 (ExpiresIn resp) →
  in_int64 (ExpiresAt (new_session resp now) - 300) ∧
  ExpiresAt (new_session resp now) * Second - now ≤ MaxInt64.
Proof.
  intros Hn Hi. cbn [ExpiresAt new_session]. unfold time_Add. unfold in_int32 in Hi.
  rewrite int64_id by (unfold in_int64, MinInt64, MaxInt64, Second; lia).
  unfold in_int64, MinInt64, MaxInt64, Unix, Second. dlia.
Qed.

Lemma GetValidToken_fresh identity p u now now' s sess :
  GetSession p u now s = Ok (Some sess) → IsExpired now sess = false →
  GetValidToken identity p u now now' s = (Ok (Token sess, Some sess), s).
Proof. unfold GetValidToken. by intros -> ->. Qed.
End sessions.

(** C32: tokens are exchanged only when needed and then kept: GetValidToken
    passes on the errors of the store, returns nothing for a user without a
    session and the stored token while it has more than five minutes to live;
    otherwise it exchanges once, and either fails and leaves the store alone,
    or returns the exchanged token, which every later call returns without
    another exchange until five minutes before it expires.  The sessions of
    other users are untouched. *)
Theorem token_lifecycle `{Redis} `{Codec Session} identity p u now now' s :
  0 ≤ now ≤ now' → now < 2 ^ 62 →
  match GetSession p u now s with
  | Err e => GetValidToken identity p u now now' s = (Err e, s)
  | Ok None => GetValidToken identity p u now now' s = (Ok ("", None), s)
  | Ok (Some sess) =>
      if IsExpired now sess then
        match GetValidToken identity p u now now' s with
        | (Err _, s') => s' = s
        | (Ok (_, None), _) => False
        | (Ok (tok, Some new), s') =>
            ∃ resp, ExchangeTelegramToken identity (fmt_d u) p = Ok resp ∧
              new = new_session resp now ∧ tok = AccessToken resp ∧
              (in_int32 (ExpiresIn resp) → representable new → ∀ identity' t t2 v,
                 now' ≤ t → Unix t < ExpiresAt new - 300 → r_get (sessionKey p u) t s' = Ok v →
                 GetValidToken identity' p u t t2 s' = (Ok (tok, Some new), s')) ∧
              (∀ p' u' t, now' ≤ t → (p', u') ≠ (p, u) →
                 value s' (sessionKey p' u') t = value s (sessionKey p' u') t)
        end
      else GetValidToken identity p u now now' s = (Ok (Token sess, Some sess), s)
  end.
Proof.
  intros Hle Hmax. destruct (GetSession p u now s) as [[sess|]|e] eqn:Eg;
    [|by unfold GetValidToken; rewrite Eg..].
  destruct (IsExpired now sess) eqn:Ex; [|by apply GetValidToken_fresh].
  unfold GetValidToken at 1. rewrite Eg, Ex. cbn [negb]. unfold Authenticate.
  destruct (ExchangeTelegramToken identity (fmt_d u) p) as [resp|e] eqn:Er; [|done].
  destruct (saveSession p u (new_session resp now) now' s) as [s'|e] eqn:Es; [|done].
  exists resp. split_and!; [done..| |].
  - intros Hi Hr identity' t t2 v Ht Hu Hget.
    destruct (new_session_expiry resp now) as [H64 Httl]; [lia|done|].
    destruct (IsExpired_false _ t H64 Hu) as [He Hlt].
    apply GetValidToken_fresh; [|done]. 
    eapply saveSession_read; [exact Hr|exact Es|exact Ht|exact Hlt|lia|exact Hget].
  - intros p' u' t Ht Hne. by eapply saveSession_other.
Qed.

(** A new exchange puts the language back to Arabic: a choice made with SetLang
    lasts until the token is renewed. *)
Lemma exchange_resets_language resp now : Lang (new_session resp now) = "ar".
Proof. done. Qed.
End Auth.

(** ** state *)

Module State.
Record ConversationState := { Command : string; Step : Z; Data : gmap string string }.
Definition stateTTL : Duration := 30 * Minute.
Definition stateKey (partnerID : string) (telegramID : Z) : string :=
  "tgbot:state:" +:+ partnerID +:+ ":" +:+ fmt_d telegramID.

Section states.
Context `{Redis} `{Codec ConversationState}.

Definition Get (p : string) (u : Z) (now : Time) (s : rstore) : result error (option ConversationState) :=
  match r_get (stateKey p u) now s with
  | Err err => Err (EWrap "get state: " "" err)
  | Ok None => Ok None
  | Ok (Some data) =>
      match unmarshal data with
      | Err err => Err (EWrap "decode state: " "" err)
      | Ok st => Ok (Some st)
      end
  end.
Definition Set_ (p : string) (u : Z) (st : ConversationState) (now : Time) (s : rstore) : result error rstore :=
  match marshal st with
  | Err err => Err (EWrap "marshal state: " "" err)
  | Ok data => r_set (stateKey p u) data stateTTL now s
  end.
Definition Clear (p : string) (u : Z) (s : rstore) : result error rstore := r_del (stateKey p u) s.

(** What the manager reads of a value. *)
Definition read_value (v : option string) : result error (option ConversationState) :=
  match v with
  | None => Ok None
  | Some data =>
      match unmarshal data with
      | Err err => Err (EWrap "decode state: " "" err)
      | Ok st => Ok (Some st)
      end
  end.
Lemma Get_value p u t s v : r_get (stateKey p u) t s = Ok v → Get p u t s = read_value (value s (stateKey p u) t).
Proof. intros Hg. unfold Get. rewrite Hg. apply r_get_value in Hg as ->. done. Qed.
End states.

(** the conversation states of the bot are one register per partner and
    user with a lifetime of thirty minutes: a state set is read back by that
    user until then and is gone afterwards, a cleared one is gone, and neither
    operation changes what any other user of any partner reads. *)
Theorem bot_states `{Redis} `{Codec ConversationState} p u st t s s1 s2 p' u' t' v1 v2 :
  representable st → Set_ p u st t s = Ok s1 → Clear p u s1 = Ok s2 → t ≤ t' →
  r_get (stateKey p' u') t' s1 = Ok v1 → r_get (stateKey p' u') t' s2 = Ok v2 →
  Get p' u' t' s1 =
    (if decide ((p', u') = (p, u)) then Ok (if t' <? t + stateTTL then Some st else None)
     else read_value (value s (stateKey p' u') t')) ∧
  Get p' u' t' s2 =
    (if decide ((p', u') = (p, u)) then Ok None else read_value (value s (stateKey p' u') t')).
Proof.
  intros Hr Hset Hclear Ht Hg1 Hg2. rewrite (Get_value _ _ _ _ _ Hg1), (Get_value _ _ _ _ _ Hg2).
  unfold Clear in Hclear. rewrite (r_del_value _ _ _ Hclear).
  unfold Set_ in Hset. destruct (marshal st) as [d|] eqn:Em; [|done].
  rewrite (r_set_value _ _ _ _ _ _ Hset _ _ Ht).
  destruct (decide ((p', u') = (p, u))) as [[= -> ->]|Hne].
  - rewrite !decide_True by done. split; [|done]. unfold alive. change (stateTTL =? 0) with false. cbn [orb].
    destruct (t' <? t + stateTTL); [|done]. cbn [read_value]. by rewrite (unmarshal_marshal _ _ Hr Em).
  - rewrite !decide_False; [done|by intros [-> ->]%user_key_inj..].
Qed.
End State.

(** ** Instances and witnesses *)

(** Redis in memory: values with an optional expiry, sorted sets with one. *)
Record memory := { vals : gmap string (string * option Time); zsets : gmap string (zset * Time) }.
Definition mem_value (s : memory) (k : string) (t : Time) : option string :=
  '(v, e) ← vals s !! k;
  match e with None => Some v | Some e => if t <? e then Some v else None end.
Definition mem_members (s : memory) (k : string) (t : Time) : zset :=
  match zsets s !! k with Some (z, e) => if t <? e then z else ∅ | None => ∅ end.
Definition mem_r_set (k v : string) (ttl : Duration) (t : Time) (s : memory) : result error memory :=
  Ok {| vals := <[k := (v, if ttl =? 0 then None else Some (t + ttl))]> (vals s); zsets := zsets s |}.
Definition mem_r_del (k : string) (s : memory) : result error memory :=
  Ok {| vals := delete k (vals s); zsets := zsets s |}.
Definition mem_window (k : string) (range : Z * Z) (sm : Z * string) (ttl : Duration) (t : Time) (s : memory)
    : result error (Z * memory) :=
  let z := <[sm.2 := sm.1]> (zremrange range.1 range.2 (mem_members s k t)) in
  Ok (Z.of_nat (size z), {| vals := vals s; zsets := <[k := (z, t + ttl)]> (zsets s) |}).

Lemma mem_set_value k v ttl t (s s' : memory) : mem_r_set k v ttl t s = Ok s' →
  ∀ k' t', t ≤ t' → mem_value s' k' t' = if decide (k' = k)
                                         then (if alive ttl t t' then Some v else None)
                                         else mem_value s k' t'.
Proof.
  intros [= <-] k' t' _. unfold mem_value, alive. simpl. destruct (decide (k' = k)) as [->|Hk].
  - rewrite lookup_insert_eq. simpl. by destruct (ttl =? 0).
  - by rewrite lookup_insert_ne.
Qed.
Lemma mem_del_value k (s s' : memory) : mem_r_del k s = Ok s' →
  ∀ k' t', mem_value s' k' t' = if decide (k' = k) then None else mem_value s k' t'.
Proof.
  intros [= <-] k' t'. unfold mem_value. simpl. destruct (decide (k' = k)) as [->|Hk].
  - by rewrite lookup_delete_eq.
  - by rewrite lookup_delete_ne.
Qed.
Lemma mem_window_members k range sm ttl t (s : memory) n s' :
  0 < ttl → mem_window k range sm ttl t s = Ok (n, s') →
  let z := <[sm.2 := sm.1]> (zremrange range.1 range.2 (mem_members s k t)) in
  n = Z.of_nat (size z) ∧
  ∀ k' t', t ≤ t' → mem_members s' k' t' = if decide (k' = k) then (if t' <? t + ttl then z else ∅)
                                           else mem_members s k' t'.
Proof.
  intros _ [= <- <-]. split; [done|]. intros k' t' _. unfold mem_members at 1. simpl.
  destruct (decide (k' = k)) as [->|Hk]; [by rewrite lookup_insert_eq|by rewrite lookup_insert_ne].
Qed.

#[global] Instance memory_redis : Redis := {|
  rstore := memory; value := mem_value; members := mem_members;
  r_get k t s := Ok (mem_value s k t); r_set := mem_r_set; r_del := mem_r_del; r_window := mem_window;
  r_get_value k t s v E := eq_sym (f_equal (λ r, match r with Ok v => v | Err _ => None end) E);
  r_set_value := mem_set_value; r_del_value := mem_del_value; r_window_members := mem_window_members
|}.

(** Numbers as encodings of any countable type. *)
Lemma countable_codec_ok {A} `{Countable A} (a : A) d :
  True → (Ok (fmt_u (Z.pos (encode a))) : result error string) = Ok d →
  match decode (Z.to_pos (read_u d)) with Some a => Ok a | None => Err (EText "invalid") end = Ok a.
Proof. intros _ [= <-]. rewrite read_u_fmt_u by lia. simpl. by rewrite decode_encode. Qed.
Definition countable_codec {A} `{Countable A} : Codec A := {|
  representable _ := True;
  marshal a := Ok (fmt_u (Z.pos (encode a)));
  unmarshal d := match decode (Z.to_pos (read_u d)) with Some a => Ok a | None => Err (EText "invalid") end;
  unmarshal_marshal := countable_codec_ok
|}.

#[global] Instance Session_eq_dec : EqDecision Auth.Session.
Proof. solve_decision. Defined.
#[global] Instance Session_countable : Countable Auth.Session.
Proof.
  apply (inj_countable' (λ s : Auth.Session, (Auth.Token s, Auth.RefreshToken s, Auth.ExpiresAt s, Auth.Roles s,
      Auth.UserID s, Auth.UserType s, Auth.Lang s))
    (λ '(a, b, c, d, e, f, g), {| Auth.Token := a; Auth.RefreshToken := b; Auth.ExpiresAt := c; Auth.Roles := d;
      Auth.UserID := e; Auth.UserType := f; Auth.Lang := g |})).
  by intros [].
Defined.
#[global] Instance State_eq_dec : EqDecision State.ConversationState.
Proof. solve_decision. Defined.
#[global] Instance State_countable : Countable State.ConversationState.
Proof.
  apply (inj_countable' (λ s : State.ConversationState, (State.Command s, State.Step s, map_to_list (State.Data s)))
    (λ '(a, b, c), {| State.Command := a; State.Step := b; State.Data := list_to_map c |})).
  intros [a b c]. simpl. by rewrite list_to_map_to_list.
Defined.
#[global] Instance session_codec : Codec Auth.Session := countable_codec.
#[global] Instance state_codec : Codec State.ConversationState := countable_codec.

Definition no_data : memory := {| vals := ∅; zsets := ∅ |}.

Lemma bot_limiter_window_witness :
  Limiter.reference (Limiter.NewRateLimiter 1) [] [0; Second; 61 * Second] = [true; false; true].
Proof.
  destruct (Limiter.requests (H := memory_redis) (Limiter.NewRateLimiter 1) "p" 7 [0; Second; 61 * Second] no_data)
    as [oks s'] eqn:E.
  assert (oks = Some [true; false; true]) as -> 
    by (change oks with (oks, s').1; rewrite <-E; vm_compute; reflexivity).
  symmetry. apply (Limiter.bot_limiter_window (H := memory_redis) 1 "p" 7 [0; Second; 61 * Second] no_data
    [true; false; true] s'); [intros t; reflexivity| |exact E].
  apply Sorted_StronglySorted; [exact Z.le_trans|]. repeat constructor; done.
Defined.

(** A session about to expire is exchanged. *)
Definition old_session : Auth.Session := {|
  Auth.Token := "old"; Auth.RefreshToken := ""; Auth.ExpiresAt := 100; Auth.Roles := []; Auth.UserID := "u";
  Auth.UserType := "admin"; Auth.Lang := "en" |}.
Definition renew : Auth.AuthResponse := {|
  Auth.Success := true; Auth.AccessToken := "new"; Auth.RespRefreshToken := ""; Auth.ExpiresIn := 3600;
  Auth.RespRoles := []; Auth.User := {| Auth.UIID := "u"; Auth.UIName := ""; Auth.UIUserType := "admin" |};
  Auth.Error := None |}.
Definition identity_ok : Auth.Identity := λ _ _, Ok (Ok renew).

Definition identity_down : Auth.Identity := λ _ _, Err (EText "down").

(** The store in memory accepts every session. *)
Lemma mem_save_ok p u sess t (s : memory) :
  ∃ s', Auth.saveSession (H := memory_redis) p u sess t s = Ok s'.
Proof. unfold Auth.saveSession. cbn [marshal session_codec countable_codec r_set memory_redis]. by eexists. Qed.

Lemma mem_renewed (s : memory) :
  Auth.GetSession (H := memory_redis) "p" 7 Second s = Ok (Some old_session) →
  ∃ s', Auth.GetValidToken (H := memory_redis) identity_ok "p" 7 Second Second s =
    (Ok ("new", Some (Auth.new_session renew Second)), s').
Proof.
  intros G. destruct (mem_save_ok "p" 7 (Auth.new_session renew Second) Second s) as [s' E].
  exists s'. unfold Auth.GetValidToken. rewrite G. change (Auth.IsExpired Second old_session) with true.
  cbn [negb]. unfold Auth.Authenticate. change (Auth.ExchangeTelegramToken _ _ _) with (@Ok error _ renew).
  cbv beta iota zeta. by rewrite E.
Qed.

Lemma token_lifecycle_witness :
  ∃ s s' : memory,
    Auth.GetSession (H := memory_redis) "p" 7 Second s = Ok (Some old_session) ∧
    Auth.GetValidToken (H := memory_redis) identity_ok "p" 7 Second Second s =
      (Ok ("new", Some (Auth.new_session renew Second)), s') ∧
    Auth.GetValidToken (H := memory_redis) identity_down "p" 7 Minute Minute s' =
      (Ok ("new", Some (Auth.new_session renew Second)), s').
Proof.
  assert (0 ≤ Second ≤ Second) as Hle by (by unfold Second). assert (Second < 2 ^ 62) as Hlt by done.
  assert (Second ≤ Minute) as Hm by done.
  assert (Unix Minute < Auth.ExpiresAt (Auth.new_session renew Second) - 300) as Hu by (by vm_compute).
  assert (in_int32 (Auth.ExpiresIn renew)) as Hi by (by vm_compute).
  destruct (mem_save_ok "p" 7 old_session 0 no_data) as [s E].
  assert (Auth.GetSession (H := memory_redis) "p" 7 Second s = Ok (Some old_session)) as G.
  { eapply (Auth.saveSession_read (H := memory_redis)); [exact I|exact E|by unfold Second|by vm_compute|by vm_compute|].
    reflexivity. }
  destruct (mem_renewed s G) as [s' R].
  pose proof (Auth.token_lifecycle (H := memory_redis) identity_ok "p" 7 Second Second s Hle Hlt) as T.
  rewrite G in T. change (Auth.IsExpired Second old_session) with true in T. rewrite R in T.
  destruct T as (resp & Hr & Hn & _ & Hkeep & _). injection Hr as <-.
  exists s, s'. split; [exact G|]. split; [exact R|].
  eapply Hkeep; [exact Hi|exact I|exact Hm|exact Hu|]. reflexivity.
Defined.

(** A state is read back by its user and invisible to another. *)
Definition a_state : State.ConversationState :=
  {| State.Command := "book"; State.Step := 1; State.Data := ∅ |}.
Lemma mem_state_set_ok p u st t (s : memory) : ∃ s', State.Set_ (H := memory_redis) p u st t s = Ok s'.
Proof. unfold State.Set_. cbn [marshal state_codec countable_codec r_set memory_redis]. by eexists. Qed.
Lemma mem_state_clear_ok p u (s : memory) : ∃ s', State.Clear (H := memory_redis) p u s = Ok s'.
Proof. unfold State.Clear. cbn [r_del memory_redis]. by eexists. Qed.

Lemma bot_states_witness :
  ∃ s1 s2 : memory,
    State.Get (H := memory_redis) "p" 7 Minute s1 = Ok (Some a_state) ∧
    State.Get (H := memory_redis) "p" 7 Minute s2 = Ok None.
Proof.
  assert (0 ≤ Minute) as Ht by done. assert ((Minute <? 0 + State.stateTTL) = true) as Hl by reflexivity.
  assert (@representable _ state_codec a_state) as Hr by exact I.
  destruct (mem_state_set_ok "p" 7 a_state 0 no_data) as [s1 E1].
  destruct (mem_state_clear_ok "p" 7 s1) as [s2 E2]. exists s1, s2.
  destruct (State.bot_states (H := memory_redis) "p" 7 a_state 0 no_data s1 s2 "p" 7 Minute _ _
    Hr E1 E2 Ht eq_refl eq_refl) as [G1 G2].
  rewrite decide_True in G1, G2 by reflexivity. rewrite Hl in G1. split; [exact G1|exact G2].
Defined.
