(* ===== verification/BotFormatter.v ===== *)
(** * Package communication/telegram/bot/formatter

    The bot's replies (messages.go, support.go, keyboards.go), rendered from
    the embedded message catalogues by go-i18n.  The bundle with its loaded
    catalogues is the function [Localize] of the record [Messages]; a rendering
    may fail or be empty.  A keyboard is its rows of buttons, each with its
    label, its unique name and its data. *)

From S2P Require Import Prelude GoFloat GoString GoErrors GoStrconv.
From stdpp Require Import base list strings.
From Stdlib Require Import ZArith Lia.
Open Scope Z_scope.

Definition nl : string := of_bytes [10].
Abbreviation vars := (list (string * string)).

(** ** What the replies show *)

Record BookingSummary := {
  BookingID : string; Reference : string; BookingStatus : string; Origin : string;
  Destination : string; BookingDate : string; Passengers : Z
}.
Record Currency := { Code : string; CurrencyName : string; ExchangeRate : float64 }.
Record TicketSummary := {
  TicketID : string; TicketNumber : string; TicketCategory : string; TicketStatus : string; TicketPriority : string
}.
Record TicketNotice := {
  Number : string; CustomerName : string; CustomerPhone : string; Channel : string; Category : string;
  Priority : string; Reason : string; InitialMessage : string; AISummary : string
}.

Record button := { label : string; unique : string; data : string }.
Definition keyboard : Type := list (list button).

Record Messages := {
  Localize : string → string → vars → result error string;
  partnerName : option (string → string)
}.

Section messages.
Context `{Unicode}.
Variable m : Messages.

(** The method [t]: the language, then English, then the identifier. *)
Definition rendered (lang id : string) (data : vars) : option string :=
  match Localize m lang id data with
  | Ok s => if String.eqb s "" then None else Some s
  | Err _ => None
  end.
Definition t (lang id : string) (data : vars) : string :=
  match rendered lang id data with
  | Some s => s
  | None =>
      if negb (String.eqb lang "en")
      then match rendered "en" id data with Some s => s | None => id end
      else id
  end.

Definition bilingual (id sep : string) (data : vars) : string := t "en" id data +:+ sep +:+ t "ar" id data.

Definition name (partnerID lang : string) : string :=
  match partnerName m with
  | Some f => let n := TrimSpace (f partnerID) in
              if negb (String.eqb n "") then n else t lang "brand.neutral" []
  | None => t lang "brand.neutral" []
  end.

(** ** messages.go *)

Definition Welcome (partnerID lang : string) (isAdmin : bool) (isSupportAgent : list bool) : string :=
  let isSupport := match isSupportAgent with b :: _ => b | [] => false end in
  t lang "welcome.intro" [("partnerName", name partnerID lang)] +:+ nl +:+ nl
  +:+ t lang "welcome.commands" [] +:+ nl
  +:+ (if isSupport then nl +:+ t lang "welcome.support_commands" [] +:+ nl else "")
  +:+ (if isAdmin then nl +:+ t lang "welcome.admin_commands" [] +:+ nl else "").
Definition Help := Welcome.
Definition AIEntered (partnerID lang : string) : string :=
  t lang "ai.entered" [("partnerName", name partnerID lang)].
Definition LanguagePrompt : string := bilingual "language.prompt" " / " [].
Definition LangChanged (lang : string) : string := t lang "language.changed" [].
Definition Cancelled (lang : string) : string := t lang "session.cancelled" [].
Definition SessionExpired (lang command : string) : string := t lang "session.expired" [("command", command)].
Definition Balance (lang balance currency : string) : string :=
  t lang "wallet.balance" [("balance", balance); ("currency", currency)].
Definition NoBookings (lang : string) : string := t lang "bookings.none" [].
Definition BookingItem (lang : string) (b : BookingSummary) : string :=
  t lang "bookings.item" [("reference", Reference b); ("origin", Origin b); ("destination", Destination b);
                          ("date", BookingDate b); ("status", BookingStatus b)].
Definition RateLimited (lang : string) : string := t lang "session.rate_limited" [].
Definition NotAuthenticated (lang : string) : string := t lang "session.not_authenticated" [].
Definition GenericError (lang : string) : string := t lang "error.generic" [].
Definition ErrorFromStatus (lang : string) (statusCode : Z) : string :=
  if statusCode =? 401 then t lang "error.session_expired" []
  else if statusCode =? 403 then t lang "error.forbidden" []
  else if statusCode =? 404 then t lang "error.not_found" []
  else GenericError lang.
Definition ServiceUnavailable (lang : string) : string := t lang "error.service_unavailable" [].
Definition InvalidInput (lang : string) : string := t lang "session.invalid_input" [].
Definition AdminMenu (lang : string) : string := t lang "admin.menu" [].
Definition SetRatePromptCurrency (lang : string) (currencies : list Currency) : string :=
  t lang "admin.set_rate.choose_currency" [] +:+ nl +:+ nl
  +:+ String.concat "" ((λ c, t lang "admin.set_rate.currency_line"
                             [("code", Code c); ("name", CurrencyName c); ("rate", FormatFloat (ExchangeRate c) 2)]
                           +:+ nl) <$> currencies)
  +:+ nl +:+ t lang "admin.set_rate.send_code" [].
Definition SetRatePromptRate (lang code : string) : string := t lang "admin.set_rate.send_rate" [("code", code)].
Definition SetRateSuccess (lang code : string) (rate : float64) : string :=
  t lang "admin.set_rate.success" [("code", code); ("rate", FormatFloat rate 4)].
Definition AddCreditPromptUserID (lang : string) : string := t lang "admin.add_credit.send_user_id" [].
Definition AddCreditPromptAmount (lang : string) : string := t lang "admin.add_credit.send_amount" [].
Definition AddCreditPromptNote (lang : string) : string := t lang "admin.add_credit.send_note" [].
Definition AddCreditSuccess (lang amount currency txnID : string) : string :=
  t lang "admin.add_credit.success" [("amount", amount); ("currency", currency); ("transactionID", txnID)].
Definition CallbackNotAuthenticated (lang : string) : string := t lang "callback.not_authenticated" [].
Definition CallbackInvalidTicket (lang : string) : string := t lang "callback.invalid_ticket" [].
Definition CallbackResolveFailed (lang : string) : string := t lang "callback.resolve_failed" [].
Definition CallbackError (lang : string) : string := t lang "callback.error" [].

(** ** support.go *)

Definition SupportNoPermission (lang : string) : string := t lang "support.no_permission" [].
Definition NoAssignedTickets (lang : string) : string := t lang "support.tickets.none" [].
Definition TicketList (lang : string) (tickets : list TicketSummary) : string :=
  t lang "support.tickets.header" [] +:+ nl +:+ nl
  +:+ String.concat "" ((λ tk, t lang "support.tickets.line"
                             [("number", TicketNumber tk); ("category", TicketCategory tk);
                              ("status", TicketStatus tk)] +:+ nl) <$> tickets).
Definition NoActiveTicketToResolve (lang : string) : string := t lang "support.ticket.no_active_to_resolve" [].
Definition TicketResolvedChatEnded (lang : string) : string := t lang "support.ticket.resolved_chat_ended" [].
Definition TicketAlreadyClaimed (lang : string) : string := t lang "support.ticket.already_claimed" [].
Definition TicketAssigned (lang ticketID : string) : string := t lang "support.ticket.assigned" [("ticketID", ticketID)].
Definition TicketResolved (lang ticketID : string) : string := t lang "support.ticket.resolved" [("ticketID", ticketID)].
Definition NoActiveTicket (lang : string) : string := t lang "support.ticket.no_active" [].
Definition ReplySent (lang : string) : string := t lang "support.ticket.reply_sent" [].
Definition AcceptTicketButton : string := bilingual "support.button.accept" " / " [].
Definition ResolveTicketButton : string := bilingual "support.button.resolve" " / " [].

(** The closure [line] of TicketNotification. *)
Definition line (id key value : string) : string :=
  if negb (String.eqb value "") then t "en" id [(key, value)] +:+ nl else "".
Definition TicketNotification (tk : TicketNotice) (acceptable : bool) : string :=
  bilingual "support.notify.new_ticket" nl [("number", Number tk)] +:+ nl +:+ nl
  +:+ line "support.notify.customer" "name" (CustomerName tk)
  +:+ line "support.notify.phone" "phone" (CustomerPhone tk)
  +:+ line "support.notify.channel" "channel" (Channel tk)
  +:+ t "en" "support.notify.category_priority" [("category", Category tk); ("priority", Priority tk)] +:+ nl
  +:+ line "support.notify.reason" "reason" (Reason tk)
  +:+ (if negb (String.eqb (InitialMessage tk) "")
       then nl +:+ t "en" "support.notify.initial_message" [("message", InitialMessage tk)] +:+ nl else "")
  +:+ (if negb (String.eqb (AISummary tk) "")
       then nl +:+ t "en" "support.notify.ai_summary" [("summary", AISummary tk)] +:+ nl else "")
  +:+ (if negb acceptable
       then nl +:+ nl +:+ bilingual "support.notify.reply_to_customer_hint" nl [] else "").

Definition CustomerReplyNotification (ticketNumber preview : string) : string :=
  bilingual "support.notify.customer_reply" (nl +:+ nl) [("number", ticketNumber); ("preview", preview)]
  +:+ nl +:+ nl +:+ bilingual "support.notify.reply_hint" nl [].

(** strings.Repeat panics on a negative count. *)
Definition RatingNotification (ticketNumber : string) (rating : Z) (comment : string) : outcome string :=
  if rating <? 0 then Panic "strings: negative Repeat count"
  else
    let text := t "en" "support.notify.rating"
                  [("number", ticketNumber); ("stars", Repeat "⭐" (Z.to_nat rating)); ("rating", fmt_d rating)] in
    Return (if negb (String.eqb comment "")
            then text +:+ nl +:+ t "en" "support.notify.rating_comment" [("comment", comment)]
            else text).

(** ** keyboards.go *)

Definition AdminMenuKeyboard (lang : string) : keyboard :=
  [[{| label := t lang "admin.button.set_rate" []; unique := "admin_setrate"; data := "" |}];
   [{| label := t lang "admin.button.add_credit" []; unique := "admin_addcredit"; data := "" |}]].
Definition LangKeyboard : keyboard :=
  [[{| label := t "ar" "language.button" []; unique := "lang_ar"; data := "" |};
    {| label := t "en" "language.button" []; unique := "lang_en"; data := "" |}]].
Definition CancelKeyboard (lang : string) : keyboard :=
  [[{| label := t lang "action.cancel_button" []; unique := "cancel_action"; data := "" |}]].

(** ** Lemmas *)

Lemma rendered_nonempty lang id data s : rendered lang id data = Some s → s ≠ "".
Proof. unfold rendered. intros E. case_go. by apply String.eqb_neq. Qed.

Lemma t_nonempty lang id data : id ≠ "" → t lang id data ≠ "".
Proof.
  intros Hid. unfold t. destruct (rendered lang id data) eqn:E; [by eapply rendered_nonempty|].
  destruct (negb _); [|done]. destruct (rendered "en" id data) eqn:E'; [by eapply rendered_nonempty|done].
Qed.

(** What a reply falls back to: English where the language has no text. *)
Lemma t_fallback lang id data : rendered lang id data = None → t lang id data = t "en" id data.
Proof.
  intros E. unfold t. rewrite E. destruct (String.eqb_spec lang "en") as [->|Hne].
  - by rewrite E.
  - by destruct (rendered "en" id data).
Qed.
End messages.

Lemma string_app_empty (s u : string) : s +:+ u = "" → s = "" ∧ u = "".
Proof. destruct s; [done|]. by rewrite string_cons_app. Qed.
