(* ===== verification/BotGateway.v ===== *)
(** * Package communication/telegram/bot/client

    The gateway client (gateway.go) and the bot list of the identity client
    (identity.go).  A call is a function of the requests sent so far, to which
    it appends what it sends.  net/http and encoding/json are the class
    [Network]: building a request may fail, an exchange fails or yields a status
    and the part of the body that could be read, and a body that holds a NaN or
    an infinity cannot be encoded. *)

From S2P Require Import Prelude GoFloat GoString GoErrors BotFormatter.
From stdpp Require Import base list strings.
From Stdlib Require Import ZArith Lia.
Open Scope Z_scope.

(** ** net/http and encoding/json *)

(** The JSON bodies the client builds. *)
#[warnings="-register-all"]
Inductive json :=
| JStr (s : string)
| JNum (f : float64)
| JObj (fields : list (string * json)).

Definition finite (f : float64) : bool := negb (IsNaN f) && negb (IsInf f).
Fixpoint json_finite (j : json) : bool :=
  match j with
  | JStr _ => true
  | JNum f => finite f
  | JObj fields => forallb (λ kv, json_finite kv.2) fields
  end.

Record Request := { method : string; url : string; headers : list (string * string); body : option json }.

Record BalanceResponse := { BalanceNumber : string; BalanceCurrency : string }.   (* json.Number *)
Record AdminDepositRequest := { DepUserID : string; DepAmount : float64; DepCurrency : string; DepNote : string }.
Record TransactionResponse := { TxSuccess : bool; TransactionID : string; TxMessage : string }.
Record AIRequest := {
  AIUserID : string; AIPartnerID : string; AIMessage : string; ConversationID : string; AILanguage : string;
  AIUserContext : list (string * string); AIChannel : string
}.
Record AIAction := { Action : string; Parameters : list (string * string); Valid : bool; Confidence : float64 }.
Record AIResponse := {
  AISuccess : bool; ErrorMessage : string; RespConversationID : string; ResponseMessage : string;
  DetectedIntent : string; Suggestions : list string; RespAction : option AIAction
}.
Record PartnerBotConfig := { PartnerID : string; PartnerCode : string; BotToken : string }.
Record getBotsResponse := { BotsSuccess : bool; Bots : list PartnerBotConfig; BotsError : option (string * string) }.

Class Network := {
  Marshal : json → result error string;
  NewRequest : string → string → option error;
  exchange : list Request → Request → result error (Z * string);
  decode_balance : string → result error BalanceResponse;
  decode_bookings : string → result error (list BookingSummary);
  decode_currencies : string → result error (list Currency);
  decode_deposit : string → result error TransactionResponse;
  decode_tickets : string → result error (list TicketSummary);
  decode_ai : string → result error AIResponse;
  decode_bots : string → result error getBotsResponse;
  Marshal_finite j d : Marshal j = Ok d → json_finite j = true
}.

Section client.
Context `{Network}.

(** ** gateway.go *)

Section gateway.
Variable baseURL : string.

Definition DoRequest (meth token path : string) (body : option json) (sent : list Request)
    : result error (Z * string) * list Request :=
  match (match body with
         | Some b => match Marshal b with Err err => Some err | Ok _ => None end
         | None => None
         end) with
  | Some err => (Err (EWrap "marshal body: " "" err), sent)
  | None =>
      match NewRequest meth (baseURL +:+ path) with
      | Some err => (Err (EWrap "create request: " "" err), sent)
      | None =>
          let req := {| method := meth; url := baseURL +:+ path;
                        headers := [("Authorization", "Bearer " +:+ token); ("Content-Type", "application/json")];
                        body := body |} in
          (match exchange sent req with
           | Err err => Err (EWrap ("request " +:+ meth +:+ " " +:+ path +:+ ": ") "" err)
           | Ok reply => Ok reply
           end, sent ++ [req])
      end
  end.

(** The status test shared by the four senders below. *)
Definition accept_ok (r : result error (Z * string) * list Request) : result error string * list Request :=
  let '(reply, sent) := r in
  (match reply with
   | Err err => Err err
   | Ok (status, body) => if negb (status =? 200) then Err (EGateway status body) else Ok body
   end, sent).
Definition doGet (token path : string) (sent : list Request) := accept_ok (DoRequest "GET" token path None sent).
Definition doPost (token path : string) (payload : json) (sent : list Request) :=
  accept_ok (DoRequest "POST" token path (Some payload) sent).
Definition doPut (token path : string) (payload : json) (sent : list Request) :=
  accept_ok (DoRequest "PUT" token path (Some payload) sent).
Definition doConnectPost (token path : string) (body : json) (sent : list Request) :=
  accept_ok (DoRequest "POST" token path (Some body) sent).

Definition decoded {A} (what : string) (decode : string → result error A)
    (r : result error string * list Request) : result error A * list Request :=
  let '(reply, sent) := r in
  (match reply with
   | Err err => Err err
   | Ok data => match decode data with
                | Err err => Err (EWrap ("decode " +:+ what +:+ ": ") "" err)
                | Ok a => Ok a
                end
   end, sent).

Definition GetWalletBalance (token currency : string) (sent : list Request) :=
  decoded "balance" decode_balance (doGet token ("/api/v1/wallet/balance/" +:+ currency) sent).
Definition GetUserBookings (token : string) (sent : list Request) :=
  decoded "bookings" decode_bookings (doGet token "/api/v1/bookings" sent).
Definition GetCurrencyList (token : string) (sent : list Request) :=
  decoded "currencies" decode_currencies (doGet token "/api/v1/currencies" sent).

Definition deposit_body (req : AdminDepositRequest) : json :=
  JObj [("userId", JStr (DepUserID req)); ("amount", JNum (DepAmount req));
        ("currency", JStr (DepCurrency req)); ("note", JStr (DepNote req))].
Definition AdminDeposit (token : string) (req : AdminDepositRequest) (sent : list Request) :=
  decoded "deposit" decode_deposit (doPost token "/api/v1/admin/wallets/deposit" (deposit_body req) sent).

Definition failed {A} (r : result error A * list Request) : option error * list Request :=
  (match r.1 with Err err => Some err | Ok _ => None end, r.2).
Definition AdminUpdateCurrency (token code : string) (rate : float64) (sent : list Request) :=
  failed (doPut token ("/api/v1/admin/currencies/" +:+ code) (JObj [("exchangeRate", JNum rate)]) sent).

Definition ListAgentTickets (token : string) (sent : list Request) :=
  decoded "tickets" decode_tickets
    (doConnectPost token "/eticket.support.v1.SupportService/ListTickets" (JObj [("statusFilter", JStr "open")]) sent).
Definition SendAgentMessage (token ticketID content : string) (sent : list Request) :=
  failed (doConnectPost token "/eticket.support.v1.SupportService/SendAgentMessage"
            (JObj [("ticketId", JStr ticketID); ("content", JStr content)]) sent).

Definition ticketStatusEnum : list (string * string) :=
  [("new", "TICKET_STATUS_NEW"); ("open", "TICKET_STATUS_OPEN"); ("pending", "TICKET_STATUS_PENDING");
   ("waiting_on_customer", "TICKET_STATUS_WAITING_ON_CUSTOMER"); ("escalated", "TICKET_STATUS_ESCALATED");
   ("resolved", "TICKET_STATUS_RESOLVED"); ("closed", "TICKET_STATUS_CLOSED")].
Definition UpdateTicketStatus (token ticketID status : string) (sent : list Request)
    : option error * list Request :=
  match list_find (λ kv, kv.1 = status) ticketStatusEnum with
  | None => (Some (EText ("unknown status: " +:+ status)), sent)
  | Some (_, (_, protoStatus)) =>
      failed (doConnectPost token "/eticket.support.v1.SupportService/UpdateTicketStatus"
                (JObj [("ticketId", JStr ticketID); ("status", JStr protoStatus)]) sent)
  end.
Definition AssignTicket (token ticketID : string) (sent : list Request) :=
  failed (doConnectPost token "/eticket.support.v1.SupportService/AssignTicket"
            (JObj [("ticketId", JStr ticketID)]) sent).

(** The tags omitempty drop an empty conversation, context and channel. *)
Definition omitempty (k v : string) : list (string * json) := if String.eqb v "" then [] else [(k, JStr v)].
Definition ai_body (req : AIRequest) : json :=
  JObj ([("userId", JStr (AIUserID req)); ("partnerId", JStr (AIPartnerID req)); ("message", JStr (AIMessage req))]
        ++ omitempty "conversationId" (ConversationID req)
        ++ [("language", JStr (AILanguage req))]
        ++ (if decide (AIUserContext req = []) then []
            else [("userContext", JObj ((λ kv, (kv.1, JStr kv.2)) <$> AIUserContext req))])
        ++ omitempty "channel" (AIChannel req)).
Definition AskAI (token : string) (req : AIRequest) (sent : list Request) :=
  decoded "AI response" decode_ai
    (doConnectPost token "/eticket.ai.v1.AIService/ProcessNaturalLanguageRequest" (ai_body req) sent).
End gateway.

(** errors.As(err, &gwErr) for a pointer to GatewayError: its status. *)
Fixpoint as_gateway (e : error) : option Z :=
  match e with
  | EGateway status _ => Some status
  | EWrap _ _ e | EPermanent e | EKind _ _ (Some e) | EProvider _ _ _ _ (Some e) => as_gateway e
  | _ => None
  end.

(** ** identity.go *)

Section identity.
Variables baseURL serviceKey : string.

Definition doInternal (path : string) (body : json) (sent : list Request) : result error string * list Request :=
  match NewRequest "POST" (baseURL +:+ path) with
  | Some err => (Err (EWrap "create request: " "" err), sent)
  | None =>
      let req := {| method := "POST"; url := baseURL +:+ path;
                    headers := [("Content-Type", "application/json"); ("X-Internal-Key", serviceKey)];
                    body := Some body |} in
      (match exchange sent req with
       | Err err => Err (EWrap ("request " +:+ path +:+ ": ") "" err)
       | Ok (status, respBody) =>
           if negb (status =? 200)
           then Err (EText ("request " +:+ path +:+ " returned " +:+ fmt_d status +:+ ": " +:+ respBody))
           else Ok respBody
       end, sent ++ [req])
  end.

Definition GetTelegramBots (sent : list Request) : result error (list PartnerBotConfig) * list Request :=
  let '(r, sent) := doInternal "/eticket.identity.v1.IdentityService/GetTelegramBots" (JObj []) sent in
  (match r with
   | Err err => Err err
   | Ok data =>
       match decode_bots data with
       | Err err => Err (EWrap "decode GetTelegramBots response: " "" err)
       | Ok result =>
           match BotsError result with
           | Some (code, message) =>
               if negb (BotsSuccess result) then Err (EText (code +:+ ": " +:+ message)) else Ok (Bots result)
           | None => Ok (Bots result)
           end
       end
   end, sent).
End identity.
End client.

(** ** Lemmas *)

Section lemmas.
Context `{Network}.
Variable baseURL : string.

(** One exchange at most; the token goes to the configured host only. *)
Lemma DoRequest_sent meth token path b sent r sent' :
  DoRequest baseURL meth token path b sent = (r, sent') →
  (sent' = sent ∧ is_ok r = false) ∨
  (∃ req, sent' = sent ++ [req] ∧ method req = meth ∧ url req = baseURL +:+ path ∧ body req = b
     ∧ headers req = [("Authorization", "Bearer " +:+ token); ("Content-Type", "application/json")]
     ∧ (∀ reply, r = Ok reply ↔ exchange sent req = Ok reply)
     ∧ match b with Some j => json_finite j = true | None => True end).
Proof.
  unfold DoRequest. intros E. destruct b as [j|].
  1: destruct (Marshal j) as [d|] eqn:Em; [apply Marshal_finite in Em|simplify_eq; by left].
  all: destruct (NewRequest _ _); simplify_eq; [by left|right].
  all: eexists; split_and!; [done..|intros reply; destruct (exchange _ _); naive_solver|done].
Qed.

Lemma accept_ok_inv r body sent :
  accept_ok r = (Ok body, sent) → r = (Ok (200, body), sent).
Proof. destruct r as [[[status b]|e] s]; simpl; intros; case_go; zbool; by simplify_eq. Qed.

Lemma as_gateway_accept r err sent :
  accept_ok r = (Err err, sent) → r.1 = Err err ∨ ∃ status b, r.1 = Ok (status, b) ∧ status ≠ 200 ∧ as_gateway err = Some status.
Proof.
  destruct r as [[[status b]|e] s]; simpl; intros; case_go; zbool; simplify_eq; [|by left].
  right. by exists status, b.
Qed.
End lemmas.
