(* ===== verification/BotSupport.v ===== *)
(** * Package communication/telegram/bot/support

    The registry of support agents, ticket messages and active tickets
    (agent_registry.go) over the Redis interface, with the keys a SCAN lists,
    and the relay of support events to the agents' chats (subscriber.go). *)

From S2P Require Import Prelude GoString GoErrors GoStrconv TelegramBot.
From stdpp Require Import base list gmap strings.
From Stdlib Require Import ZArith Lia.
Open Scope Z_scope.

(** ** SCAN *)

(** Redis glob patterns: * any run, ? any byte, [..] a class with ranges and
    negation, a backslash before a literal byte. *)
Fixpoint class_end (p : list Z) : list Z :=
  match p with
  | [] => []
  | b :: p' => if b =? 93 then p' else if b =? 92 then match p' with _ :: p'' => class_end p'' | [] => [] end
               else class_end p'
  end.
Fixpoint class_has (c : Z) (p : list Z) : bool :=
  match p with
  | [] => false
  | b :: p' =>
      if b =? 93 then false
      else if b =? 92 then match p' with x :: p'' => (x =? c) || class_has c p'' | [] => b =? c end
      else match p' with
           | 45 :: hi :: p'' => ((Z.min b hi <=? c) && (c <=? Z.max b hi)) || class_has c p''
           | _ => (b =? c) || class_has c p'
           end
  end.
Fixpoint glob (fuel : nat) (p k : list Z) : bool :=
  match fuel with
  | O => false
  | S fuel =>
      match p with
      | [] => match k with [] => true | _ => false end
      | b :: p' =>
          if b =? 42 then glob fuel p' k || match k with [] => false | _ :: k' => glob fuel p k' end
          else match k with
               | [] => false
               | c :: k' =>
                   if b =? 63 then glob fuel p' k'
                   else if b =? 91 then
                     match p' with
                     | 94 :: p'' => negb (class_has c p'') && glob fuel (class_end p'') k'
                     | _ => class_has c p' && glob fuel (class_end p') k'
                     end
                   else if b =? 92 then
                     match p' with
                     | x :: p'' => (x =? c) && glob fuel p'' k'
                     | [] => (b =? c) && glob fuel p' k'
                     end
                   else (b =? c) && glob fuel p' k'
               end
      end
  end.
Definition matches (pattern k : string) : bool :=
  glob (S (String.length pattern + String.length k)) (bytes_of pattern) (bytes_of k).

(** SCAN of a keyspace that does not change while it runs: every key that
    matches, perhaps more than once, and no other. *)
Class RedisScan `{Redis} := {
  r_scan : string → Time → rstore → result error (list string);
  r_scan_keys pat t s ks : r_scan pat t s = Ok ks →
    ∀ k, (k ∈ ks → matches pat k = true) ∧ (value s k t ≠ None → matches pat k = true → k ∈ ks)
}.

Definition Nil : error := ENew "redis: nil".

(** ** agent_registry.go *)

Module AgentRegistry.
Section registry.
Context `{RedisScan}.

Definition agentKey (partnerID userID : string) : string :=
  "tgbot:agent:" +:+ partnerID +:+ ":" +:+ userID.
Definition ticketMsgKey (partnerID : string) (messageID : Z) : string :=
  "tgbot:ticket_msg:" +:+ partnerID +:+ ":" +:+ fmt_d messageID.
Definition activeTicketKey (partnerID : string) (chatID : Z) : string :=
  "tgbot:active_ticket:" +:+ partnerID +:+ ":" +:+ fmt_d chatID.

(** GET ... .Result(): a missing key is the error redis.Nil. *)
Definition get_result (k : string) (now : Time) (s : rstore) : result error string :=
  match r_get k now s with
  | Err err => Err err
  | Ok None => Err Nil
  | Ok (Some v) => Ok v
  end.

Definition RegisterAgent (p userID : string) (telegramChatID : Z) (now : Time) (s : rstore) : result error rstore :=
  r_set (agentKey p userID) (fmt_d telegramChatID) 0 now s.
Definition UnregisterAgent (p userID : string) (s : rstore) : result error rstore := r_del (agentKey p userID) s.
Definition GetAgentChatID (p userID : string) (now : Time) (s : rstore) : result error Z :=
  match get_result (agentKey p userID) now s with
  | Err err => Err err
  | Ok val => ParseInt val
  end.
Definition chat_of (now : Time) (s : rstore) (k : string) : option Z :=
  match get_result k now s with
  | Err _ => None
  | Ok val => match ParseInt val with Err _ => None | Ok chatID => Some chatID end
  end.
Definition GetAllAgentChatIDs (p : string) (now : Time) (s : rstore) : result error (list Z) :=
  match r_scan ("tgbot:agent:" +:+ p +:+ ":*") now s with
  | Err err => Err err
  | Ok keys => Ok (omap (chat_of now s) keys)
  end.
Definition StoreTicketMessage (p : string) (messageID : Z) (ticketID : string) (now : Time) (s : rstore)
    : result error rstore := r_set (ticketMsgKey p messageID) ticketID 0 now s.
Definition GetTicketByMessage (p : string) (messageID : Z) (now : Time) (s : rstore) : result error string :=
  get_result (ticketMsgKey p messageID) now s.
Definition SetActiveTicket (p : string) (chatID : Z) (ticketID : string) (now : Time) (s : rstore)
    : result error rstore := r_set (activeTicketKey p chatID) ticketID 0 now s.
Definition GetActiveTicket (p : string) (chatID : Z) (now : Time) (s : rstore) : result error string :=
  get_result (activeTicketKey p chatID) now s.
Definition ClearActiveTicket (p : string) (chatID : Z) (s : rstore) : result error rstore :=
  r_del (activeTicketKey p chatID) s.

(** *** Lemmas *)

(** Bytes with no meaning in a glob pattern. *)
Definition plain (s : string) : Prop := Forall (λ b, b ∉ [42; 63; 91; 92]) (bytes_of s).
(** Redis answers reads at an instant. *)
Definition answers (t : Time) (s : rstore) : Prop := ∀ k, ∃ v, r_get k t s = Ok v.

Lemma glob_star fuel k : (length k + 2 ≤ fuel)%nat → glob fuel [42] k = true.
Proof.
  revert fuel. induction k as [|c k IH]; intros [|[|fuel]] Hf; simpl in Hf; try lia; [done|].
  change (glob (S fuel) [] (c :: k) || glob (S fuel) [42] k = true).
  rewrite IH by lia. by rewrite orb_true_r.
Qed.
Lemma glob_literal fuel lit k :
  Forall (λ b, b ∉ [42; 63; 91; 92]) lit → (length lit + length k + 2 ≤ fuel)%nat →
  glob fuel (lit ++ [42]) k = true ↔ ∃ r, k = lit ++ r.
Proof.
  intros Hl. revert fuel k. induction Hl as [|b lit Hb Hl IH]; intros fuel k Hf.
  - rewrite glob_star by (simpl in Hf; lia). split; [by exists k|done].
  - destruct fuel as [|fuel]; [simpl in Hf; lia|]. cbn [app glob].
    rewrite !not_elem_of_cons in Hb. destruct Hb as (H1 & H2 & H3 & H4 & _).
    apply Z.eqb_neq in H1, H2, H3, H4. rewrite H1.
    destruct k as [|c k]; [split; [done|by intros [? ?]]|]. rewrite H2, H3, H4.
    simpl in Hf. rewrite andb_true_iff, Z.eqb_eq, IH by lia. naive_solver.
Qed.
Lemma matches_prefix p k : plain p → matches (p +:+ "*") k = true ↔ ∃ r, k = p +:+ r.
Proof.
  intros Hp. unfold matches. rewrite bytes_of_app. change (bytes_of "*") with [42].
  rewrite glob_literal; [|exact Hp|].
  - split; intros [r E].
    + exists (of_bytes r). apply bytes_of_inj. rewrite bytes_of_app, bytes_of_of_bytes; [done|].
      pose proof (bytes_of_range k) as Hk. rewrite E in Hk. by apply Forall_app in Hk as [_ ?].
    + exists (bytes_of r). by rewrite E, bytes_of_app.
  - rewrite <-!bytes_of_length, bytes_of_app, length_app. change (length (bytes_of "*")) with 1%nat. lia.
Qed.

Lemma get_result_value k t s v : answers t s → get_result k t s = Ok v ↔ value s k t = Some v.
Proof.
  intros Ha. unfold get_result. destruct (Ha k) as [w Hw]. rewrite Hw. apply r_get_value in Hw as <-.
  by destruct w; naive_solver.
Qed.
Lemma chat_of_agent p u t s c : chat_of t s (agentKey p u) = Some c ↔ GetAgentChatID p u t s = Ok c.
Proof. unfold chat_of, GetAgentChatID. destruct (get_result _ _ _) as [v|]; [destruct (ParseInt v)|]; naive_solver. Qed.

Lemma agentKey_app p u : agentKey p u = ("tgbot:agent:" +:+ p +:+ ":") +:+ u.
Proof. unfold agentKey. by rewrite !string_app_assoc. Qed.
Lemma plain_app s u : plain s → plain u → plain (s +:+ u).
Proof. intros. unfold plain. rewrite bytes_of_app. by apply Forall_app. Qed.

Lemma all_agents p t s cs c :
  plain p → answers t s → GetAllAgentChatIDs p t s = Ok cs →
  c ∈ cs ↔ ∃ u, GetAgentChatID p u t s = Ok c.
Proof.
  intros Hp Ha. unfold GetAllAgentChatIDs. destruct (r_scan _ _ _) as [ks|] eqn:Es; [|done].
  intros [= <-]. rewrite list_elem_of_omap.
  replace ("tgbot:agent:" +:+ p +:+ ":*") with (("tgbot:agent:" +:+ p +:+ ":") +:+ "*") in Es
    by (by rewrite !string_app_assoc).
  assert (plain ("tgbot:agent:" +:+ p +:+ ":")) as Hpl.
  { apply plain_app; [|apply plain_app; [done|]]; unfold plain; by apply (bool_decide_unpack _). }
  split.
  - intros (k & Hk & E). apply (r_scan_keys _ _ _ _ Es) in Hk. apply matches_prefix in Hk as [u ->]; [|done].
    exists u. apply chat_of_agent. by rewrite agentKey_app.
  - intros [u E]. exists (agentKey p u). rewrite chat_of_agent. split; [|done].
    apply (r_scan_keys _ _ _ _ Es).
    + unfold GetAgentChatID in E. destruct (get_result _ _ _) as [v|] eqn:Ev; [|done].
      apply get_result_value in Ev; [|done]. by rewrite Ev.
    + apply matches_prefix; [done|]. exists u. by rewrite agentKey_app.
Qed.

(** A SET without expiry, to every later reader. *)
Lemma set_get k v t s s' t' :
  r_set k v 0 t s = Ok s' → t ≤ t' → answers t' s' → get_result k t' s' = Ok v.
Proof.
  intros Hs Ht Ha. apply get_result_value; [done|].
  by rewrite (r_set_value _ _ _ _ _ _ Hs _ _ Ht), decide_True.
Qed.
Lemma set_other k k' v ttl t s s' t' :
  r_set k v ttl t s = Ok s' → t ≤ t' → k' ≠ k → value s' k' t' = value s k' t'.
Proof. intros Hs Ht Hk. by rewrite (r_set_value _ _ _ _ _ _ Hs _ _ Ht), decide_False. Qed.

(** A reader sees what is there, and only that. *)
Lemma get_result_ext k t s s' :
  answers t s → answers t s' → value s' k t = value s k t → get_result k t s' = get_result k t s.
Proof.
  intros Ha Ha' E. destruct (Ha k) as [v Hv], (Ha' k) as [v' Hv']. unfold get_result. rewrite Hv, Hv'.
  apply r_get_value in Hv as ->, Hv' as ->. by rewrite E.
Qed.

Lemma agentKey_inj p p' u u' :
  58 ∉ bytes_of p → 58 ∉ bytes_of p' → agentKey p u = agentKey p' u' → p = p' ∧ u = u'.
Proof.
  intros Hp Hp' E%string_app_inv_head. apply (f_equal bytes_of) in E. rewrite !bytes_of_app in E.
  change (bytes_of ":") with [58] in E. cbn [app] in E.
  apply split_at_inj in E as [?%bytes_of_inj ?%bytes_of_inj]; done.
Qed.
Lemma ticketMsgKey_inj p p' n n' : ticketMsgKey p n = ticketMsgKey p' n' → p = p' ∧ n = n'.
Proof. apply user_key_inj. Qed.
Lemma activeTicketKey_inj p p' n n' : activeTicketKey p n = activeTicketKey p' n' → p = p' ∧ n = n'.
Proof. apply user_key_inj. Qed.
Lemma keys_apart p q u n m :
  agentKey p u ≠ ticketMsgKey q n ∧ agentKey p u ≠ activeTicketKey q m ∧ ticketMsgKey p n ≠ activeTicketKey q m.
Proof. done. Qed.
End registry.
End AgentRegistry.

(** ** subscriber.go *)

(** What the relay reads of the support events (package common/nats). *)
Record SupportTicketEvent := {
  TEPartnerID : string; TEAgentID : string; TETicketID : string; TETicketNumber : string;
  TECustomerName : string; TECustomerPhone : string; TEChannel : string; TECategory : string;
  TEPriority : string; TEReason : string; TEInitialMessage : string; TEAISummary : string
}.
Record SupportMessageEvent := {
  MEPartnerID : string; MEAgentID : string; METicketID : string; METicketNumber : string; MEContent : string
}.
Record SupportRatingEvent := {
  REPartnerID : string; REAgentID : string; RETicketID : string; RETicketNumber : string;
  RERating : Z; REComment : string
}.

(** The interface BotSender, over the chats' state. *)
Class BotSender := {
  chats : Type;
  SendTicketNotification : string → Z → SupportTicketEvent → bool → chats → result error Z * chats;
  SendCustomerReplyNotification : string → Z → SupportMessageEvent → bool → chats → result error Z * chats;
  SendRatingNotification : string → Z → SupportRatingEvent → chats → outcome (option error) * chats
}.

Module Subscriber.
Import AgentRegistry.
Section subscriber.
Context `{RedisScan} `{BotSender}.
Variable now : Time.

(** A command whose failure is only logged. *)
Definition try (r : result error rstore) (s : rstore) : rstore := match r with Ok s' => s' | Err _ => s end.

(** The loop over the chats of all agents. *)
Fixpoint broadcast (send : Z → chats → result error Z * chats) (p ticketID : string) (chatIDs : list Z)
    (w : rstore * chats) : rstore * chats :=
  match chatIDs with
  | [] => w
  | chatID :: chatIDs =>
      let '(s, cs) := w in
      match send chatID cs with
      | (Err _, cs) => broadcast send p ticketID chatIDs (s, cs)
      | (Ok msgID, cs) => broadcast send p ticketID chatIDs (try (StoreTicketMessage p msgID ticketID now s) s, cs)
      end
  end.

(** The direct message to an assigned agent. *)
Definition direct (send : Z → chats → result error Z * chats) (p agentID ticketID : string)
    (w : rstore * chats) : rstore * chats :=
  let '(s, cs) := w in
  match GetAgentChatID p agentID now s with
  | Err _ => (s, cs)
  | Ok chatID =>
      match send chatID cs with
      | (Err _, cs) => (s, cs)
      | (Ok msgID, cs) =>
          let s := try (StoreTicketMessage p msgID ticketID now s) s in
          (try (SetActiveTicket p chatID ticketID now s) s, cs)
      end
  end.

(** The handlers return nil to the broker on every path. *)
Definition handleTicketCreated (event : result error SupportTicketEvent) (w : rstore * chats)
    : option error * (rstore * chats) :=
  match event with
  | Err _ => (None, w)
  | Ok event =>
      let partnerID := TEPartnerID event in
      if String.eqb partnerID "" then (None, w)
      else if negb (String.eqb (TEAgentID event) "") then
        (None, direct (λ chatID, SendTicketNotification partnerID chatID event false)
                 partnerID (TEAgentID event) (TETicketID event) w)
      else
        match GetAllAgentChatIDs partnerID now w.1 with
        | Err _ | Ok [] => (None, w)
        | Ok chatIDs =>
            (None, broadcast (λ chatID, SendTicketNotification partnerID chatID event true)
                     partnerID (TETicketID event) chatIDs w)
        end
  end.

Definition handleCustomerReply (event : result error SupportMessageEvent) (w : rstore * chats)
    : option error * (rstore * chats) :=
  match event with
  | Err _ => (None, w)
  | Ok event =>
      let partnerID := MEPartnerID event in
      if String.eqb partnerID "" then (None, w)
      else if negb (String.eqb (MEAgentID event) "") then
        (None, direct (λ chatID, SendCustomerReplyNotification partnerID chatID event false)
                 partnerID (MEAgentID event) (METicketID event) w)
      else
        let chatIDs := match GetAllAgentChatIDs partnerID now w.1 with Ok ids => ids | Err _ => [] end in
        (None, broadcast (λ chatID, SendCustomerReplyNotification partnerID chatID event true)
                 partnerID (METicketID event) chatIDs w)
  end.

Definition handleTicketRated (event : result error SupportRatingEvent) (w : rstore * chats)
    : outcome (option error) * (rstore * chats) :=
  match event with
  | Err _ => (Return None, w)
  | Ok event =>
      if String.eqb (REAgentID event) "" || String.eqb (REPartnerID event) "" then (Return None, w)
      else
        match GetAgentChatID (REPartnerID event) (REAgentID event) now w.1 with
        | Err _ => (Return None, w)
        | Ok chatID =>
            match SendRatingNotification (REPartnerID event) chatID event w.2 with
            | (Panic msg, cs) => (Panic msg, (w.1, cs))
            | (Return _, cs) => (Return None, (w.1, cs))
            end
        end
  end.
End subscriber.

(** Start and Stop, over the broker's Subscribe for each consumer. *)
Section lifecycle.
Context {sub : Type}.
Variable Subscribe : string → result error sub.

Definition consumers : list (string * string) :=
  [("tgbot-ticket-created", "subscribe ticket.created: ");
   ("tgbot-customer-reply", "subscribe ticket.customer_reply: ");
   ("tgbot-ticket-rated", "subscribe ticket.rated: ")].
Fixpoint subscribe_all (cs : list (string * string)) (subs : list sub) : option error * list sub :=
  match cs with
  | [] => (None, subs)
  | (c, what) :: cs =>
      match Subscribe c with
      | Err err => (Some (EWrap what "" err), subs)
      | Ok sub => subscribe_all cs (subs ++ [sub])
      end
  end.
Definition Start (subs : list sub) : option error * list sub := subscribe_all consumers subs.
Definition Stop {B} (stop : sub → B → B) (subs : list sub) (b : B) : B := foldl (λ b sub, stop sub b) b subs.
End lifecycle.
End Subscriber.

(** ** SCAN over the in-memory instance *)

Definition mem_scan (pat : string) (t : Time) (s : memory) : result error (list string) :=
  Ok (filter (λ k, matches pat k = true) ((map_to_list (vals s)).*1)).
Lemma mem_scan_keys pat t (s : memory) ks : mem_scan pat t s = Ok ks →
  ∀ k, (k ∈ ks → matches pat k = true) ∧ (mem_value s k t ≠ None → matches pat k = true → k ∈ ks).
Proof.
  intros [= <-] k. rewrite list_elem_of_filter. split; [by intros [? _]|].
  intros Hv Hm. split; [done|]. unfold mem_value in Hv. destruct (vals s !! k) as [v|] eqn:E; [|done].
  apply list_elem_of_fmap. exists (k, v). split; [done|]. by apply elem_of_map_to_list.
Qed.
#[global] Instance memory_scan : RedisScan (H := memory_redis) :=
  {| r_scan := mem_scan; r_scan_keys := mem_scan_keys |}.
