(* ===== verification/BotHandlers.v ===== *)
(** * Package communication/telegram/bot/handlers

    The handlers of the bot's commands, buttons and texts, as functions on a
    world: Redis, the requests sent to the gateway, the messages shown in
    Telegram, and the turns handed to the conversation ingestor.  telebot's
    answer to an action is the function [telegram]; the identity service is
    [identity]; the commands of one handler run at one reading [now] of the clock.  A gmap stands for the data of a state:
    every state the bot saves has a map, never nil. *)

From S2P Require Import Prelude GoFloat GoString GoErrors GoStrconv TelegramBot BotFormatter BotGateway BotSupport.
From stdpp Require Import base list gmap strings.
From Stdlib Require Import ZArith Lia.
Import AgentRegistry.
Open Scope Z_scope.

(** ** telebot *)

Record MessageT := { MsgID : Z; MsgText : string; ReplyTo : option Z }.
(** tele.Context. *)
Record Update := {
  Sender : Z; Chat : Z; Text : string; Message : option MessageT; CallbackData : string; Args : list string
}.
Inductive action :=
| Send (text : string) (kb : keyboard)
| Edit (text : string)
| Respond (text : string)
| Notify.

(** conversation.Turn; the channel is Telegram and the content text. *)
Record Turn := {
  SenderType : string; CustomerID : string; TurnPartnerID : string; Content : string;
  ExternalThread : string; ExternalMsgID : string
}.

Record World `{Redis} := {
  store : rstore; sent : list Request; acts : list action; turns : list Turn; uuids : nat
}.

Definition hasRole (roles : list string) (target : string) : bool := existsb (String.eqb target) roles.

(** HandlerSet, with what its parts are built on. *)
Record HandlerSet := {
  GatewayURL : string;
  Formatter : Messages;
  HasRegistry : bool;           (* AgentRegistry != nil *)
  Ingest : bool;                (* WriteConv and Ingestor != nil *)
  identity : Auth.Identity;
  uuid : nat → string;
  telegram : list action → action → option error
}.

(** A handler's steps: they act on the world and return. *)
Definition M `{Redis} (A : Type) : Type := World → A * World.
#[export] Instance M_ret `{Redis} : MRet M := λ _ a w, (a, w).
#[export] Instance M_fmap `{Redis} : FMap M := λ _ _ f m w, let '(a, w) := m w in (f a, w).
#[export] Instance M_bind `{Redis} : MBind M := λ _ _ f m w, let '(a, w) := m w in f a w.

Section handlers.
Context `{RedisScan} `{Network} `{Codec Auth.Session} `{Codec State.ConversationState} `{Unicode} `{Strconv}.
Variable h : HandlerSet.
Variable now : Time.
Variable partnerID : string.

(** ** Effects *)

Definition on_store {A} (f : rstore → A * rstore) : M A := λ w,
  let '(a, s) := f (store w) in
  (a, {| store := s; sent := sent w; acts := acts w; turns := turns w; uuids := uuids w |}).
Definition read_store {A} (f : rstore → A) : M A := λ w, (f (store w), w).
(** A command on the store whose error is returned. *)
Definition command (f : rstore → result error rstore) : M (option error) :=
  on_store (λ s, match f s with Ok s' => (None, s') | Err err => (Some err, s) end).
Definition gateway {A} (f : list Request → A * list Request) : M A := λ w,
  let '(a, sent) := f (sent w) in
  (a, {| store := store w; sent := sent; acts := acts w; turns := turns w; uuids := uuids w |}).
Definition act (a : action) : M (option error) := λ w,
  (telegram h (acts w) a,
   {| store := store w; sent := sent w; acts := acts w ++ [a]; turns := turns w; uuids := uuids w |}).
Definition append_turn (turn : Turn) : M unit := λ w,
  (tt, {| store := store w; sent := sent w; acts := acts w; turns := turns w ++ [turn]; uuids := uuids w |}).
Definition new_uuid : M string := λ w,
  (uuid h (uuids w),
   {| store := store w; sent := sent w; acts := acts w; turns := turns w; uuids := S (uuids w) |}).

Definition reply (text : string) : M (option error) := act (Send text []).
Definition GetSession (u : Z) : M (result error (option Auth.Session)) :=
  read_store (Auth.GetSession partnerID u now).
Definition GetValidToken (u : Z) : M (result error (string * option Auth.Session)) :=
  on_store (Auth.GetValidToken (identity h) partnerID u now now).
Definition StateGet (u : Z) : M (result error (option State.ConversationState)) :=
  read_store (State.Get partnerID u now).
Definition StateSet (u : Z) (cs : State.ConversationState) : M (option error) :=
  command (State.Set_ partnerID u cs now).
Definition StateClear (u : Z) : M (option error) := command (State.Clear partnerID u).

(** The guard of the authenticated handlers. *)
Definition with_token (c : Update) (k : string → Auth.Session → M (option error)) : M (option error) :=
  tok ← GetValidToken (Sender c);
  match tok with
  | Ok (token, Some sess) => k token sess
  | _ => reply (NotAuthenticated (Formatter h) "en")
  end.
Definition with_session (c : Update) (k : Auth.Session → M (option error)) : M (option error) :=
  sess ← GetSession (Sender c);
  match sess with
  | Ok (Some sess) => k sess
  | _ => reply (NotAuthenticated (Formatter h) "en")
  end.

(** ** start.go *)

Definition HandleStart (c : Update) : M (option error) :=
  auth ← on_store (Auth.Authenticate (identity h) partnerID (Sender c) now now);
  match auth with
  | Err _ => reply (GenericError (Formatter h) "en")
  | Ok sess =>
      let isSupportAgent := hasRole (Auth.Roles sess) "CUSTOMER_SUPPORT" in
      _ ← (if HasRegistry h && isSupportAgent
           then command (RegisterAgent partnerID (Auth.UserID sess) (Sender c) now) else mret None);
      reply (Welcome (Formatter h) partnerID (Auth.Lang sess) (Auth.IsAdmin sess) [isSupportAgent])
  end.

Definition HandleHelp (c : Update) : M (option error) :=
  with_session c (λ sess,
    let isSupportAgent := hasRole (Auth.Roles sess) "CUSTOMER_SUPPORT" in
    reply (Help (Formatter h) partnerID (Auth.Lang sess) (Auth.IsAdmin sess) [isSupportAgent])).

Definition HandleLang (c : Update) : M (option error) :=
  act (Send (LanguagePrompt (Formatter h)) (LangKeyboard (Formatter h))).

Definition HandleLangCallback (lang : string) (c : Update) : M (option error) :=
  err ← on_store (Auth.SetLang partnerID (Sender c) lang now);
  match err with
  | Some _ => act (Respond (CallbackError (Formatter h) "en"))
  | None => _ ← act (Respond ""); act (Edit (LangChanged (Formatter h) lang))
  end.

(** The session's language, English without a session. *)
Definition session_lang (c : Update) : M string :=
  sess ← GetSession (Sender c);
  mret (match sess with Ok (Some sess) => Auth.Lang sess | _ => "en" end).
Definition HandleCancel (c : Update) : M (option error) :=
  _ ← StateClear (Sender c);
  lang ← session_lang c;
  reply (Cancelled (Formatter h) lang).
Definition HandleCancelCallback (c : Update) : M (option error) :=
  _ ← StateClear (Sender c);
  lang ← session_lang c;
  _ ← act (Respond "");
  act (Edit (Cancelled (Formatter h) lang)).

(** ** balance.go and bookings.go *)

(** The request with one retry under a fresh token after a 401; the response is
    nil unless a request succeeded. *)
Inductive fetched (A : Type) := Shown (text : string) | Got (resp : option A).
Arguments Shown {A} text.
Arguments Got {A} resp.

Definition retry_unauthorized {A} (u : Z) (get : string → list Request → result error A * list Request)
    : M (option error * option A) := λ w,
  let '(err, (s, (resp, sent))) :=
    Auth.HandleUnauthorized (identity h) partnerID u now now
      (λ newToken w0, let '(_, sent) := w0 : option A * list Request in
         let '(r, sent) := get newToken sent in
         match r with Ok a => (None, (Some a, sent)) | Err err => (Some err, (None, sent)) end)
      (store w) (None, sent w) in
  ((err, resp), {| store := s; sent := sent; acts := acts w; turns := turns w; uuids := uuids w |}).
Definition fetch {A} (c : Update) (sess : Auth.Session) (token : string)
    (get : string → list Request → result error A * list Request) : M (fetched A) :=
  r ← gateway (get token);
  match r with
  | Ok resp => mret (Got (Some resp))
  | Err err =>
      match as_gateway err with
      | Some status =>
          if status =? 401 then
            r ← retry_unauthorized (Sender c) get;
            match r with
            | (Some _, _) => mret (Shown (ErrorFromStatus (Formatter h) (Auth.Lang sess) 401))
            | (None, resp) => mret (Got resp)
            end
          else mret (Shown (ErrorFromStatus (Formatter h) (Auth.Lang sess) status))
      | None => mret (Shown (ServiceUnavailable (Formatter h) (Auth.Lang sess)))
      end
  end.
Definition show_fetched {A} (f : fetched A) (show : A → string) : M (outcome (option error)) :=
  match f with
  | Shown text => Return <$> reply text
  | Got (Some resp) => Return <$> reply (show resp)
  | Got None => mret (Panic "nil pointer dereference")
  end.

Definition guard_token {A} (c : Update) (k : string → Auth.Session → M A) (otherwise : M A) : M A :=
  tok ← GetValidToken (Sender c);
  match tok with Ok (token, Some sess) => k token sess | _ => otherwise end.

Definition HandleBalance (c : Update) : M (outcome (option error)) :=
  guard_token c (λ token sess,
    f ← fetch c sess token (λ token, GetWalletBalance (GatewayURL h) token "IQD");
    show_fetched f (λ resp, Balance (Formatter h) (Auth.Lang sess) (BalanceNumber resp) (BalanceCurrency resp)))
    (Return <$> reply (NotAuthenticated (Formatter h) "en")).

(** The first ten bookings. *)
Definition bookings_text (lang : string) (bookings : list BookingSummary) : string :=
  GoString.Join (BookingItem (Formatter h) lang <$> take 10 bookings) (nl +:+ nl).
Definition HandleMyBookings (c : Update) : M (outcome (option error)) :=
  guard_token c (λ token sess,
    f ← fetch c sess token (λ token, GetUserBookings (GatewayURL h) token);
    show_fetched f (λ bookings,
      match bookings with
      | [] => NoBookings (Formatter h) (Auth.Lang sess)
      | _ => bookings_text (Auth.Lang sess) bookings
      end))
    (Return <$> reply (NotAuthenticated (Formatter h) "en")).

(** ** admin.go *)

Definition HandleAdmin (c : Update) : M (option error) :=
  with_session c (λ sess,
    act (Send (AdminMenu (Formatter h) (Auth.Lang sess)) (AdminMenuKeyboard (Formatter h) (Auth.Lang sess)))).

(** The reply to a failed gateway request. *)
Definition gateway_failure (lang : string) (err : error) : string :=
  match as_gateway err with
  | Some status => ErrorFromStatus (Formatter h) lang status
  | None => ServiceUnavailable (Formatter h) lang
  end.
Definition prompt (text : string) (lang : string) : M (option error) :=
  act (Send text (CancelKeyboard (Formatter h) lang)).

Definition startSetRate (c : Update) : M (option error) :=
  with_token c (λ token sess,
    r ← gateway (GetCurrencyList (GatewayURL h) token);
    match r with
    | Err err => reply (gateway_failure (Auth.Lang sess) err)
    | Ok currencies =>
        _ ← StateSet (Sender c) {| State.Command := "setrate"; State.Step := 1; State.Data := ∅ |};
        prompt (SetRatePromptCurrency (Formatter h) (Auth.Lang sess) currencies) (Auth.Lang sess)
    end).
Definition HandleSetRate := startSetRate.
Definition HandleAdminSetRateCallback (c : Update) : M (option error) := _ ← act (Respond ""); startSetRate c.

Definition startAddCredit (c : Update) : M (option error) :=
  with_session c (λ sess,
    _ ← StateSet (Sender c) {| State.Command := "addcredit"; State.Step := 1; State.Data := ∅ |};
    prompt (AddCreditPromptUserID (Formatter h) (Auth.Lang sess)) (Auth.Lang sess)).
Definition HandleAddCredit := startAddCredit.
Definition HandleAdminAddCreditCallback (c : Update) : M (option error) := _ ← act (Respond ""); startAddCredit c.

(** cs.Data[k] of a string map. *)
Definition field (cs : State.ConversationState) (k : string) : string := default "" (State.Data cs !! k).
Definition advance (cs : State.ConversationState) (step : Z) (kvs : list (string * string)) : State.ConversationState :=
  {| State.Command := State.Command cs; State.Step := step;
     State.Data := foldl (λ m kv, <[kv.1 := kv.2]> m) (State.Data cs) kvs |}.

(** The parsed number when it passes the test [<= 0]: a NaN does. *)
Definition positive_float (text : string) : option float64 :=
  match ParseFloat text with
  | Ok f => if fle f (float_of_Z 0) then None else Some f
  | Err _ => None
  end.

Definition HandleSetRateStep (c : Update) (cs : State.ConversationState) : M (option error) :=
  let text := TrimSpace (Text c) in
  with_session c (λ sess,
    let lang := Auth.Lang sess in
    if State.Step cs =? 1 then
      let code := ToUpper text in
      if negb (slen code =? 3) then reply (InvalidInput (Formatter h) lang)
      else
        _ ← StateSet (Sender c) (advance cs 2 [("currency", code)]);
        prompt (SetRatePromptRate (Formatter h) lang code) lang
    else if State.Step cs =? 2 then
      match positive_float text with
      | None => reply (InvalidInput (Formatter h) lang)
      | Some rate =>
          tok ← GetValidToken (Sender c);
          match tok with
          | Err _ => reply (ErrorFromStatus (Formatter h) lang 401)
          | Ok (token, _) =>
              let code := field cs "currency" in
              updateErr ← gateway (AdminUpdateCurrency (GatewayURL h) token code rate);
              match updateErr with
              | Some err => reply (gateway_failure lang err)
              | None =>
                  _ ← StateClear (Sender c);
                  reply (SetRateSuccess (Formatter h) lang code rate)
              end
          end
      end
    else mret None).

Definition HandleAddCreditStep (c : Update) (cs : State.ConversationState) : M (option error) :=
  let text := TrimSpace (Text c) in
  with_session c (λ sess,
    let lang := Auth.Lang sess in
    if State.Step cs =? 1 then
      _ ← StateSet (Sender c) (advance cs 2 [("user_id", text)]);
      prompt (AddCreditPromptAmount (Formatter h) lang) lang
    else if State.Step cs =? 2 then
      match Fields text with
      | [number; cur] =>
          match positive_float number with
          | None => reply (InvalidInput (Formatter h) lang)
          | Some amount =>
              _ ← StateSet (Sender c)
                    (advance cs 3 [("amount", FormatFloat amount 2); ("currency", ToUpper cur)]);
              prompt (AddCreditPromptNote (Formatter h) lang) lang
          end
      | _ => reply (InvalidInput (Formatter h) lang)
      end
    else if State.Step cs =? 3 then
      let note := if String.eqb text "-" then "" else text in
      tok ← GetValidToken (Sender c);
      match tok with
      | Err _ => reply (ErrorFromStatus (Formatter h) lang 401)
      | Ok (token, _) =>
          let amount := match ParseFloat (field cs "amount") with Ok f => f | Err _ => float_of_Z 0 end in
          r ← gateway (AdminDeposit (GatewayURL h) token
                {| DepUserID := field cs "user_id"; DepAmount := amount;
                   DepCurrency := field cs "currency"; DepNote := note |});
          match r with
          | Err err => reply (gateway_failure lang err)
          | Ok resp =>
              _ ← StateClear (Sender c);
              reply (AddCreditSuccess (Formatter h) lang (field cs "amount") (field cs "currency")
                       (TransactionID resp))
          end
      end
    else mret None).

(** ** ai.go *)

Definition getAIConversationID (u : Z) : M string :=
  r ← StateGet u;
  mret (match r with Ok (Some cs) => field cs "ai_conversation_id" | _ => "" end).
Definition storeAIConversationID (u : Z) (convID : string) : M unit :=
  r ← StateGet u;
  _ ← (match r with
       | Ok (Some cs) => StateSet u (advance cs (State.Step cs) [("ai_conversation_id", convID)])
       | _ => StateSet u {| State.Command := "ai"; State.Step := 0;
                            State.Data := {[ "ai_conversation_id" := convID ]} |}
       end);
  mret tt.

Definition ai_thread (c : Update) : string := "tg-" +:+ fmt_d (Chat c) +:+ "-" +:+ partnerID.
Definition ingest (turn : Turn) : M unit := if Ingest h then append_turn turn else mret tt.
Definition ai_text (c : Update) : string :=
  if HasPrefix (Text c) "/ai" then TrimSpace (TrimPrefix (Text c) "/ai") else Text c.
(** The visible reply: the message or an apology, and the suggestions. *)
Definition ai_reply (lang : string) (resp : AIResponse) : string :=
  (if String.eqb (ResponseMessage resp) "" then GenericError (Formatter h) lang else ResponseMessage resp)
  +:+ match Suggestions resp with
      | [] => ""
      | sg => nl +:+ nl +:+ "💡 " +:+ GoString.Join sg " | "
      end.

Definition HandleAIMessage (c : Update) : M (option error) :=
  with_token c (λ token sess,
    _ ← act Notify;
    stored ← getAIConversationID (Sender c);
    convID ← (if String.eqb stored ""
              then id ← new_uuid; _ ← storeAIConversationID (Sender c) id; mret id
              else mret stored);
    let msg := ai_text c in
    _ ← ingest {| SenderType := "customer"; CustomerID := Auth.UserID sess; TurnPartnerID := partnerID;
                  Content := msg; ExternalThread := ai_thread c;
                  ExternalMsgID := match Message c with Some m => fmt_d (MsgID m) | None => "" end |};
    r ← gateway (AskAI (GatewayURL h) token
          {| AIUserID := Auth.UserID sess; AIPartnerID := partnerID; AIMessage := msg;
             ConversationID := convID; AILanguage := Auth.Lang sess; AIUserContext := [];
             AIChannel := "AI_CHANNEL_TELEGRAM" |});
    match r with
    | Err _ => reply (ServiceUnavailable (Formatter h) (Auth.Lang sess))
    | Ok resp =>
        if negb (AISuccess resp) then reply (GenericError (Formatter h) (Auth.Lang sess))
        else
          _ ← (if negb (String.eqb (RespConversationID resp) "")
               then storeAIConversationID (Sender c) (RespConversationID resp) else mret tt);
          let text := ai_reply (Auth.Lang sess) resp in
          _ ← (if negb (String.eqb (ResponseMessage resp) "")
               then ingest {| SenderType := "ai"; CustomerID := Auth.UserID sess; TurnPartnerID := partnerID;
                              Content := text; ExternalThread := ai_thread c; ExternalMsgID := "" |}
               else mret tt);
          reply text
    end).

Definition HandleAI (c : Update) : M (option error) :=
  with_session c (λ sess,
    let args := TrimSpace (TrimPrefix (Text c) "/ai") in
    if negb (String.eqb args "") then
      id ← new_uuid;
      _ ← storeAIConversationID (Sender c) id;
      HandleAIMessage c
    else
      _ ← StateSet (Sender c) {| State.Command := "ai"; State.Step := 0; State.Data := ∅ |};
      reply (AIEntered (Formatter h) partnerID (Auth.Lang sess))).

(** ** text.go *)

Definition HandleText (c : Update) : M (option error) :=
  r ← StateGet (Sender c);
  match r with
  | Ok (Some cs) =>
      if String.eqb (State.Command cs) "setrate" then HandleSetRateStep c cs
      else if String.eqb (State.Command cs) "addcredit" then HandleAddCreditStep c cs
      else if String.eqb (State.Command cs) "ai" then HandleAIMessage c
      else _ ← StateClear (Sender c); mret None
  | _ =>
      sess ← GetSession (Sender c);
      match sess with
      | Ok (Some _) => mret None
      | _ => reply (NotAuthenticated (Formatter h) "en")
      end
  end.

(** ** support.go *)

Definition is_agent (sess : Auth.Session) : bool :=
  hasRole (Auth.Roles sess) "CUSTOMER_SUPPORT" || Auth.IsAdmin sess.

Definition HandleTickets (c : Update) : M (option error) :=
  with_token c (λ token sess,
    if negb (is_agent sess) then reply (SupportNoPermission (Formatter h) (Auth.Lang sess))
    else
      r ← gateway (ListAgentTickets (GatewayURL h) token);
      match r with
      | Err _ => reply (GenericError (Formatter h) (Auth.Lang sess))
      | Ok [] => reply (NoAssignedTickets (Formatter h) (Auth.Lang sess))
      | Ok tickets => reply (TicketList (Formatter h) (Auth.Lang sess) tickets)
      end).

Definition resolve (token ticketID : string) : M (option error) :=
  gateway (UpdateTicketStatus (GatewayURL h) token ticketID "resolved").
Definition HandleResolveCommand (c : Update) : M (option error) :=
  with_token c (λ token sess,
    tid ← (match Args c with
           | a :: _ => mret (Ok a)
           | [] => read_store (GetActiveTicket partnerID (Sender c) now)
           end);
    match tid with
    | Err _ => reply (NoActiveTicketToResolve (Formatter h) (Auth.Lang sess))
    | Ok ticketID =>
        err ← resolve token ticketID;
        match err with
        | Some _ => reply (GenericError (Formatter h) (Auth.Lang sess))
        | None =>
            _ ← command (ClearActiveTicket partnerID (Sender c));
            reply (TicketResolvedChatEnded (Formatter h) (Auth.Lang sess))
        end
    end).

(** The guard of the inline buttons: a session and a ticket. *)
Definition with_ticket (c : Update) (k : string → Auth.Session → string → M (option error)) : M (option error) :=
  guard_token c (λ token sess,
    if String.eqb (CallbackData c) "" then act (Respond (CallbackInvalidTicket (Formatter h) "en"))
    else k token sess (CallbackData c))
    (act (Respond (CallbackNotAuthenticated (Formatter h) "en"))).

Definition HandleAcceptCallback (c : Update) : M (option error) :=
  with_ticket c (λ token sess ticket,
    err ← gateway (AssignTicket (GatewayURL h) token ticket);
    match err with
    | Some _ => _ ← act (Respond ""); act (Edit (TicketAlreadyClaimed (Formatter h) (Auth.Lang sess)))
    | None =>
        _ ← command (SetActiveTicket partnerID (Sender c) ticket now);
        _ ← (match Message c with
             | Some m => command (StoreTicketMessage partnerID (MsgID m) ticket now)
             | None => mret None
             end);
        _ ← act (Respond "");
        act (Edit (TicketAssigned (Formatter h) (Auth.Lang sess) ticket))
    end).

Definition HandleResolveCallback (c : Update) : M (option error) :=
  with_ticket c (λ token sess ticket,
    err ← resolve token ticket;
    match err with
    | Some _ => act (Respond (CallbackResolveFailed (Formatter h) "en"))
    | None =>
        _ ← command (ClearActiveTicket partnerID (Sender c));
        _ ← act (Respond "");
        act (Edit (TicketResolved (Formatter h) (Auth.Lang sess) ticket))
    end).

(** The reply to a ticket: the ticket of the message replied to, else the
    active one.  The boolean tells the caller whether the text was handled. *)
Definition send_to_ticket (c : Update) (m : MessageT) (ticketID : string) : M (bool * option error) :=
  pair true <$>
  with_token c (λ token sess,
    err ← gateway (SendAgentMessage (GatewayURL h) token ticketID (MsgText m));
    match err with
    | Some _ => reply (GenericError (Formatter h) (Auth.Lang sess))
    | None =>
        _ ← command (StoreTicketMessage partnerID (MsgID m) ticketID now);
        reply (ReplySent (Formatter h) (Auth.Lang sess))
    end).
(** The ticket of the message replied to; none is the empty string. *)
Definition ticket_of_message (m : MessageT) : M string :=
  match ReplyTo m with
  | Some id =>
      r ← read_store (GetTicketByMessage partnerID id now);
      mret (match r with Ok tid => tid | Err _ => "" end)
  | None => mret ""
  end.
Definition HandleReplyToTicket (c : Update) : M (bool * option error) :=
  match Message c with
  | None => mret (false, None)
  | Some m =>
      ticketID ← ticket_of_message m;
      if negb (String.eqb ticketID "") then send_to_ticket c m ticketID
      else
        r ← read_store (GetActiveTicket partnerID (Sender c) now);
        match r with
        | Ok tid => send_to_ticket c m tid
        | Err _ =>
            tok ← GetValidToken (Sender c);
            match tok with
            | Ok (_, Some sess) =>
                if is_agent sess
                then pair true <$> reply (NoActiveTicket (Formatter h) (Auth.Lang sess))
                else mret (false, None)
            | _ => mret (false, None)
            end
        end
  end.
End handlers.
