(* ===== verification/PartnerBot.v ===== *)
(** * A partner's bot (communication/telegram/bot/core/partner_bot.go)

    The table of handlers a bot registers, the text handler that tries ticket
    replies first, the rate limit in front of every handler, and the bot's start,
    stop and sending; what an update
    can make the bot send to the gateway. *)

From S2P Require Import Prelude GoFloat GoString GoErrors GoStrconv TelegramBot BotFormatter BotGateway BotSupport BotHandlers.
From stdpp Require Import base list gmap strings.
From Stdlib Require Import ZArith Lia.
Import AgentRegistry.
Open Scope Z_scope.

(** What telebot matches an update to. *)
Inductive endpoint := Command (name : string) | InlineButton (unique : string) | OnText.
#[export] Instance endpoint_eq_dec : EqDecision endpoint.
Proof. solve_decision. Defined.

Section bot.
Context `{RedisScan} `{Network} `{Codec Auth.Session} `{Codec State.ConversationState} `{Unicode} `{Strconv}.
Variable h : HandlerSet.
Variable support : bool.              (* supportHandler != nil *)
Variable limiter : Limiter.RateLimiter.
Variable now : Time.
Variable partnerID : string.

Definition Handler : Type := Update → M (outcome (option error)).
Definition returning (f : Update → M (option error)) : Handler := λ c, Return <$> f c.

Definition handleTextWithSupport (c : Update) : M (option error) :=
  let isReplyToMessage := match Message c with Some m => bool_decide (is_Some (ReplyTo m)) | None => false end in
  flow ← ((if isReplyToMessage then mret false
           else r ← StateGet now partnerID (Sender c);
                mret (match r with Ok (Some cs) => negb (String.eqb (State.Command cs) "") | _ => false end)) : M bool);
  if (flow : bool) then HandleText h now partnerID c
  else if support then
    r ← HandleReplyToTicket h now partnerID c;
    if (r.1 : bool) then mret r.2 else HandleText h now partnerID c
  else HandleText h now partnerID c.

Definition registerHandlers : list (endpoint * Handler) :=
  [(Command "/start", returning (HandleStart h now partnerID));
   (Command "/help", returning (HandleHelp h now partnerID));
   (Command "/balance", HandleBalance h now partnerID);
   (Command "/mybookings", HandleMyBookings h now partnerID);
   (Command "/lang", returning (HandleLang h));
   (Command "/cancel", returning (HandleCancel h now partnerID));
   (Command "/ai", returning (HandleAI h now partnerID));
   (Command "/admin", returning (HandleAdmin h now partnerID));
   (Command "/setrate", returning (HandleSetRate h now partnerID));
   (Command "/addcredit", returning (HandleAddCredit h now partnerID))]
  ++ (if support then
        [(Command "/tickets", returning (HandleTickets h now partnerID));
         (Command "/resolve", returning (HandleResolveCommand h now partnerID))] else [])
  ++ [(InlineButton "lang_ar", returning (HandleLangCallback h now partnerID "ar"));
      (InlineButton "lang_en", returning (HandleLangCallback h now partnerID "en"));
      (InlineButton "admin_setrate", returning (HandleAdminSetRateCallback h now partnerID));
      (InlineButton "admin_addcredit", returning (HandleAdminAddCreditCallback h now partnerID));
      (InlineButton "cancel_action", returning (HandleCancelCallback h now partnerID))]
  ++ (if support then
        [(InlineButton "accept_ticket", returning (HandleAcceptCallback h now partnerID));
         (InlineButton "resolve_ticket", returning (HandleResolveCallback h now partnerID))] else [])
  ++ [(OnText, returning handleTextWithSupport)].

Definition rateLimitMiddleware (next : Handler) : Handler := λ c,
  r ← on_store (Limiter.Allow limiter partnerID (Sender c) now);
  let '(allowed, _) := r : bool * option error in
  if negb allowed then Return <$> reply h (RateLimited (Formatter h) "en") else next c.
End bot.

(** ** Running the bot *)

(** The bot of telebot: its webhook removal, its polling loop and its Stop, which
    may panic, and its sending, which answers with the message. *)
Record Telebot (T : Type) := {
  TeleStart : T → T;
  TeleRemoveWebhook : T → option error * T;
  TeleStop : T → outcome unit * T;
  TeleSend : Z → string → T → Prelude.result error Z * T
}.
Arguments TeleStart {T} _ _.
Arguments TeleRemoveWebhook {T} _ _.
Arguments TeleStop {T} _ _.
Arguments TeleSend {T} _ _ _ _.

Definition Start {T} (bot : Telebot T) (t : T) : T := TeleStart bot t.
(** A failed removal is logged; a panic of telebot's Stop is recovered. *)
Definition Stop {T} (bot : Telebot T) (t : T) : outcome unit * T :=
  let '(_, t) := TeleRemoveWebhook bot t in
  let '(r, t) := TeleStop bot t in
  (match r with Panic _ => Return tt | Return _ => Return tt end, t).
Definition SendToChat {T} (bot : Telebot T) (chatID : Z) (text : string) (t : T) : (Z * option error) * T :=
  let '(r, t) := TeleSend bot chatID text t in
  (match r with Err err => (0, Some err) | Ok id => (id, None) end, t).

(** ** What an update sends to the gateway *)

Section requests.
Context `{RedisScan} `{Network} `{Codec Auth.Session} `{Codec State.ConversationState} `{Unicode} `{Strconv}.

(** The steps append requests with [P] only. *)
Definition sends {A} (P : Request → Prop) (m : M A) (w : World) : Prop :=
  ∃ new, sent (m w).2 = sent w ++ new ∧ Forall P new.

Lemma sends_ret {A} P (a : A) w : sends P (mret a) w.
Proof. exists []. by rewrite app_nil_r. Qed.
Lemma sends_same {A} P (m : M A) w : sent (m w).2 = sent w → sends P m w.
Proof. intros E. exists []. by rewrite app_nil_r. Qed.
Lemma sends_bind {A B} P (m : M A) (f : A → M B) w :
  sends P m w → (∀ a w', m w = (a, w') → sends P (f a) w') → sends P (m ≫= f) w.
Proof.
  intros (n1 & E1 & H1') Hf. unfold sends, mbind, M_bind. destruct (m w) as [a w'] eqn:Em.
  destruct (Hf a w' eq_refl) as (n2 & E2 & H2'). exists (n1 ++ n2). simpl in E1.
  rewrite E2, E1, app_assoc. split; [done|by apply Forall_app].
Qed.
Lemma sends_fmap {A B} P (f : A → B) (m : M A) w : sends P m w → sends P (f <$> m) w.
Proof. unfold sends, fmap, M_fmap. by destruct (m w). Qed.
Lemma sends_impl {A} (P Q : Request → Prop) (m : M A) w : (∀ r, P r → Q r) → sends P m w → sends Q m w.
Proof. intros HPQ (n & E & Hn). exists n. split; [done|]. by eapply Forall_impl. Qed.

Lemma sends_act h P a w : sends P (act h a) w.
Proof. by apply sends_same. Qed.
Lemma sends_reply h P text w : sends P (reply h text) w.
Proof. apply sends_act. Qed.
Lemma sends_on_store {A} P (f : rstore → A * rstore) w : sends P (on_store f) w.
Proof. apply sends_same. unfold on_store. by destruct (f (store w)). Qed.
Lemma sends_read {A} P (f : rstore → A) w : sends P (read_store f) w.
Proof. by apply sends_same. Qed.
Lemma sends_command P f w : sends P (command f) w.
Proof. apply sends_on_store. Qed.
Lemma sends_new_uuid h P w : sends P (new_uuid h) w.
Proof. by apply sends_same. Qed.
Lemma sends_ingest h P turn w : sends P (ingest h turn) w.
Proof. unfold ingest. destruct (Ingest h); by apply sends_same. Qed.

(** A gateway call that sends at most one request, to one path of the host. *)
Definition one_request (baseURL : string) (Q : string → option json → Prop) (req : Request) : Prop :=
  ∃ token path, url req = baseURL +:+ path ∧ Q path (body req) ∧
    headers req = [("Authorization", "Bearer " +:+ token); ("Content-Type", "application/json")].

Lemma DoRequest_one base meth token path b sent0 :
  ∃ new, (DoRequest base meth token path b sent0).2 = sent0 ++ new ∧
    Forall (one_request base (λ pa bo, pa = path ∧ bo = b)) new.
Proof.
  destruct (DoRequest base meth token path b sent0) as [r sent'] eqn:E.
  apply DoRequest_sent in E as [[-> _]|(req & -> & _ & Hu & Hb & Hh & _)].
  - exists []. by rewrite app_nil_r.
  - exists [req]. split; [done|]. apply Forall_singleton. by exists token, path.
Qed.
Lemma accept_ok_snd r : (accept_ok r).2 = r.2.
Proof. by destruct r. Qed.
Lemma decoded_snd {A} what (f : string → result error A) r : (decoded what f r).2 = r.2.
Proof. by destruct r. Qed.

Lemma sends_gateway {A} P (f : list Request → A * list Request) w :
  (∃ new, (f (sent w)).2 = sent w ++ new ∧ Forall P new) → sends P (gateway f) w.
Proof. unfold sends, gateway. by destruct (f (sent w)). Qed.

(** The call appends at most one request, with this path and body. *)
Definition calls {A} (base path : string) (b : option json) (f : list Request → A * list Request) : Prop :=
  ∀ sent0, ∃ new, (f sent0).2 = sent0 ++ new ∧ Forall (one_request base (λ pa bo, pa = path ∧ bo = b)) new.

Ltac call_path := intros sent0; unfold failed; cbn [snd];
  rewrite ?decoded_snd; unfold doGet, doPost, doPut, doConnectPost; rewrite ?accept_ok_snd; apply DoRequest_one.

Lemma calls_balance base token cur :
  calls base ("/api/v1/wallet/balance/" +:+ cur) None (GetWalletBalance base token cur).
Proof. unfold GetWalletBalance. call_path. Qed.
Lemma calls_bookings base token : calls base "/api/v1/bookings" None (GetUserBookings base token).
Proof. unfold GetUserBookings. call_path. Qed.
Lemma calls_currencies base token : calls base "/api/v1/currencies" None (GetCurrencyList base token).
Proof. unfold GetCurrencyList. call_path. Qed.
Lemma calls_deposit base token req :
  calls base "/api/v1/admin/wallets/deposit" (Some (deposit_body req)) (AdminDeposit base token req).
Proof. unfold AdminDeposit. call_path. Qed.
Lemma calls_update base token code rate :
  calls base ("/api/v1/admin/currencies/" +:+ code) (Some (JObj [("exchangeRate", JNum rate)]))
    (AdminUpdateCurrency base token code rate).
Proof. unfold AdminUpdateCurrency. call_path. Qed.
Lemma calls_tickets base token :
  calls base "/eticket.support.v1.SupportService/ListTickets" (Some (JObj [("statusFilter", JStr "open")]))
    (ListAgentTickets base token).
Proof. unfold ListAgentTickets. call_path. Qed.
Lemma calls_message base token ticket text :
  calls base "/eticket.support.v1.SupportService/SendAgentMessage"
    (Some (JObj [("ticketId", JStr ticket); ("content", JStr text)])) (SendAgentMessage base token ticket text).
Proof. unfold SendAgentMessage. call_path. Qed.
Lemma calls_resolve base token ticket :
  calls base "/eticket.support.v1.SupportService/UpdateTicketStatus"
    (Some (JObj [("ticketId", JStr ticket); ("status", JStr "TICKET_STATUS_RESOLVED")]))
    (UpdateTicketStatus base token ticket "resolved").
Proof. intros sent0. unfold UpdateTicketStatus. simpl list_find. cbn iota beta. revert sent0. call_path. Qed.
Lemma calls_assign base token ticket :
  calls base "/eticket.support.v1.SupportService/AssignTicket" (Some (JObj [("ticketId", JStr ticket)]))
    (AssignTicket base token ticket).
Proof. unfold AssignTicket. call_path. Qed.
Lemma calls_ai base token req :
  calls base "/eticket.ai.v1.AIService/ProcessNaturalLanguageRequest" (Some (ai_body req)) (AskAI base token req).
Proof. unfold AskAI. call_path. Qed.

Lemma sends_calls {A} base path b (f : list Request → A * list Request) (Q : string → option json → Prop) w :
  calls base path b f → Q path b → sends (one_request base Q) (gateway f) w.
Proof.
  intros Hf HQ. apply sends_gateway. destruct (Hf (sent w)) as (new & E & Hn). exists new. split; [done|].
  eapply Forall_impl; [exact Hn|]. intros req (tok & pa & Hu & [Hp Hb] & Hh).
  subst pa. exists tok, path. by rewrite Hb.
Qed.

(** *** The paths of each endpoint *)

Section paths.
Variable h : HandlerSet.
Variable now : Time.
Variable partnerID : string.

(** The conversation state a reader finds for a user. *)
Definition stored (w : World) (u : Z) (cs : State.ConversationState) : Prop :=
  ∃ d, value (store w) (State.stateKey partnerID u) now = Some d ∧ unmarshal d = Ok cs.

(** The ticket recorded for a message, and the active ticket of a chat. *)
Definition recorded (w : World) (messageID : Z) (ticket : string) : Prop :=
  value (store w) (ticketMsgKey partnerID messageID) now = Some ticket.
Definition active (w : World) (chatID : Z) (ticket : string) : Prop :=
  value (store w) (activeTicketKey partnerID chatID) now = Some ticket.

(** The ticket a message is for: the one recorded for the message it replies to,
    else the active one of the sender. *)
Inductive addressed (w : World) (u : Z) (m : MessageT) (ticket : string) : Prop :=
| By_reply id : ReplyTo m = Some id → recorded w id ticket → ticket ≠ "" → addressed w u m ticket
| By_activity : active w u ticket →
    (∀ id tid, ReplyTo m = Some id → GetTicketByMessage partnerID id now (store w) = Ok tid → tid = "") →
    addressed w u m ticket.
(** A text that is not a reply belongs to a stored flow first. *)
Definition outside_flow (w : World) (u : Z) (m : MessageT) : Prop :=
  ReplyTo m = None → ∀ cs, State.Get partnerID u now (store w) = Ok (Some cs) → State.Command cs = "".

Definition question (c : Update) (b : option json) : Prop :=
  ∃ req, b = Some (ai_body req) ∧ AIMessage req = ai_text c ∧ AIPartnerID req = partnerID.
(** What the third step of the credit flow deposits. *)
Definition collected (c : Update) (cs : State.ConversationState) : AdminDepositRequest :=
  {| DepUserID := field cs "user_id";
     DepAmount := match ParseFloat (field cs "amount") with Ok f => f | Err _ => float_of_Z 0 end;
     DepCurrency := field cs "currency";
     DepNote := if String.eqb (TrimSpace (Text c)) "-" then "" else TrimSpace (Text c) |}.

Definition resolved (ticket : string) : option json :=
  Some (JObj [("ticketId", JStr ticket); ("status", JStr "TICKET_STATUS_RESOLVED")]).

(** What an endpoint may ask of the gateway, of an update [c] that finds [w]. *)
Inductive permitted (w : World) (c : Update) : endpoint → string → option json → Prop :=
| Balance : permitted w c (Command "/balance") "/api/v1/wallet/balance/IQD" None
| Bookings : permitted w c (Command "/mybookings") "/api/v1/bookings" None
| Ask b : question c b →
    permitted w c (Command "/ai") "/eticket.ai.v1.AIService/ProcessNaturalLanguageRequest" b
| Currencies : permitted w c (Command "/setrate") "/api/v1/currencies" None
| Currencies_button : permitted w c (InlineButton "admin_setrate") "/api/v1/currencies" None
| Tickets : permitted w c (Command "/tickets") "/eticket.support.v1.SupportService/ListTickets"
    (Some (JObj [("statusFilter", JStr "open")]))
| Resolve ticket : head (Args c) = Some ticket ∨ Args c = [] ∧ active w (Sender c) ticket →
    permitted w c (Command "/resolve") "/eticket.support.v1.SupportService/UpdateTicketStatus" (resolved ticket)
| Resolve_button : permitted w c (InlineButton "resolve_ticket")
    "/eticket.support.v1.SupportService/UpdateTicketStatus" (resolved (CallbackData c))
| Accept_button : permitted w c (InlineButton "accept_ticket") "/eticket.support.v1.SupportService/AssignTicket"
    (Some (JObj [("ticketId", JStr (CallbackData c))]))
| Ticket_reply ticket m : Message c = Some m → addressed w (Sender c) m ticket → outside_flow w (Sender c) m →
    permitted w c OnText "/eticket.support.v1.SupportService/SendAgentMessage"
      (Some (JObj [("ticketId", JStr ticket); ("content", JStr (MsgText m))]))
| Ask_AI cs b : stored w (Sender c) cs → State.Command cs = "ai" → question c b →
    permitted w c OnText "/eticket.ai.v1.AIService/ProcessNaturalLanguageRequest" b
| Update_rate cs rate : stored w (Sender c) cs → State.Command cs = "setrate" → State.Step cs = 2 →
    positive_float (TrimSpace (Text c)) = Some rate →
    permitted w c OnText ("/api/v1/admin/currencies/" +:+ field cs "currency")
      (Some (JObj [("exchangeRate", JNum rate)]))
| Deposit cs : stored w (Sender c) cs → State.Command cs = "addcredit" → State.Step cs = 3 →
    permitted w c OnText "/api/v1/admin/wallets/deposit" (Some (deposit_body (collected c cs))).

Ltac sends_step :=
  match goal with
  | |- sends _ (mret _) _ => apply sends_ret
  | |- sends _ (_ ≫= _) _ => apply sends_bind; [|intros ? ? ?]
  | |- sends _ (_ <$> _) _ => apply sends_fmap
  | |- sends _ (reply _ _) _ => apply sends_reply
  | |- sends _ (act _ _) _ => apply sends_act
  | |- sends _ (prompt _ _ _) _ => apply sends_act
  | |- sends _ (on_store _) _ => apply sends_on_store
  | |- sends _ (read_store _) _ => apply sends_read
  | |- sends _ (command _) _ => apply sends_command
  | |- sends _ (new_uuid _) _ => apply sends_new_uuid
  | |- sends _ (ingest _ _) _ => apply sends_ingest
  | |- sends _ (StateGet _ _ _) _ => apply sends_read
  | |- sends _ (StateSet _ _ _ _) _ => apply sends_command
  | |- sends _ (StateClear _ _) _ => apply sends_command
  | |- sends _ (GetSession _ _ _) _ => apply sends_read
  | |- sends _ (GetValidToken _ _ _ _) _ => apply sends_on_store
  | |- sends _ (with_token _ _ _ _ _) _ => unfold with_token
  | |- sends _ (guard_token _ _ _ _ _ _) _ => unfold guard_token
  | |- sends _ (with_session _ _ _ _ _) _ => unfold with_session
  | |- sends _ (with_ticket _ _ _ _ _) _ => unfold with_ticket
  | |- sends _ (session_lang _ _ _) _ => unfold session_lang
  | |- sends _ (storeAIConversationID _ _ _ _) _ => unfold storeAIConversationID
  | |- sends _ (ticket_of_message _ _ _) _ => unfold ticket_of_message
  | |- sends _ (getAIConversationID _ _ _) _ => unfold getAIConversationID
  | |- sends _ (show_fetched _ _ _) _ => unfold show_fetched
  | |- sends _ (match ?x with _ => _ end) _ => destruct x eqn:?
  | |- sends _ (let _ := _ in _) _ => cbv zeta
  end.
Ltac sends_all := cbv beta zeta; repeat (sends_step; cbv beta zeta).

Lemma sends_retry {A} P u (get : string → list Request → result error A * list Request) w :
  (∀ tok s0, ∃ new, (get tok s0).2 = s0 ++ new ∧ Forall P new) → sends P (retry_unauthorized h now partnerID u get) w.
Proof.
  intros Hg. unfold sends, retry_unauthorized, Auth.HandleUnauthorized.
  destruct (Auth.Authenticate _ _ _ _ _ _) as [[sess|err] s].
  - destruct (Hg (Auth.Token sess) (sent w)) as (new & E & Hn). destruct (get _ _) as [[a|e] s'] eqn:Eg;
      simpl in E |- *; exists new; by rewrite E.
  - exists []. by rewrite app_nil_r.
Qed.
Lemma sends_fetch {A} base path b (Q : string → option json → Prop) c sess token
    (get : string → list Request → result error A * list Request) w :
  (∀ tok, calls base path b (get tok)) → Q path b →
  sends (one_request base Q) (fetch h now partnerID c sess token get) w.
Proof.
  intros Hg HQ. unfold fetch. sends_all; [by eapply sends_calls|].
  apply sends_retry. intros tok s0. destruct (Hg tok s0) as (new & E & Hn). exists new. split; [done|].
  eapply Forall_impl; [exact Hn|]. intros req (tk & pa & Hu & [Hp Hb] & Hh).
  subst pa. exists tk, path. by rewrite Hb.
Qed.

Definition allowed (e : endpoint) (w0 : World) (c : Update) : Request → Prop :=
  one_request (GatewayURL h) (permitted w0 c e).

(** *** What the handlers read *)

Lemma get_result_inv k s v : get_result k now s = Ok v → value s k now = Some v.
Proof. unfold get_result. destruct (r_get k now s) as [[d|]|] eqn:E; intros [= <-]. by apply r_get_value in E. Qed.
Lemma StateGet_inv u w r w' :
  StateGet now partnerID u w = (r, w') → w' = w ∧ (∀ cs, r = Ok (Some cs) → stored w u cs).
Proof.
  unfold StateGet, read_store. intros [= <- <-]. split; [done|]. intros cs. unfold State.Get.
  destruct (r_get _ _ _) as [[d|]|] eqn:Eg; try done. destruct (unmarshal d) as [cs'|] eqn:Eu; [|done].
  intros [= ->]. apply r_get_value in Eg. by exists d.
Qed.

(** Saving a session leaves the other keys alone. *)
Lemma GetValidToken_value u w r w' k :
  GetValidToken h now partnerID u w = (r, w') → k ≠ Auth.sessionKey partnerID u →
  value (store w') k now = value (store w) k now.
Proof.
  unfold GetValidToken, on_store. intros E Hk.
  destruct (Auth.GetValidToken _ _ _ _ _ _) as [r0 s] eqn:Et. injection E as <- <-. cbn [store].
  unfold Auth.GetValidToken, Auth.Authenticate, Auth.saveSession in Et. case_go; try done.
  all: match goal with Hs : r_set _ _ _ _ _ = Ok _ |- _ => rewrite (r_set_value _ _ _ _ _ _ Hs _ _ (Z.le_refl _)) end.
  all: by rewrite decide_False.
Qed.
Lemma GetValidToken_stored u v w r w' cs :
  GetValidToken h now partnerID u w = (r, w') → stored w' v cs → stored w v cs.
Proof.
  unfold stored. intros E. by rewrite (GetValidToken_value _ _ _ _ (State.stateKey partnerID v) E).
Qed.

(** *** Commands and buttons *)

Lemma balance_sends c w0 w : sends (allowed (Command "/balance") w0 c) (HandleBalance h now partnerID c) w.
Proof. unfold HandleBalance. sends_all. eapply sends_fetch; [intros; apply calls_balance|]. constructor. Qed.
Lemma bookings_sends c w0 w : sends (allowed (Command "/mybookings") w0 c) (HandleMyBookings h now partnerID c) w.
Proof. unfold HandleMyBookings. sends_all. eapply sends_fetch; [intros; apply calls_bookings|]. constructor. Qed.
Lemma setrate_sends e c w0 w :
  e = Command "/setrate" ∨ e = InlineButton "admin_setrate" →
  sends (allowed e w0 c) (startSetRate h now partnerID c) w.
Proof. intros [->| ->]; unfold startSetRate; sends_all; (eapply sends_calls; [apply calls_currencies|]); constructor. Qed.
Lemma addcredit_sends P c w : sends P (startAddCredit h now partnerID c) w.
Proof. unfold startAddCredit. sends_all. Qed.
Lemma ai_sends Q c w :
  (∀ b, question c b → Q "/eticket.ai.v1.AIService/ProcessNaturalLanguageRequest" b) →
  sends (one_request (GatewayURL h) Q) (HandleAIMessage h now partnerID c) w.
Proof.
  intros HQ. unfold HandleAIMessage. sends_all. eapply sends_calls; [apply calls_ai|].
  apply HQ. by eexists.
Qed.
Lemma tickets_sends c w0 w : sends (allowed (Command "/tickets") w0 c) (HandleTickets h now partnerID c) w.
Proof. unfold HandleTickets. sends_all. eapply sends_calls; [apply calls_tickets|]. constructor. Qed.
Lemma resolve_sends c w : sends (allowed (Command "/resolve") w c) (HandleResolveCommand h now partnerID c) w.
Proof.
  unfold HandleResolveCommand, resolve, with_token. apply sends_bind; [apply sends_on_store|]. intros tok w1 E1.
  destruct tok as [[token [sess|]]|]; [|apply sends_reply..]. apply sends_bind; [sends_all|].
  intros tid w2 E2. destruct tid as [ticket|]; [|apply sends_reply].
  apply sends_bind; [|intros ? ? ?; sends_all]. eapply sends_calls; [apply calls_resolve|]. constructor.
  destruct (Args c) as [|a args]; [right; split; [done|]|left; unfold mret, M_ret in E2; by simplify_eq/=].
  unfold read_store in E2. injection E2 as Eg _. apply get_result_inv in Eg.
  by rewrite (GetValidToken_value _ _ _ _ (activeTicketKey partnerID (Sender c)) E1) in Eg.
Qed.
Lemma resolve_button_sends c w0 w :
  sends (allowed (InlineButton "resolve_ticket") w0 c) (HandleResolveCallback h now partnerID c) w.
Proof. unfold HandleResolveCallback, resolve. sends_all. eapply sends_calls; [apply calls_resolve|]. constructor. Qed.
Lemma accept_sends c w0 w :
  sends (allowed (InlineButton "accept_ticket") w0 c) (HandleAcceptCallback h now partnerID c) w.
Proof. unfold HandleAcceptCallback. sends_all. eapply sends_calls; [apply calls_assign|]. constructor. Qed.

(** *** Texts *)

Lemma setrate_step_sends c cs w0 w :
  stored w0 (Sender c) cs → State.Command cs = "setrate" →
  sends (allowed OnText w0 c) (HandleSetRateStep h now partnerID c cs) w.
Proof.
  intros Hs Hc. unfold HandleSetRateStep. sends_all. zbool. eapply sends_calls; [apply calls_update|].
  by econstructor.
Qed.
Lemma addcredit_step_sends c cs w0 w :
  stored w0 (Sender c) cs → State.Command cs = "addcredit" →
  sends (allowed OnText w0 c) (HandleAddCreditStep h now partnerID c cs) w.
Proof.
  intros Hs Hc. unfold HandleAddCreditStep. sends_all; zbool; (eapply sends_calls; [apply calls_deposit|]);
    pose proof (Deposit w0 c cs Hs Hc) as Hd; unfold collected in Hd;
    repeat match goal with E : String.eqb _ _ = _ |- _ => rewrite E in Hd | E : ParseFloat _ = _ |- _ => rewrite E in Hd end;
    by apply Hd.
Qed.

Lemma text_sends c w0 w :
  (∀ cs, stored w (Sender c) cs → stored w0 (Sender c) cs) →
  sends (allowed OnText w0 c) (HandleText h now partnerID c) w.
Proof.
  intros Hw. unfold HandleText. apply sends_bind; [apply sends_read|].
  intros r w' E. apply StateGet_inv in E as [-> Hr].
  destruct r as [[cs|]|]; try by sends_all.
  specialize (Hw _ (Hr _ eq_refl)).
  repeat match goal with |- context [String.eqb ?x ?y] => destruct (String.eqb_spec x y) end.
  - by apply setrate_step_sends.
  - by apply addcredit_step_sends.
  - apply ai_sends. intros b. by econstructor.
  - sends_all.
Qed.

Lemma send_to_ticket_sends c m ticket w0 w :
  Message c = Some m → addressed w0 (Sender c) m ticket → outside_flow w0 (Sender c) m →
  sends (allowed OnText w0 c) (send_to_ticket h now partnerID c m ticket) w.
Proof.
  intros Hm Ha Ho. unfold send_to_ticket. sends_all. eapply sends_calls; [apply calls_message|]. by econstructor.
Qed.
Lemma ticket_of_message_inv m w tid w' :
  ticket_of_message now partnerID m w = (tid, w') →
  w' = w ∧ if String.eqb tid ""
           then ∀ id t, ReplyTo m = Some id → GetTicketByMessage partnerID id now (store w) = Ok t → t = ""
           else ∃ id, ReplyTo m = Some id ∧ recorded w id tid.
Proof.
  unfold ticket_of_message, mbind, M_bind, mret, M_ret, read_store. destruct (ReplyTo m) as [id|]; intros [= <- <-].
  2: by split.
  split; [done|]. destruct (GetTicketByMessage _ _ _ _) as [t|] eqn:E; [|cbn; intros id' t [= <-]; congruence].
  destruct (String.eqb_spec t ""); [intros id' t' [= <-]; congruence|]. exists id. split; [done|]. by apply get_result_inv.
Qed.
Lemma reply_to_ticket_sends c w :
  (∀ m, Message c = Some m → outside_flow w (Sender c) m) →
  sends (allowed OnText w c) (HandleReplyToTicket h now partnerID c) w.
Proof.
  intros Ho. unfold HandleReplyToTicket. destruct (Message c) as [m|] eqn:Em; [|apply sends_ret].
  specialize (Ho m eq_refl). apply sends_bind; [sends_all|]. intros tid w1 E1.
  apply ticket_of_message_inv in E1 as [-> Ht]. destruct (String.eqb_spec tid "") as [_|Hne]; cbn [negb].
  - apply sends_bind; [apply sends_read|]. unfold read_store. intros a w2 [= <- <-].
    destruct (GetActiveTicket _ _ _ _) as [t|] eqn:Ea; [|sends_all].
    apply send_to_ticket_sends; [done| |done]. apply By_activity; [by apply get_result_inv|done].
  - destruct Ht as (id & Hr & Hrec). apply send_to_ticket_sends; [done| |done]. by apply (By_reply _ _ _ _ id).
Qed.
(** An update that is not a ticket reply has looked at the session at most. *)
Lemma reply_to_ticket_unhandled c w err w' :
  HandleReplyToTicket h now partnerID c w = ((false, err), w') →
  w' = w ∨ ∃ r, GetValidToken h now partnerID (Sender c) w = (r, w').
Proof.
  assert (∀ (m : M (option error)) w0, ((pair true <$> m) w0).1.1 = true) as Ht.
  { intros m w0. unfold fmap, M_fmap. by destruct (m w0). }
  unfold HandleReplyToTicket, mbind, M_bind. intros E.
  destruct (Message c) as [m|]; [|unfold mret, M_ret in E; naive_solver].
  destruct (ticket_of_message now partnerID m w) as [tid w1] eqn:E1.
  apply ticket_of_message_inv in E1 as [-> _].
  destruct (negb _); [apply (f_equal (λ x, x.1.1)) in E; unfold send_to_ticket in E; by rewrite Ht in E|].
  cbn [read_store] in E. unfold read_store in E.
  destruct (GetActiveTicket _ _ _ _) as [tid'|e]; [apply (f_equal (λ x, x.1.1)) in E; unfold send_to_ticket in E; by rewrite Ht in E|].
  destruct (GetValidToken h now partnerID (Sender c) w) as [r w2] eqn:Et.
  right. exists r. f_equal. symmetry.
  destruct r as [[? [sess|]]|]; [|unfold mret, M_ret in E; by simplify_eq/=..].
  destruct (is_agent sess); [|unfold mret, M_ret in E; by simplify_eq/=].
  specialize (Ht (reply h (NoActiveTicket (Formatter h) (Auth.Lang sess))) w2). by rewrite E in Ht.
Qed.

(** Looking for a flow changes nothing. *)
Lemma flow_keeps (b flow : bool) u w w' :
  ((if b then mret false
    else r ← StateGet now partnerID u;
         mret (match r with Ok (Some cs) => negb (String.eqb (State.Command cs) "") | _ => false end)) : M bool) w
  = (flow, w') → w' = w.
Proof.
  intros E. unfold mbind, M_bind, mret, M_ret in E. destruct b; [by simplify_eq/=|].
  destruct (StateGet _ _ _ _) as [r w1] eqn:Eg. apply StateGet_inv in Eg as [-> _]. by simplify_eq/=.
Qed.
(** A text not taken for a flow is outside it. *)
Lemma no_flow_outside c w w' :
  ((if match Message c with Some m => bool_decide (is_Some (ReplyTo m)) | None => false end then mret false
    else r ← StateGet now partnerID (Sender c);
         mret (match r with Ok (Some cs) => negb (String.eqb (State.Command cs) "") | _ => false end)) : M bool) w
  = (false, w') → ∀ m, Message c = Some m → outside_flow w (Sender c) m.
Proof.
  intros E m Hm Hr cs Hcs. rewrite Hm, Hr in E. rewrite bool_decide_eq_false_2 in E by (by intros [? ?]).
  unfold mbind, M_bind, mret, M_ret, StateGet, read_store in E. rewrite Hcs in E.
  injection E as E _. by destruct (String.eqb_spec (State.Command cs) "").
Qed.
Lemma text_with_support_sends support c w0 :
  sends (allowed OnText w0 c) (handleTextWithSupport h support now partnerID c) w0.
Proof.
  unfold handleTextWithSupport. cbv zeta. apply sends_bind.
  { sends_all. }
  intros flow w E. pose proof (flow_keeps _ _ _ _ _ E) as ->.
  destruct flow; [by apply text_sends|]. destruct support; [|by apply text_sends].
  apply sends_bind; [by apply reply_to_ticket_sends, (no_flow_outside _ _ _ E)|].
  intros [[] err] w' Er; [apply sends_ret|].
  apply text_sends. intros cs. apply reply_to_ticket_unhandled in Er as [->|[r Er]]; [done|].
  by eapply GetValidToken_stored.
Qed.

(** C11: what an update can ask of the gateway.  Every handler a bot registers
    appends, to the requests sent, only requests to the configured gateway that
    carry a bearer token, and only those its endpoint is for.  A deposit is sent
    for a text alone, in the third step of the stored credit flow, for the user,
    the amount and the currency the flow collected, with that text as the note (a
    dash is none); an exchange rate only in the second step of the stored rate
    flow, for the currency it names and the rate of the text; the AI is asked the
    update's text, by /ai or in the AI mode.  A ticket's status and assignee
    change by its command and buttons only, for the ticket named by the update or
    the sender's active one.  A text is sent to a ticket only when it replies to a
    message recorded for that ticket, or no ticket is found that way and it is the
    sender's active one, and only when it is a reply or the sender is in no flow.
    /start, /help, /lang, /cancel, /admin, /addcredit ask nothing. *)
Theorem bot_capabilities support e f c w :
  (e, f) ∈ registerHandlers h support now partnerID →
  sends (allowed e w c) (f c) w.
Proof.
  unfold registerHandlers. intros Hin.
  destruct support; cbn [app] in Hin; repeat (apply elem_of_cons in Hin as [[= -> ->]|Hin]); try by apply not_elem_of_nil in Hin.
  all: try apply sends_fmap; first
    [ apply balance_sends | apply bookings_sends | apply setrate_sends; by auto | apply addcredit_sends
    | apply tickets_sends | apply resolve_sends | apply resolve_button_sends | apply accept_sends
    | apply text_with_support_sends
    | by (unfold HandleStart, HandleHelp, HandleLang, HandleLangCallback, HandleCancel, HandleCancelCallback, HandleAdmin; sends_all)
    | unfold HandleAI, HandleAdminSetRateCallback, HandleAdminAddCreditCallback; sends_all ].
  all: first [ apply setrate_sends; by auto | apply addcredit_sends | apply ai_sends; intros b; by constructor ].
Qed.

(** *** Without a session *)

Definition no_session (u : Z) (w : World) : Prop :=
  ∀ sess, Auth.GetSession partnerID u now (store w) ≠ Ok (Some sess).

Lemma no_session_token u w r w' :
  no_session u w → GetValidToken h now partnerID u w = (r, w') → w' = w ∧ ∀ tok sess, r ≠ Ok (tok, Some sess).
Proof.
  unfold no_session, GetValidToken, on_store, Auth.GetValidToken. intros Hno E.
  destruct (Auth.GetSession _ _ _ _) as [[sess|]|err]; [by destruct (Hno sess)|..]; destruct w; by simplify_eq/=.
Qed.
Lemma guard_none {A} P c (k : string → Auth.Session → M A) o w :
  no_session (Sender c) w → sends P o w → sends P (guard_token h now partnerID c k o) w.
Proof.
  intros Hno Ho. unfold guard_token. apply sends_bind; [apply sends_on_store|].
  intros r w' E. apply no_session_token in E as [-> Hr]; [|done].
  destruct r as [[tok [sess|]]|err]; [by destruct (Hr tok sess)|done..].
Qed.
Lemma with_token_none P c k w : no_session (Sender c) w → sends P (with_token h now partnerID c k) w.
Proof. intros Hno. apply (guard_none P c k _ w Hno), sends_reply. Qed.
Lemma with_session_none P c k w : no_session (Sender c) w → sends P (with_session h now partnerID c k) w.
Proof.
  intros Hno. unfold with_session. apply sends_bind; [apply sends_read|].
  unfold GetSession, read_store. intros r w' [= <- <-].
  destruct (Auth.GetSession _ _ _ _) as [[sess|]|err] eqn:E; [by destruct (Hno sess)|apply sends_reply..].
Qed.
Ltac unguarded := first [by apply with_token_none | by apply with_session_none
  | apply guard_none; [done|sends_all]].

Lemma text_none P c w : no_session (Sender c) w → sends P (HandleText h now partnerID c) w.
Proof.
  intros Hno. unfold HandleText. apply sends_bind; [apply sends_read|]. intros r w' E.
  apply StateGet_inv in E as [-> _]. destruct r as [[cs|]|]; [|sends_all..].
  unfold HandleSetRateStep, HandleAddCreditStep, HandleAIMessage. cbv zeta.
  repeat case_match; try unguarded; sends_all.
Qed.
Lemma reply_to_ticket_none P c w : no_session (Sender c) w → sends P (HandleReplyToTicket h now partnerID c) w.
Proof.
  intros Hno. unfold HandleReplyToTicket. destruct (Message c) as [m|]; [|apply sends_ret].
  apply sends_bind; [sends_all|]. intros tid w1 E1.
  apply ticket_of_message_inv in E1 as [-> _].
  unfold send_to_ticket. destruct (negb _); [apply sends_fmap; unguarded|].
  apply sends_bind; [apply sends_read|]. unfold read_store. intros a w2 [= <- <-].
  destruct (GetActiveTicket _ _ _ _); [apply sends_fmap; unguarded|]. sends_all.
Qed.
Lemma text_with_support_none P support c w :
  no_session (Sender c) w → sends P (handleTextWithSupport h support now partnerID c) w.
Proof.
  intros Hno. unfold handleTextWithSupport. cbv zeta. apply sends_bind; [sends_all|]. intros flow w1 E.
  pose proof (flow_keeps _ _ _ _ _ E) as ->.
  destruct flow; [by apply text_none|]. destruct support; [|by apply text_none].
  apply sends_bind; [by apply reply_to_ticket_none|]. intros [[] err] w' Er; [apply sends_ret|].
  apply text_none. apply reply_to_ticket_unhandled in Er as [->|[r Er]]; [done|].
  by apply no_session_token in Er as [-> _].
Qed.

(** C22: without a session a user reaches nothing behind the gateway: whatever
    the endpoint, the text and the stored flow, the handler sends no request. *)
Theorem no_session_no_request support e f c w :
  no_session (Sender c) w → (e, f) ∈ registerHandlers h support now partnerID → sent (f c w).2 = sent w.
Proof.
  intros Hno Hin. enough (sends (λ _, False) (f c) w) as (new & E & Hn).
  { destruct new; [by rewrite app_nil_r in E|by apply Forall_cons_1 in Hn as [? _]]. }
  unfold registerHandlers in Hin.
  destruct support; cbn [app] in Hin; repeat (apply elem_of_cons in Hin as [[= -> ->]|Hin]); try by apply not_elem_of_nil in Hin.
  all: try apply sends_fmap; try (by apply text_with_support_none).
  all: unfold HandleStart, HandleHelp, HandleLang, HandleLangCallback, HandleCancel, HandleCancelCallback,
    HandleAdmin, HandleBalance, HandleMyBookings, HandleAI, HandleSetRate, HandleAddCredit, HandleAdminSetRateCallback,
    HandleAdminAddCreditCallback, startSetRate, startAddCredit, HandleTickets, HandleResolveCommand,
    HandleAcceptCallback, HandleResolveCallback, with_ticket.
  all: first [unguarded | by sends_all | apply sends_bind; [apply sends_act|unfold act; intros ? ? [= <- <-]]; unguarded].
Qed.
End paths.
End requests.
