(* ===== verification/BotFlows.v ===== *)
(** * The bot's flows across updates

    What several updates achieve together through the states kept in Redis: the
    three-step credit deposit, and the support loop in which a notification the
    subscriber relays makes the agent's next text a reply to that ticket.  The
    flows are followed while Redis answers, with encoding/json trusted on states
    of valid UTF-8 only. *)

From S2P Require Import Prelude GoFloat GoString GoErrors GoStrconv TelegramBot BotFormatter BotGateway BotSupport BotHandlers PartnerBot.
From stdpp Require Import base list gmap strings.
From Stdlib Require Import ZArith Lia.
Import AgentRegistry.
Open Scope Z_scope.

Section flows.
Context `{RedisScan} `{Network} `{Codec Auth.Session} `{Codec State.ConversationState} `{Unicode} `{Strconv}.
Variable h : HandlerSet.
Variable partnerID : string.
Variable u : Z.

Record redis_up : Prop := {
  up_get : ∀ k t s, ∃ v, r_get k t s = Ok v;
  up_set : ∀ k v ttl t s, ∃ s', r_set k v ttl t s = Ok s';
  up_del : ∀ k s, ∃ s', r_del k s = Ok s'
}.
Hypothesis Hup : redis_up.

(** encoding/json on the states: a state of valid UTF-8 strings is marshalled and
    comes back (it replaces other bytes, so nothing is said of other strings). *)
Definition json_safe (cs : State.ConversationState) : Prop :=
  ValidString (State.Command cs) = true ∧ in_int64 (State.Step cs) ∧
  map_Forall (λ k v, ValidString k = true ∧ ValidString v = true) (State.Data cs).
Definition json_states : Prop := ∀ cs, json_safe cs → representable cs ∧ ∃ d, marshal cs = Ok d.

Variable sess : Auth.Session.

(** What a reader finds at an instant: the session, the state of a flow. *)
Definition session_at (w : World) (t : Time) : Prop :=
  ∃ d, value (store w) (Auth.sessionKey partnerID u) t = Some d ∧ unmarshal d = Ok sess.
Definition state_at (w : World) (t : Time) (cs : State.ConversationState) : Prop :=
  ∃ d, value (store w) (State.stateKey partnerID u) t = Some d ∧ unmarshal d = Ok cs.

Lemma GetSession_at w t : session_at w t → GetSession t partnerID u w = (Ok (Some sess), w).
Proof.
  intros (d & Hv & Hd). unfold GetSession, read_store, Auth.GetSession.
  destruct (up_get Hup (Auth.sessionKey partnerID u) t (store w)) as [v Hg].
  rewrite Hg. apply r_get_value in Hg as ->. rewrite Hv. by rewrite Hd.
Qed.
Lemma StateGet_at w t cs : state_at w t cs → StateGet t partnerID u w = (Ok (Some cs), w).
Proof.
  intros (d & Hv & Hd). unfold StateGet, read_store, State.Get.
  destruct (up_get Hup (State.stateKey partnerID u) t (store w)) as [v Hg].
  rewrite Hg. apply r_get_value in Hg as ->. rewrite Hv. by rewrite Hd.
Qed.
Lemma GetValidToken_at w t :
  session_at w t → Auth.IsExpired t sess = false → GetValidToken h t partnerID u w = (Ok (Auth.Token sess, Some sess), w).
Proof.
  intros Hs He. unfold GetValidToken, on_store, Auth.GetValidToken.
  pose proof (GetSession_at w t Hs) as E. unfold GetSession, read_store in E. injection E as ->.
  rewrite He. by destruct w.
Qed.

(** Saving a state: it is read for half an hour, the session stays. *)
Lemma StateSet_at w t cs :
  json_states → json_safe cs →
  ∃ w', StateSet t partnerID u cs w = (None, w') ∧ sent w' = sent w ∧ acts w' = acts w ∧
    (∀ t', t ≤ t' < t + State.stateTTL → state_at w' t' cs) ∧
    (∀ t', t ≤ t' → session_at w t' → session_at w' t').
Proof.
  intros Hjson Hsafe. destruct (Hjson cs Hsafe) as [Hr [d Hd]].
  destruct (up_set Hup (State.stateKey partnerID u) d State.stateTTL t (store w)) as [s' Hs].
  eexists. unfold StateSet, command, on_store, State.Set_. rewrite Hd, Hs. split_and!; [done..| |].
  - intros t' Ht. exists d. cbn [store]. rewrite (r_set_value _ _ _ _ _ _ Hs) by lia.
    rewrite decide_True by done. unfold alive. change (State.stateTTL =? 0) with false.
    replace (t' <? t + State.stateTTL) with true by (symmetry; apply Z.ltb_lt; lia).
    split; [done|]. by eapply unmarshal_marshal.
  - intros t' Ht (d' & Hv & Hd'). exists d'. cbn [store]. rewrite (r_set_value _ _ _ _ _ _ Hs) by lia.
    by rewrite decide_False.
Qed.
Lemma StateClear_at w :
  ∃ w', StateClear partnerID u w = (None, w') ∧ sent w' = sent w ∧ acts w' = acts w ∧
    ∀ t, value (store w') (State.stateKey partnerID u) t = None.
Proof.
  destruct (up_del Hup (State.stateKey partnerID u) (store w)) as [s' Hs].
  eexists. unfold StateClear, command, on_store, State.Clear. rewrite Hs. split_and!; [done..|].
  intros t. cbn [store]. by rewrite (r_del_value _ _ _ Hs), decide_True.
Qed.

(** A POST under the session's token, and the gateway taking it. *)
Definition post_request (path : string) (j : json) : Request :=
  {| method := "POST"; url := GatewayURL h +:+ path;
     headers := [("Authorization", "Bearer " +:+ Auth.Token sess); ("Content-Type", "application/json")];
     body := Some j |}.
Definition taken (path : string) (j : json) (sent0 : list Request) (d : string) : Prop :=
  NewRequest "POST" (GatewayURL h +:+ path) = None ∧ (∃ x, Marshal j = Ok x) ∧
  exchange sent0 (post_request path j) = Ok (200, d).
Lemma post_taken path j sent0 d :
  taken path j sent0 d →
  DoRequest (GatewayURL h) "POST" (Auth.Token sess) path (Some j) sent0 = (Ok (200, d), sent0 ++ [post_request path j]).
Proof.
  intros (Hn & [x Hx] & He). unfold DoRequest. rewrite Hx, Hn. unfold post_request in He. by rewrite He.
Qed.

(** A text in a flow, not a reply to a message, goes to the flow. *)
Definition plain_text (c : Update) : Prop :=
  Sender c = u ∧ ValidString (Text c) = true ∧ match Message c with Some m => ReplyTo m = None | None => True end.
Lemma text_in_flow support t c w cs :
  plain_text c → state_at w t cs → State.Command cs ≠ "" →
  handleTextWithSupport h support t partnerID c w = HandleText h t partnerID c w.
Proof.
  intros (Hu & _ & Hm) Hs Hc. unfold handleTextWithSupport.
  replace (match Message c with Some m => bool_decide (is_Some (ReplyTo m)) | None => false end) with false.
  2: { destruct (Message c) as [m|]; [|done]. rewrite Hm. symmetry. apply bool_decide_eq_false. by intros [? ?]. }
  unfold mbind at 1, M_bind at 1. unfold mbind at 1, M_bind at 1. rewrite Hu, (StateGet_at _ _ _ Hs). cbn iota beta.
  unfold mret, M_ret. by rewrite (proj2 (String.eqb_neq _ _) Hc).
Qed.

(** *** The credit flow *)

(** A step saved [cs], sent nothing and kept the session. *)
Definition saved (t : Time) (w w' : World) (cs : State.ConversationState) : Prop :=
  sent w' = sent w ∧ (∀ t', t ≤ t' < t + State.stateTTL → state_at w' t' cs) ∧
  (∀ t', t ≤ t' → session_at w t' → session_at w' t').
Lemma saved_prompt t w cs text lang :
  json_states → json_safe cs →
  ∃ err w', (_ ← StateSet t partnerID u cs; prompt h text lang) w = (err, w') ∧ saved t w w' cs.
Proof.
  intros Hjson Hsafe. destruct (StateSet_at w t cs Hjson Hsafe) as (w1 & E & Hs & _ & Hst & Hse).
  eexists _, _. unfold mbind, M_bind. rewrite E. split; [done|]. unfold saved. cbn [sent prompt act].
  split_and!; [done| |]; [intros t' Ht; by apply Hst|intros t' Ht Hw; by apply Hse].
Qed.

Lemma with_session_at t c k w :
  Sender c = u → session_at w t → with_session h t partnerID c k w = k sess w.
Proof. intros Hu Hs. unfold with_session, mbind, M_bind. by rewrite Hu, GetSession_at. Qed.

Definition credit1 : State.ConversationState :=
  {| State.Command := "addcredit"; State.Step := 1; State.Data := ∅ |}.
Definition credit2 (uid : string) : State.ConversationState := advance credit1 2 [("user_id", uid)].
Definition credit3 (uid : string) (n : Z) (cur : string) : State.ConversationState :=
  advance (credit2 uid) 3 [("amount", FormatFloat (float_of_Z n) 2); ("currency", ToUpper cur)].

(** Adding fields of valid text keeps a state representable. *)
Lemma json_safe_advance cs step kvs :
  json_safe cs → in_int64 step → Forall (λ kv, ValidString kv.1 = true ∧ ValidString kv.2 = true) kvs →
  json_safe (advance cs step kvs).
Proof.
  intros (Hc & _ & Hd) Hst Hkv. split; [done|split; [done|]]. unfold advance. cbn [State.Data].
  induction kvs as [|[k v] kvs IH] using rev_ind; [done|].
  apply Forall_app in Hkv as [Hkv Hlast]. rewrite Forall_singleton in Hlast.
  rewrite foldl_app. apply map_Forall_insert_2; [done|by apply IH].
Qed.
Lemma credit1_safe : json_safe credit1.
Proof. split; [done|split; [done|apply map_Forall_empty]]. Qed.
Lemma credit2_safe s : json_safe (credit2 (TrimSpace s)).
Proof.
  apply json_safe_advance; [apply credit1_safe|done|]. repeat constructor; apply of_runes_valid.
Qed.
Lemma credit3_safe s n cur : 0 < n < 2 ^ 53 → json_safe (credit3 (TrimSpace s) n cur).
Proof.
  intros Hn. apply json_safe_advance; [apply credit2_safe|done|]. repeat constructor; [|apply of_runes_valid].
  cbn [snd]. rewrite FormatFloat_whole by lia. apply ascii_valid. unfold ascii_string. rewrite bytes_of_app.
  apply Forall_app. split; [|by apply (bool_decide_eq_true_1 _)].
  eapply Forall_impl; [apply bytes_of_fmt_d|]. unfold is_ascii. cbn. lia.
Qed.

Section credit.
Hypothesis Hjson : json_states.

Lemma credit_start t c w :
  Sender c = u → session_at w t → ∃ err w', HandleAddCredit h t partnerID c w = (err, w') ∧ saved t w w' credit1.
Proof.
  intros Hu Hs. unfold HandleAddCredit, startAddCredit. rewrite with_session_at by done. rewrite Hu.
  by apply saved_prompt, credit1_safe.
Qed.

Lemma credit_text support t c cs w :
  plain_text c → state_at w t cs → session_at w t → State.Command cs = "addcredit" →
  handleTextWithSupport h support t partnerID c w = HandleAddCreditStep h t partnerID c cs w.
Proof.
  intros Hc Hst Hse Hcmd. rewrite (text_in_flow _ _ _ _ cs) by (done || by rewrite Hcmd).
  destruct Hc as (Hu & _ & _). unfold HandleText, mbind, M_bind. rewrite Hu, (StateGet_at _ _ _ Hst), Hcmd. done.
Qed.
Lemma credit_user support t c w uid :
  plain_text c → uid = TrimSpace (Text c) → state_at w t credit1 → session_at w t →
  ∃ err w', handleTextWithSupport h support t partnerID c w = (err, w') ∧ saved t w w' (credit2 uid).
Proof.
  intros Hc Ht Hst Hse. rewrite (credit_text _ _ _ credit1) by done. destruct Hc as (Hu & _ & _).
  unfold HandleAddCreditStep. cbv zeta. rewrite with_session_at by done. cbv beta zeta.
  change (State.Step credit1 =? 1) with true. rewrite Hu, Ht. apply saved_prompt; [done|]. apply credit2_safe.
Qed.

Lemma positive_whole n : 0 < n < 2 ^ 53 → positive_float (fmt_d n) = Some (float_of_Z n).
Proof.
  intros Hn. unfold positive_float. rewrite ParseFloat_whole by lia.
  rewrite fle_exact by (unfold exact_int; lia). by destruct (Z.leb_spec n 0); [lia|].
Qed.
Lemma credit_amount support t c w s n cur :
  let uid := TrimSpace s in
  plain_text c → Fields (TrimSpace (Text c)) = [fmt_d n; cur] → 0 < n < 2 ^ 53 →
  state_at w t (credit2 uid) → session_at w t →
  ∃ err w', handleTextWithSupport h support t partnerID c w = (err, w') ∧ saved t w w' (credit3 uid n cur).
Proof.
  intros uid Hc Hf Hn Hst Hse. rewrite (credit_text _ _ _ (credit2 uid)) by done. destruct Hc as (Hu & _ & _).
  unfold HandleAddCreditStep. cbv zeta. rewrite with_session_at by done. cbv beta zeta.
  change (State.Step (credit2 uid) =? 1) with false. change (State.Step (credit2 uid) =? 2) with true.
  rewrite Hu, Hf, positive_whole by done. apply saved_prompt; [done|]. by apply credit3_safe.
Qed.

(** The deposit the flow stands for. *)
Definition deposit (uid : string) (n : Z) (cur note : string) : AdminDepositRequest :=
  {| DepUserID := uid; DepAmount := float_of_Z n; DepCurrency := ToUpper cur;
     DepNote := if String.eqb note "-" then "" else note |}.
Definition deposit_request (req : AdminDepositRequest) : Request :=
  post_request "/api/v1/admin/wallets/deposit" (deposit_body req).
(** The gateway takes the request and answers with a transaction. *)
Definition accepted (req : AdminDepositRequest) (resp : TransactionResponse) (sent0 : list Request) : Prop :=
  ∃ d, taken "/api/v1/admin/wallets/deposit" (deposit_body req) sent0 d ∧ decode_deposit d = Ok resp.

Lemma deposit_sent req resp sent0 :
  accepted req resp sent0 →
  AdminDeposit (GatewayURL h) (Auth.Token sess) req sent0 = (Ok resp, sent0 ++ [deposit_request req]).
Proof.
  intros (d & Ht & Hr). unfold AdminDeposit, doPost. rewrite (post_taken _ _ _ _ Ht). unfold accept_ok, decoded.
  change (negb (200 =? 200)) with false. cbn iota. by rewrite Hr.
Qed.

Lemma credit_fields uid n cur :
  field (credit3 uid n cur) "user_id" = uid ∧ field (credit3 uid n cur) "currency" = ToUpper cur ∧
  field (credit3 uid n cur) "amount" = FormatFloat (float_of_Z n) 2.
Proof. unfold field, credit3, credit2, advance, credit1. simpl. by simplify_map_eq. Qed.

Lemma credit_note support t c w uid n cur resp :
  plain_text c → 0 < n < 2 ^ 53 → state_at w t (credit3 uid n cur) → session_at w t → Auth.IsExpired t sess = false →
  accepted (deposit uid n cur (TrimSpace (Text c))) resp (sent w) →
  ∃ err w', handleTextWithSupport h support t partnerID c w = (err, w') ∧
    sent w' = sent w ++ [deposit_request (deposit uid n cur (TrimSpace (Text c)))] ∧
    (∀ t', value (store w') (State.stateKey partnerID u) t' = None) ∧
    last (acts w') = Some (Send (AddCreditSuccess (Formatter h) (Auth.Lang sess) (fmt_d n +:+ ".00") (ToUpper cur)
                                   (TransactionID resp)) []).
Proof.
  intros Hc Hn Hst Hse He Ha. rewrite (credit_text _ _ _ (credit3 uid n cur)) by done. destruct Hc as (Hu & _ & _).
  unfold HandleAddCreditStep. cbv zeta. rewrite with_session_at by done. cbv beta zeta.
  change (State.Step (credit3 uid n cur) =? 1) with false. change (State.Step (credit3 uid n cur) =? 2) with false.
  change (State.Step (credit3 uid n cur) =? 3) with true. cbn iota.
  destruct (credit_fields uid n cur) as (-> & -> & ->).
  rewrite FormatFloat_whole, ParseFloat_cents by lia. unfold mbind, M_bind.
  rewrite Hu, GetValidToken_at by done. cbn iota beta. unfold gateway at 1. cbn iota beta.
  fold (deposit uid n cur (TrimSpace (Text c))). rewrite (deposit_sent _ _ _ Ha). cbn iota beta.
  match goal with |- context [StateClear partnerID u ?w1] => destruct (StateClear_at w1) as (w2 & E & Hs & Hac & Hv) end.
  rewrite E. eexists _, _. split; [done|]. cbn [reply act sent acts store] in *.
  split_and!; [by rewrite Hs|done|]. by rewrite last_snoc.
Qed.

(** C12: the credit flow.  For a user with an unexpired session, while Redis
    answers and encoding/json keeps states of valid UTF-8, /addcredit and three
    plain texts of valid UTF-8, each less than half an hour after the one before
    it, which give the user, a whole amount below 2^53 with a currency, and a
    note, send exactly one request when the gateway accepts it: the deposit of
    that amount, in that currency, for that user, with the note (a dash is no
    note), under the sender's token; the flow's state is gone and the reply names
    amount and transaction. *)
Theorem credit_flow support t1 t2 t3 t4 c1 c2 c3 c4 n cur resp w :
  Sender c1 = u → plain_text c2 → plain_text c3 → plain_text c4 →
  t1 ≤ t2 < t1 + State.stateTTL → t2 ≤ t3 < t2 + State.stateTTL → t3 ≤ t4 < t3 + State.stateTTL →
  (∀ t, t1 ≤ t ≤ t4 → session_at w t) → Auth.IsExpired t4 sess = false →
  Fields (TrimSpace (Text c3)) = [fmt_d n; cur] → 0 < n < 2 ^ 53 →
  let uid := TrimSpace (Text c2) in
  let req := deposit uid n cur (TrimSpace (Text c4)) in
  accepted req resp (sent w) →
  let '(_, w1) := HandleAddCredit h t1 partnerID c1 w in
  let '(_, w2) := handleTextWithSupport h support t2 partnerID c2 w1 in
  let '(_, w3) := handleTextWithSupport h support t3 partnerID c3 w2 in
  let '(_, w4) := handleTextWithSupport h support t4 partnerID c4 w3 in
  sent w4 = sent w ++ [deposit_request req] ∧
  (∀ t, value (store w4) (State.stateKey partnerID u) t = None) ∧
  last (acts w4) = Some (Send (AddCreditSuccess (Formatter h) (Auth.Lang sess) (fmt_d n +:+ ".00") (ToUpper cur)
                                 (TransactionID resp)) []).
Proof.
  intros Hu1 Hc2 Hc3 Hc4 H12 H23 H34 Hse He Hf Hn uid req Ha. assert (0 < State.stateTTL) by done.
  destruct (credit_start t1 c1 w Hu1) as (e1 & w1 & -> & Hs1 & Hst1 & Hk1); [apply Hse; lia|].
  destruct (credit_user support t2 c2 w1 uid Hc2 eq_refl) as (e2 & w2 & -> & Hs2 & Hst2 & Hk2).
  { apply Hst1; lia. } { apply Hk1; [lia|]. apply Hse; lia. }
  destruct (credit_amount support t3 c3 w2 (Text c2) n cur Hc3 Hf Hn) as (e3 & w3 & -> & Hs3 & Hst3 & Hk3).
  { apply Hst2; lia. } { apply Hk2; [lia|]. apply Hk1; [lia|]. apply Hse; lia. }
  destruct (credit_note support t4 c4 w3 uid n cur resp Hc4 Hn) as (e4 & w4 & -> & Hs4 & Hv & Hl).
  { apply Hst3; lia. } { apply Hk3; [lia|]. apply Hk2; [lia|]. apply Hk1; [lia|]. apply Hse; lia. } { done. }
  { by rewrite Hs3, Hs2, Hs1. }
  split_and!; [|done..]. by rewrite Hs4, Hs3, Hs2, Hs1.
Qed.

End credit.

(** *** The support loop *)

Section support.
Context `{BotSender}.
Import Subscriber.

(** After a direct message the ticket is the message's and the chat's. *)
Lemma direct_registers send agentID ticket chat msgID t1 s (cs cs' : chats) :
  GetAgentChatID partnerID agentID t1 s = Ok chat → send chat cs = (Ok msgID, cs') →
  ∃ s', direct t1 send partnerID agentID ticket (s, cs) = (s', cs') ∧
    (∀ t, t1 ≤ t → GetTicketByMessage partnerID msgID t s' = Ok ticket) ∧
    (∀ t, t1 ≤ t → GetActiveTicket partnerID chat t s' = Ok ticket) ∧
    (∀ k t, t1 ≤ t → k ≠ ticketMsgKey partnerID msgID → k ≠ activeTicketKey partnerID chat → value s' k t = value s k t).
Proof.
  intros Hg Hsend. unfold direct. rewrite Hg, Hsend. unfold StoreTicketMessage, SetActiveTicket.
  destruct (up_set Hup (ticketMsgKey partnerID msgID) ticket 0 t1 s) as [s1 E1]. rewrite E1. cbn [try].
  destruct (up_set Hup (activeTicketKey partnerID chat) ticket 0 t1 s1) as [s2 E2]. rewrite E2. cbn [try].
  eexists. split; [done|]. assert (∀ t, answers t s2) as Ha by (intros t k; apply (up_get Hup)).
  split_and!.
  - intros t Ht. apply get_result_value; [done|]. rewrite (set_other _ _ _ _ _ _ _ _ E2 Ht) by done.
    by rewrite (r_set_value _ _ _ _ _ _ E1 _ _ Ht), decide_True.
  - intros t Ht. by apply (set_get _ _ _ _ _ _ E2).
  - intros k t Ht H1k H2k. by rewrite (set_other _ _ _ _ _ _ _ _ E2 Ht), (set_other _ _ _ _ _ _ _ _ E1 Ht).
Qed.

Definition agent_message (ticket text : string) : json := JObj [("ticketId", JStr ticket); ("content", JStr text)].
Definition message_path : string := "/eticket.support.v1.SupportService/SendAgentMessage".

Lemma with_token_at t c k w :
  Sender c = u → session_at w t → Auth.IsExpired t sess = false →
  with_token h t partnerID c k w = k (Auth.Token sess) sess w.
Proof. intros Hu Hs He. unfold with_token, mbind, M_bind. by rewrite Hu, GetValidToken_at. Qed.

Lemma message_sent ticket text sent0 d :
  taken message_path (agent_message ticket text) sent0 d →
  SendAgentMessage (GatewayURL h) (Auth.Token sess) ticket text sent0
  = (None, sent0 ++ [post_request message_path (agent_message ticket text)]).
Proof.
  intros Ht. unfold SendAgentMessage, doConnectPost, failed. unfold message_path, agent_message in Ht.
  by rewrite (post_taken _ _ _ _ Ht).
Qed.
Lemma send_to_ticket_at t c m ticket w d :
  Sender c = u → session_at w t → Auth.IsExpired t sess = false →
  taken message_path (agent_message ticket (MsgText m)) (sent w) d →
  ∃ err w', send_to_ticket h t partnerID c m ticket w = ((true, err), w') ∧
    sent w' = sent w ++ [post_request message_path (agent_message ticket (MsgText m))] ∧
    acts w' = acts w ++ [Send (ReplySent (Formatter h) (Auth.Lang sess)) []].
Proof.
  intros Hu Hs He Ht. unfold send_to_ticket, fmap, M_fmap. rewrite with_token_at by done.
  unfold mbind, M_bind, gateway. rewrite (message_sent _ _ _ _ Ht). cbn iota beta.
  unfold command, on_store, StoreTicketMessage. cbn [store].
  destruct (up_set Hup (ticketMsgKey partnerID (MsgID m)) ticket 0 t (store w)) as [s' E]. rewrite E.
  by eexists _, _.
Qed.

(** A message in a chat whose tickets are registered reaches the ticket. *)
Lemma reply_reaches t c m msgID ticket w d :
  Sender c = u → Message c = Some m → ReplyTo m = None ∨ ReplyTo m = Some msgID →
  GetTicketByMessage partnerID msgID t (store w) = Ok ticket → GetActiveTicket partnerID u t (store w) = Ok ticket →
  session_at w t → Auth.IsExpired t sess = false →
  taken message_path (agent_message ticket (MsgText m)) (sent w) d →
  ∃ err w', HandleReplyToTicket h t partnerID c w = ((true, err), w') ∧
    sent w' = sent w ++ [post_request message_path (agent_message ticket (MsgText m))] ∧
    acts w' = acts w ++ [Send (ReplySent (Formatter h) (Auth.Lang sess)) []].
Proof.
  intros Hu Hm Hr Hmsg Hact Hs He Ht. unfold HandleReplyToTicket. rewrite Hm.
  unfold mbind, M_bind, ticket_of_message, mret, M_ret.
  destruct (send_to_ticket_at t c m ticket w d Hu Hs He Ht) as (err & w' & E & Hsent & Hacts).
  exists err, w'. split; [|done].
  destruct Hr as [Hr|Hr]; rewrite Hr.
  - change (negb (String.eqb "" "")) with false. cbn iota. unfold read_store. by rewrite Hu, Hact.
  - unfold mbind, M_bind, read_store. cbn iota. rewrite Hmsg.
    destruct (negb (String.eqb ticket "")); [done|]. by rewrite Hu, Hact.
Qed.

(** C21: the support loop.  While Redis answers, when the relay of a ticket
    assigned to an agent reaches the agent's chat, the broker sees no error, and
    from then on a message of the agent is sent to that ticket (one request,
    under the agent's token) and confirmed, provided that the agent's session is
    stored and unexpired, that the gateway takes the request, and that the message
    replies to the notification or is a plain text of an agent with no stored
    flow. *)
Theorem support_loop event agentID msgID t1 t2 s (cs cs' : chats) c m d :
  TEPartnerID event = partnerID → partnerID ≠ "" → TEAgentID event = agentID → agentID ≠ "" →
  GetAgentChatID partnerID agentID t1 s = Ok u →
  SendTicketNotification partnerID u event false cs = (Ok msgID, cs') →
  t1 ≤ t2 → session_at {| store := s; sent := []; acts := []; turns := []; uuids := 0 |} t2 →
  Auth.IsExpired t2 sess = false →
  Sender c = u → Message c = Some m →
  (ReplyTo m = None ∧ value s (State.stateKey partnerID u) t2 = None) ∨ ReplyTo m = Some msgID →
  let '(err, (s', _)) := handleTicketCreated t1 (Ok event) (s, cs) in
  err = None ∧
  ∀ w, store w = s' → taken message_path (agent_message (TETicketID event) (MsgText m)) (sent w) d →
    let '(_, w') := handleTextWithSupport h true t2 partnerID c w in
    sent w' = sent w ++ [post_request message_path (agent_message (TETicketID event) (MsgText m))] ∧
    acts w' = acts w ++ [Send (ReplySent (Formatter h) (Auth.Lang sess)) []].
Proof.
  intros Hp Hpne Ha Hane Hchat Hsend Ht Hs He Hu Hm Hr. unfold handleTicketCreated. cbv zeta.
  rewrite Hp, Ha. rewrite (proj2 (String.eqb_neq _ _) Hpne), (proj2 (String.eqb_neq _ _) Hane). cbn [negb].
  edestruct (direct_registers (λ chatID, SendTicketNotification partnerID chatID event false)
    agentID (TETicketID event) u msgID t1 s cs cs' Hchat Hsend) as (s' & -> & Hmsg & Hact & Hother).
  split; [done|]. intros w Hw Htk.
  assert (session_at w t2) as Hs'.
  { destruct Hs as (x & Hx & Hd). exists x. rewrite Hw, Hother by done. done. }
  destruct (reply_reaches t2 c m msgID (TETicketID event) w d Hu Hm ltac:(naive_solver)
    ltac:(rewrite Hw; by apply Hmsg) ltac:(rewrite Hw; by apply Hact) Hs' He Htk) as (err & w' & E & Hsent & Hacts).
  unfold handleTextWithSupport. rewrite Hm. unfold mbind, M_bind, mret, M_ret.
  destruct Hr as [[Hr Hst]|Hr]; rewrite Hr.
  - rewrite bool_decide_eq_false_2 by (by intros [? ?]). unfold StateGet, read_store, State.Get.
    destruct (up_get Hup (State.stateKey partnerID (Sender c)) t2 (store w)) as [v Hv]. rewrite Hv.
    apply r_get_value in Hv as ->. rewrite Hu, Hw, Hother, Hst by done. cbn iota beta. by rewrite E.
  - rewrite bool_decide_eq_true_2 by (by eexists). cbn iota beta. by rewrite E.
Qed.
End support.
End flows.

(** ** Instances and witnesses *)

Definition ok_tx : TransactionResponse := {| TxSuccess := true; TransactionID := "tx-1"; TxMessage := "" |}.
Definition ok_ai : AIResponse := {| AISuccess := true; ErrorMessage := ""; RespConversationID := "c-1";
  ResponseMessage := "hello"; DetectedIntent := ""; Suggestions := []; RespAction := None |}.
Definition ok_marshal (j : json) : result error string := if json_finite j then Ok "{}" else Err (EText "unsupported value").
Lemma ok_marshal_finite j d : ok_marshal j = Ok d → json_finite j = true.
Proof. unfold ok_marshal. by destruct (json_finite j). Qed.
(** A gateway that answers every request with 200. *)
#[export] Instance ok_network : Network := {|
  Marshal := ok_marshal; NewRequest _ _ := None; exchange _ _ := Ok (200, "{}");
  decode_balance _ := Ok {| BalanceNumber := "10"; BalanceCurrency := "IQD" |};
  decode_bookings _ := Ok []; decode_currencies _ := Ok []; decode_deposit _ := Ok ok_tx;
  decode_tickets _ := Ok []; decode_ai _ := Ok ok_ai;
  decode_bots _ := Ok {| BotsSuccess := true; Bots := []; BotsError := None |};
  Marshal_finite := ok_marshal_finite |}.

Definition id_messages : Messages := {| Localize _ id _ := Ok id; partnerName := None |}.
Definition a_handler_set : HandlerSet := {|
  GatewayURL := "https://gw"; Formatter := id_messages; HasRegistry := true; Ingest := true;
  identity := identity_ok; uuid n := fmt_d (Z.of_nat n); telegram _ _ := None |}.

(** A Redis that holds one session without expiry, and an agent's chat. *)
Definition long_session : Auth.Session := {|
  Auth.Token := "tok"; Auth.RefreshToken := ""; Auth.ExpiresAt := 10000000000; Auth.Roles := ["CUSTOMER_SUPPORT"];
  Auth.UserID := "u1"; Auth.UserType := "admin"; Auth.Lang := "en" |}.
Definition session_text : string := match marshal long_session with Ok d => d | Err _ => "" end.
Definition one_session : memory := {|
  vals := <[Auth.sessionKey "p1" 7 := (session_text, None)]> {[ agentKey "p1" "u1" := ("7", None) ]}; zsets := ∅ |}.
Definition start_world : World (H := memory_redis) :=
  {| store := one_session; sent := []; acts := []; turns := []; uuids := 0 |}.

Lemma memory_up : redis_up.
Proof.
  split; by eexists.
Qed.
Lemma memory_json : json_states.
Proof. intros cs _. split; [done|]. by eexists. Qed.
Lemma session_codec_total (x : Auth.Session) : marshal x = Ok (match marshal x with Ok d => d | Err _ => "" end).
Proof. reflexivity. Qed.
Lemma session_text_ok : marshal long_session = Ok session_text.
Proof. exact (session_codec_total long_session). Qed.
Opaque session_text.
Lemma one_session_at t : session_at "p1" 7 long_session start_world t.
Proof.
  exists session_text. split; [|refine (unmarshal_marshal long_session session_text _ session_text_ok); exact I].
  cbn [start_world store value memory_redis]. unfold mem_value, one_session. cbn [vals].
  by rewrite lookup_insert_eq.
Qed.
Lemma one_session_agent t : GetAgentChatID "p1" "u1" t (one_session : rstore (Redis := memory_redis)) = Ok 7.
Proof.
  unfold GetAgentChatID, get_result. cbn [r_get memory_redis]. unfold mem_value, one_session. cbn [vals].
  rewrite lookup_insert_ne by done. by rewrite lookup_singleton_eq.
Qed.
Lemma one_session_state t : mem_value one_session (State.stateKey "p1" 7) t = None.
Proof.
  unfold mem_value, one_session. cbn [vals]. rewrite lookup_insert_ne by done. by rewrite lookup_singleton_ne by done.
Qed.

Definition says (text : string) : Update :=
  {| Sender := 7; Chat := 7; Text := text; Message := Some {| MsgID := 1; MsgText := text; ReplyTo := None |};
     CallbackData := ""; Args := [] |}.
Definition credit_run : World :=
  let h := a_handler_set in
  let '(_, w1) := HandleAddCredit h 0 "p1" (says "/addcredit") start_world in
  let '(_, w2) := handleTextWithSupport h true Second "p1" (says "alice ") w1 in
  let '(_, w3) := handleTextWithSupport h true (2 * Second) "p1" (says "250 usd") w2 in
  let '(_, w4) := handleTextWithSupport h true (3 * Second) "p1" (says "-") w3 in w4.
Lemma credit_flow_witness :
  sent credit_run = [deposit_request a_handler_set long_session
    {| DepUserID := "alice"; DepAmount := float_of_Z 250; DepCurrency := "USD"; DepNote := "" |}].
Proof.
  pose proof (credit_flow a_handler_set "p1" 7 memory_up long_session memory_json true 0 Second (2 * Second) (3 * Second)
    (says "/addcredit") (says "alice ") (says "250 usd") (says "-") 250 "usd" ok_tx start_world
    eq_refl (conj eq_refl (conj eq_refl eq_refl)) (conj eq_refl (conj eq_refl eq_refl))
    (conj eq_refl (conj eq_refl eq_refl))
    ltac:(done) ltac:(done) ltac:(done) ltac:(intros; apply one_session_at) ltac:(reflexivity)
    ltac:(reflexivity) ltac:(done)) as Hflow.
  cbv zeta in Hflow. unfold credit_run.
  destruct (HandleAddCredit _ _ _ _ _) as [e1 w1], (handleTextWithSupport _ _ _ _ _ w1) as [e2 w2],
    (handleTextWithSupport _ _ _ _ _ w2) as [e3 w3], (handleTextWithSupport _ _ _ _ _ w3) as [e4 w4].
  apply Hflow. exists "{}". split; [|done]. split; [done|]. split; [by eexists|done].
Defined.

Definition a_ticket : SupportTicketEvent := {|
  TEPartnerID := "p1"; TEAgentID := "u1"; TETicketID := "T-9"; TETicketNumber := "9"; TECustomerName := "Ann";
  TECustomerPhone := ""; TEChannel := ""; TECategory := ""; TEPriority := ""; TEReason := "";
  TEInitialMessage := ""; TEAISummary := "" |}.
(** Chats that number their messages. *)
Definition counting_sender : BotSender := {|
  chats := Z;
  SendTicketNotification _ _ _ _ n := (Ok n, n + 1);
  SendCustomerReplyNotification _ _ _ _ n := (Ok n, n + 1);
  SendRatingNotification _ _ _ n := (Return None, n + 1) |}.
Definition support_run : World :=
  let '(_, (s, _)) := Subscriber.handleTicketCreated (H1 := counting_sender) 0 (Ok a_ticket) (one_session, 40) in
  (handleTextWithSupport a_handler_set true Second "p1" (says "on my way")
     {| store := s; sent := []; acts := []; turns := []; uuids := 0 |}).2.
Lemma support_loop_witness :
  sent support_run = [post_request a_handler_set long_session message_path (agent_message "T-9" "on my way")].
Proof.
  pose proof (support_loop (H6 := counting_sender) a_handler_set "p1" 7 memory_up long_session a_ticket "u1" 40 0 Second one_session
    40 41 (says "on my way") {| MsgID := 1; MsgText := "on my way"; ReplyTo := None |} "{}"
    eq_refl ltac:(done) eq_refl ltac:(done) (one_session_agent _) eq_refl ltac:(done) (one_session_at _)
    ltac:(reflexivity) eq_refl eq_refl ltac:(left; split; [reflexivity|apply one_session_state])) as Hloop.
  unfold support_run. destruct (Subscriber.handleTicketCreated _ _ _) as [err [s cs]] eqn:E.
  destruct Hloop as [_ Hloop].
  specialize (Hloop {| store := s; sent := []; acts := []; turns := []; uuids := 0 |} eq_refl).
  destruct (handleTextWithSupport _ _ _ _ _ _) as [e w']. apply Hloop. split; [done|]. split; [by eexists|done].
Defined.

Lemma bot_capabilities_witness :
  sends (allowed a_handler_set 0 "p1" OnText start_world (says "on my way"))
    (returning (handleTextWithSupport a_handler_set true 0 "p1") (says "on my way")) start_world.
Proof.
  apply (bot_capabilities a_handler_set 0 "p1" true OnText (returning (handleTextWithSupport a_handler_set true 0 "p1"))).
  apply (list_elem_of_lookup_2 _ 19). reflexivity.
Defined.

(** A user Redis knows nothing about. *)
Definition stranger : Update :=
  {| Sender := 8; Chat := 8; Text := "/setrate"; Message := None; CallbackData := ""; Args := [] |}.
Lemma stranger_no_session t : no_session t "p1" 8 start_world.
Proof.
  intros sess. unfold Auth.GetSession. cbn [r_get memory_redis store start_world].
  assert (mem_value one_session (Auth.sessionKey "p1" 8) t = None) as ->; [|done].
  unfold mem_value, one_session. cbn [vals]. rewrite lookup_insert_ne by done. by rewrite lookup_singleton_ne by done.
Qed.
Lemma no_session_no_request_witness :
  sent (returning (HandleSetRate a_handler_set 0 "p1") stranger start_world).2 = [].
Proof.
  apply (no_session_no_request a_handler_set 0 "p1" true (Command "/setrate")); [apply stranger_no_session|].
  apply (list_elem_of_lookup_2 _ 8). reflexivity.
Defined.

(** ** What the flows do not check *)

(** A command that only starts like /ai loses its first three bytes. *)
Lemma ai_prefix_cut : ai_text (says "/airport transfer") = "rport transfer".
Proof. reflexivity. Qed.
(** A question asked with /ai inside another flow leaves that flow's command. *)
Lemma ai_keeps_other_flow cs convID :
  State.Command (advance cs (State.Step cs) [("ai_conversation_id", convID)]) = State.Command cs.
Proof. done. Qed.
(** An amount below half a cent is confirmed and deposited as zero. *)
Lemma tiny_amount_is_zero :
  fle (float_dec 1 3) (float_of_Z 0) = false ∧ FormatFloat (float_dec 1 3) 2 = "0.00".
Proof. by vm_compute. Qed.
(** A NaN rate passes the test and cannot be encoded. *)
Lemma nan_rate_passes : fle SpecFloat.S754_nan (float_of_Z 0) = false ∧ finite SpecFloat.S754_nan = false.
Proof. done. Qed.
(** A negative rating panics while the notification is rendered. *)
Lemma negative_rating_panics m number comment :
  RatingNotification m number (-1) comment = Panic "strings: negative Repeat count".
Proof. done. Qed.
