(* ===== verification/BotManager.v ===== *)
(** * The bot manager (communication/telegram/bot/core/manager.go)

    The supervisor of the partners' bots as a transition system.  A state holds
    the manager's four maps, every bot object made so far (an index is a
    pointer), the calls of Stop on them, the goroutines of startBot with the
    point each has reached, and the pending goroutines that mark a bot ready.  A
    transition is what a goroutine does under one hold of the mutex, or one call
    outside it; the goroutines interleave freely.  NewPartnerBot may fail at
    every attempt and a bot's Start may return at any time. *)

From S2P Require Import Prelude GoString GoErrors BotFormatter BotGateway BotSupport.
From stdpp Require Import base list gmap strings.
From Stdlib Require Import ZArith Lia.
Open Scope Z_scope.

(** ** State *)

Record BotHealth := {
  Status : string; LastStart : Time; Failures : Z; HealthPartnerID : string; HealthPartnerCode : string
}.
(** What NewPartnerBot makes a bot of. *)
Record PartnerBot := {
  pb_partnerID : string; pb_partnerCode : string; pb_token : string; pb_webhookURL : string; pb_secret : string
}.
Record BotManager := {
  webhookBaseURL : string;
  webhookSecret : string;
  bots : gmap string nat;
  health : gmap string BotHealth;
  tokens : gmap string string;
  ready : gmap string bool
}.

(** Where a goroutine of startBot is. *)
Inductive point :=
| Creating (backoff : Duration)      (* about to call NewPartnerBot *)
| Backing (backoff : Duration)       (* asleep after a failure *)
| Serving (b : nat) (backoff : Duration)
| Returned (backoff : Duration)      (* Start returned *)
| Tracked (backoff : Duration)       (* found still tracked *)
| Pausing (backoff : Duration)       (* asleep before a restart *)
| GaveUp                             (* marked down *)
| Gone                               (* removed, or the token changed *)
| Crashed.                           (* dereferenced a nil health *)
Record worker := { cfg : PartnerBotConfig; at_ : point }.

Record System := {
  mgr : BotManager;
  heap : list PartnerBot;
  stops : list nat;
  workers : list worker;
  marks : list string
}.

Definition maxBackoff : Duration := 30 * Second.
Definition maxConsecutiveFailures : Z := 10.
(** [backoff *= 2], capped. *)
Definition double (cap backoff : Duration) : Duration := if cap <? backoff * 2 then cap else backoff * 2.

Fixpoint trim_slashes (l : list Z) : list Z :=
  match l with 47 :: l' => trim_slashes l' | _ => l end.
(** strings.TrimRight(s, "/") *)
Definition TrimRightSlash (s : string) : string := of_bytes (reverse (trim_slashes (reverse (bytes_of s)))).
Definition NewBotManager (baseURL secret : string) : BotManager := {|
  webhookBaseURL := TrimRightSlash baseURL; webhookSecret := secret;
  bots := ∅; health := ∅; tokens := ∅; ready := ∅ |}.
Definition webhookURL (m : BotManager) (partnerID : string) : string := webhookBaseURL m +:+ "/" +:+ partnerID.

Definition with_maps (m : BotManager) b h t r : BotManager := {|
  webhookBaseURL := webhookBaseURL m; webhookSecret := webhookSecret m;
  bots := b; health := h; tokens := t; ready := r |}.
Definition set_mgr (s : System) (m : BotManager) : System :=
  {| mgr := m; heap := heap s; stops := stops s; workers := workers s; marks := marks s |}.
Definition set_worker (s : System) (i : nat) (w : worker) (p : point) : System :=
  {| mgr := mgr s; heap := heap s; stops := stops s; workers := <[i := {| cfg := cfg w; at_ := p |}]> (workers s);
     marks := marks s |}.

(** ** Operations *)

Definition with_status (h : BotHealth) (status : string) (failures : Z) : BotHealth := {|
  Status := status; LastStart := LastStart h; Failures := failures;
  HealthPartnerID := HealthPartnerID h; HealthPartnerCode := HealthPartnerCode h |}.

Definition syncBot (now : Time) (c : PartnerBotConfig) (s : System) : System :=
  let m := mgr s in
  let id := PartnerID c in
  if decide (tokens m !! id = Some (BotToken c)) then s
  else
    let old := match tokens m !! id with Some _ => bots m !! id | None => None end in
    let h := {| Status := "starting"; LastStart := now; Failures := 0;
                HealthPartnerID := id; HealthPartnerCode := PartnerCode c |} in
    {| mgr := with_maps m (bots m) (<[id := h]> (health m)) (<[id := BotToken c]> (tokens m))
                (match old with Some _ => <[id := false]> (ready m) | None => ready m end);
       heap := heap s;
       stops := stops s ++ (match old with Some b => [b] | None => [] end);
       workers := workers s ++ [{| cfg := c; at_ := Creating Second |}];
       marks := marks s |}.

(** The second half of loadAndSync: bots of partners that are not active. *)
Definition removeInactive (active : gset string) (s : System) : System :=
  let m := mgr s in
  let gone := filter (λ kv, kv.1 ∉ active) (bots m) in
  {| mgr := with_maps m (filter (λ kv, kv.1 ∈ active) (bots m))
              (map_imap (λ id h, Some (if decide (is_Some (gone !! id)) then with_status h "down" (Failures h) else h)) (health m))
              (filter (λ kv, gone !! kv.1 = None) (tokens m))
              (filter (λ kv, gone !! kv.1 = None) (ready m));
     heap := heap s; stops := stops s ++ (map_to_list gone).*2; workers := workers s; marks := marks s |}.

Definition activeIDs (configs : list PartnerBotConfig) : gset string := list_to_set (PartnerID <$> configs).
Definition sync_all (now : Time) (configs : list PartnerBotConfig) (s : System) : System :=
  foldl (λ s c, syncBot now c s) s configs.
(** loadAndSync with no other goroutine in between its holds of the mutex; these
    are the events ESync and ERemove below, which interleave with the other
    goroutines ([loadAndSync_events], [reload_interleaved]). *)
Definition loadAndSync (now : Time) (configs : result error (list PartnerBotConfig)) (s : System)
    : option error * System :=
  match configs with
  | Err err => (Some (EWrap "fetch bot configs: " "" err), s)
  | Ok configs => (None, removeInactive (activeIDs configs) (sync_all now configs s))
  end.

Definition Stop (s : System) : System :=
  let m := mgr s in
  {| mgr := with_maps m ∅ (health m) (tokens m) (filter (λ kv, bots m !! kv.1 = None) (ready m));
     heap := heap s; stops := stops s ++ (map_to_list (bots m)).*2; workers := workers s; marks := marks s |}.

(** HealthStatus: the status and the map that are marshalled. *)
Definition HealthStatus (m : BotManager) : string * gmap string BotHealth :=
  (if existsb (λ kv, String.eqb (Status kv.2) "down") (map_to_list (health m)) then "degraded" else "healthy",
   health m).

(** *** startBot, transition by transition *)

Definition newPartnerBot (m : BotManager) (c : PartnerBotConfig) : PartnerBot := {|
  pb_partnerID := PartnerID c; pb_partnerCode := PartnerCode c; pb_token := BotToken c;
  pb_webhookURL := webhookURL m (PartnerID c); pb_secret := webhookSecret m |}.

(** NewPartnerBot failed: count, and give up at the tenth failure. *)
Definition startBot_failed (i : nat) (w : worker) (backoff : Duration) (s : System) : System :=
  let m := mgr s in
  let id := PartnerID (cfg w) in
  match health m !! id with
  | None => set_worker s i w Crashed
  | Some h =>
      let failures := Failures h + 1 in
      if maxConsecutiveFailures <=? failures then
        set_worker (set_mgr s (with_maps m (bots m) (<[id := with_status h "down" failures]> (health m)) (tokens m) (ready m)))
          i w GaveUp
      else
        set_worker (set_mgr s (with_maps m (bots m) (<[id := with_status h "degraded" failures]> (health m)) (tokens m) (ready m)))
          i w (Backing backoff)
  end.

(** NewPartnerBot succeeded: publish the bot, and run it. *)
Definition startBot_created (i : nat) (w : worker) (backoff : Duration) (s : System) : System :=
  let m := mgr s in
  let id := PartnerID (cfg w) in
  let b := length (heap s) in
  match health m !! id with
  | None => set_worker s i w Crashed
  | Some h =>
      set_worker
        {| mgr := with_maps m (<[id := b]> (bots m)) (<[id := with_status h "healthy" 0]> (health m)) (tokens m)
                    (<[id := false]> (ready m));
           heap := heap s ++ [newPartnerBot m (cfg w)]; stops := stops s; workers := workers s; marks := marks s ++ [id] |}
        i w (Serving b backoff)
  end.

Inductive event :=
| ESync (now : Time) (c : PartnerBotConfig)
| ERemove (active : gset string)
| EStop
| ECreate (i : nat) (ok : bool)      (* NewPartnerBot returns *)
| EReturn (i : nat)                  (* bot.Start returns *)
| ECheck (i : nat)                   (* the reads of m.tokens *)
| EWake (i : nat)                    (* a sleep ends *)
| EReady (j : nat).                  (* a pending mark fires *)

Definition worker_step (e : event) (i : nat) (w : worker) (s : System) : option System :=
  match e, at_ w with
  | ECreate _ true, Creating backoff => Some (startBot_created i w backoff s)
  | ECreate _ false, Creating backoff => Some (startBot_failed i w backoff s)
  | EReturn _, Serving _ backoff => Some (set_worker s i w (Returned backoff))
  | ECheck _, Returned backoff =>
      Some (set_worker s i w (if decide (is_Some (tokens (mgr s) !! PartnerID (cfg w))) then Tracked backoff else Gone))
  | ECheck _, Tracked backoff =>
      let currentToken := default "" (tokens (mgr s) !! PartnerID (cfg w)) in
      Some (set_worker s i w (if negb (String.eqb currentToken (BotToken (cfg w))) then Gone else Pausing backoff))
  | EWake _, Backing backoff => Some (set_worker s i w (Creating (double maxBackoff backoff)))
  | EWake _, Pausing backoff => Some (set_worker s i w (Creating backoff))
  | _, _ => None
  end.

Definition step (e : event) (s : System) : option System :=
  match e with
  | ESync now c => Some (syncBot now c s)
  | ERemove active => Some (removeInactive active s)
  | EStop => Some (Stop s)
  | ECreate i _ | EReturn i | ECheck i | EWake i => w ← workers s !! i; worker_step e i w s
  | EReady j =>
      id ← marks s !! j;
      Some {| mgr := with_maps (mgr s) (bots (mgr s)) (health (mgr s)) (tokens (mgr s)) (<[id := true]> (ready (mgr s)));
              heap := heap s; stops := stops s; workers := workers s; marks := delete j (marks s) |}
  end.
Fixpoint run (es : list event) (s : System) : option System :=
  match es with [] => Some s | e :: es => s' ← step e s; run es s' end.

Definition initial (baseURL secret : string) : System :=
  {| mgr := NewBotManager baseURL secret; heap := []; stops := []; workers := []; marks := [] |}.
Inductive reachable (baseURL secret : string) : System → Prop :=
| reach_init : reachable baseURL secret (initial baseURL secret)
| reach_step s e s' : reachable baseURL secret s → step e s = Some s' → reachable baseURL secret s'.

(** loadAndSync as the events of its goroutine, one per hold of the mutex. *)
Definition reload_events (now : Time) (configs : list PartnerBotConfig) : list event :=
  (ESync now <$> configs) ++ [ERemove (activeIDs configs)].
Definition by_reload (e : event) : bool := match e with ESync _ _ | ERemove _ => true | _ => false end.

(** ** Invariant *)

Record inv (s : System) : Prop := {
  (* startBot never dereferences a missing health *)
  inv_health i w : workers s !! i = Some w → is_Some (health (mgr s) !! PartnerID (cfg w)) ∧ at_ w ≠ Crashed;
  (* a published bot is its partner's own *)
  inv_bots p b : bots (mgr s) !! p = Some b →
    ∃ pb, heap s !! b = Some pb ∧ pb_partnerID pb = p ∧ pb_webhookURL pb = webhookURL (mgr s) p;
  (* a tracked token has a goroutine at work, or that gave up *)
  inv_tokens p t : tokens (mgr s) !! p = Some t →
    ∃ i w, workers s !! i = Some w ∧ PartnerID (cfg w) = p ∧ BotToken (cfg w) = t ∧ at_ w ≠ Gone
}.

Lemma inv_initial baseURL secret : inv (initial baseURL secret).
Proof. split; cbn; intros *; rewrite ?lookup_nil, ?lookup_empty; done. Qed.

Lemma set_worker_inv s i w p :
  inv s → workers s !! i = Some w → p ≠ Crashed →
  (p = Gone → tokens (mgr s) !! PartnerID (cfg w) ≠ Some (BotToken (cfg w))) →
  inv (set_worker s i w p).
Proof.
  intros [Hh Hb Ht] Hi Hp Hg. split; cbn [set_worker mgr heap workers]; [|done|].
  - intros j v. rewrite list_lookup_insert_Some. intros [(<- & <- & _)|[_ Hj]]; [|by eapply Hh].
    cbn [cfg at_]. by destruct (Hh i w Hi).
  - intros q t Hq. destruct (Ht q t Hq) as (j & v & Hj & E1 & E2 & E3).
    destruct (decide (j = i)) as [->|Hne].
    + simplify_eq. exists i, {| cfg := cfg w; at_ := p |}. rewrite list_lookup_insert_eq by (by eapply lookup_lt_Some).
      split_and!; [done..|]. cbn [at_]. intros E. by apply (Hg E).
    + exists j, v. by rewrite list_lookup_insert_ne.
Qed.

Lemma health_inv s id h r :
  inv s → inv (set_mgr s (with_maps (mgr s) (bots (mgr s)) (<[id := h]> (health (mgr s))) (tokens (mgr s)) r)).
Proof.
  intros [Hh Hb Ht]. split; cbn [set_mgr mgr heap workers with_maps health bots tokens]; [|done|done].
  intros i w Hi. destruct (Hh i w Hi) as [Hs Hc]. split; [|done]. rewrite lookup_insert_is_Some'. tauto.
Qed.

Lemma syncBot_inv now c s : inv s → inv (syncBot now c s).
Proof.
  intros Hinv. unfold syncBot. case_decide as Hsame; [done|]. destruct Hinv as [Hh Hb Ht].
  split; cbn [mgr heap workers with_maps health bots tokens]; [|done|].
  - intros i w. rewrite lookup_snoc_Some, lookup_insert_is_Some'. intros [[_ Hi]|[_ <-]].
    + destruct (Hh i w Hi). tauto.
    + split; [by left|done].
  - intros p t. rewrite lookup_insert_Some. intros [[<- <-]|[Hne Hp]].
    + exists (length (workers s)), {| cfg := c; at_ := Creating Second |}.
      by rewrite lookup_app_r, Nat.sub_diag by lia.
    + destruct (Ht p t Hp) as (i & w & Hi & Hw). exists i, w. split; [|done]. by apply lookup_app_l_Some.
Qed.

Lemma removeInactive_inv active s : inv s → inv (removeInactive active s).
Proof.
  intros [Hh Hb Ht]. split; cbn [removeInactive mgr heap workers with_maps health bots tokens].
  - intros i w Hi. destruct (Hh i w Hi) as [[h E] Hc]. split; [|done]. rewrite map_lookup_imap, E. by eexists.
  - intros p b [Hp _]%map_lookup_filter_Some. by apply Hb.
  - intros p t [Hp _]%map_lookup_filter_Some. by apply Ht.
Qed.
Lemma Stop_inv s : inv s → inv (Stop s).
Proof. intros [Hh Hb Ht]. split; cbn [Stop mgr heap workers with_maps health bots tokens]; [done| |done]. by intros p b; rewrite lookup_empty. Qed.

Lemma created_inv i w backoff s :
  inv s → workers s !! i = Some w → inv (startBot_created i w backoff s).
Proof.
  intros Hinv Hi. unfold startBot_created.
  destruct (inv_health _ Hinv _ _ Hi) as [[h Eh] _]. rewrite Eh.
  apply set_worker_inv; [|done..]. destruct Hinv as [Hh Hb Ht].
  split; cbn [mgr heap workers with_maps health bots tokens]; [| |done].
  - intros j v Hj. destruct (Hh j v Hj) as [Hs Hc]. split; [|done]. rewrite lookup_insert_is_Some'. tauto.
  - intros p b. rewrite lookup_insert_Some. intros [[<- <-]|[Hne Hp]].
    + exists (newPartnerBot (mgr s) (cfg w)). by rewrite lookup_app_r, Nat.sub_diag by lia.
    + destruct (Hb p b Hp) as (pb & Hpb & E). exists pb. split; [|done]. by apply lookup_app_l_Some.
Qed.
Lemma failed_inv i w backoff s :
  inv s → workers s !! i = Some w → inv (startBot_failed i w backoff s).
Proof.
  intros Hinv Hi. unfold startBot_failed.
  destruct (inv_health _ Hinv _ _ Hi) as [[h Eh] _]. rewrite Eh.
  destruct (_ <=? _); (apply set_worker_inv; [by apply health_inv|done..]).
Qed.

Lemma worker_step_inv e i w s s' :
  inv s → workers s !! i = Some w → worker_step e i w s = Some s' → inv s'.
Proof.
  intros Hinv Hi. unfold worker_step.
  destruct e as [| | |? []| | | |], (at_ w); intros E; try done; injection E as <-;
    try (by apply created_inv); try (by apply failed_inv); try (by apply set_worker_inv).
  - apply set_worker_inv; [done..|by case_decide|]. case_decide as D; [done|].
    intros _ E. by destruct D; eexists.
  - apply set_worker_inv; [done..|by destruct (negb _)|].
    destruct (String.eqb_spec (default "" (tokens (mgr s) !! PartnerID (cfg w))) (BotToken (cfg w))) as [|Hne]; [done|].
    intros _ E. by rewrite E in Hne.
Qed.

Lemma step_inv e s s' : inv s → step e s = Some s' → inv s'.
Proof.
  intros Hinv. destruct e as [now c|active| |i ok|i|i|i|j]; cbn [step].
  - intros [= <-]. by apply syncBot_inv.
  - intros [= <-]. by apply removeInactive_inv.
  - intros [= <-]. by apply Stop_inv.
  - destruct (workers s !! i) eqn:Hi; [|done]. by apply worker_step_inv.
  - destruct (workers s !! i) eqn:Hi; [|done]. by apply worker_step_inv.
  - destruct (workers s !! i) eqn:Hi; [|done]. by apply worker_step_inv.
  - destruct (workers s !! i) eqn:Hi; [|done]. by apply worker_step_inv.
  - destruct (marks s !! j); [|done]. intros [= <-]. by destruct Hinv; split.
Qed.
Lemma manager_reachable_inv baseURL secret s : reachable baseURL secret s → inv s.
Proof. induction 1; [apply inv_initial|by eapply step_inv]. Qed.

(** ** Webhooks *)

Fixpoint has_slash (s : string) : bool :=
  match s with EmptyString => false | String c s => (byte_of c =? 47) || has_slash s end.
Definition webhook_partner (path : string) : string := TrimPrefix path "/webhook/".
(** The bot an update is handed to; None is a plain 200. *)
Definition webhook_bot (m : BotManager) (path : string) : option nat :=
  let partnerID := webhook_partner path in
  if String.eqb partnerID "" || has_slash partnerID then None
  else match bots m !! partnerID with
       | Some b => if default false (ready m !! partnerID) then Some b else None
       | None => None
       end.
(** [serve] is the bot's handler: the statuses it wrote and whether it panicked. *)
Definition handleWebhook (serve : nat → list Z * bool) (m : BotManager) (path : string) : list Z :=
  match webhook_bot m path with
  | None => [200]
  | Some b => let '(written, panicked) := serve b in if panicked then written ++ [200] else written
  end.

(** ** Notifications *)

Section notifications.
Context `{Unicode} {chat_state : Type}.
Variable msgs : Messages.
(** telebot's Send for a bot. *)
Variable SendToChat : nat → Z → string → keyboard → chat_state → result error Z * chat_state.
Variable m : BotManager.

Definition no_bot (partnerID : string) : error := EText ("no bot for partner " +:+ partnerID).
Definition ticket_notice (e : SupportTicketEvent) : TicketNotice := {|
  Number := TETicketNumber e; CustomerName := TECustomerName e; CustomerPhone := TECustomerPhone e;
  Channel := TEChannel e; Category := TECategory e; Priority := TEPriority e; Reason := TEReason e;
  InitialMessage := TEInitialMessage e; AISummary := TEAISummary e |}.
Definition accept_keyboard (ticketID : string) : keyboard :=
  [[{| label := AcceptTicketButton msgs; unique := "accept_ticket"; data := ticketID |}]].
Definition resolve_keyboard (ticketID : string) : keyboard :=
  [[{| label := ResolveTicketButton msgs; unique := "resolve_ticket"; data := ticketID |}]].

Definition SendTicketNotification (partnerID : string) (chatID : Z) (ticket : SupportTicketEvent)
    (isAcceptable : bool) (cs : chat_state) : result error Z * chat_state :=
  match bots m !! partnerID with
  | None => (Err (no_bot partnerID), cs)
  | Some bot =>
      let text := TicketNotification msgs (ticket_notice ticket) isAcceptable in
      if isAcceptable then SendToChat bot chatID text (accept_keyboard (TETicketID ticket)) cs
      else SendToChat bot chatID text (resolve_keyboard (TETicketID ticket)) cs
  end.

Definition preview (content : string) : string :=
  if 200 <? slen content then of_bytes (take 200 (bytes_of content)) +:+ "..." else content.
Definition SendCustomerReplyNotification (partnerID : string) (chatID : Z) (msg : SupportMessageEvent)
    (isAcceptable : bool) (cs : chat_state) : result error Z * chat_state :=
  match bots m !! partnerID with
  | None => (Err (no_bot partnerID), cs)
  | Some bot =>
      let text := CustomerReplyNotification msgs (METicketNumber msg) (preview (MEContent msg)) in
      SendToChat bot chatID text (if isAcceptable then accept_keyboard (METicketID msg) else []) cs
  end.

Definition SendRatingNotification (partnerID : string) (chatID : Z) (event : SupportRatingEvent) (cs : chat_state)
    : outcome (option error) * chat_state :=
  match bots m !! partnerID with
  | None => (Return (Some (no_bot partnerID)), cs)
  | Some bot =>
      match RatingNotification msgs (RETicketNumber event) (RERating event) (REComment event) with
      | Panic p => (Panic p, cs)
      | Return text =>
          let '(r, cs) := SendToChat bot chatID text [] cs in
          (Return (match r with Err err => Some err | Ok _ => None end), cs)
      end
  end.

(** The manager is the subscriber's sender. *)
#[local] Instance manager_sender : BotSender := {|
  BotSupport.SendTicketNotification := SendTicketNotification;
  BotSupport.SendCustomerReplyNotification := SendCustomerReplyNotification;
  BotSupport.SendRatingNotification := SendRatingNotification |}.
End notifications.

(** ** Start *)

Section start.
Context {W : Type}.
(** An attempt of loadAndSync; whether the context ends during a wait. *)
Variable load : W → option error * W.
Variable cancelled : nat → bool.
Variable ctx_err : error.

Definition maxRetries : nat := 10.
Inductive start_result := Started | Cancelled (e : error) | Failed (e : error).
Fixpoint start_loop (left_ attempt : nat) (backoff : Duration) (waited : list Duration) (w : W)
    : start_result * list Duration * W :=
  match left_ with
  | O => (Failed (EText ("bot manager: initial load failed after " +:+ fmt_d (Z.of_nat maxRetries) +:+ " retries")), waited, w)
  | S left_ =>
      match load w with
      | (None, w) => (Started, waited, w)
      | (Some _, w) =>
          if cancelled attempt then (Cancelled ctx_err, waited, w)
          else start_loop left_ (S attempt) (double maxBackoff backoff) (waited ++ [backoff]) w
      end
  end.
Definition Start (w : W) : start_result * list Duration * W := start_loop maxRetries 1 (2 * Second) [] w.
End start.

(** ** Lemmas on reloading *)

Lemma reachable_base baseURL secret s : reachable baseURL secret s → webhookBaseURL (mgr s) = TrimRightSlash baseURL.
Proof.
  induction 1 as [|s e s' _ IH E]; [done|]. rewrite <-IH. clear IH.
  destruct e as [now c|active| |i ok|i|i|i|j]; cbn [step] in E.
  1: { injection E as <-. unfold syncBot. by case_decide. }
  1-2: by injection E as <-.
  5: { destruct (marks s !! j); [|done]. by injection E as <-. }
  all: destruct (workers s !! i) as [w|]; [|done]; cbn in E; unfold worker_step in E.
  1: destruct ok.
  all: destruct (at_ w); try done; injection E as <-; unfold startBot_created, startBot_failed; try done.
  all: destruct (health _ !! _); try done; by destruct (_ <=? _).
Qed.

Lemma syncBot_bots now c s : bots (mgr (syncBot now c s)) = bots (mgr s).
Proof. unfold syncBot. by case_decide. Qed.
Lemma syncBot_tokens now c s : tokens (mgr (syncBot now c s)) = <[PartnerID c := BotToken c]> (tokens (mgr s)).
Proof. unfold syncBot. case_decide; [by rewrite insert_id|done]. Qed.
Lemma syncBot_stops now c s :
  ∃ ex, stops (syncBot now c s) = stops s ++ ex ∧
    ∀ b, b ∈ ex → bots (mgr s) !! PartnerID c = Some b ∧
      ∃ t, tokens (mgr s) !! PartnerID c = Some t ∧ t ≠ BotToken c.
Proof.
  unfold syncBot. case_decide as D; [exists []; rewrite app_nil_r; set_solver|]. cbn [stops].
  eexists. split; [done|]. intros b. destruct (tokens (mgr s) !! PartnerID c) as [t|] eqn:Et; [|set_solver].
  destruct (bots (mgr s) !! PartnerID c) as [b'|]; [|set_solver]. intros ->%list_elem_of_singleton.
  split; [done|]. exists t. naive_solver.
Qed.

Section reload.
Variable now : Time.

Lemma sync_all_bots configs s : bots (mgr (sync_all now configs s)) = bots (mgr s).
Proof. revert s. induction configs as [|c configs IH]; intros s; [done|]. cbn [sync_all foldl]. unfold sync_all in IH. by rewrite IH, syncBot_bots. Qed.
Lemma sync_all_other configs s p :
  p ∉ PartnerID <$> configs → tokens (mgr (sync_all now configs s)) !! p = tokens (mgr s) !! p.
Proof.
  revert s. induction configs as [|c configs IH]; intros s; [done|]. rewrite fmap_cons, not_elem_of_cons.
  intros [Hne Hp]. cbn [sync_all foldl]. unfold sync_all in IH. rewrite IH, syncBot_tokens by done. by rewrite lookup_insert_ne.
Qed.
Lemma sync_all_tokens configs s c :
  NoDup (PartnerID <$> configs) → c ∈ configs → tokens (mgr (sync_all now configs s)) !! PartnerID c = Some (BotToken c).
Proof.
  revert s. induction configs as [|c' configs IH]; intros s; [set_solver|]. rewrite fmap_cons, NoDup_cons.
  intros [Hn Hd] [->|Hc]%elem_of_cons; cbn [sync_all foldl].
  - pose proof (sync_all_other configs (syncBot now c' s) (PartnerID c') Hn) as E. unfold sync_all in E.
    by rewrite E, syncBot_tokens, lookup_insert_eq.
  - by apply IH.
Qed.
Lemma sync_all_stops configs s :
  NoDup (PartnerID <$> configs) →
  ∃ ex, stops (sync_all now configs s) = stops s ++ ex ∧
    ∀ b, b ∈ ex → ∃ c t, c ∈ configs ∧ bots (mgr s) !! PartnerID c = Some b ∧
      tokens (mgr s) !! PartnerID c = Some t ∧ t ≠ BotToken c.
Proof.
  revert s. induction configs as [|c configs IH]; intros s; [exists []; rewrite app_nil_r; set_solver|].
  rewrite fmap_cons, NoDup_cons. intros [Hn Hd]. cbn [sync_all foldl].
  destruct (syncBot_stops now c s) as (ex1 & E1 & H1), (IH (syncBot now c s) Hd) as (ex2 & E2 & H2).
  exists (ex1 ++ ex2). unfold sync_all in E2. rewrite E2, E1, app_assoc. split; [done|].
  intros b [Hb|Hb]%elem_of_app.
  - destruct (H1 b Hb) as (Hbot & t & Ht & Hne). exists c, t. split_and!; [by left|done..].
  - destruct (H2 b Hb) as (c' & t & Hc' & Hbot & Ht & Hne). exists c', t.
    assert (PartnerID c' ≠ PartnerID c) by (intros E; apply Hn; rewrite <-E; by apply list_elem_of_fmap_2).
    rewrite syncBot_bots in Hbot. rewrite syncBot_tokens, lookup_insert_ne in Ht by done.
    split_and!; [by right|done..].
Qed.

Lemma sync_all_same configs s :
  (∀ c, c ∈ configs → tokens (mgr s) !! PartnerID c = Some (BotToken c)) → sync_all now configs s = s.
Proof.
  induction configs as [|c configs IH]; intros Hc; [done|]. cbn [sync_all foldl]. unfold syncBot at 2.
  rewrite decide_True by (apply Hc; by left). apply IH. intros c' Hin. apply Hc. by right.
Qed.
End reload.

Lemma elem_of_activeIDs p configs : p ∈ activeIDs configs ↔ ∃ c, c ∈ configs ∧ PartnerID c = p.
Proof. unfold activeIDs. rewrite elem_of_list_to_set, list_elem_of_fmap. naive_solver. Qed.

Lemma gone_lookup (active : gset string) (bs : gmap string nat) p :
  filter (λ kv, kv.1 ∉ active) bs !! p = None ↔ bs !! p = None ∨ p ∈ active.
Proof. rewrite map_lookup_filter_None. destruct (bs !! p) as [b|] eqn:E, (decide (p ∈ active)); naive_solver. Qed.

(** Nothing to remove: nothing changes. *)
Lemma removeInactive_same active s :
  (∀ p, is_Some (bots (mgr s) !! p) → p ∈ active) → removeInactive active s = s.
Proof.
  intros Ha. unfold removeInactive.
  assert (∀ p, filter (λ kv, kv.1 ∉ active) (bots (mgr s)) !! p = None) as Hg.
  { intros p. apply gone_lookup. destruct (bots (mgr s) !! p) eqn:E; [right; apply Ha; by eexists|by left]. }
  apply map_empty in Hg. destruct s as [[wb ws b h t r] hp st wk mk]. cbn in *.
  rewrite Hg, map_to_list_empty, app_nil_r. unfold with_maps. cbn. f_equal. f_equal.
  - apply map_filter_id. intros p x Hp. apply Ha. by eexists.
  - apply map_eq. intros p. rewrite map_lookup_imap. destruct (h !! p); [|done]. cbn.
    rewrite decide_False; [done|]. by intros [? ?].
  - apply map_filter_id. done.
  - apply map_filter_id. done.
Qed.

(** *** Reloads among the other goroutines *)

Lemma run_app es es' s : run (es ++ es') s = s1 ← run es s; run es' s1.
Proof. revert s. induction es as [|e es IH]; intros s; [done|]. cbn [app run]. destruct (step e s); [apply IH|done]. Qed.

Lemma loadAndSync_events now configs s :
  run (reload_events now configs) s = Some (loadAndSync now (Ok configs) s).2.
Proof.
  unfold reload_events. cbn [loadAndSync snd]. rewrite run_app.
  assert (run (ESync now <$> configs) s = Some (sync_all now configs s)) as ->; [|done].
  revert s. induction configs as [|c configs IH]; intros s; [done|]. cbn. by rewrite IH.
Qed.

(** Only the holds of a reload change a token, and ERemove none of an active partner. *)
Lemma step_tokens e s s' p :
  step e s = Some s' → (∀ active, e = ERemove active → p ∈ active) →
  tokens (mgr s') !! p =
    match e with ESync _ c => if decide (PartnerID c = p) then Some (BotToken c) else tokens (mgr s) !! p
               | _ => tokens (mgr s) !! p end.
Proof.
  intros E Ha. destruct e as [now c|active| |i ok|i|i|i|j]; cbn [step] in E.
  1: { injection E as <-. rewrite syncBot_tokens. case_decide as D; [by rewrite <-D, lookup_insert_eq|by rewrite lookup_insert_ne]. }
  1: { injection E as <-. cbn. specialize (Ha _ eq_refl). apply option_eq. intros t. rewrite map_lookup_filter_Some.
       split; [by intros [? _]|]. intros Ht. split; [done|]. apply gone_lookup. by right. }
  1: by injection E as <-.
  5: { destruct (marks s !! j); [|done]. by injection E as <-. }
  all: destruct (workers s !! i) as [w|]; [|done]; cbn in E; unfold worker_step in E.
  1: destruct ok.
  all: destruct (at_ w); try done; injection E as <-; unfold startBot_created, startBot_failed; try done.
  all: destruct (health _ !! _); try done; by destruct (_ <=? _).
Qed.

Lemma NoDup_fmap_eq {A B} (f : A → B) l x y : NoDup (f <$> l) → x ∈ l → y ∈ l → f x = f y → x = y.
Proof.
  induction l as [|a l IH]; [by intros _ ?%not_elem_of_nil|]. rewrite fmap_cons, NoDup_cons. intros [Hn Hd].
  intros [->|Hx]%elem_of_cons [->|Hy]%elem_of_cons E; [done| | |by apply IH].
  - destruct Hn. rewrite E. by apply list_elem_of_fmap_2.
  - destruct Hn. rewrite <-E. by apply list_elem_of_fmap_2.
Qed.

(** Why a goroutine ends. *)
Definition working (p : point) : bool := match p with GaveUp | Gone | Crashed => false | _ => true end.
Lemma ended_worker e s s' i w w' :
  step e s = Some s' → workers s !! i = Some w → workers s' !! i = Some w' →
  is_Some (health (mgr s) !! PartnerID (cfg w)) → working (at_ w) = true → working (at_ w') = false →
  at_ w' = GaveUp ∧ e = ECreate i false ∧
    (∃ h, health (mgr s') !! PartnerID (cfg w) = Some h ∧ Status h = "down" ∧ 10 ≤ Failures h) ∨
  at_ w' = Gone ∧ tokens (mgr s) !! PartnerID (cfg w) ≠ Some (BotToken (cfg w)).
Proof.
  intros E Hi Hi' [h Hh] Hw Hw'. pose proof (lookup_lt_Some _ _ _ Hi) as Hlt.
  assert (∀ ws : list worker, ws !! i = Some w → ws !! i = Some w' → False) as Hsame
    by (intros ws H1 H2; rewrite H1 in H2; injection H2 as <-; congruence).
  assert (∀ j v p ws, workers s !! j = Some v → ws = workers s →
    <[j := {| cfg := cfg v; at_ := p |}]> ws !! i = Some w' → j = i ∧ v = w ∧ at_ w' = p) as Hset.
  { intros j v p ws Hj -> H. destruct (decide (j = i)) as [->|Hne].
    - rewrite list_lookup_insert_eq in H by done. by simplify_eq.
    - rewrite list_lookup_insert_ne in H by done. by destruct (Hsame _ Hi H). }
  destruct e as [now c|active| |j ok|j|j|j|j]; cbn [step] in E.
  - exfalso. injection E as <-. unfold syncBot in Hi'. case_decide; [by apply (Hsame _ Hi)|].
    cbn [workers] in Hi'. rewrite lookup_app_l in Hi' by done. by apply (Hsame _ Hi).
  - exfalso. injection E as <-. by apply (Hsame _ Hi).
  - exfalso. injection E as <-. by apply (Hsame _ Hi).
  - destruct (workers s !! j) as [v|] eqn:Hj; [|done]. cbn in E. unfold worker_step in E.
    destruct ok, (at_ v) eqn:Ev; try done; injection E as <-.
    + exfalso. unfold startBot_created in Hi'. destruct (health (mgr s) !! PartnerID (cfg v)) eqn:Hhv;
        destruct (Hset j v _ _ Hj eq_refl Hi') as (-> & -> & Ep); rewrite Ep in Hw'; [done|congruence].
    + unfold startBot_failed in *. destruct (health (mgr s) !! PartnerID (cfg v)) as [hv|] eqn:Hhv.
      * destruct (Z.leb_spec maxConsecutiveFailures (Failures hv + 1)) as [Hle|Hle];
          destruct (Hset j v _ _ Hj eq_refl Hi') as (-> & -> & Ep); [|by rewrite Ep in Hw'].
        left. split_and!; [done..|]. eexists. cbn [mgr set_worker set_mgr with_maps health]. by rewrite lookup_insert_eq.
      * destruct (Hset j v _ _ Hj eq_refl Hi') as (-> & -> & Ep). congruence.
  - exfalso. destruct (workers s !! j) as [v|] eqn:Hj; [|done]. cbn in E. unfold worker_step in E.
    destruct (at_ v) eqn:Ev; try done; injection E as <-.
    destruct (Hset j v _ _ Hj eq_refl Hi') as (-> & -> & Ep). by rewrite Ep in Hw'.
  - destruct (workers s !! j) as [v|] eqn:Hj; [|done]. cbn in E. unfold worker_step in E.
    destruct (at_ v) eqn:Ev; try done; injection E as <-; destruct (Hset j v _ _ Hj eq_refl Hi') as (-> & -> & Ep); right; rewrite Ep in Hw' |- *.
    + destruct (decide _) as [|D] in Hw' |- *; [done|]. split; [done|]. intros Ht. by destruct D; eexists.
    + destruct (negb _) eqn:En in Hw' |- *; [|done]. split; [done|]. intros Ht. rewrite Ht in En. cbn in En.
      by rewrite String.eqb_refl in En.
  - exfalso. destruct (workers s !! j) as [v|] eqn:Hj; [|done]. cbn in E. unfold worker_step in E.
    destruct (at_ v) eqn:Ev; try done; injection E as <-;
      destruct (Hset j v _ _ Hj eq_refl Hi') as (-> & -> & Ep); by rewrite Ep in Hw'.
  - exfalso. destruct (marks s !! j); [|done]. injection E as <-. by apply (Hsame _ Hi).
Qed.

(** However the bots' goroutines and a Stop interleave with it, a reload tracks
    the tokens of its configuration. *)
Lemma reload_interleaved now configs es s s' :
  NoDup (PartnerID <$> configs) → filter (λ e, by_reload e = true) es = reload_events now configs →
  run es s = Some s' → ∀ c, c ∈ configs → tokens (mgr s') !! PartnerID c = Some (BotToken c).
Proof.
  intros Hd Hes Hr c Hc.
  assert (∀ es s, run es s = Some s' → (∀ active, ERemove active ∈ es → PartnerID c ∈ active) →
    (tokens (mgr s) !! PartnerID c = Some (BotToken c) ∨ ESync now c ∈ es) →
    (∀ n c', ESync n c' ∈ es → PartnerID c' = PartnerID c → c' = c) →
    tokens (mgr s') !! PartnerID c = Some (BotToken c)) as Hg.
  { clear. induction es as [|e es IH]; intros s Hr Ha Ht Hu; cbn [run] in Hr.
    - simplify_eq. destruct Ht as [|H]; [done|by apply not_elem_of_nil in H].
    - destruct (step e s) as [s1|] eqn:E1; [|done]. apply (IH s1 Hr); [intros a Hin; apply Ha; by right| |intros n c' Hin; by apply (Hu n); right].
      pose proof (step_tokens e s s1 (PartnerID c) E1) as Hs. rewrite Hs by (intros a ->; apply Ha; by left).
      destruct Ht as [Ht|[<-|Hin]%elem_of_cons]; [|left; by rewrite decide_True|by right].
      left. destruct e as [n c'| | | | | | |]; try done. case_decide as D; [|done].
      by rewrite (Hu n c' ltac:(by left) D). }
  assert (∀ e, by_reload e = true → e ∈ es ↔ e ∈ reload_events now configs) as Hin.
  { intros e He. rewrite <-Hes, list_elem_of_filter. tauto. }
  apply (Hg es s Hr).
  - intros active H%Hin; [|done]. unfold reload_events in H. rewrite elem_of_app, list_elem_of_fmap, list_elem_of_singleton in H.
    destruct H as [(? & ? & _)|[= ->]]; [done|]. apply elem_of_activeIDs. by exists c.
  - right. apply Hin; [done|]. unfold reload_events. rewrite elem_of_app. left. by apply list_elem_of_fmap_2.
  - intros n c' H%Hin Hp; [|done]. unfold reload_events in H. rewrite elem_of_app, list_elem_of_fmap, list_elem_of_singleton in H.
    destruct H as [(c2 & [= -> ->] & Hc2)|]; [|done]. by eapply NoDup_fmap_eq.
Qed.

(** ** Theorems *)

(** C10: supervision.  In every state the manager reaches, whatever the
    interleaving of reloads, failing and succeeding bot starts, stops and
    timers: no goroutine dereferences a missing health record; a published bot
    was made for the partner it is published under, with that partner's webhook
    address; and for every tracked token there is a goroutine started for that
    partner and token that is at work, or has returned because it gave up.  A
    goroutine gives up only on a failed start, which leaves its partner marked
    down with ten failures or more, and it returns otherwise only when its token
    is not the one tracked for its partner. *)
Theorem supervision baseURL secret s :
  reachable baseURL secret s →
  (∀ i w, workers s !! i = Some w → at_ w ≠ Crashed) ∧
  (∀ p b, bots (mgr s) !! p = Some b →
     ∃ pb, heap s !! b = Some pb ∧ pb_partnerID pb = p ∧ pb_webhookURL pb = TrimRightSlash baseURL +:+ "/" +:+ p) ∧
  (∀ p t, tokens (mgr s) !! p = Some t →
     ∃ i w, workers s !! i = Some w ∧ PartnerID (cfg w) = p ∧ BotToken (cfg w) = t ∧
       (working (at_ w) = true ∨ at_ w = GaveUp)) ∧
  (∀ e s' i w w', step e s = Some s' → workers s !! i = Some w → workers s' !! i = Some w' →
     working (at_ w) = true → working (at_ w') = false →
     at_ w' = GaveUp ∧ e = ECreate i false ∧
       (∃ h, health (mgr s') !! PartnerID (cfg w) = Some h ∧ Status h = "down" ∧ 10 ≤ Failures h) ∨
     at_ w' = Gone ∧ tokens (mgr s) !! PartnerID (cfg w) ≠ Some (BotToken (cfg w))).
Proof.
  intros Hr. pose proof (manager_reachable_inv _ _ _ Hr) as [Hh Hb Ht]. split_and!.
  - intros i w Hi. by apply (Hh i w Hi).
  - intros p b Hp. rewrite <-(reachable_base _ _ _ Hr). by apply Hb.
  - intros p t Hp. destruct (Ht p t Hp) as (i & w & Hi & E1 & E2 & E3). exists i, w. split_and!; [done..|].
    destruct (Hh i w Hi) as [_ Hc]. destruct (at_ w); by auto.
  - intros e s' i w w' E Hi Hi' Hw Hw'. destruct (Hh i w Hi) as [Hs _]. by eapply ended_worker.
Qed.

(** C30: webhooks.  An update posted for a partner is handed to a bot only if that
    bot was made for this very partner and is marked ready; every other request,
    and one whose handler panics before it answers, is answered with 200. *)
Theorem webhook_routing baseURL secret s serve path :
  reachable baseURL secret s →
  match webhook_bot (mgr s) path with
  | Some b =>
      (∃ pb, heap s !! b = Some pb ∧ pb_partnerID pb = webhook_partner path) ∧
      ready (mgr s) !! webhook_partner path = Some true ∧
      (serve b = ([], true) → handleWebhook serve (mgr s) path = [200]) ∧
      (∀ l, serve b = (l, false) → handleWebhook serve (mgr s) path = l)
  | None => handleWebhook serve (mgr s) path = [200]
  end.
Proof.
  intros Hr. pose proof (inv_bots _ (manager_reachable_inv _ _ _ Hr)) as Hb.
  destruct (webhook_bot (mgr s) path) as [b|] eqn:Ew.
  - unfold handleWebhook. rewrite Ew. unfold webhook_bot in Ew.
    destruct (_ || _); [done|]. destruct (bots (mgr s) !! _) as [b'|] eqn:Eb; [|done].
    destruct (ready (mgr s) !! _) as [[]|] eqn:Er; simplify_eq/=.
    destruct (Hb _ _ Eb) as (pb & Hpb & Hp & _). split_and!; [by exists pb|done|by intros ->|by intros l ->].
  - unfold handleWebhook. by rewrite Ew.
Qed.

(** C23: reloading.  A reload that reads a configuration with one entry per
    partner, uninterrupted, tracks each entry's token, keeps exactly the bots of
    the active partners, untracks the partners whose bots it removes, and stops
    only bots that are removed or whose token changed; a reload of the
    configuration in force changes nothing. *)
Theorem reload now configs s :
  NoDup (PartnerID <$> configs) →
  let '(err, s') := loadAndSync now (Ok configs) s in
  err = None ∧
  (∀ c, c ∈ configs → tokens (mgr s') !! PartnerID c = Some (BotToken c)) ∧
  (∀ p b, bots (mgr s') !! p = Some b ↔ bots (mgr s) !! p = Some b ∧ p ∈ activeIDs configs) ∧
  (∀ p, is_Some (bots (mgr s) !! p) → p ∉ activeIDs configs → tokens (mgr s') !! p = None) ∧
  (∃ ex, stops s' = stops s ++ ex ∧ ∀ b, b ∈ ex → ∃ p, bots (mgr s) !! p = Some b ∧
     (p ∉ activeIDs configs ∨
      ∃ c t, c ∈ configs ∧ PartnerID c = p ∧ tokens (mgr s) !! p = Some t ∧ t ≠ BotToken c)) ∧
  ((∀ c, c ∈ configs → tokens (mgr s) !! PartnerID c = Some (BotToken c)) →
   (∀ p, is_Some (bots (mgr s) !! p) → p ∈ activeIDs configs) → s' = s).
Proof.
  intros Hd. cbn [loadAndSync]. set (s1 := sync_all now configs s).
  pose proof (sync_all_bots now configs s) as Eb. fold s1 in Eb.
  split_and!; [done|..].
  - intros c Hc. cbn. rewrite map_lookup_filter_Some. split; [by apply sync_all_tokens|].
    apply gone_lookup. right. apply elem_of_activeIDs. by exists c.
  - intros p b. cbn. by rewrite map_lookup_filter_Some, Eb.
  - intros p [b Hp] Ha. cbn. rewrite map_lookup_filter_None. right. intros t _ Hg. cbn in Hg.
    rewrite Eb in Hg. apply gone_lookup in Hg as [Hg|Hg]; [by rewrite Hp in Hg|done].
  - destruct (sync_all_stops now configs s Hd) as (ex & E & Hex). fold s1 in E. cbn. rewrite Eb, E.
    eexists. rewrite <-app_assoc. split; [done|]. intros b [Hb|Hb]%elem_of_app.
    + destruct (Hex b Hb) as (c & t & Hc & Hbot & Ht & Hne). exists (PartnerID c). split; [done|]. right. by exists c, t.
    + apply list_elem_of_fmap in Hb as ([p b'] & -> & Hp). apply elem_of_map_to_list, map_lookup_filter_Some in Hp.
      exists p. split; [by apply Hp|]. left. by apply Hp.
  - intros Hc Ha. unfold s1. rewrite (sync_all_same now configs s Hc). by apply removeInactive_same.
Qed.

(** *** Start *)

Fixpoint doubling (n : nat) (backoff : Duration) : list Duration :=
  match n with O => [] | S n => backoff :: doubling n (double maxBackoff backoff) end.
Lemma start_loop_run {W} (load : W → option error * W) cancelled ctx_err k l a b ws w :
  (k ≤ l)%nat →
  (∀ i, (i < k)%nat → (load (Nat.iter i (λ w, (load w).2) w)).1 ≠ None ∧ cancelled (a + i)%nat = false) →
  start_loop load cancelled ctx_err l a b ws w =
  start_loop load cancelled ctx_err (l - k) (a + k) (Nat.iter k (double maxBackoff) b) (ws ++ doubling k b)
    (Nat.iter k (λ w, (load w).2) w).
Proof.
  revert l a b ws w. induction k as [|k IH]; intros l a b ws w Hl Hf.
  - by rewrite Nat.sub_0_r, Nat.add_0_r, app_nil_r.
  - destruct l as [|l]; [lia|]. destruct (Hf 0%nat ltac:(lia)) as [H0 Hc]. rewrite Nat.add_0_r in Hc.
    cbn [start_loop]. simpl in H0. destruct (load w) as [[e|] w1] eqn:El; [|done]. rewrite Hc. rewrite IH; [|lia|].
    + rewrite <-app_assoc. cbn [app doubling]. rewrite !Nat.iter_succ_r, El, Nat.add_succ_comm. done.
    + intros i Hi. destruct (Hf (S i) ltac:(lia)) as [H1 H2]. rewrite Nat.iter_succ_r, El in H1.
      split; [done|]. by rewrite Nat.add_succ_comm.
Qed.

(** Start terminates.  If the first k of its ten attempts to load fail and
    the next one succeeds, it starts after the waits 2, 4, 8, 16, 30, ...
    seconds, one per failure; if all ten fail it returns an error, after 210
    seconds in all; a cancelled wait ends it at once. *)
Theorem Start_terminates {W} (load : W → option error * W) cancelled ctx_err w k :
  let nth i := Nat.iter i (λ w, (load w).2) w in
  let schedule := [2 * Second; 4 * Second; 8 * Second; 16 * Second] ++ replicate 6 (30 * Second) in
  (k ≤ 10)%nat → (∀ i, (i < k)%nat → (load (nth i)).1 ≠ None ∧ cancelled (S i) = false) →
  ((k < 10)%nat → (load (nth k)).1 = None →
     Start load cancelled ctx_err w = (Started, take k schedule, nth (S k))) ∧
  ((k < 10)%nat → (load (nth k)).1 ≠ None → cancelled (S k) = true →
     Start load cancelled ctx_err w = (Cancelled ctx_err, take k schedule, nth (S k))) ∧
  (k = 10%nat → ∃ err, Start load cancelled ctx_err w = (Failed err, schedule, nth 10%nat) ∧
     foldr Z.add 0 schedule = 210 * Second).
Proof.
  intros nth schedule Hk Hf.
  assert (Start load cancelled ctx_err w =
    start_loop load cancelled ctx_err (10 - k) (1 + k) (Nat.iter k (double maxBackoff) (2 * Second)) (take k schedule) (nth k)) as ->.
  { unfold Start, maxRetries. rewrite (start_loop_run _ _ _ k) by done.
    replace ([] ++ doubling k (2 * Second)) with (take k schedule); [done|].
    clear Hf. by repeat (destruct k as [|k]; [done|]); lia. }
  split_and!.
  - intros Hlt H0. replace (10 - k)%nat with (S (9 - k)) by lia. cbn [start_loop].
    change (nth (S k)) with ((load (nth k)).2). by destruct (load (nth k)) as [[e|] w1].
  - intros Hlt H0 Hc. replace (10 - k)%nat with (S (9 - k)) by lia. cbn [start_loop].
    change (nth (S k)) with ((load (nth k)).2). destruct (load (nth k)) as [[e|] w1]; [|done].
    change (1 + k)%nat with (S k). by rewrite Hc.
  - intros ->. by eexists.
Qed.

(** *** Giving up *)

(** A failed attempt and the sleep after it. *)
Definition failing (i : nat) : list event := [ECreate i false; EWake i].

Section retries.
Variables (i : nat) (c : PartnerBotConfig).
Let id := PartnerID c.
(** The goroutine is about to try, after some failures. *)
Definition trying (b : Duration) (f : Z) (s : System) : Prop :=
  workers s !! i = Some {| cfg := c; at_ := Creating b |} ∧ ∃ h, health (mgr s) !! id = Some h ∧ Failures h = f.

Lemma fail_round b f s :
  trying b f s → f + 1 < 10 →
  ∃ s', run (failing i) s = Some s' ∧ trying (double maxBackoff b) (f + 1) s' ∧
    bots (mgr s') = bots (mgr s) ∧ tokens (mgr s') = tokens (mgr s).
Proof.
  intros (Hi & h & Hh & <-) Hf. pose proof (lookup_lt_Some _ _ _ Hi) as Hlt. unfold failing. cbn [run step]. rewrite Hi. cbn [mbind option_bind].
  cbn [worker_step at_]. unfold startBot_failed. cbn [cfg]. fold id. rewrite Hh. unfold maxConsecutiveFailures.
  destruct (Z.leb_spec 10 (Failures h + 1)); [lia|]. cbn [mbind option_bind set_worker workers set_mgr].
  rewrite list_lookup_insert_eq by done. cbn [worker_step at_]. eexists. split; [done|].
  split; [|done]. split.
  - cbn [workers set_worker]. rewrite list_lookup_insert_eq; [done|]. by rewrite length_insert.
  - eexists. cbn [mgr set_worker set_mgr health with_maps]. rewrite lookup_insert_eq. done.
Qed.

Lemma fail_rounds n b f s :
  trying b f s → f + Z.of_nat n < 10 →
  ∃ s', run (concat (replicate n (failing i))) s = Some s' ∧ trying (Nat.iter n (double maxBackoff) b) (f + Z.of_nat n) s' ∧
    bots (mgr s') = bots (mgr s) ∧ tokens (mgr s') = tokens (mgr s).
Proof.
  revert b f s. induction n as [|n IH]; intros b f s Ht Hf.
  - exists s. by rewrite Z.add_0_r.
  - destruct (fail_round b f s Ht) as (s1 & E1 & Ht1 & Hb1 & Hk1); [lia|].
    destruct (IH _ _ s1 Ht1) as (s2 & E2 & Ht2 & Hb2 & Hk2); [lia|].
    exists s2. cbn [replicate concat]. rewrite run_app, E1. cbn [mbind option_bind]. rewrite E2, Nat.iter_succ_r, Hb2, Hk2.
    split_and!; try done. by replace (f + Z.of_nat (S n)) with (f + 1 + Z.of_nat n) by lia.
Qed.
End retries.

(** startBot gives up.  A goroutine whose every attempt to create the bot
    fails stops retrying: with f failures counted it makes 10 - f attempts, with
    the doubling sleep in between, marks the partner down and ends; the bots and
    the tokens are as before, so a reload of the same configuration starts no
    other goroutine. *)
Theorem startBot_gives_up i c b f s now :
  trying i c b f s → 0 ≤ f < 10 →
  ∃ s' h, run (concat (replicate (Z.to_nat (9 - f)) (failing i)) ++ [ECreate i false]) s = Some s' ∧
    workers s' !! i = Some {| cfg := c; at_ := GaveUp |} ∧
    health (mgr s') !! PartnerID c = Some h ∧ Status h = "down" ∧ Failures h = 10 ∧
    bots (mgr s') = bots (mgr s) ∧ tokens (mgr s') = tokens (mgr s) ∧
    (tokens (mgr s) !! PartnerID c = Some (BotToken c) → syncBot now c s' = s').
Proof.
  intros Ht Hf. destruct (fail_rounds i c (Z.to_nat (9 - f)) b f s Ht) as (s1 & E & (Hi & h & Hh & Hfl) & Hb & Hk); [lia|].
  replace (f + Z.of_nat (Z.to_nat (9 - f))) with 9 in Hfl by lia.
  rewrite run_app, E. cbn [mbind option_bind run step]. rewrite Hi. cbn [mbind option_bind worker_step at_].
  unfold startBot_failed. cbn [cfg]. rewrite Hh, Hfl. unfold maxConsecutiveFailures. change (10 <=? 9 + 1) with true. cbn iota.
  eexists _, _. split; [done|]. cbn [workers set_worker set_mgr mgr health with_maps bots tokens].
  rewrite list_lookup_insert_eq by (by eapply lookup_lt_Some). rewrite lookup_insert_eq.
  split_and!; try done. intros Hsame. unfold syncBot. rewrite decide_True; [done|].
  cbn [mgr set_worker set_mgr with_maps tokens]. by rewrite Hk.
Qed.

(** ** What the manager does not prevent *)

Definition old_cfg : PartnerBotConfig := {| PartnerID := "p1"; PartnerCode := "P"; BotToken := "old" |}.
Definition new_cfg : PartnerBotConfig := {| PartnerID := "p1"; PartnerCode := "P"; BotToken := "new" |}.
Definition next_cfg : PartnerBotConfig := {| PartnerID := "p1"; PartnerCode := "P"; BotToken := "next" |}.
Definition fresh : System := initial "https://hook/" "secret".

(** Stop keeps the tokens: the stopped bot's goroutine starts it again. *)
Lemma stopped_bot_restarts :
  (λ s, (stops s, bots (mgr s) !! "p1")) <$>
    run [ESync 0 old_cfg; ECreate 0 true; EStop; EReturn 0; ECheck 0; ECheck 0; EWake 0; ECreate 0 true] fresh
  = Some ([0%nat], Some 1%nat).
Proof. by vm_compute. Qed.
(** A goroutine retrying with the old token replaces the new token's bot. *)
Lemma stale_goroutine_wins :
  (λ s, (tokens (mgr s) !! "p1", b ← bots (mgr s) !! "p1"; pb_token <$> heap s !! b)) <$>
    run [ESync 0 old_cfg; ECreate 0 false; ESync 1 new_cfg; ECreate 1 true; EWake 0; ECreate 0 true] fresh
  = Some (Some "new", Some "old").
Proof. by vm_compute. Qed.
(** A partner removed before its first bot started stays tracked. *)
Lemma removed_partner_tracked :
  (λ s, tokens (mgr s) !! "p1") <$> run [ESync 0 old_cfg; ECreate 0 false; ERemove ∅] fresh = Some (Some "old").
Proof. by vm_compute. Qed.
(** Two token changes before the new bot starts stop the old bot twice. *)
Lemma bot_stopped_twice :
  stops <$> run [ESync 0 old_cfg; ECreate 0 true; ESync 1 new_cfg; ECreate 1 false; ESync 2 next_cfg] fresh
  = Some [0%nat; 0%nat].
Proof. by vm_compute. Qed.
(** The old bot's timer marks the new bot ready while its own is pending. *)
Lemma stale_ready_mark :
  (λ s, (ready (mgr s) !! "p1", marks s)) <$>
    run [ESync 0 old_cfg; ECreate 0 true; ESync 1 new_cfg; ECreate 1 true; EReady 0] fresh
  = Some (Some true, ["p1"]).
Proof. by vm_compute. Qed.
(** The preview cuts a character in two. *)
Lemma preview_cuts_rune :
  let s := of_bytes (replicate 199 97 ++ encode_rune 233) in
  runes s = replicate 199 97 ++ [233] ∧ runes (preview s) = replicate 199 97 ++ [RuneError; 46; 46; 46].
Proof. by vm_compute. Qed.

(** ** Witnesses *)

Lemma reachable_run es s s' baseURL secret :
  reachable baseURL secret s → run es s = Some s' → reachable baseURL secret s'.
Proof.
  revert s. induction es as [|e es IH]; intros s Hr E; [by simplify_eq/=|]. cbn [run] in E.
  destruct (step e s) as [s1|] eqn:Es; [|done]. apply (IH s1); [by eapply reach_step|done].
Qed.
Definition served : System :=
  default fresh (run [ESync 0 old_cfg; ECreate 0 true; EReady 0] fresh).
Lemma served_reachable : reachable "https://hook/" "secret" served.
Proof. apply (reachable_run [ESync 0 old_cfg; ECreate 0 true; EReady 0] fresh); [constructor|reflexivity]. Qed.

Lemma supervision_witness :
  ∃ i w, workers served !! i = Some w ∧ PartnerID (cfg w) = "p1" ∧ BotToken (cfg w) = "old" ∧ (working (at_ w) = true ∨ at_ w = GaveUp).
Proof. apply (supervision "https://hook/" "secret" served served_reachable). reflexivity. Defined.
Lemma webhook_routing_witness :
  ∃ pb, heap served !! 0%nat = Some pb ∧ pb_partnerID pb = "p1".
Proof. exact (proj1 (webhook_routing "https://hook/" "secret" served (λ _, ([], false)) "/webhook/p1" served_reachable)). Defined.
Lemma reload_witness : tokens (mgr (loadAndSync 5 (Ok [new_cfg]) served).2) !! "p1" = Some "new".
Proof.
  pose proof (reload 5 [new_cfg] served ltac:(apply NoDup_singleton)) as Hr.
  destruct (loadAndSync _ _ _) as [err s']. destruct Hr as (_ & Ht & _). apply (Ht new_cfg). by left.
Defined.
Lemma Start_terminates_witness :
  Start (λ n : nat, (if decide (n < 2)%nat then Some Canceled else None, S n)) (λ _, false) Canceled 0%nat
  = (Started, [2 * Second; 4 * Second], 3%nat).
Proof.
  apply (Start_terminates (λ n : nat, (if decide (n < 2)%nat then Some Canceled else None, S n)) (λ _, false) Canceled 0%nat 2);
    [lia| |lia|done].
  intros i Hi. destruct i as [|[|i]]; [done..|lia].
Defined.
Lemma startBot_gives_up_witness :
  ∃ s' h, run (concat (replicate 9 (failing 0)) ++ [ECreate 0 false]) (syncBot 0 old_cfg fresh) = Some s' ∧
    health (mgr s') !! "p1" = Some h ∧ Status h = "down".
Proof.
  assert (trying 0 old_cfg Second 0 (syncBot 0 old_cfg fresh)) as Ht by (split; [reflexivity|by eexists]).
  destruct (startBot_gives_up 0 old_cfg Second 0 (syncBot 0 old_cfg fresh) 1 Ht ltac:(lia)) as (s' & h & E & _ & Hh & Hd & _).
  exists s', h. split; [exact E|]. split; [exact Hh|exact Hd].
Defined.

(** ** module.go: the reload interval *)

(** time.ParseDuration yields zero with its error; NewTicker panics on an
    interval that is not positive. *)
Definition reload_interval (parsed : result error Duration) : Duration :=
  let reloadInterval := match parsed with Ok d => d | Err _ => 0 end in
  if reloadInterval =? 0 then 5 * 60 * Second else reloadInterval.
(** reloadLoop on the ticks that arrive before the context ends, each with the
    identity service's reply; a failed reload is only logged. *)
Definition reloadLoop (interval : Duration) (ticks : list (Time * result error (list PartnerBotConfig))) (s : System)
    : outcome System :=
  if interval <=? 0 then Panic "non-positive interval for NewTicker"
  else Return (foldl (λ s tick, (loadAndSync tick.1 tick.2 s).2) s ticks).

Lemma negative_interval_panics ticks s :
  reloadLoop (reload_interval (Ok (-5 * Second))) ticks s = Panic "non-positive interval for NewTicker".
Proof. done. Qed.
