(* ===== verification/BotModule.v ===== *)
(** * The bot module (communication/telegram/bot/module.go)

    Start builds the parts in order, over the answers of Redis and of the message
    catalogues and a broker of package bus; Stop ends them.  The support events
    reach the subscriber's handlers through the broker of bus/nats. *)

From S2P Require Import Prelude GoString GoErrors Bus TelegramBot BotFormatter BotGateway BotSupport BotHandlers BotManager.
From stdpp Require Import base list gmap strings.
From Stdlib Require Import ZArith Lia.
Open Scope Z_scope.

(** What Start and Stop do to the outside. *)
Inductive effect :=
| RedisOpen (addr password : string) (db : Z) | RedisClose
| Subscribed (consumer : string) | Unsubscribed (consumer : string)
| ManagerStarted (interval : Duration) | ManagerStopped.

(** The interval is the text, with what time.ParseDuration reads in it. *)
Record Config := {
  GatewayURL : string; IdentityServiceURL : string; InternalServiceKey : string; WebhookBaseURL : string;
  WebhookSecret : string; BotReloadInterval : string * result error Duration; BotRateLimitPerMin : Z;
  RedisHost : string; RedisPort : Z; RedisPassword : string; RedisDB : Z;
  HasIngestor : bool; WriteConv : bool; PartnerName : option (string → string)
}.
(** The module with the parts it was built from. *)
Record Module_ := {
  manager : BotManager; handlers : HandlerSet; rateLimiter : Limiter.RateLimiter;
  subscriber : option (list string); interval : Duration
}.

Section module.
Variable cfg : Config.
Variable ping : option error.                       (* rdb.Ping *)
(** formatter.NewMessages: the catalogues, or the error of loading one. *)
Variable catalogues : result error (string → string → vars → result error string).
(** The identity service at a URL with a key; uuid.New; telebot. *)
Variable identity_at : string → string → Auth.Identity.
Variable uuid : nat → string.
Variable telegram : list action → action → option error.
(** The broker's Subscribe for a consumer; without a broker there is none. *)
Variable broker : option (string → result error string).

Definition NewMessages : result error Messages :=
  match catalogues with
  | Err err => Err err
  | Ok localize => Ok {| Localize := localize; partnerName := PartnerName cfg |}
  end.
(** NewSubscriber and its Start; an error is only logged. *)
Definition start_subscriber : option (list string) * list effect :=
  match broker with
  | None => (None, [])
  | Some Subscribe =>
      let subs := (Subscriber.Start Subscribe []).2 in
      (Some subs, Subscribed <$> subs)
  end.
Definition Start : result error Module_ * list effect :=
  let opened := RedisOpen (RedisHost cfg +:+ ":" +:+ fmt_d (RedisPort cfg)) (RedisPassword cfg) (RedisDB cfg) in
  match ping with
  | Some err => (Err (EWrap "telegram bot redis ping: " "" err), [opened])
  | None =>
      match NewMessages with
      | Err err => (Err err, [opened; RedisClose])
      | Ok msgFormatter =>
          let handlerSet := {|
            BotHandlers.GatewayURL := GatewayURL cfg; Formatter := msgFormatter; HasRegistry := true;
            Ingest := WriteConv cfg && HasIngestor cfg;
            identity := identity_at (IdentityServiceURL cfg) (InternalServiceKey cfg);
            BotHandlers.uuid := uuid; BotHandlers.telegram := telegram |} in
          let reloadInterval := reload_interval (BotReloadInterval cfg).2 in
          let m := NewBotManager (WebhookBaseURL cfg) (WebhookSecret cfg) in
          let '(sub, effects) := start_subscriber in
          (Ok {| manager := m; handlers := handlerSet; rateLimiter := Limiter.NewRateLimiter (BotRateLimitPerMin cfg);
                 subscriber := sub; interval := reloadInterval |},
           [opened] ++ effects ++ [ManagerStarted reloadInterval])
      end
  end.
End module.
Definition Stop (m : Module_) : list effect :=
  match subscriber m with
  | Some subs => Subscriber.Stop (λ sub es, es ++ [Unsubscribed sub]) subs []
  | None => []
  end ++ [ManagerStopped; RedisClose].

(** ** Start and Stop *)

Lemma Stop_fold subs es :
  Subscriber.Stop (λ sub es, es ++ [Unsubscribed sub]) subs es = es ++ (Unsubscribed <$> subs).
Proof.
  revert es. induction subs as [|s subs IH]; intros es; [by rewrite app_nil_r|].
  unfold Subscriber.Stop in *. cbn [foldl]. rewrite IH, <-app_assoc. done.
Qed.

(** What a started module holds is what Stop gives back, each once: the
    subscriptions that were made, the manager and the Redis client.  The module
    starts with whatever subscriptions succeeded; its interval is positive unless
    a negative one was configured, its limit always is, and conversations are
    recorded only when that is asked for and an ingestor is given. *)
Theorem module_stop_releases cfg ping cat ident uuid tele broker m es :
  Start cfg ping cat ident uuid tele broker = (Ok m, es) →
  ∃ subs,
    es = [RedisOpen (RedisHost cfg +:+ ":" +:+ fmt_d (RedisPort cfg)) (RedisPassword cfg) (RedisDB cfg)]
           ++ (Subscribed <$> subs) ++ [ManagerStarted (interval m)] ∧
    Stop m = (Unsubscribed <$> subs) ++ [ManagerStopped; RedisClose] ∧
    (∀ d, (BotReloadInterval cfg).2 = Ok d → 0 ≤ d → 0 < interval m) ∧
    0 < Limiter.maxPerMin (rateLimiter m) ∧
    (Ingest (handlers m) = true ↔ WriteConv cfg = true ∧ HasIngestor cfg = true).
Proof.
  unfold Start. destruct ping; [done|]. destruct (NewMessages cfg cat); [|done].
  destruct (start_subscriber broker) as [sub effects] eqn:Es. intros [= <- <-].
  cbn [interval rateLimiter handlers Ingest Limiter.maxPerMin Limiter.NewRateLimiter].
  assert (∀ d, (BotReloadInterval cfg).2 = Ok d → 0 ≤ d → 0 < reload_interval (BotReloadInterval cfg).2) as Hi.
  { intros d -> Hd. unfold reload_interval, Second. case_match; zbool; lia. }
  assert (0 < (if BotRateLimitPerMin cfg <=? 0 then 20 else BotRateLimitPerMin cfg)) by (case_match; zbool; lia).
  unfold start_subscriber in Es. destruct broker as [Subscribe|]; injection Es as <- <-.
  - eexists. split_and!; [done| |done|done|apply andb_true_iff]. unfold Stop. cbn [subscriber]. by rewrite Stop_fold.
  - exists []. split_and!; try done. apply andb_true_iff.
Qed.

(** When Redis does not answer, the client is not closed; when a catalogue is
    missing it is. *)
Lemma redis_leaked_on_ping cfg err cat ident uuid tele broker :
  RedisClose ∉ (Start cfg (Some err) cat ident uuid tele broker).2.
Proof. cbn. set_solver. Qed.

(** ** Support events over NATS *)

Section events.
Context `{RedisScan} `{BotSender} `{Nats}.
Variable now : Time.
Variable decode : list Z → result error SupportTicketEvent.

Definition on_ticket (m : Msg) (w : rstore * chats) : option error * (rstore * chats) :=
  Subscriber.handleTicketCreated now (decode (msg_data m)) w.

Lemma on_ticket_nil m w : (on_ticket m w).1 = None.
Proof. unfold on_ticket, Subscriber.handleTicketCreated. repeat case_match; done. Qed.

(** Every ticket event is acknowledged once, with nothing in the log, whatever
    became of it: one that could not be decoded, or whose notification failed, is
    not delivered again. *)
Theorem ticket_events_acked b m w nw :
  let '(w', nw') := deliver on_ticket b m (w, nw) in
  w' = (on_ticket m w).2 ∧ calls nw' = calls nw ++ [Ack (msg_id m)] ∧ logs nw' = logs nw.
Proof.
  pose proof (delivery_answered on_ticket b m w nw) as Hd. pose proof (on_ticket_nil m w) as Hn.
  destruct (deliver _ _ _ _) as [w' nw']. rewrite Hn in Hd. cbn in Hd. by rewrite app_nil_r in Hd.
Qed.
End events.
